(* ===== verification/_CoqProject ===== *)
-Q . S2P
Prelude.v
GoStd.v
TextFacts.v
Config.v
Paths.v
Query.v
Entities.v
Json.v
Services.v
RedisFacts.v
Reference.v
RedisClient.v
ClientFacts.v
SlidingWindow.v
Mq.v
Topology.v
Retry.v
TopologyFacts.v
DbFacts.v
CachedValue.v
Http.v
Frames.v
Outbox.v
Video.v
VideoCaches.v
VideoPublish.v
Like.v
LikeFacts.v
LikeRaces.v
RateLimit.v
Account.v
Upload.v
Sessions.v
UploadFacts.v
Comment.v
CommentFacts.v
Social.v
SocialFacts.v
Notification.v
NotificationFacts.v
Hub.v
HubFacts.v
Stream.v
StreamFacts.v
Feed.v
FeedFacts.v
HotList.v
Following.v
Message.v
Profile.v
Router.v
Boot.v
RouterFacts.v
Pipeline.v
Workers.v
ApiServer.v
Shutdown.v
System.v
