(* ===== verification/Prelude.v ===== *)
(** GoVideo: a verification development of a short-video service in Go.

    * The program

    Two programs share a MySQL database, a Redis server and a RabbitMQ broker.
    The API server (cmd/main.go) answers HTTP requests: accounts, videos, likes,
    comments, follows, messages, feeds, notifications.  The workers
    (cmd/worker/main.go) consume the queues that the API fills and poll the
    outbox.  A request that likes, comments or follows is written by a worker
    when RabbitMQ takes its event, and by the request itself when it does not.
    Redis caches rows, pages and tokens, keeps the timeline and the popularity
    windows, holds the locks and the rate limits, and carries notifications to
    the API servers, which stream them to the connected clients.

    * How it is modelled

    A function of the program is a Definition of the same name in the state
    monad [ST W] below (the state [W] is everything outside of the process) with
    Go's pair of a value and an error as a [result]; [_ <-? m ;; k] is the check
    [if err != nil { return err }].  [runs m w Q] says that the run of [m] from
    [w] answers and ends as [Q] says.  Every definition can be computed.

    The services are classes of operations (Services.v), each with a class of
    the laws that the code relies on: a statement or transaction of MySQL is
    applied to the tables at once or fails and leaves them, and compares texts
    by the weights of a collation that is a parameter too; a Redis command
    likewise but may have been executed when its error arrives, the clock does
    not go back.  A service that is down may fail any call ([Up]); most theorems
    are about worlds in which any of them may be.  Reference.v implements the
    services in memory ([RefW]) and proves the laws of it; the witnesses run
    there.  A component with services of its own (disk and bucket, Pub/Sub,
    broker) is run on [RefW] beside a state for them.

    * Files, in order; "f.go" is under src/internal unless a path is given

    The ground.
    - Prelude: this header, errors and results, [ST], [runs], tactics, lists.
    - GoStd: what is used of the Go library (decimals, strings, hex, time,
      machine integers).  TextFacts: strings.TrimSpace.  Paths: path and
      filepath (Join, Ext, Clean).
    - Config: config/loadconfig.go.
    - Query: what ORDER BY and LIMIT promise.  Entities: the entity.go files and
      db.AutoMigrate, the database as a record of tables.  Json: documents.
    - Services: MySQL, Redis, RabbitMQ, go-cache, singleflight, clock, random
      source; util.RandHex.  RedisFacts: the keyspace.  Reference: [RefW].
    - DbFacts: statements and tables; the invariant [db_ok] (keyed, unique).
    - Frames: [within R m], what a program leaves alone whatever happens, with
      rules that follow the program.
    - CachedValue: a value cached in Redis behind a lock, for video details and
      feed pages.
    - Http: apierror/errors.go and what the handlers share.

    Redis and RabbitMQ.
    - RedisClient: middleware/redis (redis.go, cache.go, zset.go); ClientFacts.
      SlidingWindow: the rate-limit script.  RateLimit: middleware/ratelimit.
    - Mq: the events and publishers of middleware/rabbitmq.  Topology and
      TopologyFacts: rabbit_mq.go, dlx.go, notification_mq.go, and what the two
      programs declare when they start.  Retry: worker/retry.go.

    The components, most with a file of theorems (..Facts) behind them.
    - Video, VideoCaches, VideoPublish: api/video, worker/popularity_worker.go,
      worker/timeline_worker.go.  Outbox: worker/outbox_worker.go.
    - Like, Comment, Social: api/like, api/comment, api/social and their workers.
      LikeRaces: the statements of the like programs as a transition system.
    - Account, Sessions: auth/jwt.go, api/account, middleware/jwt.
    - Upload: the upload handlers of api/video and api/account, middleware/cos.
    - Notification: worker/notification_worker.go, notification_subscriber.go
      and the database handlers of api/notification/handler.go; Hub: its SSEHub
      with slices and channels on a heap; Stream: its SSEHandler.
    - Feed, HotList, Following: api/feed.  Message: api/message.  Profile: api/profile.

    The whole.
    - Router, RouterFacts: http/router.go, every route with its middlewares.
    - Boot: cmd/main.go, cmd/worker/main.go, db/db.go, observability/pprof.go.
    - Pipeline: an event from the queues to its effects.
    - Workers: the Run of every worker, and the worker process to its end;
      Shutdown: what it closes.
    - ApiServer: the API process, its requests, streams and notifications.
    - System: requests, deliveries, polls and channel messages in any order.

    * What the theorems show (the manifest lists them in order of importance)

    - The system: the schema is an invariant (System.schema_invariant); an event
      delivered at least once to each of its queues takes effect exactly once,
      in the tables and as a notification (Pipeline.event_exactly_once); a
      handler runs only for the account that its request was admitted for, and
      nothing is written on behalf of nobody (RouterFacts); the server starts
      exactly when it should (Boot).
    - Consistency: counters agree with likes, and in every interleaving never
      fall behind them (LikeRaces); queued and direct writes agree,
      workers are idempotent, publishing is atomic (LikeFacts, CommentFacts,
      SocialFacts, VideoPublish, Profile).
    - The outbox: a transition system of any number of workers, crashes
      included; pollOnce refines it; delivered, at most once while no claim
      expires, live, bounded (Outbox).
    - Queues: attempts are bounded and how retries multiply (Retry); the worker
      process settles every delivery until its first worker returns (Workers); routing and
      declarations in every order of starts (TopologyFacts).
    - Caches are transparent: details, rows by id, the following page, tokens
      (VideoCaches, FeedFacts, Following, Sessions); JSON round trips.
    - The hot list: its pages follow one ranking of the last hour, whatever
      others like in between (HotList).
    - Rate limits: the script against a reference that forgets nothing, and the
      bound for a client (SlidingWindow, RateLimit).
    - Sessions: login grants one session, logout ends it, the stores agree.
    - The event stream: the registry and its panics (HubFacts, StreamFacts); a
      notification reaches every open stream of its recipient, in every process
      that hears it (ApiServer).
    - Uploads: what is stored, answered and cleaned up (UploadFacts).
    Examples show defects by running them (LikeFacts.like_worker_drift,
    Sessions.Logout_race_keeps_session, Sessions.RefreshToken_takes_over,
    HubFacts.Push_races and others).

    * Fuel and bounds

    Loops are structural but for these.  [ListLatest] calls itself and takes
    fuel: 2 is enough with Redis up (FeedFacts.ListLatest_returns), and no fuel
    is when Redis answers reads and refuses writes (ListLatest_spins).
    wait_cache and await_page poll five times, connectWithRetry tries ten times,
    as the code does.  consumeWithRetry, pollOnce's ticker, the worker process
    and the loops of
    SSEHandler and of the subscriber run over the deliveries, ticks and cases
    that happen, as a list.  ids are uint (64 bits), counters int64; where the
    code converts, the range is a hypothesis or is checked.  The members that
    the rate-limit script writes are unique up to 10^14, where Lua stops to
    print integers in full.

    * Not modelled, and why

    - The text of SQL, JSON and Lua: a statement is its effect on the tables, a
      document is a tree, a script is its effect on the keyspace.
    - gorm, go-redis, amqp091, COS, golang-jwt, bcrypt, the YAML parser,
      url.Parse, regexp: parameters with laws.
    - A transaction is atomic at one instant; other isolation levels are not
      distinguished.  Requests of one process interleave at the granularity of
      the theorems that say so (Outbox, Retry, Hub, Stream, RateLimit, Sessions,
      LikeRaces);
      elsewhere a request runs alone.
    - Timeouts and cancellation of contexts appear as a service that fails.
    - The route GET /notification/stream is ApiServer's, beside Router's calls.
    - Logging, constructors that only fill a struct.  A signal is its effect:
      the context of the workers is done.
    - The web front end, scripts, deployment and tests.

    * Plan

    Next: interleaved requests for the sessions and for the latest list. *)
From Stdlib Require Export ZArith Lia Bool.
From stdpp Require Export base tactics list gmap strings sorting numbers.
#[export] Set Warnings "-clear-no-such-hyp".

(** ** Errors and results

    Go functions return a value and an [error].  [err] lists the error values
    the program tells apart: gorm's [ErrRecordNotFound], MySQL's duplicate-key
    error 1062, [redis.Nil], the sentinels of [apierror], messages made with
    [errors.New], and every other failure of a service ([ErrIO]). *)
Inductive err : Type :=
| ErrRecordNotFound
| ErrDuplicate
| ErrRedisNil
| ErrUnauthorized
| ErrValidation
| ErrMsg (s : string)
| ErrIO (code : Z).

Inductive result (A : Type) : Type :=
| Ok (a : A)
| Err (e : err).
Arguments Ok {A} a.
Arguments Err {A} e.

(** [context.Canceled] *)
Definition Canceled : err := ErrMsg "context canceled".

#[export] Instance err_eq_dec : EqDecision err.
Proof. solve_decision. Defined.

#[export] Instance result_eq_dec {A} `{EqDecision A} : EqDecision (result A).
Proof. solve_decision. Defined.

Definition is_ok {A} (r : result A) : bool :=
  match r with Ok _ => true | Err _ => false end.

Definition res_map {A B} (f : A → B) (r : result A) : result B :=
  match r with Ok a => Ok (f a) | Err e => Err e end.

(** ** The state monad of the program

    [ST W A] is a computation over the world [W].  [st_try] is Go's
    [if err != nil { return err }]. *)
Definition ST (W A : Type) : Type := W → A * W.

Definition st_ret {W A} (a : A) : ST W A := λ w, (a, w).

Definition st_bind {W A B} (m : ST W A) (k : A → ST W B) : ST W B :=
  λ w, let '(a, w') := m w in k a w'.

Definition st_try {W A B} (m : ST W (result A)) (k : A → ST W (result B)) :
    ST W (result B) :=
  st_bind m (λ r, match r with Ok a => k a | Err e => st_ret (Err e) end).

Declare Scope go_scope.
Delimit Scope go_scope with go.
Notation "x <- m ;; k" := (st_bind m (λ x, k))
  (at level 100, m at next level, right associativity) : go_scope.
Notation "x <-? m ;; k" := (st_try m (λ x, k))
  (at level 100, m at next level, right associativity) : go_scope.
Notation "m ;;; k" := (st_bind m (λ _, k))
  (at level 100, right associativity) : go_scope.

(** [st_iter f l]: run [f] on each element in order, for its effect. *)
Fixpoint st_iter {W A} (f : A → ST W unit) (l : list A) : ST W unit :=
  match l with
  | [] => st_ret tt
  | x :: xs => st_bind (f x) (λ _, st_iter f xs)
  end.

(** [st_fold f l s]: a loop that carries local variables [s]. *)
Fixpoint st_fold {W A S} (f : A → S → ST W S) (l : list A) (s : S) : ST W S :=
  match l with
  | [] => st_ret s
  | x :: xs => st_bind (f x s) (st_fold f xs)
  end.

(** ** Running a computation

    [runs m w Q]: started in [w], [m] ends in a result and a world that
    satisfy [Q].  Computations are total, so this is total correctness. *)
Definition runs {W A} (m : ST W A) (w : W) (Q : A → W → Prop) : Prop :=
  Q (m w).1 (m w).2.

Section runs.
Context {W : Type}.
Implicit Types w : W.

Lemma runs_ret {A} (a : A) w (Q : A → W → Prop) : Q a w → runs (st_ret a) w Q.
Proof. done. Qed.

Lemma runs_bind {A B} (m : ST W A) (k : A → ST W B) w Q :
  runs m w (λ a w', runs (k a) w' Q) → runs (st_bind m k) w Q.
Proof. unfold runs, st_bind. by destruct (m w). Qed.

Lemma runs_bind_inv {A B} (m : ST W A) (k : A → ST W B) w Q :
  runs (st_bind m k) w Q → runs m w (λ a w', runs (k a) w' Q).
Proof. unfold runs, st_bind. by destruct (m w). Qed.

Lemma runs_try {A B} (m : ST W (result A)) (k : A → ST W (result B)) w Q :
  runs m w (λ r w', match r with
                    | Ok a => runs (k a) w' Q
                    | Err e => Q (Err e) w'
                    end) →
  runs (st_try m k) w Q.
Proof.
  intros H. apply runs_bind. revert H. unfold runs.
  by destruct (m w) as [[a|e] w'].
Qed.

Lemma runs_mono {A} (m : ST W A) w (Q Q' : A → W → Prop) :
  runs m w Q → (∀ a w', Q a w' → Q' a w') → runs m w Q'.
Proof. unfold runs. eauto. Qed.

Lemma runs_and {A} (m : ST W A) w (Q Q' : A → W → Prop) :
  runs m w Q → runs m w Q' → runs m w (λ a w', Q a w' ∧ Q' a w').
Proof. unfold runs. eauto. Qed.

Lemma runs_intro {A} (m : ST W A) w (Q : A → W → Prop) :
  (∀ a w', m w = (a, w') → Q a w') → runs m w Q.
Proof. unfold runs. intros H. apply H. by destruct (m w). Qed.

Lemma runs_elim {A} (m : ST W A) w (Q : A → W → Prop) a w' :
  runs m w Q → m w = (a, w') → Q a w'.
Proof. unfold runs. intros H E. by rewrite E in H. Qed.

Lemma runs_iter {A} (f : A → ST W unit) (I : W → Prop) l w :
  I w → (∀ x w, x ∈ l → I w → runs (f x) w (λ _ w', I w')) →
  runs (st_iter f l) w (λ _ w', I w').
Proof.
  revert w. induction l as [|x l IH]; intros w HI Hf; [done|].
  apply runs_bind. eapply runs_mono; [apply Hf; [by left|done]|].
  intros ? w' HI'. apply IH; [done|]. intros y w'' Hy. apply Hf. by right.
Qed.

Lemma runs_fold {A S} (f : A → S → ST W S) (I : list A → S → W → Prop) l s w :
  I l s w →
  (∀ x xs s w, I (x :: xs) s w → runs (f x s) w (I xs)) →
  runs (st_fold f l s) w (I []).
Proof.
  revert s w. induction l as [|x l IH]; intros s w HI Hf; [done|].
  apply runs_bind. eapply runs_mono; [by apply Hf|].
  intros s' w' HI'. by apply IH.
Qed.
End runs.

(** ** Automation

    [go] steps through the glue of a computation; the rules of the services
    are added to the hint database [go] by the files that state them. *)
Create HintDb go.
#[export] Hint Resolve runs_ret : go.

Ltac go_step :=
  lazymatch goal with
  | |- runs (st_ret _) _ _ => apply runs_ret
  | |- runs (st_bind _ _) _ _ => apply runs_bind
  | |- runs (st_try _ _) _ _ => apply runs_try
  | |- runs (match ?x with _ => _ end) _ _ => destruct x eqn:?
  end.
Ltac go := repeat go_step; simpl.

(** Split the conditions of a guard written with [&&], [||] and [negb]. *)
Ltac bool_to_prop :=
  repeat match goal with
  | H : (_ && _) = true |- _ => apply andb_true_iff in H as [? ?]
  | H : (_ && _) = false |- _ => apply andb_false_iff in H
  | H : (_ || _) = true |- _ => apply orb_true_iff in H
  | H : (_ || _) = false |- _ => apply orb_false_iff in H as [? ?]
  | H : negb _ = true |- _ => apply negb_true_iff in H
  | H : negb _ = false |- _ => apply negb_false_iff in H
  | H : Z.eqb _ _ = true |- _ => apply Z.eqb_eq in H
  | H : Z.eqb _ _ = false |- _ => apply Z.eqb_neq in H
  | H : Z.ltb _ _ = true |- _ => apply Z.ltb_lt in H
  | H : Z.ltb _ _ = false |- _ => apply Z.ltb_ge in H
  | H : Z.leb _ _ = true |- _ => apply Z.leb_le in H
  | H : Z.leb _ _ = false |- _ => apply Z.leb_gt in H
  | H : String.eqb _ _ = true |- _ => apply String.eqb_eq in H
  | H : String.eqb _ _ = false |- _ => apply String.eqb_neq in H
  | H : bool_decide _ = true |- _ => apply bool_decide_eq_true in H
  | H : bool_decide _ = false |- _ => apply bool_decide_eq_false in H
  end.

(** ** Lists *)
Section lists.
Context {A : Type}.
Implicit Types l : list A.

Lemma elem_of_lfilter (f : A → bool) l x :
  x ∈ List.filter f l ↔ f x = true ∧ x ∈ l.
Proof. rewrite !list_elem_of_In, List.filter_In. tauto. Qed.

Lemma lfilter_perm (f : A → bool) l1 l2 :
  l1 ≡ₚ l2 → List.filter f l1 ≡ₚ List.filter f l2.
Proof.
  induction 1 as [|x l l' _ IH|x y l|l l' l'' _ IH1 _ IH2]; simpl.
  - done.
  - destruct (f x); by rewrite IH.
  - destruct (f x), (f y); try done. apply perm_swap.
  - by rewrite IH1.
Qed.

Lemma lfilter_all (f : A → bool) l :
  (∀ x, x ∈ l → f x = true) → List.filter f l = l.
Proof.
  induction l as [|x l IH]; intros H; simpl; [done|].
  rewrite (H x) by (by left). f_equal. apply IH. intros y Hy. apply H. by right.
Qed.

Lemma lfilter_none (f : A → bool) l :
  (∀ x, x ∈ l → f x = false) → List.filter f l = [].
Proof.
  induction l as [|x l IH]; intros H; simpl; [done|].
  rewrite (H x) by (by left). apply IH. intros y Hy. apply H. by right.
Qed.

Lemma lfilter_ext (f g : A → bool) l :
  (∀ x, x ∈ l → f x = g x) → List.filter f l = List.filter g l.
Proof.
  induction l as [|x l IH]; intros H; simpl; [done|].
  rewrite (H x) by (by left). rewrite IH; [done|].
  intros y Hy. apply H. by right.
Qed.

Lemma lfilter_filter (f g : A → bool) l :
  List.filter f (List.filter g l) = List.filter (λ x, f x && g x) l.
Proof.
  induction l as [|x l IH]; simpl; [done|].
  destruct (g x) eqn:?; simpl; destruct (f x); simpl; by rewrite ?IH.
Qed.

Lemma lfilter_NoDup (f : A → bool) l : NoDup l → NoDup (List.filter f l).
Proof.
  induction 1 as [|x l Hx _ IH]; simpl; [constructor|].
  destruct (f x); [|done]. constructor; [|done].
  rewrite elem_of_lfilter. tauto.
Qed.

Lemma StronglySorted_lfilter (R : relation A) (f : A → bool) l :
  StronglySorted R l → StronglySorted R (List.filter f l).
Proof.
  induction 1 as [|x l _ IH Hx]; simpl; [constructor|].
  destruct (f x); [|done]. constructor; [done|].
  apply list.Forall_forall. intros y [_ Hy]%elem_of_lfilter.
  by eapply list.Forall_forall in Hx.
Qed.

(** A sorted list has a unique arrangement when the order is antisymmetric
    on its elements. *)
Lemma StronglySorted_perm_eq (R : relation A) l1 l2 :
  (∀ x y, x ∈ l1 → y ∈ l1 → R x y → R y x → x = y) →
  StronglySorted R l1 → StronglySorted R l2 → l1 ≡ₚ l2 → l1 = l2.
Proof.
  revert l2. induction l1 as [|x1 l1 IH]; intros l2 Hanti Hs1 Hs2 Hp.
  { by apply Permutation_nil_l in Hp as <-. }
  destruct l2 as [|x2 l2]; [by apply Permutation_nil_r in Hp|].
  apply StronglySorted_inv in Hs1 as [Hs1 Hx1].
  apply StronglySorted_inv in Hs2 as [Hs2 Hx2].
  assert (x1 = x2) as ->.
  { assert (x1 ∈ x2 :: l2) as H1 by (rewrite <-Hp; by left).
    assert (x2 ∈ x1 :: l1) as H2 by (rewrite Hp; by left).
    apply elem_of_cons in H1 as [->|H1]; [done|].
    apply elem_of_cons in H2 as [->|H2]; [done|].
    rewrite list.Forall_forall in Hx1, Hx2.
    apply Hanti; [by left|by right|by apply Hx1|by apply Hx2]. }
  f_equal. apply IH; [|done..|by apply Permutation_cons_inv in Hp].
  intros x y Hx Hy. apply Hanti; by right.
Qed.

(** In a list sorted by [R], the elements after [x] are exactly those a
    strict test selects. *)
Lemma lfilter_after (R : relation A) (f : A → bool) l1 x l2 :
  StronglySorted R (l1 ++ x :: l2) →
  (∀ y, y ∈ l1 → R y x → f y = false) → f x = false →
  (∀ y, y ∈ l2 → R x y → f y = true) →
  List.filter f (l1 ++ x :: l2) = l2.
Proof.
  intros Hs H1 Hx H2. rewrite List.filter_app. simpl. rewrite Hx.
  rewrite lfilter_none, lfilter_all; [done| |].
  - intros y Hy. apply H2; [done|].
    apply StronglySorted_app_1_r in Hs.
    apply StronglySorted_inv in Hs as [_ Hs]. by eapply list.Forall_forall in Hs.
  - intros y Hy. apply H1; [done|].
    eapply StronglySorted_app_1_elem_of; [exact Hs|done|by left].
Qed.

End lists.

(** Go's [l[len(l)-1]], [None] where the list is empty. *)
Definition last_elem {A} (l : list A) : option A := list.last l.

Lemma last_elem_snoc {A} (l : list A) x : last_elem (l ++ [x]) = Some x.
Proof. apply last_snoc. Qed.

Lemma last_elem_inv {A} (l : list A) x :
  last_elem l = Some x → ∃ l', l = l' ++ [x].
Proof.
  intros H. destruct l as [|y l] using rev_ind; [done|].
  rewrite last_elem_snoc in H. simplify_eq. eauto.
Qed.

Lemma last_elem_None {A} (l : list A) : last_elem l = None ↔ l = [].
Proof. apply last_None. Qed.

Lemma lfilter_length {A} (f : A → bool) (l : list A) :
  length (List.filter f l) ≤ length l.
Proof. induction l as [|x l IH]; simpl; [done|]. destruct (f x); simpl; lia. Qed.
