(* ===== verification/GoStd.v ===== *)
(** The Go standard library, as far as the program uses it: decimal numbers
    ([strconv], [fmt.Sprintf("%d")]), [strings], [encoding/hex] lengths, and
    instants of time at the millisecond resolution of the schema. *)
From S2P Require Import Prelude.
From Stdlib Require Import Ascii DecimalString DecimalZ DecimalN DecimalFacts DecimalPos.
Local Open Scope Z_scope.

(** ** Machine integers *)
Definition two63 : Z := 2 ^ 63.
Definition two64 : Z := 2 ^ 64.

Definition is_uint (z : Z) : bool := (0 <=? z) && (z <? two64).
Definition is_int64 (z : Z) : bool := (- two63 <=? z) && (z <? two63).

(** int64 arithmetic wraps around. *)
Definition wrap64 (z : Z) : Z := (z + two63) mod two64 - two63.

Lemma wrap64_id z : is_int64 z = true → wrap64 z = z.
Proof.
  unfold is_int64, wrap64, two63, two64. intros H. bool_to_prop.
  rewrite Z.mod_small; lia.
Qed.

Lemma wrap64_range z : is_int64 (wrap64 z) = true.
Proof.
  unfold is_int64, wrap64, two63, two64.
  pose proof (Z.mod_pos_bound (z + 2 ^ 63) (2 ^ 64)) as H.
  apply andb_true_iff; split; [apply Z.leb_le|apply Z.ltb_lt]; lia.
Qed.

(** ** Decimal text *)

(** [strconv.FormatUint(z, 10)] and the verb [%d]. *)
Definition dec (z : Z) : string := NilEmpty.string_of_int (Z.to_int z).

(** [strconv.ParseUint(s, 10, 64)]: digits only, at least one, below 2^64. *)
Definition ParseUint (s : string) : option Z :=
  match s with
  | EmptyString => None
  | _ =>
      match NilEmpty.uint_of_string s with
      | Some d => let z := Z.of_N (N.of_uint d) in
                  if z <? two64 then Some z else None
      | None => None
      end
  end.

Lemma dec_nonneg z :
  0 ≤ z → dec z = NilEmpty.string_of_uint (N.to_uint (Z.to_N z)).
Proof. by destruct z. Qed.

Lemma string_of_uint_nonempty d :
  d ≠ Decimal.Nil → NilEmpty.string_of_uint d ≠ EmptyString.
Proof. by destruct d. Qed.

Lemma N_to_uint_nonnil n : N.to_uint n ≠ Decimal.Nil.
Proof. destruct n as [|p]; [done|]. apply DecimalPos.Unsigned.to_uint_nonnil. Qed.

(** Parsing what was printed gives the number back. *)
Lemma ParseUint_dec z : is_uint z = true → ParseUint (dec z) = Some z.
Proof.
  unfold is_uint. intros H. bool_to_prop. rewrite dec_nonneg by lia.
  unfold ParseUint.
  destruct (NilEmpty.string_of_uint (N.to_uint (Z.to_N z))) as [|a s] eqn:E.
  { exfalso. by eapply string_of_uint_nonempty, E; apply N_to_uint_nonnil. }
  rewrite <-E, NilEmpty.usu, DecimalN.Unsigned.of_to, Z2N.id by lia.
  destruct (Z.ltb_spec z two64); [done|lia].
Qed.

Lemma dec_inj z1 z2 : is_uint z1 = true → is_uint z2 = true → dec z1 = dec z2 → z1 = z2.
Proof.
  intros H1%ParseUint_dec H2%ParseUint_dec E. rewrite E in H1. congruence.
Qed.

(** Different numbers print differently. *)
#[export] Instance dec_inj' : Inj (=) (=) dec.
Proof.
  intros a b E. unfold dec in E.
  assert (Some (Z.to_int a) = Some (Z.to_int b)) as [= E2] by (by rewrite <-!NilEmpty.isi, E).
  apply (f_equal Z.of_int) in E2. by rewrite !DecimalZ.of_to in E2.
Qed.

Lemma ParseUint_range s z : ParseUint s = Some z → is_uint z = true.
Proof.
  unfold ParseUint. destruct s as [|a s]; [done|].
  destruct (NilEmpty.uint_of_string _) as [d|]; [|done].
  destruct (Z.ltb_spec (Z.of_N (N.of_uint d)) two64); [|done].
  intros; simplify_eq. unfold is_uint.
  apply andb_true_iff; split; [apply Z.leb_le|apply Z.ltb_lt]; lia.
Qed.

(** ** Strings *)
Local Open Scope string_scope.

Fixpoint strip_prefix (p s : string) : option string :=
  match p, s with
  | EmptyString, _ => Some s
  | String a p', String b s' => if Ascii.eqb a b then strip_prefix p' s' else None
  | String _ _, EmptyString => None
  end.

Definition HasPrefix (s p : string) : bool :=
  match strip_prefix p s with Some _ => true | None => false end.

Definition byte_str (l : list nat) : string :=
  fold_right (λ n s, String (Ascii.ascii_of_nat n) s) EmptyString l.

(** The UTF-8 encodings of Unicode's White_Space characters. *)
Definition white_space : list string :=
  (byte_str <$> [[9]; [10]; [11]; [12]; [13]; [32]; [194; 133]; [194; 160];
                 [225; 154; 128]; [226; 128; 168]; [226; 128; 169];
                 [226; 128; 175]; [226; 129; 159]; [227; 128; 128]])%nat
  ++ ((λ n, byte_str [226; 128; n]%nat) <$> seq 128 11).

Fixpoint first_stripped (ps : list string) (s : string) : option string :=
  match ps with
  | [] => None
  | p :: ps' => match strip_prefix p s with
                | Some r => Some r
                | None => first_stripped ps' s
                end
  end.

Fixpoint trim_left_fuel (n : nat) (ps : list string) (s : string) : string :=
  match n with
  | O => s
  | S n' => match first_stripped ps s with
            | Some r => trim_left_fuel n' ps r
            | None => s
            end
  end.

Fixpoint string_rev_app (s acc : string) : string :=
  match s with
  | EmptyString => acc
  | String a s' => string_rev_app s' (String a acc)
  end.
Definition string_rev (s : string) : string := string_rev_app s EmptyString.

Definition trim_left (ps : list string) (s : string) : string :=
  trim_left_fuel (String.length s) ps s.
Definition trim_right (ps : list string) (s : string) : string :=
  string_rev (trim_left (string_rev <$> ps) (string_rev s)).

(** [strings.TrimSpace] *)
Definition TrimSpace (s : string) : string :=
  trim_right white_space (trim_left white_space s).

#[global] Arguments TrimSpace : simpl never.

(** ASCII lower case, enough for [strings.EqualFold] against an ASCII word
    without the letters k and s, which alone have non-ASCII folds. *)
Definition ascii_lower (a : Ascii.ascii) : Ascii.ascii :=
  let n := Ascii.nat_of_ascii a in
  if (65 <=? n)%nat && (n <=? 90)%nat then Ascii.ascii_of_nat (n + 32) else a.

Fixpoint ToLower (s : string) : string :=
  match s with
  | EmptyString => EmptyString
  | String a s' => String (ascii_lower a) (ToLower s')
  end.

Definition EqualFold (s t : string) : bool := String.eqb (ToLower s) (ToLower t).

(** [strings.SplitN(s, " ", 2)] *)
Fixpoint split_space (s : string) : string * option string :=
  match s with
  | EmptyString => (EmptyString, None)
  | String a s' =>
      if Ascii.eqb a " "%char then (EmptyString, Some s')
      else let '(h, t) := split_space s' in (String a h, t)
  end.

Definition SplitN2 (s : string) : list string :=
  match split_space s with
  | (h, Some t) => [h; t]
  | (h, None) => [h]
  end.

(** [s[:n]] for [n <= len(s)] *)
Definition str_take (n : nat) (s : string) : string := String.substring 0 n s.
Definition str_drop (n : nat) (s : string) : string :=
  String.substring n (String.length s - n) s.

Lemma length_substring0 n s :
  (n ≤ String.length s)%nat → String.length (String.substring 0 n s) = n.
Proof.
  revert n. induction s as [|a s IH]; intros [|n] H; simpl in *; try lia; try done.
  f_equal. apply IH. lia.
Qed.

Lemma SplitN2_app h t :
  (∀ a, a ∈ String.list_ascii_of_string h → a ≠ " "%char) →
  SplitN2 (h ++ " " ++ t) = [h; t].
Proof.
  intros H. unfold SplitN2.
  assert (split_space (h ++ " " ++ t) = (h, Some t)) as ->; [|done].
  induction h as [|a h IH]; [done|]. simpl in *.
  destruct (Ascii.eqb_spec a " "%char) as [->|_].
  { exfalso. by apply (H " "%char); [left|]. }
  rewrite IH; [done|]. intros b Hb. apply H. by right.
Qed.

Lemma string_app_inj_l (s t1 t2 : string) : s ++ t1 = s ++ t2 → t1 = t2.
Proof. induction s as [|a s IH]; simpl; [done|]. intros [= E]. by apply IH. Qed.

Lemma string_length_app (s t : string) :
  String.length (s ++ t) = (String.length s + String.length t)%nat.
Proof. induction s as [|a s IH]; simpl; [done|]. by rewrite IH. Qed.

(** A character that occurs in a string. *)
Fixpoint has_char (a : Ascii.ascii) (s : string) : bool :=
  match s with
  | EmptyString => false
  | String b s' => Ascii.eqb a b || has_char a s'
  end.

Lemma has_char_app a s t : has_char a (s ++ t) = has_char a s || has_char a t.
Proof. induction s as [|b s IH]; simpl; [done|]. by rewrite IH, orb_assoc. Qed.

(** ** encoding/hex *)
Definition hextable : list Ascii.ascii := String.list_ascii_of_string "0123456789abcdef".
Definition hex_digit (n : N) : Ascii.ascii := default "0"%char (hextable !! N.to_nat n).

(** [hex.EncodeToString]: two digits for each byte, the high one first *)
Fixpoint EncodeToString (src : list Byte.byte) : string :=
  match src with
  | [] => ""
  | b :: src' =>
      String (hex_digit (N.shiftr (Byte.to_N b) 4))
        (String (hex_digit (N.land (Byte.to_N b) 15)) (EncodeToString src'))
  end.

Lemma length_EncodeToString src : String.length (EncodeToString src) = (2 * length src)%nat.
Proof. induction src as [|b src IH]; simpl; [done|lia]. Qed.

Lemma hex_digit_in n : hex_digit n ∈ hextable.
Proof.
  unfold hex_digit. destruct (hextable !! N.to_nat n) as [a|] eqn:E.
  - by eapply list_elem_of_lookup_2.
  - by left.
Qed.

Lemma EncodeToString_chars src a : has_char a (EncodeToString src) = true → a ∈ hextable.
Proof.
  induction src as [|b src IH]; [done|]. cbn [EncodeToString has_char].
  intros [->%Ascii.eqb_eq|[->%Ascii.eqb_eq|?]%orb_true_iff]%orb_true_iff; auto using hex_digit_in.
Qed.

Lemma dec_no_colon z : has_char ":"%char (dec z) = false.
Proof.
  assert (∀ d, has_char ":"%char (NilEmpty.string_of_uint d) = false) as Hu
    by (induction d; simpl; done).
  unfold dec. destruct (Z.to_int z); simpl; apply Hu.
Qed.

(** ** Time

    An instant is a number of milliseconds since the Unix epoch: the schema
    stores DATETIME(3), and every cursor, score and comparison of the program
    is made at that resolution or a coarser one. *)
Local Open Scope Z_scope.
Definition time : Type := Z.

(** The zero [time.Time], January 1 of year 1 UTC. *)
Definition zero_time : time := -62135596800000.
Definition IsZero (t : time) : bool := t =? zero_time.
Definition UnixMilli (t : time) : Z := t.
Definition Unix (t : time) : Z := t / 1000.
Definition FromUnixMilli (ms : Z) : time := ms.
Definition FromUnix (sec : Z) : time := sec * 1000.
(** [t.Truncate(time.Minute)] of an instant in UTC *)
Definition TruncateMinute (t : time) : time := t - t mod 60000.

Definition Millisecond : Z := 1.
Definition Second : Z := 1000.
Definition Minute : Z := 60 * Second.
Definition Hour : Z := 60 * Minute.

(** ** Calendar dates *)

(** Year, month and day of a number of days since the Unix epoch. *)
Definition civil (days : Z) : Z * Z * Z :=
  let z := days + 719468 in
  let era := z / 146097 in
  let doe := z - era * 146097 in
  let yoe := (doe - doe / 1460 + doe / 36524 - doe / 146096) / 365 in
  let doy := doe - (365 * yoe + yoe / 4 - yoe / 100) in
  let mp := (5 * doy + 2) / 153 in
  let d := doy - (153 * mp + 2) / 5 + 1 in
  let m := if mp <? 10 then mp + 3 else mp - 9 in
  let y := yoe + era * 400 + (if m <=? 2 then 1 else 0) in
  (y, m, d).

(** zero-padded decimal text *)
Definition pad (width : nat) (z : Z) : string :=
  let s := dec z in
  String.concat "" (replicate (width - String.length s) "0"%string) +:+ s.

(** [t.Format("200601021504")] of an instant in UTC *)
Definition FormatMinute (t : time) : string :=
  let '(y, m, d) := civil (t / 86400000) in
  let h := (t mod 86400000) / 3600000 in
  let mi := (t mod 3600000) / 60000 in
  (pad 4 y +:+ pad 2 m +:+ pad 2 d +:+ pad 2 h +:+ pad 2 mi)%string.

Example format_minute : FormatMinute 1700000000000 = "202311142213"%string.
Proof. by vm_compute. Qed.
