(* ===== verification/TextFacts.v ===== *)
(** [strings.TrimSpace] is idempotent: trimming what was trimmed changes
    nothing, so a text trimmed by a service and again by a worker is the text
    the service trimmed. *)
From S2P Require Import Prelude GoStd.

Lemma string_app_cons a (s t : string) : String a s +:+ t = String a (s +:+ t).
Proof. done. Qed.

Lemma string_app_assoc (s t u : string) : s +:+ (t +:+ u) = (s +:+ t) +:+ u.
Proof. induction s as [|a s IH]; [done|]. by rewrite !string_app_cons, IH. Qed.

Lemma string_app_nil_r (s : string) : s +:+ "" = s.
Proof. induction s as [|a s IH]; [done|]. by rewrite !string_app_cons, IH. Qed.

Lemma strip_prefix_app p s r t : strip_prefix p s = Some r → strip_prefix p (s +:+ t) = Some (r +:+ t).
Proof.
  revert s. induction p as [|a p IH]; intros [|b s] E; rewrite ?string_app_cons; simpl in *;
    try done.
  - by injection E as <-.
  - by injection E as <-.
  - destruct (Ascii.eqb a b); [by apply IH|done].
Qed.

Lemma strip_prefix_split p s r : strip_prefix p s = Some r → s = p +:+ r.
Proof.
  revert s. induction p as [|a p IH]; intros [|b s] E; simpl in *; try done.
  - by injection E as <-.
  - by injection E as <-.
  - destruct (Ascii.eqb_spec a b) as [->|]; [|done]. by rewrite (IH _ E), string_app_cons.
Qed.

Lemma first_stripped_none ps s t :
  first_stripped ps (s +:+ t) = None → first_stripped ps s = None.
Proof.
  induction ps as [|p ps IH]; simpl; [done|].
  destruct (strip_prefix p s) as [r|] eqn:E; [by rewrite (strip_prefix_app _ _ _ t E)|].
  by destruct (strip_prefix p (s +:+ t)).
Qed.

Lemma first_stripped_split ps s r :
  first_stripped ps s = Some r → ∃ p, p ∈ ps ∧ s = p +:+ r.
Proof.
  induction ps as [|p ps IH]; simpl; [done|].
  destruct (strip_prefix p s) as [r'|] eqn:E.
  - intros [= <-]. exists p. split; [by left|by apply strip_prefix_split].
  - intros (p' & Hp & ->)%IH. exists p'. split; [by right|done].
Qed.

Lemma trim_left_fuel_split n ps s : ∃ p, s = p +:+ trim_left_fuel n ps s.
Proof.
  revert s. induction n as [|n IH]; intros s; simpl; [by exists ""|].
  destruct (first_stripped ps s) as [r|] eqn:E; [|by exists ""].
  apply first_stripped_split in E as (p & _ & ->). destruct (IH r) as [q E].
  exists (p +:+ q). rewrite E at 1. by rewrite string_app_assoc.
Qed.

(** With as much fuel as characters nothing is left to strip. *)
Lemma trim_left_done n ps s :
  Forall (λ p, p ≠ ""%string) ps → (String.length s ≤ n)%nat →
  first_stripped ps (trim_left_fuel n ps s) = None.
Proof.
  intros Hps. revert s. induction n as [|n IH]; intros s Hn; simpl.
  - destruct s; [|simpl in Hn; lia]. destruct (first_stripped ps "") as [r|] eqn:E; [|done].
    apply first_stripped_split in E as ([|a p] & Hp & E); [|done].
    rewrite list.Forall_forall in Hps. by apply Hps in Hp.
  - destruct (first_stripped ps s) as [r|] eqn:E; [|done]. apply IH.
    apply first_stripped_split in E as ([|a p] & Hp & ->).
    + rewrite list.Forall_forall in Hps. by apply Hps in Hp.
    + rewrite string_length_app in Hn. simpl in Hn. lia.
Qed.

Lemma trim_left_id ps s : first_stripped ps s = None → trim_left ps s = s.
Proof. intros E. unfold trim_left. destruct (String.length s); simpl; [done|]. by rewrite E. Qed.

Lemma string_rev_app_spec s acc : string_rev_app s acc = string_rev s +:+ acc.
Proof.
  unfold string_rev. revert acc. induction s as [|a s IH]; intros acc; simpl; [done|].
  rewrite IH, (IH (String a "")). by rewrite <-string_app_assoc.
Qed.

Lemma string_rev_cons a s : string_rev (String a s) = string_rev s +:+ String a "".
Proof. unfold string_rev at 1. simpl. by rewrite string_rev_app_spec. Qed.

Lemma string_rev_append s t : string_rev (s +:+ t) = string_rev t +:+ string_rev s.
Proof.
  induction s as [|a s IH].
  - unfold string_rev at 3. simpl. by rewrite string_app_nil_r.
  - rewrite string_app_cons, !string_rev_cons, IH. by rewrite string_app_assoc.
Qed.

Lemma string_rev_involutive s : string_rev (string_rev s) = s.
Proof.
  induction s as [|a s IH]; [done|]. rewrite string_rev_cons, string_rev_append, IH. done.
Qed.

Lemma white_space_nonempty :
  Forall (λ p, p ≠ ""%string) white_space ∧
  Forall (λ p, p ≠ ""%string) (string_rev <$> white_space).
Proof. split; apply (bool_decide_unpack _); by vm_compute. Qed.

Lemma TrimSpace_idem s : TrimSpace (TrimSpace s) = TrimSpace s.
Proof.
  destruct white_space_nonempty as [Hws Hrev]. unfold TrimSpace.
  set (r1 := trim_left white_space s).
  assert (first_stripped white_space r1 = None) as H1 by (by apply trim_left_done).
  set (u := trim_left (string_rev <$> white_space) (string_rev r1)).
  assert (trim_right white_space r1 = string_rev u) as -> by done.
  assert (first_stripped (string_rev <$> white_space) u = None) as Hu by (by apply trim_left_done).
  destruct (trim_left_fuel_split (String.length (string_rev r1)) (string_rev <$> white_space)
    (string_rev r1)) as [p Ep].
  fold (trim_left (string_rev <$> white_space) (string_rev r1)) in Ep. fold u in Ep.
  apply (f_equal string_rev) in Ep. rewrite string_rev_involutive, string_rev_append in Ep.
  rewrite Ep in H1. apply first_stripped_none in H1. rewrite (trim_left_id _ _ H1).
  unfold trim_right. rewrite string_rev_involutive. by rewrite (trim_left_id _ _ Hu).
Qed.
