(* ===== verification/Config.v ===== *)
(** [internal/config]: the configuration file and the environment variables
    that override it. *)
From S2P Require Import Prelude GoStd.
From Stdlib Require Import Ascii.
Local Open Scope Z_scope.
Local Open Scope go_scope.

(** [strconv.Atoi]: an optional sign and digits, within an int *)
Definition Atoi (s : string) : option Z :=
  let in_range z := if is_int64 z then Some z else None in
  match s with
  | String "-" digits => z ← ParseUint digits; in_range (- z)
  | String "+" digits => z ← ParseUint digits; in_range z
  | digits => z ← ParseUint digits; in_range z
  end%char.

Record ServerConfig := mkServerConfig { sv_Port : Z }.
Record DatabaseConfig := mkDatabaseConfig {
  db_Host : string; db_Port : Z; db_User : string; db_Password : string; db_DBName : string }.
Record RedisConfig := mkRedisConfig {
  rc_Host : string; rc_Port : Z; rc_Password : string; rc_DB : Z }.
Record RabbitMQConfig := mkRabbitMQConfig {
  mc_Host : string; mc_Port : Z; mc_Username : string; mc_Password : string }.
Record JWTConfig := mkJWTConfig { jc_JWTSecret : string }.
Record COSConfig := mkCOSConfig {
  cc_Bucket : string; cc_Region : string; cc_SecretID : string; cc_SecretKey : string;
  cc_PublicBaseURL : string; cc_TimeoutSeconds : Z }.
Record PprofConfig := mkPprofConfig { pp_Enabled : bool; pp_ApiAddr : string; pp_WorkerAddr : string }.
Record ObservabilityConfig := mkObservabilityConfig { ob_Pprof : PprofConfig }.

Record Config := mkConfig {
  cf_Server : ServerConfig; cf_Database : DatabaseConfig; cf_Redis : RedisConfig;
  cf_RabbitMQ : RabbitMQConfig; cf_JWT : JWTConfig; cf_COS : COSConfig;
  cf_Observability : ObservabilityConfig }.

(** [config.X.Field = v] *)
Definition set_server f (c : Config) :=
  mkConfig (f (cf_Server c)) (cf_Database c) (cf_Redis c) (cf_RabbitMQ c) (cf_JWT c) (cf_COS c) (cf_Observability c).
Definition set_database f (c : Config) :=
  mkConfig (cf_Server c) (f (cf_Database c)) (cf_Redis c) (cf_RabbitMQ c) (cf_JWT c) (cf_COS c) (cf_Observability c).
Definition set_redis f (c : Config) :=
  mkConfig (cf_Server c) (cf_Database c) (f (cf_Redis c)) (cf_RabbitMQ c) (cf_JWT c) (cf_COS c) (cf_Observability c).
Definition set_rabbit f (c : Config) :=
  mkConfig (cf_Server c) (cf_Database c) (cf_Redis c) (f (cf_RabbitMQ c)) (cf_JWT c) (cf_COS c) (cf_Observability c).
Definition set_jwt f (c : Config) :=
  mkConfig (cf_Server c) (cf_Database c) (cf_Redis c) (cf_RabbitMQ c) (f (cf_JWT c)) (cf_COS c) (cf_Observability c).
Definition set_cos f (c : Config) :=
  mkConfig (cf_Server c) (cf_Database c) (cf_Redis c) (cf_RabbitMQ c) (cf_JWT c) (f (cf_COS c)) (cf_Observability c).

Section env.
(** [os.Getenv] *)
Variable (Getenv : string → string).

(** [if v := os.Getenv(name); v != "" { set(v) }] *)
Definition env_string (name : string) (set : string → Config → Config) (c : Config) : Config :=
  let v := Getenv name in if String.eqb v "" then c else set v c.
(** ... with [if n, err := strconv.Atoi(v); err == nil] *)
Definition env_int (name : string) (set : Z → Config → Config) (c : Config) : Config :=
  let v := Getenv name in
  if String.eqb v "" then c else match Atoi v with Some n => set n c | None => c end.

Definition set_db_host v d := mkDatabaseConfig v (db_Port d) (db_User d) (db_Password d) (db_DBName d).
Definition set_db_port v d := mkDatabaseConfig (db_Host d) v (db_User d) (db_Password d) (db_DBName d).
Definition set_db_user v d := mkDatabaseConfig (db_Host d) (db_Port d) v (db_Password d) (db_DBName d).
Definition set_db_password v d := mkDatabaseConfig (db_Host d) (db_Port d) (db_User d) v (db_DBName d).
Definition set_db_name v d := mkDatabaseConfig (db_Host d) (db_Port d) (db_User d) (db_Password d) v.
Definition set_rc_host v r := mkRedisConfig v (rc_Port r) (rc_Password r) (rc_DB r).
Definition set_rc_port v r := mkRedisConfig (rc_Host r) v (rc_Password r) (rc_DB r).
Definition set_rc_password v r := mkRedisConfig (rc_Host r) (rc_Port r) v (rc_DB r).
Definition set_rc_db v r := mkRedisConfig (rc_Host r) (rc_Port r) (rc_Password r) v.
Definition set_mc_host v r := mkRabbitMQConfig v (mc_Port r) (mc_Username r) (mc_Password r).
Definition set_mc_port v r := mkRabbitMQConfig (mc_Host r) v (mc_Username r) (mc_Password r).
Definition set_mc_user v r := mkRabbitMQConfig (mc_Host r) (mc_Port r) v (mc_Password r).
Definition set_mc_password v r := mkRabbitMQConfig (mc_Host r) (mc_Port r) (mc_Username r) v.
Definition set_cc_bucket v k := mkCOSConfig v (cc_Region k) (cc_SecretID k) (cc_SecretKey k) (cc_PublicBaseURL k) (cc_TimeoutSeconds k).
Definition set_cc_region v k := mkCOSConfig (cc_Bucket k) v (cc_SecretID k) (cc_SecretKey k) (cc_PublicBaseURL k) (cc_TimeoutSeconds k).
Definition set_cc_id v k := mkCOSConfig (cc_Bucket k) (cc_Region k) v (cc_SecretKey k) (cc_PublicBaseURL k) (cc_TimeoutSeconds k).
Definition set_cc_key v k := mkCOSConfig (cc_Bucket k) (cc_Region k) (cc_SecretID k) v (cc_PublicBaseURL k) (cc_TimeoutSeconds k).
Definition set_cc_url v k := mkCOSConfig (cc_Bucket k) (cc_Region k) (cc_SecretID k) (cc_SecretKey k) v (cc_TimeoutSeconds k).
Definition set_cc_timeout v k := mkCOSConfig (cc_Bucket k) (cc_Region k) (cc_SecretID k) (cc_SecretKey k) (cc_PublicBaseURL k) v.

(** the statements of the function, in order *)
Definition overrides : list (Config → Config) :=
  [env_int "SERVER_PORT" (λ v, set_server (λ _, mkServerConfig v));
   env_string "MYSQL_HOST" (λ v, set_database (set_db_host v));
   env_int "MYSQL_PORT" (λ v, set_database (set_db_port v));
   env_string "MYSQL_USER" (λ v, set_database (set_db_user v));
   env_string "MYSQL_ROOT_PASSWORD" (λ v, set_database (set_db_password v));
   env_string "MYSQL_PASSWORD" (λ v, set_database (set_db_password v));
   env_string "MYSQL_DATABASE" (λ v, set_database (set_db_name v));
   env_string "REDIS_HOST" (λ v, set_redis (set_rc_host v));
   env_int "REDIS_PORT" (λ v, set_redis (set_rc_port v));
   env_string "REDIS_PASSWORD" (λ v, set_redis (set_rc_password v));
   env_int "REDIS_DB" (λ v, set_redis (set_rc_db v));
   env_string "RABBITMQ_HOST" (λ v, set_rabbit (set_mc_host v));
   env_int "RABBITMQ_PORT" (λ v, set_rabbit (set_mc_port v));
   env_string "RABBITMQ_USER" (λ v, set_rabbit (set_mc_user v));
   env_string "RABBITMQ_PASS" (λ v, set_rabbit (set_mc_password v));
   env_string "JWT_SECRET" (λ v, set_jwt (λ _, mkJWTConfig v));
   env_string "COS_BUCKET" (λ v, set_cos (set_cc_bucket v));
   env_string "COS_REGION" (λ v, set_cos (set_cc_region v));
   env_string "COS_SECRET_ID" (λ v, set_cos (set_cc_id v));
   env_string "COS_SECRET_KEY" (λ v, set_cos (set_cc_key v));
   env_string "COS_PUBLIC_BASE_URL" (λ v, set_cos (set_cc_url v));
   env_int "COS_TIMEOUT_SECONDS" (λ v, set_cos (set_cc_timeout v))].

(** [None]: a nil pointer *)
Definition ApplyEnvOverrides (config : option Config) : option Config :=
  match config with
  | None => None
  | Some c => Some (foldl (λ c f, f c) c overrides)
  end.

(** [yaml.Unmarshal] into a zero [Config], and the files of the machine *)
Variables (ReadFile : string → result string) (yaml_Unmarshal : string → result Config).

Definition Load (filename : string) : result Config :=
  match ReadFile filename with
  | Err _ => Err (ErrMsg "failed to read config file")
  | Ok data =>
      match yaml_Unmarshal data with
      | Err _ => Err (ErrMsg ("failed to parse config file " +:+ filename))
      | Ok config => match ApplyEnvOverrides (Some config) with
                     | Some c => Ok c
                     | None => Ok config
                     end
      end
  end.

(** *** What a field is after the overrides *)
Definition or_file (name : string) (old : string) : string :=
  if String.eqb (Getenv name) "" then old else Getenv name.
Definition or_file_int (name : string) (old : Z) : Z := default old (Atoi (Getenv name)).

Definition overridden (c : Config) : Config :=
  let d := cf_Database c in let r := cf_Redis c in let m := cf_RabbitMQ c in let k := cf_COS c in
  mkConfig
    (mkServerConfig (or_file_int "SERVER_PORT" (sv_Port (cf_Server c))))
    (mkDatabaseConfig (or_file "MYSQL_HOST" (db_Host d)) (or_file_int "MYSQL_PORT" (db_Port d))
       (or_file "MYSQL_USER" (db_User d))
       (or_file "MYSQL_PASSWORD" (or_file "MYSQL_ROOT_PASSWORD" (db_Password d)))
       (or_file "MYSQL_DATABASE" (db_DBName d)))
    (mkRedisConfig (or_file "REDIS_HOST" (rc_Host r)) (or_file_int "REDIS_PORT" (rc_Port r))
       (or_file "REDIS_PASSWORD" (rc_Password r)) (or_file_int "REDIS_DB" (rc_DB r)))
    (mkRabbitMQConfig (or_file "RABBITMQ_HOST" (mc_Host m)) (or_file_int "RABBITMQ_PORT" (mc_Port m))
       (or_file "RABBITMQ_USER" (mc_Username m)) (or_file "RABBITMQ_PASS" (mc_Password m)))
    (mkJWTConfig (or_file "JWT_SECRET" (jc_JWTSecret (cf_JWT c))))
    (mkCOSConfig (or_file "COS_BUCKET" (cc_Bucket k)) (or_file "COS_REGION" (cc_Region k))
       (or_file "COS_SECRET_ID" (cc_SecretID k)) (or_file "COS_SECRET_KEY" (cc_SecretKey k))
       (or_file "COS_PUBLIC_BASE_URL" (cc_PublicBaseURL k))
       (or_file_int "COS_TIMEOUT_SECONDS" (cc_TimeoutSeconds k)))
    (cf_Observability c).
End env.

Section facts.
Variable (Getenv : string → string).
Implicit Types (c : Config).

Lemma env_string_set name set c old :
  set old c = c → env_string Getenv name set c = set (or_file Getenv name old) c.
Proof. unfold env_string, or_file. intros Hs. by destruct (String.eqb (Getenv name) ""). Qed.

Lemma env_int_set name set c old :
  set old c = c → env_int Getenv name set c = set (or_file_int Getenv name old) c.
Proof.
  unfold env_int, or_file_int. intros Hs. destruct (String.eqb_spec (Getenv name) "") as [->|]; [done|].
  by destruct (Atoi (Getenv name)).
Qed.

Ltac override_step :=
  match goal with
  | |- context [env_string Getenv ?n ?s (mkConfig ?a1 ?a2 ?a3 ?a4 ?a5 ?a6 ?a7)] =>
      erewrite (env_string_set n s (mkConfig a1 a2 a3 a4 a5 a6 a7)) by reflexivity
  | |- context [env_int Getenv ?n ?s (mkConfig ?a1 ?a2 ?a3 ?a4 ?a5 ?a6 ?a7)] =>
      erewrite (env_int_set n s (mkConfig a1 a2 a3 a4 a5 a6 a7)) by reflexivity
  end;
  cbv beta iota delta [set_server set_database set_redis set_rabbit set_jwt set_cos cf_Server cf_Database cf_Redis
       cf_RabbitMQ cf_JWT cf_COS cf_Observability].

Lemma overrides_eq c : foldl (λ c f, f c) c (overrides Getenv) = overridden Getenv c.
Proof.
  destruct c as [[p] [dh dp du dw dn] [rh rp rw rd] [mh mp mu mw] [j] [b r i k u t] o].
  unfold overrides. cbn [foldl]. repeat override_step.
  reflexivity.
Qed.

Lemma or_file_idem n x : or_file Getenv n (or_file Getenv n x) = or_file Getenv n x.
Proof. unfold or_file. by destruct (String.eqb _ _). Qed.
Lemma or_file_int_idem n x : or_file_int Getenv n (or_file_int Getenv n x) = or_file_int Getenv n x.
Proof. unfold or_file_int. by destruct (Atoi _). Qed.
Lemma password_idem p r x :
  or_file Getenv p (or_file Getenv r (or_file Getenv p (or_file Getenv r x))) =
    or_file Getenv p (or_file Getenv r x).
Proof. unfold or_file. by destruct (String.eqb (Getenv p) ""), (String.eqb (Getenv r) ""). Qed.

(** A variable that is set wins over the file, and what is not set stays:
    text fields take any text that is not empty, MYSQL_PASSWORD before
    MYSQL_ROOT_PASSWORD, numbers only what is a decimal int, and the
    observability section cannot be overridden.  Overriding twice is
    overriding once. *)
Theorem ApplyEnvOverrides_spec c :
  ApplyEnvOverrides Getenv (Some c) = Some (overridden Getenv c) ∧
  ApplyEnvOverrides Getenv (ApplyEnvOverrides Getenv (Some c)) = ApplyEnvOverrides Getenv (Some c) ∧
  ApplyEnvOverrides Getenv None = None.
Proof.
  unfold ApplyEnvOverrides. rewrite !overrides_eq. split; [done|]. split; [|done]. f_equal.
  unfold overridden.
  cbn [cf_Server cf_Database cf_Redis cf_RabbitMQ cf_JWT cf_COS cf_Observability sv_Port db_Host db_Port
       db_User db_Password db_DBName rc_Host rc_Port rc_Password rc_DB mc_Host mc_Port mc_Username
       mc_Password jc_JWTSecret cc_Bucket cc_Region cc_SecretID cc_SecretKey cc_PublicBaseURL
       cc_TimeoutSeconds].
  by rewrite password_idem, !or_file_idem, !or_file_int_idem.
Qed.
End facts.

(** The texts of the repository's own tests. *)
Example atoi_demo :
  Atoi "9090" = Some 9090 ∧ Atoi "-1" = Some (-1) ∧ Atoi "+7" = Some 7 ∧
  Atoi "not-number" = None ∧ Atoi "" = None ∧ Atoi "9223372036854775808" = None ∧
  Atoi "-9223372036854775808" = Some (- 2 ^ 63) ∧ Atoi "-" = None.
Proof. by vm_compute. Qed.
