(* ===== verification/Paths.v ===== *)
(** Go's [path.Join], [path.Clean] and [filepath.Ext] (slash-separated paths),
    [strings.TrimLeft] and [TrimRight] of a slash, and what they do to paths
    made of plain segments. *)
From S2P Require Import Prelude GoStd TextFacts.
From Stdlib Require Import Ascii DecimalString.
Local Open Scope Z_scope.
Local Open Scope string_scope.

(** ** Definitions *)

(** [strings.Split(s, a)] for a separator of one character *)
Fixpoint split_on (a : ascii) (s : string) : list string :=
  match s with
  | EmptyString => [""]
  | String b s' =>
      if Ascii.eqb a b then "" :: split_on a s'
      else match split_on a s' with
           | h :: t => String b h :: t
           | [] => [String b ""]
           end
  end.

Definition slash : ascii := "/"%char.

(** one segment against the segments kept so far, the last one first *)
Definition clean_step (rooted : bool) (kept : list string) (seg : string) : list string :=
  if String.eqb seg "" || String.eqb seg "." then kept
  else if String.eqb seg ".." then
    match kept with
    | top :: rest => if String.eqb top ".." then ".." :: kept else rest
    | [] => if rooted then [] else [".."]
    end
  else seg :: kept.

Definition Clean (p : string) : string :=
  let rooted := HasPrefix p "/" in
  let out := String.concat "/" (reverse (foldl (clean_step rooted) [] (split_on slash p))) in
  if rooted then "/" +:+ out else if String.eqb out "" then "." else out.

Definition Join (elems : list string) : string :=
  match List.filter (λ e, negb (String.eqb e "")) elems with
  | [] => ""
  | l => Clean (String.concat "/" l)
  end.

(** the suffix from the last dot of the last segment; [acc] is the suffix of
    [s] after the last dot seen so far *)
Fixpoint ext_from (s acc : string) : string :=
  match s with
  | EmptyString => acc
  | String a s' =>
      if Ascii.eqb a slash then ext_from s' ""
      else if Ascii.eqb a "."%char then ext_from s' s
      else ext_from s' acc
  end.
Definition Ext (p : string) : string := ext_from p "".

(** [strings.TrimLeft(s, "/")], [strings.TrimRight(s, "/")] *)
Definition TrimLeftSlash (s : string) : string := trim_left ["/"] s.
Definition TrimRightSlash (s : string) : string := trim_right ["/"] s.

(** [t.Format("20060102")] of an instant in the zone [offset] milliseconds
    east of UTC *)
Definition FormatDate (offset : Z) (t : time) : string :=
  let '(y, m, d) := civil ((t + offset) / 86400000) in
  pad 4 y +:+ pad 2 m +:+ pad 2 d.

Example ext_simple : Ext "dir.d/clip.tar.MP4" = ".MP4". Proof. reflexivity. Qed.
Example ext_none : Ext "dir.d/clip" = "". Proof. reflexivity. Qed.
Example join_dots : Join ["a"; ""; "../b//c/."; "d"] = "b/c/d". Proof. reflexivity. Qed.
Example join_up : Join [".."; "..//x"] = "../../x". Proof. reflexivity. Qed.
Example format_date : FormatDate (8 * 3600000) 1700000000000 = "20231115". Proof. by vm_compute. Qed.

(** ** Plain segments *)
Definition plain (s : string) : Prop :=
  has_char slash s = false ∧ s ≠ "" ∧ s ≠ "." ∧ s ≠ "..".

Lemma split_on_plain a s : has_char a s = false → split_on a s = [s].
Proof.
  induction s as [|b s IH]; simpl; [done|]. intros [Hb Hs]%orb_false_iff.
  by rewrite Hb, (IH Hs).
Qed.

Lemma split_on_app a s t :
  has_char a s = false → split_on a (s +:+ String a t) = s :: split_on a t.
Proof.
  induction s as [|b s IH].
  - intros _. change ("" +:+ String a t) with (String a t). simpl. by rewrite Ascii.eqb_refl.
  - rewrite string_app_cons. simpl. intros [Hb Hs]%orb_false_iff. by rewrite Hb, (IH Hs).
Qed.

Lemma concat_cons a b l :
  String.concat "/" (a :: b :: l) = a +:+ String slash (String.concat "/" (b :: l)).
Proof. done. Qed.

Lemma split_concat l :
  l ≠ [] → Forall (λ s, has_char slash s = false) l → split_on slash (String.concat "/" l) = l.
Proof.
  intros Hne Hl. induction Hl as [|a [|b l] Ha Hl IH]; [done|by apply split_on_plain|].
  rewrite concat_cons, split_on_app by done. f_equal. by apply IH.
Qed.

Lemma clean_plain kept l :
  Forall plain l → foldl (clean_step false) kept l = (reverse l ++ kept)%list.
Proof.
  intros Hl. revert kept. induction Hl as [|s l (_ & H0 & H1 & H2) _ IH]; intros kept; [done|].
  simpl. rewrite IH. unfold clean_step.
  apply String.eqb_neq in H0, H1, H2. rewrite H0, H1, H2. simpl.
  by rewrite reverse_cons, <-(assoc_L (++)).
Qed.

Lemma plain_head s t : plain s → HasPrefix (s +:+ t) "/" = false.
Proof.
  intros (Hs & Hne & _). destruct s as [|a s]; [done|]. unfold HasPrefix.
  rewrite string_app_cons. simpl in *. apply orb_false_iff in Hs as [Hs _].
  unfold slash in Hs. by rewrite Hs.
Qed.

Lemma concat_nonempty l : l ≠ [] → Forall plain l → String.concat "/" l ≠ "".
Proof.
  destruct l as [|s l]; [done|]. intros _ [(_ & H0 & _) _]%list.Forall_cons.
  destruct s as [|a s]; [done|]. by destruct l.
Qed.

Lemma Clean_plain l : l ≠ [] → Forall plain l → Clean (String.concat "/" l) = String.concat "/" l.
Proof.
  intros Hne Hl. destruct l as [|s l]; [done|].
  assert (HasPrefix (String.concat "/" (s :: l)) "/" = false) as Hroot.
  { apply list.Forall_cons in Hl as [Hs _]. destruct l as [|b l].
    - rewrite <-(string_app_nil_r (String.concat _ _)). by apply plain_head.
    - rewrite concat_cons. by apply plain_head. }
  unfold Clean. rewrite Hroot, split_concat, clean_plain, app_nil_r, reverse_involutive by
    (done || by eapply list.Forall_impl; [exact Hl|intros ? []]).
  apply concat_nonempty in Hl; [|done]. apply String.eqb_neq in Hl. by rewrite Hl.
Qed.

Lemma Join_nonempty l : l ≠ [] → Forall (λ s, s ≠ "") l → Join l = Clean (String.concat "/" l).
Proof.
  intros Hne Hl. unfold Join. rewrite lfilter_all; [by destruct l|].
  intros s Hs. eapply list.Forall_forall in Hl; [|done]. by apply negb_true_iff, String.eqb_neq.
Qed.

(** Joining plain segments puts a slash between them and changes nothing, in
    one go or by joining to what was joined. *)
Lemma Join_plain l : l ≠ [] → Forall plain l → Join l = String.concat "/" l.
Proof.
  intros Hne Hl. rewrite Join_nonempty, Clean_plain; try done.
  eapply list.Forall_impl; [exact Hl|]. by intros s (_ & ? & _).
Qed.

Lemma concat_joined l f : l ≠ [] →
  String.concat "/" [String.concat "/" l; f] = String.concat "/" (l ++ [f]).
Proof.
  intros Hl. induction l as [|a [|b l] IH]; [done|done|].
  specialize (IH ltac:(done)). cbn [app] in *. rewrite (concat_cons a b (l ++ [f])), <-IH.
  rewrite (concat_cons a b l), !concat_cons. cbn [String.concat].
  by rewrite <-string_app_assoc, string_app_cons.
Qed.

Lemma Join_nested l f : l ≠ [] → Forall plain l → plain f →
  Join [String.concat "/" l; f] = String.concat "/" (l ++ [f]).
Proof.
  intros Hne Hl Hf. rewrite Join_nonempty; [|done|].
  - rewrite concat_joined by done. apply Clean_plain; [by destruct l|].
    apply list.Forall_app; split; [done|]. by apply list.Forall_cons.
  - apply list.Forall_cons; split; [by apply concat_nonempty|].
    apply list.Forall_cons; split; [apply Hf|done].
Qed.

(** Decimal text is a plain segment. *)
Lemma has_char_uint a d :
  (∀ c, c ∈ String.list_ascii_of_string "0123456789" → Ascii.eqb a c = false) →
  has_char a (NilEmpty.string_of_uint d) = false.
Proof.
  intros Ha. induction d; simpl; [done|rewrite IHd, Ha by (simpl; set_solver); done..].
Qed.

Lemma has_char_dec a z :
  (∀ c, c ∈ String.list_ascii_of_string "-0123456789" → Ascii.eqb a c = false) →
  has_char a (dec z) = false.
Proof.
  intros Ha. unfold dec.
  assert (∀ c, c ∈ String.list_ascii_of_string "0123456789" → Ascii.eqb a c = false) as Ha'
    by (intros c Hc; apply Ha; by right).
  destruct (Z.to_int z); simpl; rewrite ?Ha by (by left); by apply has_char_uint.
Qed.

Lemma dec_nonempty z : dec z ≠ "".
Proof.
  unfold dec. destruct z as [|p|p]; simpl; try done.
  apply string_of_uint_nonempty, DecimalPos.Unsigned.to_uint_nonnil.
Qed.

Lemma has_char_zeros a n : Ascii.eqb a "0"%char = false →
  has_char a (String.concat "" (replicate n "0")) = false.
Proof.
  intros Ha. induction n as [|[|n] IH]; [done|by simpl; rewrite Ha|].
  change (String.concat "" (replicate (S (S n)) "0"))
    with ("0" +:+ String.concat "" (replicate (S n) "0")).
  rewrite has_char_app, IH. simpl. by rewrite Ha.
Qed.

Lemma has_char_pad a n z :
  (∀ c, c ∈ String.list_ascii_of_string "-0123456789" → Ascii.eqb a c = false) →
  has_char a (pad n z) = false.
Proof.
  intros Ha. unfold pad. rewrite has_char_app, has_char_dec, has_char_zeros by
    (done || apply Ha; simpl; set_solver). done.
Qed.

Lemma no_char_plain s : has_char slash s = false → has_char "."%char s = false → s ≠ "" → plain s.
Proof. intros Hs Hd Hne. split; [done|]. split; [done|]. by split; intros ->. Qed.

Lemma not_decimal a : Ascii.eqb a slash || Ascii.eqb a "."%char = true →
  ∀ c, c ∈ String.list_ascii_of_string "-0123456789" → Ascii.eqb a c = false.
Proof.
  intros [->%Ascii.eqb_eq| ->%Ascii.eqb_eq]%orb_true_iff c Hc; simpl in Hc;
    repeat (apply elem_of_cons in Hc as [->|Hc]; [done|]); by apply elem_of_nil in Hc.
Qed.

Lemma plain_dec z : plain (dec z).
Proof. apply no_char_plain; [by apply has_char_dec, not_decimal..|apply dec_nonempty]. Qed.

Lemma plain_date offset t : plain (FormatDate offset t).
Proof.
  unfold FormatDate. destruct (civil _) as [[y m] d].
  apply no_char_plain; rewrite ?has_char_app, ?has_char_pad by (by apply not_decimal); [done..|].
  unfold pad. destruct (String.concat "" _) as [|a s] eqn:E; [|by rewrite string_app_cons].
  change ("" +:+ dec y) with (dec y). pose proof (dec_nonempty y). by destruct (dec y).
Qed.
