(* ===== verification/Query.v ===== *)
(** ORDER BY and LIMIT: sort keys, the preorder they give, and what a SELECT
    statement is documented to return.  Rows that tie on every key may come in
    any order, so a SELECT is specified by a relation. *)
From S2P Require Import Prelude.
Local Open Scope Z_scope.

Inductive okey (A : Type) : Type :=
| Asc (f : A → Z)
| Desc (f : A → Z).
Arguments Asc {A} f.
Arguments Desc {A} f.

Definition okey_val {A} (k : okey A) (a : A) : Z :=
  match k with Asc f => f a | Desc f => - f a end.

Fixpoint ord_cmp {A} (ks : list (okey A)) (a b : A) : comparison :=
  match ks with
  | [] => Eq
  | k :: ks' => match okey_val k a ?= okey_val k b with
                | Eq => ord_cmp ks' a b
                | c => c
                end
  end.

Definition ord_le {A} (ks : list (okey A)) (a b : A) : Prop := ord_cmp ks a b ≠ Gt.
Definition ord_lt {A} (ks : list (okey A)) (a b : A) : Prop := ord_cmp ks a b = Lt.

Definition limited {A} (lim : option nat) (l : list A) : list A :=
  match lim with None => l | Some n => take n l end.

(** gorm's [Limit(n)]: a negative limit is no limit. *)
Definition sql_limit (n : Z) : option nat :=
  if n <? 0 then None else Some (Z.to_nat n).

(** [is_select wh ks lim l rs]: [rs] is an answer to
    SELECT ... FROM l WHERE wh ORDER BY ks LIMIT lim. *)
Definition is_select {A} (wh : A → bool) (ks : list (okey A)) (lim : option nat)
    (l rs : list A) : Prop :=
  ∃ srt, srt ≡ₚ List.filter wh l ∧ StronglySorted (ord_le ks) srt ∧ rs = limited lim srt.

Section ord.
Context {A : Type}.
Implicit Types ks : list (okey A).

Lemma ord_cmp_opp ks a b : ord_cmp ks b a = CompOpp (ord_cmp ks a b).
Proof.
  induction ks as [|k ks IH]; simpl; [done|].
  rewrite (Z.compare_antisym (okey_val k a)).
  by destruct (okey_val k a ?= okey_val k b); simpl.
Qed.

Lemma ord_cmp_refl ks a : ord_cmp ks a a = Eq.
Proof. induction ks as [|k ks IH]; simpl; [done|]. by rewrite Z.compare_refl. Qed.

#[export] Instance ord_le_dec ks : RelDecision (ord_le ks).
Proof. intros a b. unfold ord_le. destruct (ord_cmp ks a b); [left|left|right]; congruence. Defined.

#[export] Instance ord_le_total ks : Total (ord_le ks).
Proof.
  intros a b. unfold ord_le. rewrite (ord_cmp_opp ks a b).
  destruct (ord_cmp ks a b); simpl; auto; left; congruence.
Qed.

#[export] Instance ord_le_trans ks : Transitive (ord_le ks).
Proof.
  intros a b c. unfold ord_le. induction ks as [|k ks IH]; simpl; [done|].
  destruct (Z.compare_spec (okey_val k a) (okey_val k b)),
    (Z.compare_spec (okey_val k b) (okey_val k c)),
    (Z.compare_spec (okey_val k a) (okey_val k c)); try lia; try done; auto.
Qed.

Lemma ord_le_lt_eq ks a b : ord_le ks a b ↔ ord_lt ks a b ∨ ord_cmp ks a b = Eq.
Proof. unfold ord_le, ord_lt. destruct (ord_cmp ks a b); naive_solver. Qed.

Lemma ord_lt_irrefl ks a : ¬ ord_lt ks a a.
Proof. unfold ord_lt. by rewrite ord_cmp_refl. Qed.

Lemma ord_lt_asym ks a b : ord_lt ks a b → ¬ ord_le ks b a.
Proof. unfold ord_lt, ord_le. rewrite (ord_cmp_opp ks a b). intros ->. auto. Qed.

(** The order is total on rows that no two of which tie. *)
Definition distinct_on ks (l : list A) : Prop :=
  ∀ x y, x ∈ l → y ∈ l → ord_cmp ks x y = Eq → x = y.

Lemma distinct_on_sub ks l l' :
  (∀ x, x ∈ l' → x ∈ l) → distinct_on ks l → distinct_on ks l'.
Proof. unfold distinct_on. eauto. Qed.

Lemma ord_le_antisym ks l x y :
  distinct_on ks l → x ∈ l → y ∈ l → ord_le ks x y → ord_le ks y x → x = y.
Proof.
  intros Hd Hx Hy H1 H2. apply Hd; [done..|].
  apply ord_le_lt_eq in H1 as [H1|H1]; [|done].
  by apply ord_lt_asym in H1.
Qed.

(** The listing a SELECT without LIMIT returns when no two rows tie. *)
Definition order_by ks (l : list A) : list A := merge_sort (ord_le ks) l.

Lemma order_by_sorted ks l : StronglySorted (ord_le ks) (order_by ks l).
Proof. apply StronglySorted_merge_sort; apply _. Qed.

Lemma order_by_perm ks l : order_by ks l ≡ₚ l.
Proof. apply merge_sort_Permutation. Qed.

Lemma order_by_unique ks l srt :
  distinct_on ks l → srt ≡ₚ l → StronglySorted (ord_le ks) srt → srt = order_by ks l.
Proof.
  intros Hd Hp Hs. apply (StronglySorted_perm_eq (ord_le ks)).
  - intros x y. rewrite Hp. by apply ord_le_antisym.
  - done.
  - apply order_by_sorted.
  - by rewrite order_by_perm.
Qed.

Lemma order_by_sorted_id ks l :
  distinct_on ks l → StronglySorted (ord_le ks) l → order_by ks l = l.
Proof. intros Hd Hs. symmetry. by apply order_by_unique. Qed.

Lemma order_by_filter ks (f : A → bool) l :
  distinct_on ks l → order_by ks (List.filter f l) = List.filter f (order_by ks l).
Proof.
  intros Hd. symmetry. apply order_by_unique.
  - eapply distinct_on_sub; [|done]. intros x. rewrite elem_of_lfilter. tauto.
  - apply lfilter_perm, order_by_perm.
  - apply StronglySorted_lfilter, order_by_sorted.
Qed.

Lemma is_select_order_by wh ks lim l :
  is_select wh ks lim l (limited lim (order_by ks (List.filter wh l))).
Proof.
  eexists; split_and!; [|apply order_by_sorted|done]. apply order_by_perm.
Qed.

(** With distinct keys a SELECT has exactly one answer. *)
Lemma is_select_unique wh ks lim l rs :
  distinct_on ks (List.filter wh l) →
  is_select wh ks lim l rs → rs = limited lim (order_by ks (List.filter wh l)).
Proof.
  intros Hd (srt & Hp & Hs & ->). f_equal. by apply order_by_unique.
Qed.

Lemma elem_of_limited lim (l : list A) x : x ∈ limited lim l → x ∈ l.
Proof.
  destruct lim as [n|]; [|done]. simpl. intros Hx.
  rewrite <-(take_drop n l). apply elem_of_app. by left.
Qed.

Lemma is_select_elem wh ks lim l rs x :
  is_select wh ks lim l rs → x ∈ rs → wh x = true ∧ x ∈ l.
Proof.
  intros (srt & Hp & _ & ->) Hx%elem_of_limited. by rewrite Hp, elem_of_lfilter in Hx.
Qed.

Lemma is_select_all wh ks l rs x :
  is_select wh ks None l rs → wh x = true → x ∈ l → x ∈ rs.
Proof. intros (srt & Hp & _ & ->) Hw Hx. simpl. by rewrite Hp, elem_of_lfilter. Qed.

Lemma is_select_length wh ks n l rs :
  is_select wh ks (Some n) l rs →
  length rs = Nat.min n (length (List.filter wh l)).
Proof. intros (srt & Hp & _ & ->). simpl. by rewrite length_take, Hp. Qed.

Lemma is_select_sorted wh ks lim l rs :
  is_select wh ks lim l rs → StronglySorted (ord_le ks) rs.
Proof.
  intros (srt & Hp & Hs & ->). destruct lim as [n|]; [|done]. simpl.
  rewrite <-(take_drop n srt) in Hs. by eapply StronglySorted_app_1_l.
Qed.
End ord.

Lemma is_select_NoDup {A} (wh : A → bool) ks lim l rs :
  NoDup l → is_select wh ks lim l rs → NoDup rs.
Proof.
  intros Hn (srt & Hp & _ & ->).
  assert (NoDup srt) as Hs by (rewrite Hp; by apply lfilter_NoDup).
  destruct lim as [n|]; [|done]. simpl. rewrite <-(take_drop n srt) in Hs.
  by apply list.NoDup_app in Hs as [? _].
Qed.
