(* ===== verification/Entities.v ===== *)
(** The rows of the schema (the [entity.go] files and [db.AutoMigrate]) and
    the database as a record of tables keyed by primary key. *)
From S2P Require Import Prelude GoStd.
Local Open Scope Z_scope.

(** ** Rows *)
Record Account := mkAccount {
  ac_ID : Z; ac_Username : string; ac_Password : string; ac_Token : string;
  ac_RefreshToken : string; ac_AvatarURL : string; ac_Bio : string }.

Record Video := mkVideo {
  v_ID : Z; v_AuthorID : Z; v_Username : string; v_Title : string;
  v_Description : string; v_PlayURL : string; v_CoverURL : string;
  v_CreateTime : time; v_LikesCount : Z; v_Popularity : Z }.

Inductive OutboxStatus : Type :=
| OutboxStatusPending | OutboxStatusProcessing
| OutboxStatusPublished | OutboxStatusFailed.

Record OutboxMsg := mkOutboxMsg {
  o_ID : Z; o_VideoID : Z; o_EventType : string; o_CreateTime : time;
  o_Status : OutboxStatus; o_RetryCount : Z; o_LastError : string;
  o_UpdatedAt : time; o_PublishedAt : option time }.

Record Tag := mkTag { t_ID : Z; t_Name : string }.
Record VideoTag := mkVideoTag { vt_ID : Z; vt_VideoID : Z; vt_TagID : Z }.
Record Like := mkLike {
  l_ID : Z; l_VideoID : Z; l_AccountID : Z; l_CreatedAt : time }.
Record Comment := mkComment {
  c_ID : Z; c_EventID : string; c_Username : string; c_VideoID : Z;
  c_AuthorID : Z; c_Content : string; c_CreatedAt : time }.
Record Social := mkSocial { s_ID : Z; s_FollowerID : Z; s_VloggerID : Z }.
Record Message := mkMessage {
  m_ID : Z; m_FromID : Z; m_ToID : Z; m_Content : string; m_IsRead : bool;
  m_CreatedAt : time }.
Record Notification := mkNotification {
  n_ID : Z; n_EventID : string; n_RecipientID : Z; n_SenderID : Z;
  n_Type : string; n_TargetID : Z; n_Content : string; n_IsRead : bool;
  n_CreatedAt : time }.

#[export] Instance account_eq_dec : EqDecision Account.
Proof. solve_decision. Defined.
#[export] Instance video_eq_dec : EqDecision Video.
Proof. solve_decision. Defined.
#[export] Instance outbox_status_eq_dec : EqDecision OutboxStatus.
Proof. solve_decision. Defined.
#[export] Instance outbox_eq_dec : EqDecision OutboxMsg.
Proof. solve_decision. Defined.
#[export] Instance tag_eq_dec : EqDecision Tag.
Proof. solve_decision. Defined.
#[export] Instance videotag_eq_dec : EqDecision VideoTag.
Proof. solve_decision. Defined.
#[export] Instance like_eq_dec : EqDecision Like.
Proof. solve_decision. Defined.
#[export] Instance comment_eq_dec : EqDecision Comment.
Proof. solve_decision. Defined.
#[export] Instance social_eq_dec : EqDecision Social.
Proof. solve_decision. Defined.
#[export] Instance message_eq_dec : EqDecision Message.
Proof. solve_decision. Defined.
#[export] Instance notification_eq_dec : EqDecision Notification.
Proof. solve_decision. Defined.

Definition status_text (s : OutboxStatus) : string :=
  match s with
  | OutboxStatusPending => "pending"
  | OutboxStatusProcessing => "processing"
  | OutboxStatusPublished => "published"
  | OutboxStatusFailed => "failed"
  end.

(** ** The database *)
Record Db := mkDb {
  d_accounts : gmap Z Account; d_videos : gmap Z Video;
  d_outbox : gmap Z OutboxMsg; d_tags : gmap Z Tag;
  d_video_tags : gmap Z VideoTag; d_likes : gmap Z Like;
  d_comments : gmap Z Comment; d_socials : gmap Z Social;
  d_messages : gmap Z Message; d_notifications : gmap Z Notification }.

Definition empty_db : Db := mkDb ∅ ∅ ∅ ∅ ∅ ∅ ∅ ∅ ∅ ∅.

(** One constructor per model of [db.AutoMigrate]. *)
Inductive table : Type → Type :=
| TAccount : table Account
| TVideo : table Video
| TOutbox : table OutboxMsg
| TTag : table Tag
| TVideoTag : table VideoTag
| TLike : table Like
| TComment : table Comment
| TSocial : table Social
| TMessage : table Message
| TNotification : table Notification.

Definition tget {R} (T : table R) (d : Db) : gmap Z R :=
  match T in table R return gmap Z R with
  | TAccount => d_accounts d | TVideo => d_videos d | TOutbox => d_outbox d
  | TTag => d_tags d | TVideoTag => d_video_tags d | TLike => d_likes d
  | TComment => d_comments d | TSocial => d_socials d | TMessage => d_messages d
  | TNotification => d_notifications d
  end.

Definition tset {R} (T : table R) (t : gmap Z R) (d : Db) : Db :=
  let 'mkDb ac vi ou ta vt li co so me no := d in
  match T in table R return gmap Z R → Db with
  | TAccount => λ t, mkDb t vi ou ta vt li co so me no
  | TVideo => λ t, mkDb ac t ou ta vt li co so me no
  | TOutbox => λ t, mkDb ac vi t ta vt li co so me no
  | TTag => λ t, mkDb ac vi ou t vt li co so me no
  | TVideoTag => λ t, mkDb ac vi ou ta t li co so me no
  | TLike => λ t, mkDb ac vi ou ta vt t co so me no
  | TComment => λ t, mkDb ac vi ou ta vt li t so me no
  | TSocial => λ t, mkDb ac vi ou ta vt li co t me no
  | TMessage => λ t, mkDb ac vi ou ta vt li co so t no
  | TNotification => λ t, mkDb ac vi ou ta vt li co so me t
  end t.

Definition row_id {R} (T : table R) : R → Z :=
  match T in table R return R → Z with
  | TAccount => ac_ID | TVideo => v_ID | TOutbox => o_ID | TTag => t_ID
  | TVideoTag => vt_ID | TLike => l_ID | TComment => c_ID | TSocial => s_ID
  | TMessage => m_ID | TNotification => n_ID
  end.

(** The text columns of a row: whether they fit the column types decides
    whether MySQL accepts the row. *)
Definition row_texts {R} (T : table R) : R → list string :=
  match T in table R return R → list string with
  | TAccount => λ r, [ac_Username r; ac_Password r; ac_Token r; ac_RefreshToken r;
                      ac_AvatarURL r; ac_Bio r]
  | TVideo => λ r, [v_Username r; v_Title r; v_Description r; v_PlayURL r; v_CoverURL r]
  | TOutbox => λ r, [o_EventType r; o_LastError r]
  | TTag => λ r, [t_Name r]
  | TVideoTag => λ _, []
  | TLike => λ _, []
  | TComment => λ r, [c_EventID r; c_Username r; c_Content r]
  | TSocial => λ _, []
  | TMessage => λ r, [m_Content r]
  | TNotification => λ r, [n_EventID r; n_Type r; n_Content r]
  end.

Definition stamp (now t : time) : time := if IsZero t then now else t.

(** The row an INSERT of [r] stores: the generated primary key, and [now] in
    the autoCreateTime and autoUpdateTime columns left zero. *)
Definition row_stored {R} (T : table R) (id : Z) (now : time) : R → R :=
  match T in table R return R → R with
  | TAccount => λ r, mkAccount id (ac_Username r) (ac_Password r) (ac_Token r)
                       (ac_RefreshToken r) (ac_AvatarURL r) (ac_Bio r)
  | TVideo => λ r, mkVideo id (v_AuthorID r) (v_Username r) (v_Title r)
                     (v_Description r) (v_PlayURL r) (v_CoverURL r)
                     (stamp now (v_CreateTime r)) (v_LikesCount r) (v_Popularity r)
  | TOutbox => λ r, mkOutboxMsg id (o_VideoID r) (o_EventType r)
                      (stamp now (o_CreateTime r)) (o_Status r) (o_RetryCount r)
                      (o_LastError r) (stamp now (o_UpdatedAt r)) (o_PublishedAt r)
  | TTag => λ r, mkTag id (t_Name r)
  | TVideoTag => λ r, mkVideoTag id (vt_VideoID r) (vt_TagID r)
  | TLike => λ r, mkLike id (l_VideoID r) (l_AccountID r) (stamp now (l_CreatedAt r))
  | TComment => λ r, mkComment id (c_EventID r) (c_Username r) (c_VideoID r)
                       (c_AuthorID r) (c_Content r) (stamp now (c_CreatedAt r))
  | TSocial => λ r, mkSocial id (s_FollowerID r) (s_VloggerID r)
  | TMessage => λ r, mkMessage id (m_FromID r) (m_ToID r) (m_Content r) (m_IsRead r)
                       (stamp now (m_CreatedAt r))
  | TNotification => λ r, mkNotification id (n_EventID r) (n_RecipientID r)
                            (n_SenderID r) (n_Type r) (n_TargetID r) (n_Content r)
                            (n_IsRead r) (stamp now (n_CreatedAt r))
  end.

(** The rows of a table, in no particular order. *)
Definition rows {R} (T : table R) (d : Db) : list R := (map_to_list (tget T d)).*2.

(** Every row is stored under its primary key. *)
Definition keyed {R} (T : table R) (d : Db) : Prop :=
  ∀ k r, tget T d !! k = Some r → row_id T r = k.

(** ** Lemmas on tables *)
Lemma tget_tset {R} (T : table R) t d : tget T (tset T t d) = t.
Proof. by destruct T, d. Qed.

Lemma tset_tset {R} (T : table R) t t' d : tset T t (tset T t' d) = tset T t d.
Proof. by destruct T, d. Qed.

Lemma tset_tget {R} (T : table R) d : tset T (tget T d) d = d.
Proof. by destruct T, d. Qed.

Lemma row_id_stored {R} (T : table R) id now r : row_id T (row_stored T id now r) = id.
Proof. by destruct T. Qed.

Lemma row_texts_stored {R} (T : table R) id now (r : R) :
  row_texts T (row_stored T id now r) = row_texts T r.
Proof. by destruct T. Qed.

Definition row_eq_dec {R} (T : table R) : EqDecision R :=
  match T in table R return EqDecision R with
  | TAccount => account_eq_dec | TVideo => video_eq_dec | TOutbox => outbox_eq_dec
  | TTag => tag_eq_dec | TVideoTag => videotag_eq_dec | TLike => like_eq_dec
  | TComment => comment_eq_dec | TSocial => social_eq_dec
  | TMessage => message_eq_dec | TNotification => notification_eq_dec
  end.

Lemma elem_of_rows {R} (T : table R) d r :
  r ∈ rows T d ↔ ∃ k, tget T d !! k = Some r.
Proof.
  unfold rows. rewrite list_elem_of_fmap. split.
  - intros ([k r'] & -> & H%elem_of_map_to_list). eauto.
  - intros [k H]. exists (k, r). split; [done|]. by apply elem_of_map_to_list.
Qed.

Lemma elem_of_rows_keyed {R} (T : table R) d r :
  keyed T d → r ∈ rows T d ↔ tget T d !! row_id T r = Some r.
Proof.
  intros Hk. rewrite elem_of_rows. split; [|eauto].
  intros [k H]. by rewrite (Hk _ _ H).
Qed.

Lemma NoDup_rows {R} (T : table R) d : keyed T d → NoDup (rows T d).
Proof.
  intros Hk. unfold rows. apply NoDup_fmap_2_strong; [|apply NoDup_map_to_list].
  intros [k1 r1] [k2 r2] H1%elem_of_map_to_list H2%elem_of_map_to_list E.
  simpl in *. subst r2. apply Hk in H1, H2. congruence.
Qed.

(** ** Texts and unique indexes

    The weights of a text in the collation of the text columns: MySQL takes
    two texts as equal when their weights are, whatever their bytes. *)
Class Collation := { collate : string → string }.

Section collation.
Context `{Collation}.

(** [a = b] of two texts in a WHERE clause *)
Definition text_eq (a b : string) : bool := String.eqb (collate a) (collate b).

Lemma text_eq_spec a b : text_eq a b = true ↔ collate a = collate b.
Proof. apply String.eqb_eq. Qed.

Lemma text_eq_refl a : text_eq a a = true.
Proof. apply String.eqb_refl. Qed.

(** The value of a row on the unique index of its table, beside the primary
    key, a text by its weights; [None] where the schema has no such index. *)
Definition row_key {R} (T : table R) : R → option (list (Z + string)) :=
  match T in table R return R → option (list (Z + string)) with
  | TAccount => λ r, Some [inr (collate (ac_Username r))]
  | TTag => λ r, Some [inr (collate (t_Name r))]
  | TLike => λ r, Some [inl (l_VideoID r); inl (l_AccountID r)]
  | TComment => λ r, Some [inr (collate (c_EventID r))]
  | TSocial => λ r, Some [inl (s_FollowerID r); inl (s_VloggerID r)]
  | TNotification => λ r, Some [inr (collate (n_EventID r))]
  | TVideo => λ _, None | TOutbox => λ _, None
  | TVideoTag => λ _, None | TMessage => λ _, None
  end.

Definition row_clash {R} (T : table R) (r r' : R) : Prop :=
  is_Some (row_key T r) ∧ row_key T r = row_key T r'.

(** No two rows clash on a unique index. *)
Definition unique_ok {R} (T : table R) (d : Db) : Prop :=
  ∀ k1 k2 r1 r2, tget T d !! k1 = Some r1 → tget T d !! k2 = Some r2 →
    row_clash T r1 r2 → k1 = k2.

Lemma row_key_stored {R} (T : table R) id now (r : R) :
  row_key T (row_stored T id now r) = row_key T r.
Proof. by destruct T. Qed.

#[export] Instance row_clash_dec {R} (T : table R) : RelDecision (row_clash T).
Proof. intros r r'. unfold row_clash. apply _. Defined.

Lemma row_clash_sym {R} (T : table R) (r r' : R) : row_clash T r r' → row_clash T r' r.
Proof. unfold row_clash. intros [Hs E]. by rewrite <-E. Qed.

Definition unique_okb {R} (T : table R) (t : gmap Z R) : bool :=
  bool_decide (Forall (λ a, Forall (λ b, row_clash T a.2 b.2 → a.1 = b.1)
                              (map_to_list t)) (map_to_list t)).

Lemma unique_okb_spec {R} (T : table R) (t : gmap Z R) d :
  unique_okb T t = true ↔ unique_ok T (tset T t d).
Proof.
  unfold unique_okb, unique_ok. rewrite bool_decide_eq_true, tget_tset.
  rewrite list.Forall_forall. setoid_rewrite list.Forall_forall. split.
  - intros Hf k1 k2 r1 r2 H1%elem_of_map_to_list H2%elem_of_map_to_list Hc.
    exact (Hf (k1, r1) H1 (k2, r2) H2 Hc).
  - intros Hf [k1 r1] H1%elem_of_map_to_list [k2 r2] H2%elem_of_map_to_list Hc.
    simpl in *. eauto.
Qed.

End collation.

Create Rewrite HintDb db.
#[export] Hint Rewrite @tget_tset @tset_tset @tset_tget @row_id_stored
  @row_key_stored @row_texts_stored : db.
#[global] Arguments tget : simpl never.
#[global] Arguments tset : simpl never.
#[global] Arguments row_eq_dec : simpl never.
