(* ===== verification/Json.v ===== *)
(** JSON documents ([encoding/json]) as trees, with the encoding and decoding
    of the structs that travel through Redis and RabbitMQ.  The text form of a
    document is abstracted away; a byte string that is not a document made by
    the program is [Text]. *)
From S2P Require Import Prelude GoStd Entities.
Local Open Scope Z_scope.

#[local] Set Warnings "-register-all".
Inductive json : Type :=
| JNull
| JBool (b : bool)
| JNum (z : Z)
| JStr (s : string)
| JTime (t : time)      (* a string in RFC 3339 format *)
| JArr (l : list json)
| JObj (fields : list (string * json)).

Inductive bytes : Type :=
| Doc (j : json)
| Text (s : string).

(** [string(b)] of a byte string that is no document *)
Definition bytes_text (b : bytes) : option string :=
  match b with Text s => Some s | Doc _ => None end.

(** The value of the last field of that name, as [json.Unmarshal] takes it. *)
Fixpoint field (name : string) (fs : list (string * json)) : option json :=
  match fs with
  | [] => None
  | (n, j) :: fs' =>
      match field name fs' with
      | Some j' => Some j'
      | None => if String.eqb n name then Some j else None
      end
  end.

(** Decoding one field into a zero-initialised Go field: an absent field or
    [null] leaves the zero value, a value of the wrong kind is an error. *)
Definition get_uint (name : string) (fs : list (string * json)) : option Z :=
  match field name fs with
  | None | Some JNull => Some 0
  | Some (JNum z) => if is_uint z then Some z else None
  | Some _ => None
  end.

Definition get_int64 (name : string) (fs : list (string * json)) : option Z :=
  match field name fs with
  | None | Some JNull => Some 0
  | Some (JNum z) => if is_int64 z then Some z else None
  | Some _ => None
  end.

Definition get_str (name : string) (fs : list (string * json)) : option string :=
  match field name fs with
  | None | Some JNull => Some EmptyString
  | Some (JStr s) => Some s
  | Some _ => None
  end.

Definition get_bool (name : string) (fs : list (string * json)) : option bool :=
  match field name fs with
  | None | Some JNull => Some false
  | Some (JBool b) => Some b
  | Some _ => None
  end.

Definition get_time (name : string) (fs : list (string * json)) : option time :=
  match field name fs with
  | None | Some JNull => Some zero_time
  | Some (JTime t) => Some t
  | Some _ => None
  end.

(** [omitempty] on a string field *)
Definition str_field_omitempty (name s : string) : list (string * json) :=
  if String.eqb s "" then [] else [(name, JStr s)].
Definition uint_field_omitempty (name : string) (z : Z) : list (string * json) :=
  if z =? 0 then [] else [(name, JNum z)].

(** [json.Unmarshal] of a document into a struct with the given decoder. *)
Definition unmarshal {A} (dec_fields : list (string * json) → option A) (b : bytes) :
    result A :=
  match b with
  | Doc (JObj fs) => match dec_fields fs with Some a => Ok a | None => Err (ErrMsg "json") end
  | Doc JNull => match dec_fields [] with Some a => Ok a | None => Err (ErrMsg "json") end
  | Doc _ | Text _ => Err (ErrMsg "json")
  end.

(** ** video.Video *)
Definition video_fields (v : Video) : list (string * json) :=
  [("id", JNum (v_ID v)); ("author_id", JNum (v_AuthorID v));
   ("username", JStr (v_Username v)); ("title", JStr (v_Title v))]
  ++ str_field_omitempty "description" (v_Description v)
  ++ [("play_url", JStr (v_PlayURL v)); ("cover_url", JStr (v_CoverURL v));
      ("create_time", JTime (v_CreateTime v)); ("likes_count", JNum (v_LikesCount v));
      ("popularity", JNum (v_Popularity v))].

Definition marshal_video (v : Video) : bytes := Doc (JObj (video_fields v)).

Definition video_of_fields (fs : list (string * json)) : option Video :=
  i ← get_uint "id" fs; a ← get_uint "author_id" fs; u ← get_str "username" fs;
  t ← get_str "title" fs; d ← get_str "description" fs; p ← get_str "play_url" fs;
  c ← get_str "cover_url" fs; ct ← get_time "create_time" fs;
  lc ← get_int64 "likes_count" fs; po ← get_int64 "popularity" fs;
  Some (mkVideo i a u t d p c ct lc po).

Definition unmarshal_video (b : bytes) : result Video := unmarshal video_of_fields b.

(** The integers of a video are within their Go types. *)
Definition video_in_range (v : Video) : bool :=
  is_uint (v_ID v) && is_uint (v_AuthorID v) &&
  is_int64 (v_LikesCount v) && is_int64 (v_Popularity v).

(** A video read back from its encoding is the video. *)
Lemma unmarshal_marshal_video v :
  video_in_range v = true → unmarshal_video (marshal_video v) = Ok v.
Proof.
  unfold video_in_range. intros H. bool_to_prop.
  unfold unmarshal_video, marshal_video, unmarshal, video_of_fields, video_fields,
    str_field_omitempty, get_uint, get_int64, get_str, get_time.
  destruct v as [i a u t d p c ct lc po]; simpl in *.
  destruct (String.eqb_spec d "") as [->|Hd]; simpl;
    repeat match goal with H : _ = true |- _ => rewrite H; clear H end; done.
Qed.
