(* ===== verification/Services.v ===== *)
(** The services the program calls and that are not part of the repository:
    MySQL behind gorm, Redis, RabbitMQ, the in-process go-cache, singleflight
    and the clock.  Each is a class of operations, a parameter of every
    definition that uses it; a second class states what the code relies on of
    its documented behaviour.  [Reference.v] gives concrete instances. *)
From S2P Require Import Prelude GoStd Query Entities Json.
Local Open Scope Z_scope.

(** ** MySQL statements

    The effect of one statement on the tables.  A statement that fails leaves
    the tables as they were. *)
Class SqlEngine := {
  eng_collation :: Collation;
  (** SELECT over the rows of a FROM clause *)
  eng_select : ∀ {A}, (A → bool) → list (okey A) → option nat → list A → list A;
  (** whether the text columns of a row fit their column types *)
  eng_fits : ∀ {R}, table R → list string → bool;
  (** [Create(&r)] of a row with a zero primary key *)
  eng_create : ∀ {R}, table R → R → time → Db → result R * Db;
  (** UPDATE ... SET f WHERE wh; the number of rows changed *)
  eng_update : ∀ {R}, table R → (R → bool) → (R → R) → Db → result Z * Db;
  (** DELETE ... WHERE wh; the number of rows deleted *)
  eng_delete : ∀ {R}, table R → (R → bool) → Db → result Z * Db;
  (** [db.Transaction(body)] *)
  eng_tx : ∀ {A}, (Db → result A * Db) → Db → result A * Db }.

Definition upd_rows {R} (wh : R → bool) (f : R → R) (t : gmap Z R) : gmap Z R :=
  (λ r, if wh r then f r else r) <$> t.

Definition changed {R} (T : table R) (wh : R → bool) (f : R → R) (d : Db) : Z :=
  Z.of_nat (length (List.filter
    (λ r, wh r && negb (if row_eq_dec T (f r) r then true else false)) (rows T d))).

Class SqlLaws `{SqlEngine} : Prop := {
  law_select : ∀ A (wh : A → bool) ks lim l,
    is_select wh ks lim l (eng_select wh ks lim l);
  law_create_dup : ∀ R (T : table R) r now d,
    eng_fits T (row_texts T r) = true →
    (∃ k r', tget T d !! k = Some r' ∧ row_clash T r r') →
    eng_create T r now d = (Err ErrDuplicate, d);
  law_create_misfit : ∀ R (T : table R) r now d,
    eng_fits T (row_texts T r) = false →
    ∃ code, eng_create T r now d = (Err (ErrIO code), d);
  law_create_ok : ∀ R (T : table R) r now d,
    row_id T r = 0 → eng_fits T (row_texts T r) = true →
    (∀ k r', tget T d !! k = Some r' → ¬ row_clash T r r') →
    ∃ id, 0 < id ∧ tget T d !! id = None ∧
      eng_create T r now d =
        (Ok (row_stored T id now r), tset T (<[id := row_stored T id now r]> (tget T d)) d);
  law_update_ok : ∀ R (T : table R) wh f d,
    (∀ k r, tget T d !! k = Some r → wh r = true →
       row_id T (f r) = row_id T r ∧
       (row_texts T (f r) = row_texts T r ∨ eng_fits T (row_texts T (f r)) = true)) →
    (∀ r, row_key T (f r) = row_key T r) ∨
      unique_ok T (tset T (upd_rows wh f (tget T d)) d) →
    eng_update T wh f d =
      (Ok (changed T wh f d), tset T (upd_rows wh f (tget T d)) d);
  law_update_dup : ∀ R (T : table R) wh f d,
    (∀ k r, tget T d !! k = Some r → wh r = true →
       row_id T (f r) = row_id T r ∧
       (row_texts T (f r) = row_texts T r ∨ eng_fits T (row_texts T (f r)) = true)) →
    unique_ok T d → ¬ unique_ok T (tset T (upd_rows wh f (tget T d)) d) →
    eng_update T wh f d = (Err ErrDuplicate, d);
  law_update_misfit : ∀ R (T : table R) wh f d k r,
    tget T d !! k = Some r → wh r = true → f r ≠ r →
    eng_fits T (row_texts T (f r)) = false →
    ∃ code, eng_update T wh f d = (Err (ErrIO code), d);
  law_delete : ∀ R (T : table R) wh d,
    eng_delete T wh d =
      (Ok (Z.of_nat (length (List.filter wh (rows T d)))),
       tset T (filter (λ kr : Z * R, wh kr.2 = false) (tget T d)) d);
  law_tx : ∀ A (body : Db → result A * Db) d,
    eng_tx body d = match body d with
                    | (Ok a, d') => (Ok a, d')
                    | (Err e, _) => (Err e, d)
                    end }.

(** ** Redis commands

    The keyspace with its deadlines; an expired key is as good as absent.
    Scores are the integers the program writes (milliseconds and counters,
    exact in a double). *)
Inductive rval : Type :=
| RStr (b : bytes)
| RZset (z : gmap string Z).

Abbreviation Rds := (gmap string (rval * option Z)).

Definition live_entry (t : Z) (s : Rds) (k : string) :
    option (rval * option Z) :=
  match s !! k with
  | Some (v, Some dl) => if t <? dl then Some (v, Some dl) else None
  | e => e
  end.

Definition zset_of (t : Z) (s : Rds) (k : string) :
    gmap string Z :=
  match live_entry t s k with Some (RZset z, _) => z | _ => ∅ end.

Definition str_of (t : Z) (s : Rds) (k : string) :
    option bytes :=
  match live_entry t s k with Some (RStr b, _) => Some b | _ => None end.

Definition deadline (t : Z) (s : Rds) (k : string) : option Z :=
  match live_entry t s k with Some (_, dl) => dl | None => None end.

Definition is_str (t : Z) (s : Rds) (k : string) : bool :=
  match live_entry t s k with Some (RStr _, _) => true | _ => false end.
Definition is_zset (t : Z) (s : Rds) (k : string) : bool :=
  match live_entry t s k with Some (RZset _, _) => true | _ => false end.

(** A sorted set that becomes empty is removed with its key. *)
Definition put_zset (k : string) (z : gmap string Z) (dl : option Z)
    (s : Rds) : gmap string (rval * option Z) :=
  if decide (z = ∅) then delete k s else <[k := (RZset z, dl)]> s.

(** Members in ascending order of score, ties in the order of the members. *)
Definition zle (a b : string * Z) : Prop :=
  a.2 < b.2 ∨ (a.2 = b.2 ∧ String.le a.1 b.1).
Definition zlisting (z : gmap string Z) (l : list (string * Z)) : Prop :=
  l ≡ₚ map_to_list z ∧ StronglySorted zle l.

(** The elements of ranks [i] to [j], both included; negative ranks count
    from the end. *)
Definition rank_slice {A} (i j : Z) (l : list A) : list A :=
  let n := Z.of_nat (length l) in
  let i' := if i <? 0 then Z.max 0 (n + i) else i in
  let j' := if j <? 0 then n + j else Z.min j (n - 1) in
  if j' <? i' then [] else take (Z.to_nat (j' - i' + 1)) (drop (Z.to_nat i') l).

(** The bound of a score range: [None] is the infinity of that side. *)
Definition in_scores (lo hi : option Z) (x : Z) : bool :=
  (match lo with Some l => l <=? x | None => true end) &&
  (match hi with Some h => x <=? h | None => true end).

Definition zadd_all (ms : list (string * Z)) (z : gmap string Z) : gmap string Z :=
  foldl (λ z m, <[m.1 := m.2]> z) z ms.

Class RedisServer := {
  c_get : string → Z → Rds → option bytes * Rds;
  c_mget : list string → Z → Rds → list (option bytes) * Rds;
  c_set : string → bytes → Z → Z → Rds → unit * Rds;
  c_setnx : string → bytes → Z → Z → Rds → bool * Rds;
  c_del : string → Z → Rds → Z * Rds;
  c_exists : string → Z → Rds → Z * Rds;
  c_pexpire : string → Z → Z → Rds → unit * Rds;
  c_incr : string → Z → Rds → Z * Rds;
  c_zadd : string → list (string * Z) → Z → Rds → unit * Rds;
  c_zincrby : string → string → Z → Z → Rds → unit * Rds;
  c_zcard : string → Z → Rds → Z * Rds;
  c_zremrangebyscore : string → option Z → option Z → Z → Rds → unit * Rds;
  c_zremrangebyrank : string → Z → Z → Z → Rds → unit * Rds;
  c_zrange_withscores : string → Z → Z → Z → Rds → list (string * Z) * Rds;
  c_zrevrange : string → Z → Z → Z → Rds → list string * Rds;
  c_zrevrangebyscore : string → option Z → option Z → Z → Z → Z → Rds → list string * Rds;
  c_zunionstore_sum : string → list string → Z → Rds → unit * Rds;
  (** [tostring] of the Lua interpreter that runs the scripts *)
  lua_tostring : Z → string }.

(** Lua's numbers are doubles, printed to 14 significant digits: the integers
    below this are printed in full. *)
Definition lua_exact : Z := 10 ^ 14.

Class RedisLaws `{RedisServer} : Prop := {
  law_get : ∀ k t s, is_zset t s k = false → c_get k t s = (str_of t s k, s);
  law_mget : ∀ ks t s, c_mget ks t s = (str_of t s <$> ks, s);
  law_set : ∀ k b ttl t s, 0 < ttl → c_set k b ttl t s = (tt, <[k := (RStr b, Some (t + ttl))]> s);
  law_setnx : ∀ k b ttl t s, 0 < ttl →
    c_setnx k b ttl t s =
      match live_entry t s k with
      | Some _ => (false, s)
      | None => (true, <[k := (RStr b, Some (t + ttl))]> s)
      end;
  law_del : ∀ k t s,
    c_del k t s = (match live_entry t s k with Some _ => 1 | None => 0 end, delete k s);
  law_exists : ∀ k t s,
    c_exists k t s = (match live_entry t s k with Some _ => 1 | None => 0 end, s);
  law_pexpire : ∀ k ttl t s, 0 < ttl →
    c_pexpire k ttl t s =
      (tt, match live_entry t s k with
           | Some (v, _) => <[k := (v, Some (t + ttl))]> s
           | None => s
           end);
  law_incr_absent : ∀ k t s, live_entry t s k = None →
    c_incr k t s = (1, <[k := (RStr (Text (dec 1)), None)]> s);
  law_incr : ∀ k t s n dl, is_int64 (n + 1) = true →
    live_entry t s k = Some (RStr (Text (dec n)), dl) →
    c_incr k t s = (n + 1, <[k := (RStr (Text (dec (n + 1))), dl)]> s);
  law_zadd : ∀ k ms t s, ms ≠ [] → is_str t s k = false →
    c_zadd k ms t s =
      (tt, <[k := (RZset (zadd_all ms (zset_of t s k)), deadline t s k)]> s);
  law_zincrby : ∀ k m x t s, is_str t s k = false →
    c_zincrby k m x t s =
      (tt, <[k := (RZset (<[m := default 0 (zset_of t s k !! m) + x]> (zset_of t s k)),
                   deadline t s k)]> s);
  law_zcard : ∀ k t s, is_str t s k = false →
    c_zcard k t s = (Z.of_nat (size (zset_of t s k)), s);
  law_zremrangebyscore : ∀ k lo hi t s, is_str t s k = false →
    c_zremrangebyscore k lo hi t s =
      (tt, put_zset k (filter (λ mx, in_scores lo hi mx.2 = false) (zset_of t s k))
             (deadline t s k) s);
  law_zremrangebyrank : ∀ k i j t s, is_str t s k = false →
    ∃ l, zlisting (zset_of t s k) l ∧
      c_zremrangebyrank k i j t s =
        (tt, put_zset k (filter (λ mx, mx.1 ∉ (rank_slice i j l).*1) (zset_of t s k))
               (deadline t s k) s);
  law_zrange_withscores : ∀ k i j t s, is_str t s k = false →
    ∃ l, zlisting (zset_of t s k) l ∧ c_zrange_withscores k i j t s = (rank_slice i j l, s);
  law_zrevrange : ∀ k i j t s, is_str t s k = false →
    ∃ l, zlisting (zset_of t s k) l ∧
      c_zrevrange k i j t s = (rank_slice i j (reverse l).*1, s);
  law_zrevrangebyscore : ∀ k hi lo off cnt t s, is_str t s k = false →
    0 ≤ off → 0 ≤ cnt →
    ∃ l, zlisting (zset_of t s k) l ∧
      c_zrevrangebyscore k hi lo off cnt t s =
        (take (Z.to_nat cnt) (drop (Z.to_nat off)
           (List.filter (λ mx, in_scores lo hi mx.2) (reverse l)).*1), s);
  law_zunionstore : ∀ dst ks t s,
    (∀ k, k ∈ ks → is_str t s k = false) →
    c_zunionstore_sum dst ks t s =
      (tt, put_zset dst
             (foldl (λ z k, union_with (λ x y, Some (x + y)) z (zset_of t s k)) ∅ ks)
             None s);
  law_tostring : ∀ z, 0 ≤ z < lua_exact → lua_tostring z = dec z }.

(** ** RabbitMQ publications *)
Inductive hval : Type :=
| HInt32 (z : Z)
| HOther (s : string).

Record Props := mkProps {
  p_ContentType : string; p_ContentEncoding : string; p_DeliveryMode : Z;
  p_Priority : Z; p_CorrelationId : string; p_ReplyTo : string;
  p_Expiration : string; p_MessageId : string; p_Timestamp : time;
  p_Type : string; p_UserId : string; p_AppId : string }.

Record Pub := mkPub {
  p_Exchange : string; p_RoutingKey : string;
  p_Headers : gmap string hval; p_Props : Props; p_Body : bytes }.

(** ** The world of a request

    [View] is what the services hold: the tables, the Redis keyspace, the
    publications the broker accepted, the local cache of the process, and
    which services answer.  A service that is up answers every call in time;
    one that is down may fail any call. *)
Record Up := mkUp { up_db : bool; up_rd : bool; up_mq : bool; up_rand : bool }.
Definition all_up : Up := mkUp true true true true.

Record View := mkView {
  v_db : Db; v_rd : gmap string (rval * option Z); v_mq : list Pub;
  v_lc : gmap string Video; v_up : Up }.

Definition set_db (d : Db) (v : View) : View :=
  mkView d (v_rd v) (v_mq v) (v_lc v) (v_up v).
Definition set_rd (s : Rds) (v : View) : View :=
  mkView (v_db v) s (v_mq v) (v_lc v) (v_up v).
Definition set_mq (l : list Pub) (v : View) : View :=
  mkView (v_db v) (v_rd v) l (v_lc v) (v_up v).
Definition set_lc (m : gmap string Video) (v : View) : View :=
  mkView (v_db v) (v_rd v) (v_mq v) m (v_up v).

Class World (W : Type) := {
  view : W → View;
  clk : W → Z;
  (** one statement or transaction, executed at the server's time *)
  sql : ∀ {A}, (Z → Db → result A * Db) → ST W (result A);
  (** one command or script, executed atomically at the server's time *)
  rd : ∀ {A}, (Z → Rds → A * Rds) → ST W (result A);
  publish : Pub → ST W (result unit);
  lc_get : string → ST W (option Video);
  lc_set : string → Video → Z → ST W unit;
  sf_do : ∀ {A}, string → ST W A → ST W A;
  now : ST W time;
  (** so many random bytes from crypto/rand *)
  rand_read : nat → ST W (result (list Byte.byte)) }.

Class WorldLaws (W : Type) `{World W} : Prop := {
  law_sql : ∀ A (f : Z → Db → result A * Db) w r w', sql f w = (r, w') →
    clk w ≤ clk w' ∧
    ((r = (f (clk w') (v_db (view w))).1 ∧
      view w' = set_db (f (clk w') (v_db (view w))).2 (view w)) ∨
     (up_db (v_up (view w)) = false ∧ (∃ code, r = Err (ErrIO code)) ∧
      view w' = view w));
  law_rd : ∀ A (c : Z → Rds → A * Rds) w r w', rd c w = (r, w') →
    clk w ≤ clk w' ∧
    ((r = Ok (c (clk w') (v_rd (view w))).1 ∧
      view w' = set_rd (c (clk w') (v_rd (view w))).2 (view w)) ∨
     (up_rd (v_up (view w)) = false ∧ (∃ code, r = Err (ErrIO code)) ∧
      (view w' = view w ∨
       view w' = set_rd (c (clk w') (v_rd (view w))).2 (view w))));
  law_publish : ∀ p w r w', publish p w = (r, w') →
    clk w ≤ clk w' ∧
    ((r = Ok tt ∧ view w' = set_mq (v_mq (view w) ++ [p]) (view w)) ∨
     (up_mq (v_up (view w)) = false ∧ (∃ code, r = Err (ErrIO code)) ∧
      (view w' = view w ∨ view w' = set_mq (v_mq (view w) ++ [p]) (view w))));
  law_lc_get : ∀ k w r w', lc_get k w = (r, w') →
    clk w ≤ clk w' ∧ view w' = view w ∧ (r = None ∨ r = v_lc (view w) !! k);
  law_lc_set : ∀ k v ttl w r w', lc_set k v ttl w = (r, w') →
    clk w ≤ clk w' ∧ view w' = set_lc (<[k := v]> (v_lc (view w))) (view w);
  (** no other request of the process is in flight under the same key *)
  law_sf : ∀ A k (m : ST W A) w, sf_do k m w = m w;
  law_now : ∀ w r w', now w = (r, w') →
    clk w ≤ clk w' ∧ r = clk w' ∧ view w' = view w;
  law_rand : ∀ n w r w', rand_read n w = (r, w') →
    clk w ≤ clk w' ∧ view w' = view w ∧
    ((∃ b, r = Ok b ∧ length b = n) ∨
     (up_rand (v_up (view w)) = false ∧ ∃ code, r = Err (ErrIO code))) }.

(** [RandHex] of internal/util *)
Definition RandHex {W} `{World W} (n : nat) : ST W (result string) :=
  (bytes <-? rand_read n ;; st_ret (Ok (EncodeToString bytes)))%go.

(** ** The laws as rules for [runs] *)
Section rules.
Context {W : Type} `{WorldLaws W}.
Implicit Types w : W.

Lemma runs_sql {A} (f : Z → Db → result A * Db) w (Q : result A → W → Prop) :
  (∀ w', clk w ≤ clk w' →
     view w' = set_db (f (clk w') (v_db (view w))).2 (view w) →
     Q (f (clk w') (v_db (view w))).1 w') →
  (∀ code w', clk w ≤ clk w' → up_db (v_up (view w)) = false → view w' = view w →
     Q (Err (ErrIO code)) w') →
  runs (sql f) w Q.
Proof.
  intros Hok Herr. apply runs_intro. intros r w' E.
  apply law_sql in E as (Hc & [[-> Hv]|(Hu & [code ->] & Hv)]); eauto.
Qed.

Lemma runs_rd {A} (c : Z → Rds → A * Rds) w (Q : result A → W → Prop) :
  (∀ w', clk w ≤ clk w' →
     view w' = set_rd (c (clk w') (v_rd (view w))).2 (view w) →
     Q (Ok (c (clk w') (v_rd (view w))).1) w') →
  (∀ code w', clk w ≤ clk w' → up_rd (v_up (view w)) = false →
     (view w' = view w ∨ view w' = set_rd (c (clk w') (v_rd (view w))).2 (view w)) →
     Q (Err (ErrIO code)) w') →
  runs (rd c) w Q.
Proof.
  intros Hok Herr. apply runs_intro. intros r w' E.
  apply law_rd in E as (Hc & [[-> Hv]|(Hu & [code ->] & Hv)]); eauto.
Qed.

Lemma runs_publish p w (Q : result unit → W → Prop) :
  (∀ w', clk w ≤ clk w' → view w' = set_mq (v_mq (view w) ++ [p]) (view w) →
     Q (Ok tt) w') →
  (∀ code w', clk w ≤ clk w' → up_mq (v_up (view w)) = false →
     (view w' = view w ∨ view w' = set_mq (v_mq (view w) ++ [p]) (view w)) →
     Q (Err (ErrIO code)) w') →
  runs (publish p) w Q.
Proof.
  intros Hok Herr. apply runs_intro. intros r w' E.
  apply law_publish in E as (Hc & [[-> Hv]|(Hu & [code ->] & Hv)]); eauto.
Qed.

Lemma runs_lc_get k w (Q : option Video → W → Prop) :
  (∀ r w', clk w ≤ clk w' → view w' = view w →
     (r = None ∨ r = v_lc (view w) !! k) → Q r w') →
  runs (lc_get k) w Q.
Proof.
  intros HQ. apply runs_intro. intros r w' E.
  apply law_lc_get in E as (? & ? & ?); eauto.
Qed.

Lemma runs_lc_set k v ttl w (Q : unit → W → Prop) :
  (∀ w', clk w ≤ clk w' → view w' = set_lc (<[k := v]> (v_lc (view w))) (view w) →
     Q tt w') →
  runs (lc_set k v ttl) w Q.
Proof.
  intros HQ. apply runs_intro. intros [] w' E.
  apply law_lc_set in E as (? & ?); eauto.
Qed.

Lemma runs_sf {A} k (m : ST W A) w Q : runs m w Q → runs (sf_do k m) w Q.
Proof. unfold runs. by rewrite law_sf. Qed.

Lemma runs_now w (Q : time → W → Prop) :
  (∀ w', clk w ≤ clk w' → view w' = view w → Q (clk w') w') → runs now w Q.
Proof.
  intros HQ. apply runs_intro. intros r w' E.
  apply law_now in E as (? & -> & ?); eauto.
Qed.

Lemma runs_rand n w (Q : result string → W → Prop) :
  (∀ s w', clk w ≤ clk w' → view w' = view w → String.length s = (2 * n)%nat →
     Q (Ok s) w') →
  (∀ code w', clk w ≤ clk w' → view w' = view w → up_rand (v_up (view w)) = false →
     Q (Err (ErrIO code)) w') →
  runs (RandHex n) w Q.
Proof.
  intros Hok Herr. apply runs_try, runs_intro. intros r w' E.
  apply law_rand in E as (? & ? & [(b & -> & <-)|(? & code & ->)]); [|by apply Herr].
  apply runs_ret, Hok; [done..|]. apply length_EncodeToString.
Qed.
End rules.

(** [call] steps over the glue to the next call of a service and over the
    call, leaving one goal per outcome that the laws allow.  In each, [w'] is
    the new world, [Hc] says that the clock did not go back, [Hv] what the
    services hold now, and [Hu] that the service was down. *)
Ltac glue :=
  cbn [fst snd]; cbv beta iota;
  repeat (lazymatch goal with
    | |- runs (st_bind _ _) _ _ => apply runs_bind
    | |- runs (st_try _ _) _ _ => apply runs_try
    | |- runs (sf_do _ _) _ _ => apply runs_sf
    | |- runs (st_ret _) _ _ => apply runs_ret
    end; cbv beta iota).

Ltac call :=
  glue;
  let w' := fresh "w'" in let Hc := fresh "Hc" in
  let Hv := fresh "Hv" in let Hu := fresh "Hu" in
  let code := fresh "code" in
  lazymatch goal with
  | |- runs (sql _) _ _ =>
      apply runs_sql; [intros w' Hc Hv|intros code w' Hc Hu Hv]
  | |- runs (rd _) _ _ =>
      apply runs_rd; [intros w' Hc Hv|intros code w' Hc Hu Hv]
  | |- runs (publish _) _ _ =>
      apply runs_publish; [intros w' Hc Hv|intros code w' Hc Hu Hv]
  | |- runs (lc_get _) _ _ =>
      let r := fresh "r" in let Hr := fresh "Hr" in
      apply runs_lc_get; intros r w' Hc Hv Hr
  | |- runs (lc_set _ _ _) _ _ => apply runs_lc_set; intros w' Hc Hv
  | |- runs now _ _ => apply runs_now; intros w' Hc Hv
  | |- runs (RandHex _) _ _ =>
      let s := fresh "id" in let Hs := fresh "Hlen" in
      apply runs_rand; [intros s w' Hc Hv Hs|intros code w' Hc Hv Hu]
  end;
  cbn [fst snd]; cbv beta iota.

(** Drop the goals of an outage where [v_up] is known to be [all_up], tracking
    it through the worlds in the context. *)
Lemma up_set_db d v : v_up (set_db d v) = v_up v. Proof. done. Qed.
Lemma up_set_rd d v : v_up (set_rd d v) = v_up v. Proof. done. Qed.
Lemma up_set_mq d v : v_up (set_mq d v) = v_up v. Proof. done. Qed.
Lemma up_set_lc d v : v_up (set_lc d v) = v_up v. Proof. done. Qed.

Ltac views := repeat match goal with
  | Hv : view ?w = _ |- _ => rewrite Hv in *; clear Hv
  end; simpl in *.

(** The goal of an outage, in a world whose services are all up. *)
Ltac outage :=
  exfalso;
  match goal with
  | Hu : ?f (v_up ?v) = false |- _ =>
      repeat match goal with Hv : view ?w = _ |- _ => rewrite Hv in Hu end;
      cbn [v_up set_db set_rd set_mq set_lc] in Hu;
      repeat match goal with Hup : v_up _ = _ |- _ => rewrite Hup in Hu end;
      discriminate Hu
  end.
