(* ===== verification/RedisFacts.v ===== *)
(** Lemmas on the Redis keyspace of [Services.v] that the components share. *)
From S2P Require Import Prelude GoStd Query Entities Json Services.
Local Open Scope Z_scope.

Definition alive (t : Z) (dl : option Z) : Prop :=
  match dl with Some d => t < d | None => True end.

Section keyspace.
Implicit Types (s : gmap string (rval * option Z)) (k : string).

Lemma live_insert_eq t s k v dl :
  alive t dl → live_entry t (<[k := (v, dl)]> s) k = Some (v, dl).
Proof.
  intros H. unfold live_entry. rewrite lookup_insert_eq.
  destruct dl as [d|]; [|done]. simpl in H.
  destruct (Z.ltb_spec t d); [done|lia].
Qed.

Lemma live_insert_ne t s k k' e :
  k ≠ k' → live_entry t (<[k := e]> s) k' = live_entry t s k'.
Proof. intros H. unfold live_entry. by rewrite lookup_insert_ne. Qed.

Lemma live_delete_eq t s k : live_entry t (delete k s) k = None.
Proof. unfold live_entry. by rewrite lookup_delete_eq. Qed.

Lemma live_delete_ne t s k k' :
  k ≠ k' → live_entry t (delete k s) k' = live_entry t s k'.
Proof. intros H. unfold live_entry. by rewrite lookup_delete_ne. Qed.

Lemma live_alive t s k v dl : live_entry t s k = Some (v, dl) → alive t dl ∧ s !! k = Some (v, dl).
Proof.
  unfold live_entry. destruct (s !! k) as [[v' [d|]]|]; [|by intros [= <- <-]|done].
  destruct (Z.ltb_spec t d); [|done]. by intros [= <- <-].
Qed.

Lemma live_None t s k : s !! k = None → live_entry t s k = None.
Proof. unfold live_entry. by intros ->. Qed.

Lemma live_dead t s k v d : s !! k = Some (v, Some d) → d ≤ t → live_entry t s k = None.
Proof. unfold live_entry. intros ->. destruct (Z.ltb_spec t d); [lia|done]. Qed.

Lemma live_here t s k v d :
  s !! k = Some (v, Some d) → t < d → live_entry t s k = Some (v, Some d).
Proof. unfold live_entry. intros ->. destruct (Z.ltb_spec t d); [done|lia]. Qed.

(** What the observations see depends on the live entry only. *)
Lemma zset_of_live t s k z dl :
  live_entry t s k = Some (RZset z, dl) → zset_of t s k = z.
Proof. unfold zset_of. by intros ->. Qed.
Lemma zset_of_None t s k : live_entry t s k = None → zset_of t s k = ∅.
Proof. unfold zset_of. by intros ->. Qed.
Lemma str_of_live t s k b dl :
  live_entry t s k = Some (RStr b, dl) → str_of t s k = Some b.
Proof. unfold str_of. by intros ->. Qed.
Lemma str_of_None t s k : live_entry t s k = None → str_of t s k = None.
Proof. unfold str_of. by intros ->. Qed.
Lemma is_str_zset t s k z dl : live_entry t s k = Some (RZset z, dl) → is_str t s k = false.
Proof. unfold is_str. by intros ->. Qed.
Lemma is_str_None t s k : live_entry t s k = None → is_str t s k = false.
Proof. unfold is_str. by intros ->. Qed.
Lemma is_zset_str t s k b dl : live_entry t s k = Some (RStr b, dl) → is_zset t s k = false.
Proof. unfold is_zset. by intros ->. Qed.
Lemma is_zset_None t s k : live_entry t s k = None → is_zset t s k = false.
Proof. unfold is_zset. by intros ->. Qed.

Lemma deadline_alive t s k : alive t (deadline t s k).
Proof.
  unfold deadline. destruct (live_entry t s k) as [[v dl]|] eqn:E; [|done].
  by apply live_alive in E as [??].
Qed.

Lemma live_put_zset_eq t s k z dl :
  alive t dl →
  live_entry t (put_zset k z dl s) k = if decide (z = ∅) then None else Some (RZset z, dl).
Proof.
  intros H. unfold put_zset. case_decide; [apply live_delete_eq|by apply live_insert_eq].
Qed.

Lemma live_put_zset_ne t s k k' z dl :
  k ≠ k' → live_entry t (put_zset k z dl s) k' = live_entry t s k'.
Proof.
  intros H. unfold put_zset.
  case_decide; [by apply live_delete_ne|by apply live_insert_ne].
Qed.

Lemma zset_of_put_zset t s k z dl : alive t dl → zset_of t (put_zset k z dl s) k = z.
Proof.
  intros H. unfold zset_of. rewrite live_put_zset_eq by done. by case_decide.
Qed.

Lemma is_str_put_zset t s k z dl : alive t dl → is_str t (put_zset k z dl s) k = false.
Proof.
  intros H. unfold is_str. rewrite live_put_zset_eq by done. by case_decide.
Qed.
End keyspace.

(** ** Counting members *)
Lemma size_filter_insert_fresh (f : Z → bool) (z : gmap string Z) m x :
  z !! m = None →
  size (filter (λ mx, f mx.2 = true) (<[m := x]> z)) =
  ((if f x then 1 else 0) + size (filter (λ mx, f mx.2 = true) z))%nat.
Proof.
  intros Hm. destruct (f x) eqn:Hf.
  - rewrite map_filter_insert_True by done. rewrite map_size_insert_None; [done|].
    apply map_lookup_filter_None. by left.
  - rewrite map_filter_insert_False by (simpl; congruence).
    by rewrite delete_id.
Qed.

Lemma filter_filter_imp (f g : Z → bool) (z : gmap string Z) :
  (∀ m x, z !! m = Some x → f x = true → g x = true) →
  filter (λ mx, f mx.2 = true) (filter (λ mx, g mx.2 = true) z) =
  filter (λ mx, f mx.2 = true) z.
Proof.
  intros H. apply map_eq. intros m. apply option_eq. intros x.
  rewrite !map_lookup_filter_Some. simpl. split; [by intros [[??] ?]|].
  intros [Hx Hf]. split; [split; [done|by eapply H]|done].
Qed.

(** ** Keys of a fixed type *)
Definition string_key (s : Rds) (k : string) : Prop :=
  ∀ z dl, s !! k ≠ Some (RZset z, dl).
Definition zset_key (s : Rds) (k : string) : Prop :=
  ∀ b dl, s !! k ≠ Some (RStr b, dl).

Lemma string_key_is_zset t s k : string_key s k → is_zset t s k = false.
Proof.
  intros H. unfold is_zset, live_entry. destruct (s !! k) as [[[b|z] [dl|]]|] eqn:E; try done.
  - by destruct (t <? dl).
  - exfalso. by eapply H.
  - exfalso. by eapply H.
Qed.

Lemma zset_key_is_str t s k : zset_key s k → is_str t s k = false.
Proof.
  intros H. unfold is_str, live_entry. destruct (s !! k) as [[[b|z] [dl|]]|] eqn:E; try done.
  - exfalso. by eapply H.
  - exfalso. by eapply H.
  - by destruct (t <? dl).
Qed.

Lemma string_key_insert_str s k k' b dl :
  string_key s k → string_key (<[k' := (RStr b, dl)]> s) k.
Proof. intros H z dl' [[_ [=]]|[_ E]]%lookup_insert_Some. by eapply H. Qed.
Lemma string_key_insert_ne s k k' e :
  k' ≠ k → string_key s k → string_key (<[k' := e]> s) k.
Proof. intros Hn H z dl. rewrite lookup_insert_ne by done. apply H. Qed.
Lemma string_key_delete s k k' : string_key s k → string_key (delete k' s) k.
Proof. intros H z dl [_ E]%lookup_delete_Some. by eapply H. Qed.
Lemma zset_key_insert_zset s k k' z dl :
  zset_key s k → zset_key (<[k' := (RZset z, dl)]> s) k.
Proof. intros H b dl' [[_ [=]]|[_ E]]%lookup_insert_Some. by eapply H. Qed.
Lemma zset_key_insert_ne s k k' e :
  k' ≠ k → zset_key s k → zset_key (<[k' := e]> s) k.
Proof. intros Hn H z dl. rewrite lookup_insert_ne by done. apply H. Qed.
Lemma zset_key_delete s k k' : zset_key s k → zset_key (delete k' s) k.
Proof. intros H b dl [_ E]%lookup_delete_Some. by eapply H. Qed.
Lemma zset_key_put_zset s k k' z dl : zset_key s k → zset_key (put_zset k' z dl s) k.
Proof. unfold put_zset. case_decide; [apply zset_key_delete|apply zset_key_insert_zset]. Qed.

Create HintDb keys.
#[export] Hint Resolve string_key_is_zset zset_key_is_str string_key_insert_str
  string_key_delete zset_key_insert_zset zset_key_delete zset_key_put_zset : keys.

Lemma str_of_Some t s k b : str_of t s k = Some b → ∃ dl, s !! k = Some (RStr b, dl).
Proof.
  unfold str_of. destruct (live_entry t s k) as [[[b'|z] dl]|] eqn:E; try done.
  intros [= ->]. apply live_alive in E as [_ E]. eauto.
Qed.

(** ** The order of a sorted set *)
#[export] Instance zle_antisymm : AntiSymm (=) zle.
Proof.
  intros [m1 s1] [m2 s2]. unfold zle; simpl. intros [?|[-> ?]] [?|[? ?]]; try lia.
  f_equal. by apply (anti_symm String.le).
Qed.

Lemma zlisting_elem z l m x : zlisting z l → (m, x) ∈ l ↔ z !! m = Some x.
Proof. intros [Hp _]. rewrite Hp. apply elem_of_map_to_list. Qed.

Lemma zlisting_length z l : zlisting z l → length l = size z.
Proof. intros [Hp _]. by rewrite Hp, length_map_to_list. Qed.

Lemma zlisting_NoDup_fst z l : zlisting z l → NoDup l.*1.
Proof. intros [Hp _]. rewrite (fmap_Permutation fst _ _ Hp). apply NoDup_fst_map_to_list. Qed.

Lemma zlisting_unique z l1 l2 : zlisting z l1 → zlisting z l2 → l1 = l2.
Proof.
  intros [P1 S1] [P2 S2]. apply (StronglySorted_perm_eq zle); [|done|done|by rewrite P1, P2].
  intros x y _ _. apply (anti_symm zle).
Qed.

(** ** Keeping the [cap] highest members *)
Definition trimmed_to (cap : nat) (z z' : gmap string Z) : Prop :=
  ∃ l, zlisting z l ∧ zlisting z' (drop (length l - cap) l).

Lemma rank_slice_low {A} (cap : nat) (l : list A) :
  rank_slice 0 (- Z.of_nat cap - 1) l = take (length l - cap) l.
Proof.
  unfold rank_slice. simpl.
  destruct (Z.ltb_spec (- Z.of_nat cap - 1) 0); [|lia].
  destruct (Z.ltb_spec (Z.of_nat (length l) + (- Z.of_nat cap - 1)) 0).
  - replace (length l - cap)%nat with 0%nat by lia. done.
  - rewrite drop_0. f_equal. lia.
Qed.

Lemma filter_low_listing (k : nat) z l :
  zlisting z l → zlisting (filter (λ mx, mx.1 ∉ (take k l).*1) z) (drop k l).
Proof.
  intros Hl. pose proof (zlisting_NoDup_fst _ _ Hl) as Hnd. split.
  - apply NoDup_Permutation.
    + apply NoDup_fmap_1 in Hnd. rewrite <-(take_drop k l) in Hnd.
      by apply list.NoDup_app in Hnd as (_ & _ & ?).
    + apply NoDup_map_to_list.
    + intros [m x]. rewrite elem_of_map_to_list, map_lookup_filter_Some. simpl.
      rewrite <-(zlisting_elem z l m x Hl).
      rewrite <-(take_drop k l), fmap_app in Hnd.
      apply list.NoDup_app in Hnd as (_ & Hdis & _). split.
      * intros Hin. split.
        -- rewrite <-(take_drop k l). apply elem_of_app. by right.
        -- intros Ht. apply (Hdis m Ht). apply list_elem_of_fmap. by exists (m, x).
      * intros [Hin Hnot]. rewrite <-(take_drop k l) in Hin.
        apply elem_of_app in Hin as [Hin|Hin]; [|done].
        exfalso. apply Hnot. apply list_elem_of_fmap. by exists (m, x).
  - destruct Hl as [_ Hs]. rewrite <-(take_drop k l) in Hs. by eapply StronglySorted_app_1_r.
Qed.

Lemma trimmed_size cap z z' : trimmed_to cap z z' → size z' = Nat.min cap (size z).
Proof.
  intros (l & Hl & Hd). rewrite <-(zlisting_length _ _ Hl), <-(zlisting_length _ _ Hd), length_drop.
  lia.
Qed.

Lemma trimmed_sub cap z z' m x : trimmed_to cap z z' → z' !! m = Some x → z !! m = Some x.
Proof.
  intros (l & Hl & Hd). rewrite <-(zlisting_elem _ _ _ _ Hl), <-(zlisting_elem _ _ _ _ Hd).
  intros Hin. rewrite <-(take_drop (length l - cap) l). apply elem_of_app. by right.
Qed.

(** What is dropped ranks below what is kept. *)
Lemma trimmed_low cap z z' m x m' x' :
  trimmed_to cap z z' → z !! m = Some x → z' !! m = None → z' !! m' = Some x' →
  zle (m, x) (m', x').
Proof.
  intros (l & Hl & Hd) E1 E2 E3.
  apply (zlisting_elem _ _ _ _ Hl) in E1. apply (zlisting_elem _ _ _ _ Hd) in E3.
  rewrite <-(take_drop (length l - cap) l) in E1. apply elem_of_app in E1 as [E1|E1].
  - destruct Hl as [_ Hs]. rewrite <-(take_drop (length l - cap) l) in Hs.
    by eapply StronglySorted_app_1_elem_of.
  - apply (zlisting_elem _ _ _ _ Hd) in E1. congruence.
Qed.

Lemma trimmed_small cap z z' : (size z ≤ cap)%nat → trimmed_to cap z z' → z' = z.
Proof.
  intros Hs (l & Hl & Hd). rewrite <-(zlisting_length _ _ Hl) in Hs.
  replace (length l - cap)%nat with 0%nat in Hd by lia. rewrite drop_0 in Hd.
  apply map_eq. intros m. apply option_eq. intros x.
  by rewrite <-(zlisting_elem _ _ _ _ Hl), <-(zlisting_elem _ _ _ _ Hd).
Qed.

(** Adding a member again and trimming again changes nothing. *)
Lemma trimmed_insert_idem cap z z' z'' m x :
  (0 < cap)%nat →
  trimmed_to cap (<[m := x]> z) z' → trimmed_to cap (<[m := x]> z') z'' → z'' = z'.
Proof.
  intros Hcap H1 H2. pose proof (trimmed_size _ _ _ H1) as Hsz.
  destruct (z' !! m) as [y|] eqn:Em.
  - pose proof (trimmed_sub _ _ _ _ _ H1 Em) as E. rewrite lookup_insert_eq in E. simplify_eq.
    rewrite insert_id in H2 by done. eapply trimmed_small; [|done]. lia.
  - (* the member is the lowest of [insert m x z'] *)
    assert (size (<[m:=x]> z') = S (size z')) as Hsz2 by (by rewrite map_size_insert_None).
    assert (size z' = cap) as Hfull.
    { destruct (Nat.le_gt_cases (size (<[m:=x]> z)) cap) as [Hle|]; [|lia].
      pose proof (trimmed_small _ _ _ Hle H1) as ->. by rewrite lookup_insert_eq in Em. }
    destruct H2 as (l & Hl & Hd).
    assert (length l = S cap) as Hlen by (rewrite (zlisting_length _ _ Hl); lia).
    replace (length l - cap)%nat with 1%nat in Hd by lia.
    destruct l as [|a l]; [done|]. simpl in Hd. rewrite drop_0 in Hd.
    assert (a = (m, x)) as ->.
    { assert ((m, x) ∈ a :: l) as Hin by (apply (zlisting_elem _ _ _ _ Hl), lookup_insert_eq).
      apply elem_of_cons in Hin as [->|Hin]; [done|].
      destruct a as [ma xa]. destruct Hl as [Hp Hs]. apply StronglySorted_inv in Hs as [_ Hs].
      apply (anti_symm zle).
      - by eapply list.Forall_forall in Hs.
      - assert (z' !! ma = Some xa) as Ea.
        { assert (<[m:=x]> z' !! ma = Some xa) as Ea.
          { apply elem_of_map_to_list. rewrite <-Hp. by left. }
          apply lookup_insert_Some in Ea as [[<- <-]|[_ ?]]; [|done].
          assert (NoDup ((m, x) :: l)) as [Hn _]%list.NoDup_cons; [|done].
          rewrite Hp. apply NoDup_map_to_list. }
        eapply trimmed_low; [exact H1|apply lookup_insert_eq|done|done]. }
    apply map_eq. intros k. apply option_eq. intros y.
    rewrite <-(zlisting_elem _ _ _ _ Hd).
    assert (<[m:=x]> z' !! k = Some y ↔ (k, y) = (m, x) ∨ (k, y) ∈ l) as He.
    { rewrite <-(zlisting_elem _ _ _ _ Hl). apply elem_of_cons. }
    rewrite lookup_insert_Some in He. split.
    + intros Hin. destruct (proj2 He (or_intror Hin)) as [[<- <-]|[_ ?]]; [|done].
      exfalso. assert (NoDup ((m, x) :: l)) as [Hn _]%list.NoDup_cons; [|done].
      destruct Hl as [Hp _]. rewrite Hp. apply NoDup_map_to_list.
    + intros Ez. destruct (proj1 He) as [[= -> ->]|?]; [|congruence|done].
      right. split; [congruence|done].
Qed.

(** The sorted set at a key that never expires. *)
Definition holds_zset (s : Rds) (k : string) (z : gmap string Z) : Prop :=
  (s !! k = None ∧ z = ∅) ∨ s !! k = Some (RZset z, None).

Lemma holds_zset_of t s k z : holds_zset s k z → zset_of t s k = z.
Proof. unfold zset_of, live_entry. by intros [[-> ->]| ->]. Qed.
Lemma holds_zset_is_str t s k z : holds_zset s k z → is_str t s k = false.
Proof. unfold is_str, live_entry. by intros [[-> ->]| ->]. Qed.
Lemma holds_zset_deadline t s k z : holds_zset s k z → deadline t s k = None.
Proof. unfold deadline, live_entry. by intros [[-> ->]| ->]. Qed.
Lemma holds_zset_insert s k z : holds_zset (<[k := (RZset z, None)]> s) k z.
Proof. right. apply lookup_insert_eq. Qed.
Lemma holds_zset_put s k z : holds_zset (put_zset k z None s) k z.
Proof.
  unfold put_zset. case_decide; [left; by rewrite lookup_delete_eq|apply holds_zset_insert].
Qed.
