(* ===== verification/Reference.v ===== *)
(** An in-memory implementation of the services, executable, with the proof
    that it obeys the laws of [Services.v].  It shows that the laws can hold
    together and is what the witnesses run on. *)
From S2P Require Import Prelude GoStd Query Entities Json Services.
From Stdlib Require Import DecimalString DecimalZ.
Local Open Scope Z_scope.

(** ** MySQL *)

(** In the manner of utf8mb4_unicode_ci: letters count without their case, and
    control characters other than white space not at all. *)
Definition ignorable (a : Ascii.ascii) : bool :=
  let n := Ascii.nat_of_ascii a in
  ((n <=? 8) || (14 <=? n) && (n <=? 31) || (n =? 127))%nat.
Fixpoint ref_collate (s : string) : string :=
  match s with
  | EmptyString => EmptyString
  | String a s' =>
      if ignorable a then ref_collate s'
      else String (ascii_lower a) (ref_collate s')
  end.

#[local] Instance ref_collation : Collation := {| collate := ref_collate |}.

Definition max_key {R} (t : gmap Z R) : Z := foldr Z.max 0 (map_to_list t).*1.

Definition clash_in {R} (T : table R) (r : R) (t : gmap Z R) : bool :=
  bool_decide (Exists (λ r', row_clash T r r') (map_to_list t).*2).

Definition ref_create {R} (T : table R) (r : R) (now : time) (d : Db) : result R * Db :=
  if clash_in T r (tget T d) then (Err ErrDuplicate, d)
  else let id := 1 + max_key (tget T d) in
       (Ok (row_stored T id now r), tset T (<[id := row_stored T id now r]> (tget T d)) d).

Definition ref_update {R} (T : table R) (wh : R → bool) (f : R → R) (d : Db) :
    result Z * Db :=
  let t' := upd_rows wh f (tget T d) in
  if unique_okb T t' || negb (unique_okb T (tget T d))
  then (Ok (changed T wh f d), tset T t' d)
  else (Err ErrDuplicate, d).

#[export] Instance ref_engine : SqlEngine := {|
  eng_collation := ref_collation;
  eng_select A wh ks lim l := limited lim (order_by ks (List.filter wh l));
  eng_fits R T ts := true;
  eng_create := @ref_create;
  eng_update := @ref_update;
  eng_delete R T wh d :=
    (Ok (Z.of_nat (length (List.filter wh (rows T d)))),
     tset T (filter (λ kr : Z * R, wh kr.2 = false) (tget T d)) d);
  eng_tx A body d := match body d with
                     | (Ok a, d') => (Ok a, d')
                     | (Err e, _) => (Err e, d)
                     end |}.

Lemma max_key_le {R} (t : gmap Z R) k r : t !! k = Some r → k ≤ max_key t.
Proof.
  intros H%elem_of_map_to_list. unfold max_key.
  assert (k ∈ (map_to_list t).*1) as Hk by (apply list_elem_of_fmap; by exists (k, r)).
  clear H. induction Hk as [l|l k' Hk IH]; simpl; lia.
Qed.

Lemma clash_in_spec {R} (T : table R) r (t : gmap Z R) :
  clash_in T r t = true ↔ ∃ k r', t !! k = Some r' ∧ row_clash T r r'.
Proof.
  unfold clash_in. rewrite bool_decide_eq_true, list.Exists_exists. split.
  - intros (r' & ([k x] & -> & H%elem_of_map_to_list)%list_elem_of_fmap & Hc). eauto.
  - intros (k & r' & H%elem_of_map_to_list & Hc). exists r'. split; [|done].
    apply list_elem_of_fmap. by exists (k, r').
Qed.

Lemma unique_ok_upd_keys {R} (T : table R) wh f d :
  (∀ r, row_key T (f r) = row_key T r) →
  unique_ok T d → unique_ok T (tset T (upd_rows wh f (tget T d)) d).
Proof.
  unfold unique_ok, upd_rows. rewrite tget_tset. intros Hk Hu k1 k2 r1 r2.
  rewrite !lookup_fmap. intros H1 H2 [Hs He].
  apply fmap_Some in H1 as (x1 & H1 & ->). apply fmap_Some in H2 as (x2 & H2 & ->).
  apply (Hu k1 k2 x1 x2 H1 H2). split.
  - revert Hs. case_match; by rewrite ?Hk.
  - revert He. repeat case_match; by rewrite ?Hk.
Qed.

#[export] Instance ref_sql_laws : SqlLaws.
Proof.
  split; simpl.
  - intros. apply is_select_order_by.
  - intros R T r now d _ Hc. unfold ref_create.
    apply clash_in_spec in Hc. by rewrite Hc.
  - done.
  - intros R T r now d _ _ Hc. unfold ref_create.
    destruct (clash_in T r (tget T d)) eqn:E.
    { apply clash_in_spec in E as (k & r' & ? & ?). naive_solver. }
    exists (1 + max_key (tget T d)). split_and!; [|by eapply eq_None_not_Some; intros [r' Hr%max_key_le]; lia|done].
    unfold max_key. induction (map_to_list (tget T d)).*1; simpl; lia.
  - intros R T wh f d _ Hk. unfold ref_update.
    destruct (unique_okb T (upd_rows wh f (tget T d))) eqn:E1; [done|].
    destruct (unique_okb T (tget T d)) eqn:E2; [|done]. exfalso.
    destruct Hk as [Hk|Hk].
    + apply (unique_okb_spec T (tget T d) d) in E2. rewrite tset_tget in E2.
      apply (unique_ok_upd_keys T wh f d Hk), unique_okb_spec in E2. congruence.
    + apply unique_okb_spec in Hk. congruence.
  - intros R T wh f d _ Hu Hn. unfold ref_update.
    assert (unique_okb T (tget T d) = true) as ->.
    { apply (unique_okb_spec T (tget T d) d). by rewrite tset_tget. }
    destruct (unique_okb T (upd_rows wh f (tget T d))) eqn:E1; [|done].
    by apply (unique_okb_spec T _ d) in E1.
  - done.
  - done.
  - done.
Qed.

(** ** Redis *)
#[export] Instance zle_dec : RelDecision zle.
Proof. intros a b. unfold zle. apply _. Defined.
#[export] Instance zle_total : Total zle.
Proof.
  intros [m1 s1] [m2 s2]. unfold zle; simpl.
  destruct (Z.lt_trichotomy s1 s2) as [?|[->|?]]; auto.
  destruct (total String.le m1 m2); auto.
Qed.
#[export] Instance zle_trans : Transitive zle.
Proof.
  intros [m1 s1] [m2 s2] [m3 s3]. unfold zle; simpl.
  intros [?|[-> ?]] [?|[-> ?]]; try (left; lia). right. split; [done|].
  by transitivity m2.
Qed.

Definition zlist (z : gmap string Z) : list (string * Z) := merge_sort zle (map_to_list z).

Lemma zlist_listing z : zlisting z (zlist z).
Proof.
  split; [apply merge_sort_Permutation|apply StronglySorted_merge_sort; apply _].
Qed.

Definition ref_incr (k : string) (t : Z) (s : gmap string (rval * option Z)) :
    Z * gmap string (rval * option Z) :=
  match live_entry t s k with
  | Some (RStr (Text x), dl) =>
      match NilEmpty.int_of_string x with
      | Some i => (Z.of_int i + 1, <[k := (RStr (Text (dec (Z.of_int i + 1))), dl)]> s)
      | None => (0, s)
      end
  | Some _ => (0, s)
  | None => (1, <[k := (RStr (Text (dec 1)), None)]> s)
  end.

#[export] Instance ref_redis : RedisServer := {|
  c_get k t s := (str_of t s k, s);
  c_mget ks t s := (str_of t s <$> ks, s);
  c_set k b ttl t s := (tt, <[k := (RStr b, Some (t + ttl))]> s);
  c_setnx k b ttl t s :=
    match live_entry t s k with
    | Some _ => (false, s)
    | None => (true, <[k := (RStr b, Some (t + ttl))]> s)
    end;
  c_del k t s := (match live_entry t s k with Some _ => 1 | None => 0 end, delete k s);
  c_exists k t s := (match live_entry t s k with Some _ => 1 | None => 0 end, s);
  c_pexpire k ttl t s :=
    (tt, match live_entry t s k with
         | Some (v, _) => <[k := (v, Some (t + ttl))]> s
         | None => s
         end);
  c_incr := ref_incr;
  c_zadd k ms t s := (tt, <[k := (RZset (zadd_all ms (zset_of t s k)), deadline t s k)]> s);
  c_zincrby k m x t s :=
    (tt, <[k := (RZset (<[m := default 0 (zset_of t s k !! m) + x]> (zset_of t s k)),
                 deadline t s k)]> s);
  c_zcard k t s := (Z.of_nat (size (zset_of t s k)), s);
  c_zremrangebyscore k lo hi t s :=
    (tt, put_zset k (filter (λ mx, in_scores lo hi mx.2 = false) (zset_of t s k))
           (deadline t s k) s);
  c_zremrangebyrank k i j t s :=
    (tt, put_zset k (filter (λ mx, mx.1 ∉ (rank_slice i j (zlist (zset_of t s k))).*1)
                       (zset_of t s k)) (deadline t s k) s);
  c_zrange_withscores k i j t s := (rank_slice i j (zlist (zset_of t s k)), s);
  c_zrevrange k i j t s := (rank_slice i j (reverse (zlist (zset_of t s k))).*1, s);
  c_zrevrangebyscore k hi lo off cnt t s :=
    (take (Z.to_nat cnt) (drop (Z.to_nat off)
       (List.filter (λ mx, in_scores lo hi mx.2) (reverse (zlist (zset_of t s k)))).*1), s);
  c_zunionstore_sum dst ks t s :=
    (tt, put_zset dst
           (foldl (λ z k, union_with (λ x y, Some (x + y)) z (zset_of t s k)) ∅ ks)
           None s);
  (* this one prints every integer in full *)
  lua_tostring := dec |}.

#[export] Instance ref_redis_laws : RedisLaws.
Proof.
  split; simpl; try done.
  - intros k t s Hl. unfold ref_incr. by rewrite Hl.
  - intros k t s n dl Hn Hl. unfold ref_incr. rewrite Hl. unfold dec at 1.
    rewrite NilEmpty.isi, DecimalZ.of_to. done.
  - intros. eexists; split; [apply zlist_listing|done].
  - intros. eexists; split; [apply zlist_listing|done].
  - intros. eexists; split; [apply zlist_listing|done].
  - intros. eexists; split; [apply zlist_listing|done].
Qed.

(** ** The world

    One process; the clock advances by a millisecond at every call, random
    strings count up, and a service that is down fails the calls that the
    schedule [rw_fails] says (all of them once it is exhausted). *)
Record RefW := mkRefW { rw_view : View; rw_clk : Z; rw_seq : nat; rw_fails : list bool }.

Definition tick (v : View) (w : RefW) : RefW :=
  mkRefW v (rw_clk w + 1) (rw_seq w) (tail (rw_fails w)).

Definition some_bytes (n seq : nat) : list Byte.byte :=
  replicate n (if Nat.even seq then Byte.xaa else Byte.xbb).

(** Whether the next call of a service with this flag fails. *)
Definition fails (up : bool) (w : RefW) : bool := negb up && hd true (rw_fails w).

#[export] Instance ref_world : World RefW := {|
  view := rw_view;
  clk := rw_clk;
  sql A f w :=
    if fails (up_db (v_up (rw_view w))) w
    then (Err (ErrIO 0), tick (rw_view w) w)
    else let '(r, d) := f (rw_clk w + 1) (v_db (rw_view w)) in
         (r, tick (set_db d (rw_view w)) w);
  rd A c w :=
    if fails (up_rd (v_up (rw_view w))) w
    then (Err (ErrIO 0), tick (rw_view w) w)
    else let '(a, s) := c (rw_clk w + 1) (v_rd (rw_view w)) in
         (Ok a, tick (set_rd s (rw_view w)) w);
  publish p w :=
    if fails (up_mq (v_up (rw_view w))) w
    then (Err (ErrIO 0), tick (rw_view w) w)
    else (Ok tt, tick (set_mq (v_mq (rw_view w) ++ [p]) (rw_view w)) w);
  lc_get k w := (v_lc (rw_view w) !! k, tick (rw_view w) w);
  lc_set k v ttl w := (tt, tick (set_lc (<[k := v]> (v_lc (rw_view w))) (rw_view w)) w);
  sf_do A k m := m;
  now w := (rw_clk w + 1, tick (rw_view w) w);
  rand_read n w :=
    if fails (up_rand (v_up (rw_view w))) w
    then (Err (ErrIO 0), tick (rw_view w) w)
    else (Ok (some_bytes n (rw_seq w)),
          mkRefW (rw_view w) (rw_clk w + 1) (S (rw_seq w)) (tail (rw_fails w))) |}.

Lemma fails_down up w : fails up w = true → up = false.
Proof. unfold fails. by destruct up. Qed.

#[export] Instance ref_world_laws : WorldLaws RefW.
Proof.
  split; simpl.
  - intros A f w r w'. destruct (fails _ w) eqn:Hu.
    + apply fails_down in Hu. intros [= <- <-]. simpl. split; [lia|]. right. eauto.
    + destruct (f _ _) as [r0 d] eqn:Hf. intros [= <- <-]. simpl.
      rewrite Hf. split; [lia|]. by left.
  - intros A c w r w'. destruct (fails _ w) eqn:Hu.
    + apply fails_down in Hu. intros [= <- <-]. simpl. split; [lia|]. right. eauto.
    + destruct (c _ _) as [r0 d] eqn:Hf. intros [= <- <-]. simpl.
      rewrite Hf. split; [lia|]. by left.
  - intros p w r w'. destruct (fails _ w) eqn:Hu; intros [= <- <-]; simpl;
      (split; [lia|]); [|by left]. apply fails_down in Hu. right. eauto.
  - intros k w r w' [= <- <-]. simpl. split_and!; [lia|done|by right].
  - intros k v ttl w r w' [= <- <-]. simpl. split; [lia|done].
  - done.
  - intros w r w' [= <- <-]. simpl. split_and!; [lia|done|done].
  - intros n w r w'. destruct (fails _ w) eqn:Hu; intros [= <- <-]; simpl;
      (split_and!; [lia|done|]); [|left; eauto using list.length_replicate].
    apply fails_down in Hu. right. eauto.
Qed.

(** A world with the given tables and everything else empty and up. *)
Definition ref_start (d : Db) (t : Z) : RefW :=
  mkRefW (mkView d ∅ [] ∅ all_up) t 0 [].

(** The world next to a state [X] of other services, which its own calls do
    not touch. *)
Section beside.
Context {X : Type}.

Definition beside {A} (m : ST RefW A) : ST (RefW * X) A := λ w,
  let '(a, w0) := m w.1 in (a, (w0, w.2)).
(** a call of the other services, which takes no time *)
Definition aside {A} (m : ST X A) : ST (RefW * X) A := λ w,
  let '(a, x) := m w.2 in (a, (w.1, x)).

(** the same where [X] is one of two parts *)
Definition aside_l {Y A} (m : ST X A) : ST (RefW * (X * Y)) A := λ w,
  let '(a, x) := m w.2.1 in (a, (w.1, (x, w.2.2))).
Definition aside_r {Y A} (m : ST X A) : ST (RefW * (Y * X)) A := λ w,
  let '(a, x) := m w.2.2 in (a, (w.1, (w.2.1, x))).

Lemma beside_inv {A} (m : ST RefW A) w r w' :
  beside m w = (r, w') → m w.1 = (r, w'.1) ∧ w'.2 = w.2.
Proof. unfold beside. destruct (m w.1) as [a w0]. by intros [= <- <-]. Qed.

#[export] Instance beside_world : World (RefW * X) | 100 := {|
  view w := view w.1;
  clk w := clk w.1;
  sql A f := beside (sql f);
  rd A c := beside (rd c);
  publish p := beside (publish p);
  lc_get k := beside (lc_get k);
  lc_set k v ttl := beside (lc_set k v ttl);
  sf_do A k m := m;
  now := beside now;
  rand_read n := beside (rand_read n) |}.

#[export] Instance beside_world_laws : WorldLaws (RefW * X) | 100.
Proof.
  split.
  - intros A f w r w' [E _]%beside_inv. exact (law_sql (W := RefW) _ _ _ _ _ E).
  - intros A c w r w' [E _]%beside_inv. exact (law_rd (W := RefW) _ _ _ _ _ E).
  - intros p w r w' [E _]%beside_inv. exact (law_publish (W := RefW) _ _ _ _ E).
  - intros k w r w' [E _]%beside_inv. exact (law_lc_get (W := RefW) _ _ _ _ E).
  - intros k v ttl w r w' [E _]%beside_inv. exact (law_lc_set (W := RefW) _ _ _ _ _ _ E).
  - done.
  - intros w r w' [E _]%beside_inv. exact (law_now (W := RefW) _ _ _ E).
  - intros n w r w' [E _]%beside_inv. exact (law_rand (W := RefW) _ _ _ _ E).
Qed.
End beside.
