(* ===== verification/RedisClient.v ===== *)
(** [internal/middleware/redis]: the client wrapper, its byte cache, its
    sorted-set operations, the distributed lock and the two rate-limit
    scripts. *)
From S2P Require Import Prelude GoStd Query Entities Json Services.
Local Open Scope Z_scope.
Local Open Scope go_scope.

(** A [*Client] is [None] when it is nil, else its key prefix. *)
Record Client := mkClient { keyPrefix : string }.

Definition DefaultKeyPrefix : string := "v1:".

Definition Key (c : option Client) (k : string) : string :=
  match c with Some cl => keyPrefix cl +:+ k | None => k end.

Definition IsMiss (e : err) : bool := bool_decide (e = ErrRedisNil).

(** a stored value against a string argument *)
Definition same_text (v : option bytes) (s : string) : bool :=
  match v with Some (Text s') => String.eqb s' s | _ => false end.

(** ** Lua scripts, run atomically by the server at its time [t]

    Their numbers are doubles, exact for the milliseconds and the counts that
    the program passes. *)
Section scripts.
Context `{RedisServer}.

Definition unlockScript (key token : string) (t : Z) (s : Rds) : Z * Rds :=
  let '(v, s) := c_get key t s in
  if same_text v token then c_del key t s else (0, s).

Definition incrementWithExprScript (key : string) (ttl : Z) (t : Z) (s : Rds) : Z * Rds :=
  let '(count, s) := c_incr key t s in
  if count =? 1 then let '(_, s) := c_pexpire key ttl t s in (count, s)
  else (count, s).

Definition slidingWindowScript (key seqKey : string) (now window limit ttl : Z)
    (t : Z) (s : Rds) : (Z * Z) * Rds :=
  let minScore := now - window in
  let '(_, s) := c_zremrangebyscore key (Some 0) (Some minScore) t s in
  let '(count, s) := c_zcard key t s in
  if limit <=? count then
    let '(_, s) := c_pexpire key ttl t s in
    let '(_, s) := c_pexpire seqKey ttl t s in
    ((0, count), s)
  else
    let '(seq, s) := c_incr seqKey t s in
    let member := lua_tostring now +:+ "-" +:+ lua_tostring seq in
    let '(_, s) := c_zadd key [(member, now)] t s in
    let '(_, s) := c_pexpire key ttl t s in
    let '(_, s) := c_pexpire seqKey ttl t s in
    ((1, count + 1), s).
End scripts.

Section client.
Context {W : Type} `{World W} `{RedisServer}.

(** *** cache.go *)
Definition GetBytes (key : string) : ST W (result bytes) :=
  r <-? rd (c_get key) ;;
  st_ret (match r with Some b => Ok b | None => Err ErrRedisNil end).

Definition SetBytes (key : string) (value : bytes) (ttl : Z) : ST W (result unit) :=
  rd (c_set key value ttl).

Definition Delete (key : string) : ST W (result unit) :=
  _ <-? rd (c_del key) ;; st_ret (Ok tt).

Definition MGet (keys : list string) : ST W (result (list (option bytes))) :=
  rd (c_mget keys).

(** *** zset.go *)
Definition when_client (c : option Client) {A} (dflt : result A) (m : ST W (result A)) :
    ST W (result A) :=
  match c with Some _ => m | None => st_ret dflt end.

Definition ZIncrBy (c : option Client) (key member : string) (score : Z) :
    ST W (result unit) :=
  when_client c (Ok tt) (rd (c_zincrby key member score)).

Definition ZAdd (c : option Client) (key : string) (members : list (string * Z)) :
    ST W (result unit) :=
  when_client c (Ok tt) (rd (c_zadd key members)).

Definition ZRemRangeByRank (c : option Client) (key : string) (start stop : Z) :
    ST W (result unit) :=
  when_client c (Ok tt) (rd (c_zremrangebyrank key start stop)).

Definition ZRangeWithScores (c : option Client) (key : string) (start stop : Z) :
    ST W (result (list (string * Z))) :=
  when_client c (Err (ErrMsg "redis client not initialized"))
    (rd (c_zrange_withscores key start stop)).

Definition Expire (c : option Client) (key : string) (ttl : Z) : ST W (result unit) :=
  when_client c (Ok tt) (rd (c_pexpire key ttl)).

Definition ZUnionStore (c : option Client) (dst : string) (keys : list string) :
    ST W (result unit) :=
  when_client c (Ok tt) (rd (c_zunionstore_sum dst keys)).

(** the boolean is returned beside the error *)
Definition Exists_ (c : option Client) (key : string) : ST W bool :=
  match c with
  | None => st_ret false
  | Some _ => r <- rd (c_exists key) ;;
              st_ret (match r with Ok n => 0 <? n | Err _ => false end)
  end.

Definition ZRevRange (c : option Client) (key : string) (start stop : Z) :
    ST W (result (list string)) :=
  when_client c (Ok []) (rd (c_zrevrange key start stop)).

Definition ZRevRangeByScore (c : option Client) (key : string) (max min : option Z)
    (offset count : Z) : ST W (result (list string)) :=
  when_client c (Ok []) (rd (c_zrevrangebyscore key max min offset count)).

(** *** redis.go: the distributed lock *)
Definition randToken (n : nat) : ST W (result string) :=
  b <-? rand_read n ;; st_ret (Ok (EncodeToString b)).

(** token, locked, error *)
Definition Lock (c : option Client) (key : string) (ttl : Z) :
    ST W (string * bool * option err) :=
  match c with
  | None => st_ret ("", false, None)
  | Some _ =>
      r <- randToken 16 ;;
      match r with
      | Err e => st_ret ("", false, Some e)
      | Ok token =>
          r <- rd (c_setnx key (Text token) ttl) ;;
          match r with
          | Ok ok => st_ret (token, ok, None)
          | Err e => st_ret (token, false, Some e)
          end
      end
  end.

Definition Unlock (c : option Client) (key token : string) : ST W (result unit) :=
  match c with
  | None => st_ret (Ok tt)
  | Some _ => _ <-? rd (unlockScript key token) ;; st_ret (Ok tt)
  end.

Definition IncrementWithExpr (c : option Client) (key : string) (expr : Z) :
    ST W (result Z) :=
  when_client c (Ok 0) (rd (incrementWithExprScript key expr)).

(** *** redis.go: the sliding window; allowed, count, error *)
Definition slidingWindowAllowAt (c : option Client) (key : string)
    (maxRequests window now : Z) : ST W (bool * Z * option err) :=
  match c with
  | None => st_ret (true, 0, None)
  | Some _ =>
      if String.eqb key "" || (maxRequests <=? 0) || (window <=? 0)
      then st_ret (true, 0, None)
      else
        let ttl := window + Second in
        r <- rd (slidingWindowScript key (key +:+ ":seq") (UnixMilli now) window
                   maxRequests ttl) ;;
        match r with
        | Err e => st_ret (true, 0, Some e)
        | Ok (allowed, count) => st_ret (allowed =? 1, count, None)
        end
  end.

Definition SlidingWindowAllow (c : option Client) (key : string)
    (maxRequests window : Z) : ST W (bool * Z * option err) :=
  t <- now ;; slidingWindowAllowAt c key maxRequests window t.
End client.
