(* ===== verification/ClientFacts.v ===== *)
(** Rules for the calls of [RedisClient.v] that the components share. *)
From S2P Require Import Prelude GoStd Query Entities Json Services RedisFacts RedisClient.
Local Open Scope Z_scope.

Lemma set_rd_same v : set_rd (v_rd v) v = v.
Proof. by destruct v. Qed.

Section rules.
Context {W : Type} `{WorldLaws W} `{RedisLaws}.
Implicit Types w : W.

(** A read changes nothing; it answers with the live entry, or misses, or
    Redis is down. *)
Lemma runs_GetBytes key w (Q : result bytes → W → Prop) :
  string_key (v_rd (view w)) key →
  (∀ b dl w', clk w ≤ clk w' → view w' = view w → v_rd (view w) !! key = Some (RStr b, dl) →
     alive (clk w') dl → Q (Ok b) w') →
  (∀ w', clk w ≤ clk w' → view w' = view w → live_entry (clk w') (v_rd (view w)) key = None →
     Q (Err ErrRedisNil) w') →
  (∀ code w', clk w ≤ clk w' → view w' = view w → up_rd (v_up (view w)) = false →
     Q (Err (ErrIO code)) w') →
  runs (GetBytes key) w Q.
Proof.
  intros Hk Hhit Hmiss Herr. unfold GetBytes.
  call; rewrite law_get in Hv by auto with keys; cbn [fst snd] in Hv; rewrite set_rd_same in Hv; glue.
  - rewrite law_get by auto with keys. cbn [fst]. unfold str_of.
    destruct (live_entry (clk w') (v_rd (view w)) key) as [[[b|z] dl]|] eqn:E.
    + apply live_alive in E as [? E]. glue. by eapply Hhit.
    + apply live_alive in E as [_ E]. by apply Hk in E.
    + glue. by apply Hmiss.
  - apply Herr; [done| |done]. by destruct Hv.
Qed.

(** A write stores the value, or Redis is down. *)
Lemma runs_SetBytes key b ttl w (Q : result unit → W → Prop) :
  0 < ttl →
  (∀ r w', clk w ≤ clk w' → (up_rd (v_up (view w)) = true → r = Ok tt) →
     view w' = set_rd (<[key := (RStr b, Some (clk w' + ttl))]> (v_rd (view w))) (view w) →
     Q r w') →
  (∀ code w', clk w ≤ clk w' → view w' = view w → up_rd (v_up (view w)) = false →
     Q (Err (ErrIO code)) w') →
  runs (SetBytes key b ttl) w Q.
Proof.
  intros Httl Hok Herr. unfold SetBytes. call; rewrite law_set in Hv by done; glue.
  - rewrite law_set by done. by apply Hok.
  - destruct Hv as [Hv|Hv]; [by apply Herr|]. apply Hok; [done|congruence|done].
Qed.

Lemma runs_Delete key w (Q : result unit → W → Prop) :
  (∀ r w', clk w ≤ clk w' → (up_rd (v_up (view w)) = true → r = Ok tt) →
     view w' = set_rd (delete key (v_rd (view w))) (view w) → Q r w') →
  (∀ code w', clk w ≤ clk w' → view w' = view w → up_rd (v_up (view w)) = false →
     Q (Err (ErrIO code)) w') →
  runs (Delete key) w Q.
Proof.
  intros Hok Herr. unfold Delete. call; rewrite law_del in Hv; glue.
  - by apply Hok.
  - destruct Hv as [Hv|Hv]; [by apply Herr|]. apply Hok; [done|congruence|done].
Qed.
End rules.
