(* ===== verification/SlidingWindow.v ===== *)
(** The sliding-window rate limiter of [redis.go]: the Redis script decides
    exactly as a reference that remembers every accepted request, across the
    removal and the expiry of its keys. *)
From S2P Require Import Prelude GoStd Query Entities Json Services RedisFacts RedisClient.
From S2P Require Import Reference.
From Stdlib Require Import Ascii DecimalString DecimalN.
Local Open Scope Z_scope.

(** ** The reference limiter *)
Definition in_window (window now : Z) (hist : list Z) : Z :=
  Z.of_nat (length (List.filter (λ h, now - window <? h) hist)).

(** Requests carry the caller's clock and the server's. *)
Fixpoint sw_spec (window limit : Z) (hist : list Z) (reqs : list (Z * Z)) : list bool :=
  match reqs with
  | [] => []
  | (now, _) :: rs =>
      if limit <=? in_window window now hist
      then false :: sw_spec window limit hist rs
      else true :: sw_spec window limit (now :: hist) rs
  end.

(** The times of the accepted requests. *)
Fixpoint accepted (reqs : list (Z * Z)) (ds : list bool) : list Z :=
  match reqs, ds with
  | (now, _) :: rs, d :: ds => if d then now :: accepted rs ds else accepted rs ds
  | _, _ => []
  end.

(** Callers' clocks do not go back, are not negative, read a year before 5138,
    and agree with the server's within half of the second the code adds to the
    TTL. *)
Fixpoint clocks_ok (last : Z) (reqs : list (Z * Z)) : Prop :=
  match reqs with
  | [] => True
  | (now, t) :: rs => last ≤ now < lua_exact ∧ Z.abs (t - now) ≤ 500 ∧ clocks_ok now rs
  end.

(** The requests of a list made in the span (x, x + w]. *)
Definition in_span (x w : Z) (l : list Z) : Z :=
  Z.of_nat (length (List.filter (λ h, (x <? h) && (h <=? x + w)) l)).

Definition sw_demo : list (Z * Z) :=
  [(100000, 100001); (100100, 100100); (100500, 100499); (101001, 101001)].

Section run.
Context `{RedisServer}.

(** The script over a sequence of requests for one key. *)
Fixpoint sw_run (key : string) (window limit : Z) (reqs : list (Z * Z)) (s : Rds) :
    list bool * Rds :=
  match reqs with
  | [] => ([], s)
  | (now, t) :: rs =>
      let '((allowed, _), s) :=
        slidingWindowScript key (key +:+ ":seq") now window limit (window + Second) t s in
      let '(ds, s) := sw_run key window limit rs s in
      ((allowed =? 1) :: ds, s)
  end.
End run.

(** ** Member names are unique *)
Definition no_dash (s : string) : Prop :=
  ∀ a, a ∈ String.list_ascii_of_string s → a ≠ "-"%char.

Lemma no_dash_uint d : no_dash (NilEmpty.string_of_uint d).
Proof.
  intros a. induction d; simpl; [by intros ?%elem_of_nil|..];
    (intros [->|?]%elem_of_cons; [done|auto]).
Qed.

Lemma no_dash_dec z : 0 ≤ z → no_dash (dec z).
Proof. intros Hz. rewrite dec_nonneg by done. apply no_dash_uint. Qed.

Lemma dash_split u1 u2 r1 r2 :
  no_dash u1 → no_dash u2 → u1 +:+ "-" +:+ r1 = u2 +:+ "-" +:+ r2 → u1 = u2 ∧ r1 = r2.
Proof.
  revert u2. induction u1 as [|a u1 IH]; intros [|b u2] H1 H2 E; simpl in E.
  - by injection E.
  - injection E as <- _. exfalso. apply (H2 "-"%char); [by left|done].
  - injection E as -> _. exfalso. apply (H1 "-"%char); [by left|done].
  - injection E as -> E. apply IH in E as [-> ->]; [done|..];
      intros x Hx; [apply H1|apply H2]; by right.
Qed.

Definition member_name (now seq : Z) : string := dec now +:+ "-" +:+ dec seq.

Lemma dec_inj_nonneg a b : 0 ≤ a → 0 ≤ b → dec a = dec b → a = b.
Proof.
  intros Ha Hb. rewrite !dec_nonneg by done. intros E.
  assert (Some (N.to_uint (Z.to_N a)) = Some (N.to_uint (Z.to_N b))) as [= E2].
  { by rewrite <-!NilEmpty.usu, E. }
  apply (f_equal N.of_uint) in E2. rewrite !DecimalN.Unsigned.of_to in E2. lia.
Qed.

Lemma member_name_inj n1 q1 n2 q2 :
  0 ≤ n1 → 0 ≤ n2 → 0 ≤ q1 → 0 ≤ q2 →
  member_name n1 q1 = member_name n2 q2 → n1 = n2 ∧ q1 = q2.
Proof.
  intros ???? [E1 E2]%dash_split; [|by apply no_dash_dec..].
  split; by apply dec_inj_nonneg.
Qed.

(** ** The invariant between two requests *)
Section proof.
Context `{RedisLaws}.
Variables (key : string) (window limit : Z).
Hypothesis (Hwindow : 0 < window) (Hlimit : 0 < limit).
Abbreviation seqKey := (key +:+ ":seq").

(** the members of [z] in a window that ends at [from] or later are the
    accepted requests of [hist] in it *)
Definition counts (from : Z) (z : gmap string Z) (hist : list Z) : Prop :=
  ∀ now, from ≤ now →
    Z.of_nat (size (filter (λ mx, (now - window <? mx.2) = true) z)) =
    in_window window now hist.

Definition members_ok (n : Z) (z : gmap string Z) : Prop :=
  ∀ m x, z !! m = Some x → 0 ≤ x ∧ ∃ q, 1 ≤ q ≤ n ∧ m = member_name x q.

(** What a request made at [now], served at [t], finds. *)
Record sw_seen (now t : Z) (hist : list Z) (n : Z) (z : gmap string Z) (s : Rds) : Prop := {
  seen_zset : zset_of t s key = z;
  seen_str : is_str t s key = false;
  seen_seq : (live_entry t s seqKey = None ∧ n = 0 ∧ z = ∅) ∨
             (∃ dl, live_entry t s seqKey = Some (RStr (Text (dec n)), dl));
  seen_n : 0 ≤ n;
  seen_members : members_ok n z;
  seen_counts : counts now z hist }.

(** What a served request leaves behind: both keys share one deadline, late
    enough for every accepted request to leave the window before it. *)
Record sw_left (last : Z) (hist : list Z) (n : Z) (z : gmap string Z) (dl : Z)
    (s : Rds) : Prop := {
  left_key : s !! key = Some (RZset z, Some dl) ∨ (s !! key = None ∧ z = ∅);
  left_seq : s !! seqKey = Some (RStr (Text (dec n)), Some dl);
  left_n : 0 ≤ n;
  left_members : members_ok n z;
  left_counts : counts last z hist;
  left_hist : ∀ h, h ∈ hist → h + window + 500 ≤ dl }.

Definition sw_inv (last : Z) (hist : list Z) (bound : Z)
    (s : Rds) : Prop :=
  (hist = [] ∧ s !! key = None ∧ s !! seqKey = None) ∨
  (∃ n z dl, n ≤ bound ∧ sw_left last hist n z dl s).

Lemma key_ne_seqKey : key ≠ seqKey.
Proof.
  intros E. apply (f_equal String.length) in E.
  rewrite string_length_app in E. simpl in E. lia.
Qed.

Lemma in_window_none now hist :
  (∀ h, h ∈ hist → h + window ≤ now) → in_window window now hist = 0.
Proof.
  intros Hh. unfold in_window. rewrite lfilter_none; [done|].
  intros h Hin. apply Z.ltb_ge. specialize (Hh h Hin). lia.
Qed.

Lemma counts_empty from hist :
  (∀ h, h ∈ hist → h + window ≤ from) → counts from ∅ hist.
Proof.
  intros Hh now Hn. rewrite map_filter_empty, map_size_empty. simpl.
  rewrite in_window_none; [done|]. intros h Hin. specialize (Hh h Hin). lia.
Qed.

Lemma sw_inv_seen last hist bound s now t :
  sw_inv last hist bound s → 0 ≤ bound → last ≤ now → Z.abs (t - now) ≤ 500 →
  ∃ n z, n ≤ bound ∧ sw_seen now t hist n z s.
Proof.
  intros [(-> & Hk & Hq)|(n & z & dl & Hn & [Hk Hq Hn0 Hm Hc Hh])] Hb Hl Ht.
  - apply (live_None t) in Hk, Hq. exists 0, ∅. split; [done|]. split.
    + by apply zset_of_None.
    + by apply is_str_None.
    + by left.
    + done.
    + intros m x Hx. by rewrite lookup_empty in Hx.
    + apply counts_empty. by intros h ?%elem_of_nil.
  - destruct (Z.lt_ge_cases t dl) as [Htd|Htd].
    + exists n, z. split; [done|].
      assert (zset_of t s key = z ∧ is_str t s key = false) as [Hz Hs].
      { destruct Hk as [Hk|[Hk ->]].
        - apply (live_here t) in Hk; [|done].
          split; [by eapply zset_of_live|by eapply is_str_zset].
        - apply (live_None t) in Hk. split; [by apply zset_of_None|by apply is_str_None]. }
      split; try done.
      * right. exists (Some dl). by apply live_here.
      * intros now' Hn'. apply Hc. lia.
    + exists 0, ∅. split; [done|].
      assert (live_entry t s key = None) as Hk'.
      { destruct Hk as [Hk|[Hk _]]; [by eapply live_dead|by apply live_None]. }
      split.
      * by apply zset_of_None.
      * by apply is_str_None.
      * left. split_and!; [by eapply live_dead|done|done].
      * done.
      * intros m x Hx. by rewrite lookup_empty in Hx.
      * apply counts_empty. intros h Hin. specialize (Hh h Hin). lia.
Qed.

(** The script removes what left the window and counts the rest. *)
Lemma window_of_seen now t hist n z s :
  sw_seen now t hist n z s →
  filter (λ mx, in_scores (Some 0) (Some (now - window)) mx.2 = false) z =
  filter (λ mx, (now - window <? mx.2) = true) z.
Proof.
  intros [_ _ _ _ Hm _]. apply map_eq. intros m. apply option_eq. intros x.
  rewrite !map_lookup_filter_Some. simpl. split; intros [Hx Hf]; split; try done;
    apply Hm in Hx as [? _]; unfold in_scores in *; bool_to_prop; lia.
Qed.

Definition kept (now : Z) (z : gmap string Z) : gmap string Z :=
  filter (λ mx, (now - window <? mx.2) = true) z.

Lemma script_trim now t hist n z s :
  sw_seen now t hist n z s →
  c_zremrangebyscore key (Some 0) (Some (now - window)) t s =
    (tt, put_zset key (kept now z) (deadline t s key) s).
Proof.
  intros Hseen. rewrite law_zremrangebyscore by apply Hseen.
  by rewrite (seen_zset _ _ _ _ _ _ Hseen), (window_of_seen _ _ _ _ _ _ Hseen).
Qed.

Lemma script_count now t hist n z s :
  sw_seen now t hist n z s →
  let s1 := put_zset key (kept now z) (deadline t s key) s in
  c_zcard key t s1 = (in_window window now hist, s1).
Proof.
  intros Hseen s1. unfold s1.
  rewrite law_zcard by (apply is_str_put_zset, deadline_alive).
  rewrite zset_of_put_zset by apply deadline_alive.
  f_equal. apply (seen_counts _ _ _ _ _ _ Hseen). lia.
Qed.

(** A member of the window keeps both keys alive. *)
Lemma kept_nonempty now t hist n z s :
  sw_seen now t hist n z s → kept now z ≠ ∅ →
  ∃ dl, live_entry t s seqKey = Some (RStr (Text (dec n)), dl).
Proof.
  intros Hseen Hne. destruct (seen_seq _ _ _ _ _ _ Hseen) as [(_ & _ & ->)|]; [|done].
  exfalso. apply Hne. apply map_filter_empty.
Qed.

Lemma counts_kept now z hist : counts now z hist → counts now (kept now z) hist.
Proof.
  intros Hc now' Hn. unfold kept. rewrite <-(Hc now' Hn). do 2 f_equal.
  apply (filter_filter_imp (λ x, now' - window <? x) (λ x, now - window <? x)).
  intros m x _ Hx. apply Z.ltb_lt in Hx. apply Z.ltb_lt. lia.
Qed.

Lemma members_kept now n z : members_ok n z → members_ok n (kept now z).
Proof. intros Hm m x [Hx _]%map_lookup_filter_Some. by apply Hm. Qed.

Lemma script_reject now t hist n z s :
  sw_seen now t hist n z s → limit ≤ in_window window now hist →
  (∀ h, h ∈ hist → h ≤ now) → Z.abs (t - now) ≤ 500 →
  ∃ s', slidingWindowScript key seqKey now window limit (window + Second) t s
          = ((0, in_window window now hist), s') ∧
        sw_left now hist n (kept now z) (t + (window + Second)) s'.
Proof.
  intros Hseen Hover Hhist Ht. pose proof key_ne_seqKey as Hne.
  assert (kept now z ≠ ∅) as Hk.
  { intros E. pose proof (seen_counts _ _ _ _ _ _ Hseen now (Z.le_refl _)) as Hc.
    fold (kept now z) in Hc. rewrite E, map_size_empty in Hc. lia. }
  destruct (kept_nonempty _ _ _ _ _ _ Hseen Hk) as [dl Hq].
  unfold slidingWindowScript.
  rewrite (script_trim _ _ _ _ _ _ Hseen), (script_count _ _ _ _ _ _ Hseen).
  destruct (Z.leb_spec limit (in_window window now hist)); [|lia].
  rewrite law_pexpire, live_put_zset_eq by (try apply deadline_alive; unfold Second; lia).
  destruct (decide (kept now z = ∅)); [done|].
  rewrite law_pexpire by (unfold Second; lia).
  rewrite live_insert_ne, live_put_zset_ne, Hq by done.
  eexists; split; [done|]. unfold put_zset.
  destruct (decide (kept now z = ∅)); [done|]. split.
  - left. rewrite lookup_insert_ne by congruence. by rewrite lookup_insert_eq.
  - by rewrite lookup_insert_eq.
  - apply Hseen.
  - apply members_kept, Hseen.
  - apply counts_kept, Hseen.
  - intros h Hin. specialize (Hhist h Hin). unfold Second. lia.
Qed.

Lemma script_accept now t hist n z s :
  sw_seen now t hist n z s → in_window window now hist < limit →
  (∀ h, h ∈ hist → h ≤ now) → 0 ≤ now < lua_exact → Z.abs (t - now) ≤ 500 → n + 1 < lua_exact →
  ∃ s', slidingWindowScript key seqKey now window limit (window + Second) t s
          = ((1, in_window window now hist + 1), s') ∧
        sw_left now (now :: hist) (n + 1)
          (<[member_name now (n + 1) := now]> (kept now z)) (t + (window + Second)) s'.
Proof.
  intros Hseen Hunder Hhist [Hnow Hnow'] Ht Hn. pose proof key_ne_seqKey as Hne.
  pose proof (seen_n _ _ _ _ _ _ Hseen) as Hn0.
  unfold slidingWindowScript.
  rewrite (script_trim _ _ _ _ _ _ Hseen), (script_count _ _ _ _ _ _ Hseen).
  destruct (Z.leb_spec limit (in_window window now hist)); [lia|].
  set (s1 := put_zset key (kept now z) (deadline t s key) s).
  assert (∃ dl', c_incr seqKey t s1 =
      (n + 1, <[seqKey := (RStr (Text (dec (n + 1))), dl')]> s1) ∧ alive t dl') as (dl' & -> & Hal).
  { assert (live_entry t s1 seqKey = live_entry t s seqKey) as Hl by (by apply live_put_zset_ne).
    destruct (seen_seq _ _ _ _ _ _ Hseen) as [(Hq & -> & _)|[dl Hq]].
    - rewrite law_incr_absent by congruence. eexists; split; [done|done].
    - rewrite (law_incr _ _ _ n dl).
      + eexists; split; [done|]. by apply live_alive in Hq as [? _].
      + unfold is_int64, two63, lua_exact in *. apply andb_true_iff.
        split; [apply Z.leb_le|apply Z.ltb_lt]; lia.
      + congruence. }
  set (s2 := <[seqKey := _]> s1). rewrite !law_tostring by lia. fold (member_name now (n + 1)).
  assert (zset_of t s2 key = kept now z) as Hz2.
  { unfold zset_of, s2. rewrite live_insert_ne by done. fold (zset_of t s1 key).
    apply zset_of_put_zset, deadline_alive. }
  assert (is_str t s2 key = false) as Hs2.
  { unfold is_str, s2. rewrite live_insert_ne by done. fold (is_str t s1 key).
    apply is_str_put_zset, deadline_alive. }
  rewrite law_zadd, Hz2 by done. simpl zadd_all.
  rewrite law_pexpire, live_insert_eq by (try apply deadline_alive; unfold Second; lia).
  rewrite law_pexpire by (unfold Second; lia).
  do 2 rewrite live_insert_ne by done. unfold s2 at 1. rewrite live_insert_eq by done.
  eexists; split; [done|]. split.
  - left. rewrite lookup_insert_ne by congruence. by rewrite lookup_insert_eq.
  - by rewrite lookup_insert_eq.
  - lia.
  - intros m x [[<- <-]|[_ Hx]]%lookup_insert_Some.
    + split; [done|]. exists (n + 1). split; [lia|done].
    + destruct (members_kept now n z (seen_members _ _ _ _ _ _ Hseen) m x Hx)
        as [? (q & ? & ?)].
      split; [done|]. exists q. split; [lia|done].
  - intros now' Hn'. rewrite (size_filter_insert_fresh (λ x, now' - window <? x)).
    + unfold in_window. simpl.
      pose proof (counts_kept now z hist (seen_counts _ _ _ _ _ _ Hseen) now' Hn') as Hc.
      unfold in_window in Hc. destruct (now' - window <? now); simpl; lia.
    + apply eq_None_not_Some. intros [x Hx].
      destruct (members_kept now n z (seen_members _ _ _ _ _ _ Hseen) _ x Hx)
        as [? (q & ? & E)].
      apply member_name_inj in E; lia.
  - intros h [->|Hin]%elem_of_cons; unfold Second; [lia|].
    specialize (Hhist h Hin). lia.
Qed.

(** One request keeps the invariant and decides like the reference. *)
Lemma sw_step last hist bound s now t :
  sw_inv last hist bound s → (∀ h, h ∈ hist → h ≤ last) →
  0 ≤ bound → bound + 1 < lua_exact → 0 ≤ now → last ≤ now < lua_exact → Z.abs (t - now) ≤ 500 →
  ∃ c s',
    slidingWindowScript key seqKey now window limit (window + Second) t s =
      ((if limit <=? in_window window now hist then 0 else 1, c), s') ∧
    sw_inv now (if limit <=? in_window window now hist then hist else now :: hist)
      (bound + 1) s'.
Proof.
  intros Hinv Hhist Hb Hb' Hnow [Hl Hl'] Ht.
  destruct (sw_inv_seen _ _ _ _ now t Hinv Hb Hl Ht) as (n & z & Hn & Hseen).
  assert (∀ h, h ∈ hist → h ≤ now) as Hh by (intros h ?%Hhist; lia).
  destruct (Z.leb_spec limit (in_window window now hist)) as [Hov|Hun].
  - destruct (script_reject _ _ _ _ _ _ Hseen Hov Hh Ht) as (s' & -> & Hs').
    do 2 eexists. split; [done|]. right. do 3 eexists. split; [|exact Hs']. lia.
  - destruct (script_accept _ _ _ _ _ _ Hseen Hun Hh (conj Hnow Hl') Ht) as (s' & -> & Hs'); [lia|].
    do 2 eexists. split; [done|]. right. do 3 eexists. split; [|exact Hs']. lia.
Qed.

Lemma sw_run_inv reqs last hist bound s :
  sw_inv last hist bound s → (∀ h, h ∈ hist → h ≤ last) → 0 ≤ last →
  0 ≤ bound → bound + Z.of_nat (length reqs) < lua_exact → clocks_ok last reqs →
  (sw_run key window limit reqs s).1 = sw_spec window limit hist reqs.
Proof.
  revert last hist bound s. induction reqs as [|[now t] reqs IH];
    intros last hist bound s Hinv Hhist Hl Hb Hlen Hok; [done|].
  destruct Hok as (Hln & Ht & Hok). cbn [length] in Hlen.
  destruct (sw_step last hist bound s now t) as (c & s' & E & Hinv'); try done; try lia.
  cbn [sw_run sw_spec]. rewrite E.
  specialize (IH now _ _ _ Hinv').
  destruct (sw_run key window limit reqs s') as [ds s''] eqn:Er. cbn [fst] in *.
  destruct (limit <=? in_window window now hist); cbn [fst]; f_equal;
    (apply IH; [|lia|lia|lia|done]).
  - intros h Hh%Hhist. lia.
  - intros h [->|Hh%Hhist]%elem_of_cons; lia.
Qed.
End proof.

(** The reference never lets more than [limit] accepted requests share a
    window. *)
Lemma in_window_le w now now' hist :
  now ≤ now' → in_window w now' hist ≤ in_window w now hist.
Proof.
  intros Hn. unfold in_window. induction hist as [|h hist IH]; simpl; [lia|].
  destruct (Z.ltb_spec (now' - w) h), (Z.ltb_spec (now - w) h); simpl; lia.
Qed.

Lemma accepted_bounds last w limit hist reqs h :
  clocks_ok last reqs → h ∈ accepted reqs (sw_spec w limit hist reqs) → last ≤ h.
Proof.
  revert last hist. induction reqs as [|[now t] reqs IH]; intros last hist Hok Hh;
    simpl in Hh; [by apply elem_of_nil in Hh|].
  destruct Hok as (Hl & _ & Hok).
  destruct (limit <=? _); simpl in Hh.
  - specialize (IH _ _ Hok Hh). lia.
  - apply elem_of_cons in Hh as [->|Hh]; [lia|]. specialize (IH _ _ Hok Hh). lia.
Qed.

Lemma in_span_none x w l : (∀ h, h ∈ l → x + w < h) → in_span x w l = 0.
Proof.
  intros H. unfold in_span. rewrite lfilter_none; [done|].
  intros h Hh. specialize (H h Hh). apply andb_false_iff. right. apply Z.leb_gt. lia.
Qed.

Lemma in_span_cons x w h l :
  in_span x w (h :: l) = (if (x <? h) && (h <=? x + w) then 1 else 0) + in_span x w l.
Proof. unfold in_span. simpl. destruct ((x <? h) && (h <=? x + w)); simpl; lia. Qed.

Lemma in_span_in_window x w hist now :
  (∀ h, h ∈ hist → h ≤ now) → now ≤ x + w → in_span x w hist ≤ in_window w now hist.
Proof.
  intros Hh Hn. unfold in_span, in_window. induction hist as [|h hist IH]; simpl; [lia|].
  assert (h ≤ now) by (apply Hh; by left).
  specialize (IH (λ h' Hin, Hh h' (list_elem_of_further _ _ _ Hin))).
  destruct (Z.ltb_spec x h), (Z.leb_spec h (x + w)), (Z.ltb_spec (now - w) h); simpl; lia.
Qed.

Lemma sw_spec_bounded w limit x reqs last hist :
  0 < limit → (∀ h, h ∈ hist → h ≤ last) → clocks_ok last reqs →
  in_span x w hist ≤ limit →
  in_span x w hist + in_span x w (accepted reqs (sw_spec w limit hist reqs)) ≤ limit.
Proof.
  intros Hlim. revert last hist. induction reqs as [|[now t] reqs IH];
    intros last hist Hhist Hok Hle; cbn [sw_spec accepted].
  { unfold in_span at 2. simpl. lia. }
  destruct Hok as (Hl & _ & Hok).
  assert (∀ h, h ∈ hist → h ≤ now) as Hnow by (intros h ?%Hhist; lia).
  destruct (Z.leb_spec limit (in_window w now hist)) as [|Hun]; cbn [accepted].
  { by apply (IH now). }
  destruct (Z.leb_spec now (x + w)) as [Hin|Hout].
  - specialize (IH now (now :: hist)). rewrite !in_span_cons in *.
    pose proof (in_span_in_window x w hist now Hnow Hin).
    destruct (Z.ltb_spec x now), (Z.leb_spec now (x + w)); simpl in *; try lia;
      (enough (∀ h, h ∈ now :: hist → h ≤ now) by (specialize (IH ltac:(done) Hok); lia);
       intros h [->|?%Hnow]%elem_of_cons; lia).
  - rewrite (in_span_none x w (now :: _)); [lia|].
    intros h [->|Hh]%elem_of_cons; [done|]. eapply accepted_bounds in Hh; [|done]. lia.
Qed.

(** C16: the sliding-window script over any sequence of requests decides
    exactly as the reference that remembers every accepted request: what the
    script removes from the sorted set, what its TTLs let expire and how it
    names members of one millisecond never change a decision, as long as the
    callers' clocks do not go back and stay within 500 ms of the server's. *)
Theorem sliding_window_reference `{RedisLaws} key window limit reqs s :
  0 < window → 0 < limit → s !! key = None → s !! (key +:+ ":seq") = None →
  clocks_ok 0 reqs → Z.of_nat (length reqs) < lua_exact →
  (sw_run key window limit reqs s).1 = sw_spec window limit [] reqs.
Proof.
  intros Hw Hl Hk Hq Hok Hlen.
  apply (sw_run_inv key window limit Hw Hl reqs 0 [] 0 s); try done; [by left|].
  by intros h ?%elem_of_nil.
Qed.

(** No span of [window] milliseconds holds more than [maxRequests]
    accepted requests. *)
Theorem sliding_window_bound `{RedisLaws} key window limit reqs s x :
  0 < window → 0 < limit → s !! key = None → s !! (key +:+ ":seq") = None →
  clocks_ok 0 reqs → Z.of_nat (length reqs) < lua_exact →
  in_span x window (accepted reqs (sw_run key window limit reqs s).1) ≤ limit.
Proof.
  intros Hw Hl Hk Hq Hok Hlen.
  rewrite (sw_run_inv key window limit Hw Hl reqs 0 [] 0 s); try done;
    [|by left|by intros h ?%elem_of_nil].
  pose proof (sw_spec_bounded window limit x reqs 0 [] Hl) as Hb.
  enough (in_span x window [] ≤ limit) by
    (specialize (Hb ltac:(by intros h ?%elem_of_nil) Hok ltac:(done)); unfold in_span in *; simpl in *; lia).
  unfold in_span. simpl. lia.
Qed.

Lemma sliding_window_reference_witness :
  (sw_run "k" 1000 2 sw_demo ∅).1 = [true; true; false; true].
Proof.
  rewrite (sliding_window_reference "k" 1000 2 sw_demo ∅);
    [by vm_compute|done|done|done|done| |done].
  by vm_compute.
Defined.

Lemma sliding_window_bound_witness :
  in_span 100000 1000 (accepted sw_demo (sw_run "k" 1000 2 sw_demo ∅).1) ≤ 2.
Proof.
  apply (sliding_window_bound "k" 1000 2 sw_demo ∅); done.
Defined.
