(* ===== verification/Mq.v ===== *)
(** [internal/middleware/rabbitmq]: the events of the program, their JSON, and
    the publishers. *)
From S2P Require Import Prelude GoStd Entities Json Services.
Local Open Scope Z_scope.
Local Open Scope go_scope.

(** ** Exchanges, queues, keys *)
Definition MaxRetryCount : Z := 3.
Definition LikeExchange : string := "like.events".
Definition LikeQueue : string := "like.events".
Definition LikeBindingKey : string := "like.*".
Definition LikeRoutingKeyLike : string := "like.like".
Definition LikeRoutingKeyUnlike : string := "like.unlike".
Definition CommentExchange : string := "comment.events".
Definition CommentQueue : string := "comment.events".
Definition CommentBindingKey : string := "comment.*".
Definition CommentRoutingKeyPublish : string := "comment.publish".
Definition CommentRoutingKeyDelete : string := "comment.delete".
Definition SocialExchange : string := "social.events".
Definition SocialQueue : string := "social.events".
Definition SocialBindingKey : string := "social.*".
Definition SocialRoutingKeyFollow : string := "social.follow".
Definition SocialRoutingKeyUnFollow : string := "social.unfollow".
Definition PopularityExchange : string := "video.popularity.events".
Definition PopularityQueue : string := "video.popularity.events".
Definition PopularityBindingKey : string := "video.popularity.*".
Definition PopularityRoutingKeyUpdate : string := "video.popularity.update".
Definition TimelineExchange : string := "video.timeline.events".
Definition TimelineQueue : string := "video.timeline.events".
Definition TimelineBindingKey : string := "video.timeline.*".
Definition TimelineRoutingKeyPublish : string := "video.timeline.publish".
Definition NotificationLikeQueue : string := "notification.like".
Definition NotificationCommentQueue : string := "notification.comment".
Definition NotificationSocialQueue : string := "notification.social".

(** The queues [NewLikeMQ], ..., [NewNotificationMQ] declare: exchange, queue,
    binding key. *)
Definition declared_queues : list (string * string * string) :=
  [(LikeExchange, LikeQueue, LikeBindingKey);
   (CommentExchange, CommentQueue, CommentBindingKey);
   (SocialExchange, SocialQueue, SocialBindingKey);
   (PopularityExchange, PopularityQueue, PopularityBindingKey);
   (TimelineExchange, TimelineQueue, TimelineBindingKey);
   (LikeExchange, NotificationLikeQueue, LikeRoutingKeyLike);
   (CommentExchange, NotificationCommentQueue, CommentRoutingKeyPublish);
   (SocialExchange, NotificationSocialQueue, SocialRoutingKeyFollow)].

(** ** Events *)
Record LikeEvent := mkLikeEvent {
  le_EventID : string; le_Action : string; le_UserID : Z; le_VideoID : Z;
  le_OccurredAt : time }.
Record CommentEvent := mkCommentEvent {
  ce_EventID : string; ce_Action : string; ce_CommentID : Z; ce_Username : string;
  ce_VideoID : Z; ce_AuthorID : Z; ce_Content : string; ce_OccurredAt : time }.
Record SocialEvent := mkSocialEvent {
  se_EventID : string; se_Action : string; se_FollowerID : Z; se_VloggerID : Z;
  se_OccurredAt : time }.
Record PopularityEvent := mkPopularityEvent {
  pe_EventID : string; pe_Action : string; pe_VideoID : Z; pe_Change : Z;
  pe_OccurredAt : time }.
Record TimelineEvent := mkTimelineEvent {
  te_EventID : string; te_Action : string; te_VideoID : Z; te_CreateTime : Z;
  te_OccurredAt : time }.

Definition marshal_like (e : LikeEvent) : bytes :=
  Doc (JObj [("event_id", JStr (le_EventID e)); ("action", JStr (le_Action e));
             ("user_id", JNum (le_UserID e)); ("video_id", JNum (le_VideoID e));
             ("occurred_at", JTime (le_OccurredAt e))]).
Definition like_of_fields (fs : list (string * json)) : option LikeEvent :=
  i ← get_str "event_id" fs; a ← get_str "action" fs; u ← get_uint "user_id" fs;
  v ← get_uint "video_id" fs; t ← get_time "occurred_at" fs;
  Some (mkLikeEvent i a u v t).
Definition unmarshal_like (b : bytes) : result LikeEvent := unmarshal like_of_fields b.

Definition marshal_comment (e : CommentEvent) : bytes :=
  Doc (JObj ([("event_id", JStr (ce_EventID e)); ("action", JStr (ce_Action e))]
             ++ uint_field_omitempty "comment_id" (ce_CommentID e)
             ++ str_field_omitempty "username" (ce_Username e)
             ++ uint_field_omitempty "video_id" (ce_VideoID e)
             ++ uint_field_omitempty "author_id" (ce_AuthorID e)
             ++ str_field_omitempty "content" (ce_Content e)
             ++ [("occurred_at", JTime (ce_OccurredAt e))])).
Definition comment_of_fields (fs : list (string * json)) : option CommentEvent :=
  i ← get_str "event_id" fs; a ← get_str "action" fs; ci ← get_uint "comment_id" fs;
  u ← get_str "username" fs; v ← get_uint "video_id" fs; au ← get_uint "author_id" fs;
  c ← get_str "content" fs; t ← get_time "occurred_at" fs;
  Some (mkCommentEvent i a ci u v au c t).
Definition unmarshal_comment (b : bytes) : result CommentEvent :=
  unmarshal comment_of_fields b.

Definition marshal_social (e : SocialEvent) : bytes :=
  Doc (JObj [("event_id", JStr (se_EventID e)); ("action", JStr (se_Action e));
             ("follower_id", JNum (se_FollowerID e)); ("vlogger_id", JNum (se_VloggerID e));
             ("occurred_at", JTime (se_OccurredAt e))]).
Definition social_of_fields (fs : list (string * json)) : option SocialEvent :=
  i ← get_str "event_id" fs; a ← get_str "action" fs; u ← get_uint "follower_id" fs;
  v ← get_uint "vlogger_id" fs; t ← get_time "occurred_at" fs;
  Some (mkSocialEvent i a u v t).
Definition unmarshal_social (b : bytes) : result SocialEvent := unmarshal social_of_fields b.

Definition marshal_popularity (e : PopularityEvent) : bytes :=
  Doc (JObj [("event_id", JStr (pe_EventID e)); ("action", JStr (pe_Action e));
             ("video_id", JNum (pe_VideoID e)); ("change", JNum (pe_Change e));
             ("occurred_at", JTime (pe_OccurredAt e))]).
Definition popularity_of_fields (fs : list (string * json)) : option PopularityEvent :=
  i ← get_str "event_id" fs; a ← get_str "action" fs; v ← get_uint "video_id" fs;
  c ← get_int64 "change" fs; t ← get_time "occurred_at" fs;
  Some (mkPopularityEvent i a v c t).
Definition unmarshal_popularity (b : bytes) : result PopularityEvent :=
  unmarshal popularity_of_fields b.

Definition marshal_timeline (e : TimelineEvent) : bytes :=
  Doc (JObj [("event_id", JStr (te_EventID e)); ("action", JStr (te_Action e));
             ("video_id", JNum (te_VideoID e)); ("create_time", JNum (te_CreateTime e));
             ("occurred_at", JTime (te_OccurredAt e))]).
Definition timeline_of_fields (fs : list (string * json)) : option TimelineEvent :=
  i ← get_str "event_id" fs; a ← get_str "action" fs; v ← get_uint "video_id" fs;
  c ← get_int64 "create_time" fs; t ← get_time "occurred_at" fs;
  Some (mkTimelineEvent i a v c t).
Definition unmarshal_timeline (b : bytes) : result TimelineEvent :=
  unmarshal timeline_of_fields b.

(** ** Publishers

    Every publisher wraps a [*RabbitMQ]; [mq] says that neither the wrapper
    nor what it wraps is nil. *)
Section publishers.
Context {W : Type} `{World W}.

Definition Persistent : Z := 2.

Definition json_props (t : time) : Props :=
  mkProps "application/json" "" Persistent 0 "" "" "" "" t "" "" "".

Definition PublishJSON (exchange routingKey : string) (payload : bytes) :
    ST W (result unit) :=
  if String.eqb exchange "" || String.eqb routingKey ""
  then st_ret (Err (ErrMsg "exchange and routingKey are required"))
  else t <- now ;;
       publish (mkPub exchange routingKey ∅ (json_props t) payload).

Definition LikeMQ_publish (mq : bool) (action routingKey : string) (userID videoID : Z) :
    ST W (result unit) :=
  if negb mq then st_ret (Err (ErrMsg "like_mq is not initialized"))
  else if (userID =? 0) || (videoID =? 0)
  then st_ret (Err (ErrMsg "userID and videoID are required"))
  else id <-? RandHex 16 ;;
       t <- now ;;
       PublishJSON LikeExchange routingKey
         (marshal_like (mkLikeEvent id action userID videoID t)).
Definition LikeMQ_Like (mq : bool) (userID videoID : Z) :=
  LikeMQ_publish mq "like" LikeRoutingKeyLike userID videoID.
Definition LikeMQ_Unlike (mq : bool) (userID videoID : Z) :=
  LikeMQ_publish mq "unlike" LikeRoutingKeyUnlike userID videoID.

Definition CommentMQ_publish (mq : bool) (action routingKey : string) (evt : CommentEvent) :
    ST W (result unit) :=
  if negb mq then st_ret (Err (ErrMsg "comment_mq is not initialized"))
  else id <-? RandHex 16 ;;
       t <- now ;;
       PublishJSON CommentExchange routingKey
         (marshal_comment (mkCommentEvent id action (ce_CommentID evt) (ce_Username evt)
            (ce_VideoID evt) (ce_AuthorID evt) (ce_Content evt) t)).
Definition CommentMQ_Publish (mq : bool) (username : string) (videoID authorID : Z)
    (content : string) :=
  CommentMQ_publish mq "publish" CommentRoutingKeyPublish
    (mkCommentEvent "" "" 0 username videoID authorID content zero_time).
Definition CommentMQ_Delete (mq : bool) (commentID : Z) :=
  CommentMQ_publish mq "delete" CommentRoutingKeyDelete
    (mkCommentEvent "" "" commentID "" 0 0 "" zero_time).

Definition SocialMQ_publish (mq : bool) (action routingKey : string)
    (followerID vloggerID : Z) : ST W (result unit) :=
  if negb mq then st_ret (Err (ErrMsg "social_mq is not initialized"))
  else if (followerID =? 0) || (vloggerID =? 0)
  then st_ret (Err (ErrMsg "followerID and vloggerID are required"))
  else id <-? RandHex 16 ;;
       t <- now ;;
       PublishJSON SocialExchange routingKey
         (marshal_social (mkSocialEvent id action followerID vloggerID t)).
Definition SocialMQ_Follow (mq : bool) (followerID vloggerID : Z) :=
  SocialMQ_publish mq "follow" SocialRoutingKeyFollow followerID vloggerID.
Definition SocialMQ_Unfollow (mq : bool) (followerID vloggerID : Z) :=
  SocialMQ_publish mq "unfollow" SocialRoutingKeyUnFollow followerID vloggerID.

Definition PopularityMQ_publish (mq : bool) (action routingKey : string)
    (videoID change : Z) : ST W (result unit) :=
  if negb mq then st_ret (Err (ErrMsg "popularity_mq is not initialized"))
  else if (videoID =? 0) || (change =? 0)
  then st_ret (Err (ErrMsg "videoID and change are required"))
  else id <-? RandHex 16 ;;
       t <- now ;;
       PublishJSON PopularityExchange routingKey
         (marshal_popularity (mkPopularityEvent id action videoID change t)).
Definition PopularityMQ_Update (mq : bool) (videoID change : Z) :=
  PopularityMQ_publish mq "update" PopularityRoutingKeyUpdate videoID change.

Definition TimelineMQ_publish (mq : bool) (action routingKey : string)
    (videoID createTime : Z) : ST W (result unit) :=
  if negb mq then st_ret (Err (ErrMsg "timeline_mq is not initialized"))
  else if videoID =? 0 then st_ret (Err (ErrMsg "videoID is required"))
  else id <-? RandHex 16 ;;
       t <- now ;;
       PublishJSON TimelineExchange routingKey
         (marshal_timeline (mkTimelineEvent id action videoID createTime t)).
Definition TimelineMQ_Publish (mq : bool) (videoID : Z) (createTime : time) :=
  TimelineMQ_publish mq "publish" TimelineRoutingKeyPublish videoID (UnixMilli createTime).
End publishers.

(** ** Round trips *)
Ltac json_roundtrip :=
  intros; bool_to_prop;
  unfold unmarshal, get_uint, get_int64, get_str, get_time; simpl;
  repeat match goal with H : _ = true |- _ => rewrite H; clear H end; done.

Lemma unmarshal_marshal_like e :
  is_uint (le_UserID e) && is_uint (le_VideoID e) = true →
  unmarshal_like (marshal_like e) = Ok e.
Proof. destruct e; simpl. unfold unmarshal_like, marshal_like, like_of_fields. json_roundtrip. Qed.

Lemma unmarshal_marshal_comment e :
  is_uint (ce_CommentID e) && is_uint (ce_VideoID e) && is_uint (ce_AuthorID e) = true →
  unmarshal_comment (marshal_comment e) = Ok e.
Proof.
  destruct e as [i a ci u v au c t]; simpl.
  unfold unmarshal_comment, marshal_comment, comment_of_fields, uint_field_omitempty,
    str_field_omitempty; simpl.
  destruct (Z.eqb_spec ci 0) as [->|], (String.eqb_spec u "") as [->|],
    (Z.eqb_spec v 0) as [->|], (Z.eqb_spec au 0) as [->|], (String.eqb_spec c "") as [->|];
    json_roundtrip.
Qed.

Lemma unmarshal_marshal_social e :
  is_uint (se_FollowerID e) && is_uint (se_VloggerID e) = true →
  unmarshal_social (marshal_social e) = Ok e.
Proof. destruct e; simpl. unfold unmarshal_social, marshal_social, social_of_fields. json_roundtrip. Qed.

Lemma unmarshal_marshal_popularity e :
  is_uint (pe_VideoID e) && is_int64 (pe_Change e) = true →
  unmarshal_popularity (marshal_popularity e) = Ok e.
Proof.
  destruct e; simpl. unfold unmarshal_popularity, marshal_popularity, popularity_of_fields.
  json_roundtrip.
Qed.

Lemma unmarshal_marshal_timeline e :
  is_uint (te_VideoID e) && is_int64 (te_CreateTime e) = true →
  unmarshal_timeline (marshal_timeline e) = Ok e.
Proof.
  destruct e; simpl. unfold unmarshal_timeline, marshal_timeline, timeline_of_fields.
  json_roundtrip.
Qed.

(** ** What a publisher does: it reports success exactly when the broker has
    the event, and touches nothing else. *)
Section facts.
Context {W : Type} `{WorldLaws W}.
Implicit Types w : W.

(** the outcome of publishing [body]: accepted, or refused with nothing but
    perhaps the publication itself changed *)
Definition published (ex rk : string) (body : bytes → Prop) (w : W) (r : result unit)
    (w' : W) : Prop :=
  clk w ≤ clk w' ∧
  ((r = Ok tt ∧ ∃ t b, body b ∧
      view w' = set_mq (v_mq (view w) ++ [mkPub ex rk ∅ (json_props t) b]) (view w)) ∨
   ((up_mq (v_up (view w)) = false ∨ up_rand (v_up (view w)) = false) ∧
    (∃ e, r = Err e) ∧
    (view w' = view w ∨
     ∃ t b, body b ∧
      view w' = set_mq (v_mq (view w) ++ [mkPub ex rk ∅ (json_props t) b]) (view w)))).

Lemma PublishJSON_spec w ex rk b (P : bytes → Prop) w0 :
  ex ≠ "" → rk ≠ "" → P b → clk w0 ≤ clk w → view w = view w0 →
  runs (PublishJSON ex rk b) w (published ex rk P w0).
Proof.
  intros He Hr HP Hc Hv. unfold PublishJSON.
  destruct (String.eqb_spec ex ""), (String.eqb_spec rk ""); try done. cbn [orb].
  call. call.
  - split; [lia|]. left. split; [done|]. eexists _, b. split; [done|].
    by rewrite Hv1, Hv0, Hv.
  - split; [lia|]. right. split; [left; congruence|]. split; [eauto|].
    destruct Hv1 as [Hv1|Hv1]; [left; congruence|right].
    eexists _, b. split; [done|]. by rewrite Hv1, Hv0, Hv.
Qed.

Lemma published_refused ex rk P w e w' :
  clk w ≤ clk w' → up_rand (v_up (view w)) = false → view w' = view w →
  published ex rk P w (Err e) w'.
Proof. intros ???. split; [done|]. right. split; [by right|]. split; eauto. Qed.

Lemma LikeMQ_publish_spec w action rk u v :
  u ≠ 0 → v ≠ 0 → rk ≠ "" →
  runs (LikeMQ_publish true action rk u v) w
    (published LikeExchange rk
       (λ b, ∃ id t, String.length id = 32%nat ∧
               b = marshal_like (mkLikeEvent id action u v t)) w).
Proof.
  intros Hu%Z.eqb_neq Hv%Z.eqb_neq Hr. unfold LikeMQ_publish. rewrite Hu, Hv. cbn [negb orb].
  call; [call|by apply published_refused].
  apply PublishJSON_spec; [done|done|eauto|lia|congruence].
Qed.

Lemma CommentMQ_publish_spec w action rk e :
  rk ≠ "" →
  runs (CommentMQ_publish true action rk e) w
    (published CommentExchange rk
       (λ b, ∃ id t, String.length id = 32%nat ∧
               b = marshal_comment (mkCommentEvent id action (ce_CommentID e)
                     (ce_Username e) (ce_VideoID e) (ce_AuthorID e) (ce_Content e) t)) w).
Proof.
  intros Hr. unfold CommentMQ_publish. cbn [negb].
  call; [call|by apply published_refused].
  apply PublishJSON_spec; [done|done|eauto|lia|congruence].
Qed.

Lemma SocialMQ_publish_spec w action rk u v :
  u ≠ 0 → v ≠ 0 → rk ≠ "" →
  runs (SocialMQ_publish true action rk u v) w
    (published SocialExchange rk
       (λ b, ∃ id t, String.length id = 32%nat ∧
               b = marshal_social (mkSocialEvent id action u v t)) w).
Proof.
  intros Hu%Z.eqb_neq Hv%Z.eqb_neq Hr. unfold SocialMQ_publish. rewrite Hu, Hv. cbn [negb orb].
  call; [call|by apply published_refused].
  apply PublishJSON_spec; [done|done|eauto|lia|congruence].
Qed.

Lemma PopularityMQ_publish_spec w action rk v c :
  v ≠ 0 → c ≠ 0 → rk ≠ "" →
  runs (PopularityMQ_publish true action rk v c) w
    (published PopularityExchange rk
       (λ b, ∃ id t, String.length id = 32%nat ∧
               b = marshal_popularity (mkPopularityEvent id action v c t)) w).
Proof.
  intros Hu%Z.eqb_neq Hv%Z.eqb_neq Hr. unfold PopularityMQ_publish. rewrite Hu, Hv.
  cbn [negb orb]. call; [call|by apply published_refused].
  apply PublishJSON_spec; [done|done|eauto|lia|congruence].
Qed.

Lemma TimelineMQ_publish_spec w action rk v c :
  v ≠ 0 → rk ≠ "" →
  runs (TimelineMQ_publish true action rk v c) w
    (published TimelineExchange rk
       (λ b, ∃ id t, String.length id = 32%nat ∧
               b = marshal_timeline (mkTimelineEvent id action v c t)) w).
Proof.
  intros Hu%Z.eqb_neq Hr. unfold TimelineMQ_publish. rewrite Hu.
  cbn [negb]. call; [call|by apply published_refused].
  apply PublishJSON_spec; [done|done|eauto|lia|congruence].
Qed.

(** Where the broker and the random source are up a publisher succeeds. *)
Lemma published_up ex rk P w r w' :
  published ex rk P w r w' → up_mq (v_up (view w)) = true → up_rand (v_up (view w)) = true →
  clk w ≤ clk w' ∧ r = Ok tt ∧
  ∃ t b, P b ∧ view w' = set_mq (v_mq (view w) ++ [mkPub ex rk ∅ (json_props t) b]) (view w).
Proof.
  intros (Hc & [(-> & Hv)|([?|?] & _)]) ??; [by split_and!|congruence..].
Qed.
End facts.
