(* ===== verification/Topology.v ===== *)
(** The topology of the broker: what [DeclareTopic] and [DeclareDLX] of
    [internal/middleware/rabbitmq] declare, the constructors of the queues, and
    the start-up of the two programs ([SetRouter] of internal/http/router.go
    and [StartNotification] of internal/worker for the API server,
    cmd/worker/main.go for the workers). *)
From S2P Require Import Prelude GoStd Entities Json Services Mq.
From Stdlib Require Import Ascii.
Local Open Scope Z_scope.
Local Open Scope go_scope.

Definition DLXExchange : string := "dlx.events".
Definition dlx_queue (queueName : string) : string := queueName +:+ ".dlx".

(** ** The broker

    Exchanges with their kinds, queues with their dead-letter exchanges, and
    bindings (exchange, queue, key). *)
Record Topo := mkTopo {
  tp_exchanges : gmap string string;
  tp_queues : gmap string (option string);
  tp_bindings : gset (string * string * string) }.
Definition empty_topo : Topo := mkTopo ∅ ∅ ∅.

Inductive Cmd : Type :=
| ExchangeDeclare (name kind : string)
| QueueDeclare (name : string) (deadLetterExchange : option string)
| QueueBind (queue key exchange : string).

(** What the protocol asks of a command: a declaration agrees with what there
    is, a binding is between an exchange and a queue that exist. *)
Definition cmd_ok (c : Cmd) (t : Topo) : bool :=
  match c with
  | ExchangeDeclare n k => bool_decide (default k (tp_exchanges t !! n) = k)
  | QueueDeclare q d => bool_decide (default d (tp_queues t !! q) = d)
  | QueueBind q _ e => bool_decide (is_Some (tp_queues t !! q)) && bool_decide (is_Some (tp_exchanges t !! e))
  end.
Definition cmd_effect (c : Cmd) (t : Topo) : Topo :=
  match c with
  | ExchangeDeclare n k => mkTopo (<[n := k]> (tp_exchanges t)) (tp_queues t) (tp_bindings t)
  | QueueDeclare q d => mkTopo (tp_exchanges t) (<[q := d]> (tp_queues t)) (tp_bindings t)
  | QueueBind q k e => mkTopo (tp_exchanges t) (tp_queues t) ({[(e, q, k)]} ∪ tp_bindings t)
  end.

(** Topic patterns: words between dots; [*] stands for one word, [#] for any
    number of words. *)
Fixpoint words (s : string) : list string :=
  match s with
  | EmptyString => [""%string]
  | String a s' =>
      if Ascii.eqb a "."%char then ""%string :: words s'
      else match words s' with h :: t => String a h :: t | [] => [String a ""] end
  end.
Fixpoint words_match (p : list string) : list string → bool :=
  match p with
  | [] => λ k, match k with [] => true | _ => false end
  | w :: p' =>
      if String.eqb w "#" then
        fix any (k : list string) := words_match p' k || match k with [] => false | _ :: k' => any k' end
      else λ k, match k with
                | [] => false
                | x :: k' => (String.eqb w "*" || String.eqb w x) && words_match p' k'
                end
  end.
Definition topic_match (pattern key : string) : bool := words_match (words pattern) (words key).

(** [broken]: a channel of the process has been closed by an error. *)
Class Amqp (W : Type) := {
  topo : W → Topo;
  broken : W → bool;
  open_channel : ST W (result unit);
  close_channel : ST W unit;
  qos : Z → ST W (result unit);
  amqp : Cmd → ST W (result unit);
  (** the queues an exchange delivers a message to *)
  amqp_route : Topo → string → string → list string }.

Class AmqpLaws (W : Type) `{World W, Amqp W} : Prop := {
  law_open : ∀ w r w', open_channel w = (r, w') →
    topo w' = topo w ∧ v_up (view w') = v_up (view w) ∧
    (r = Ok tt ∧ broken w' = broken w ∨ is_ok r = false ∧ up_mq (v_up (view w)) = false);
  law_close : ∀ w r w', close_channel w = (r, w') →
    topo w' = topo w ∧ v_up (view w') = v_up (view w);
  law_qos : ∀ n w r w', qos n w = (r, w') →
    topo w' = topo w ∧ v_up (view w') = v_up (view w) ∧
    (r = Ok tt ∧ broken w' = broken w ∨
     is_ok r = false ∧ (up_mq (v_up (view w)) = false ∨ broken w = true));
  law_amqp : ∀ c w r w', amqp c w = (r, w') →
    v_up (view w') = v_up (view w) ∧
    ((r = Ok tt ∧ cmd_ok c (topo w) = true ∧ topo w' = cmd_effect c (topo w) ∧ broken w' = broken w) ∨
     (is_ok r = false ∧
      (topo w' = topo w ∨ cmd_ok c (topo w) = true ∧ topo w' = cmd_effect c (topo w)) ∧
      (up_mq (v_up (view w)) = false ∨ broken w = true ∨ cmd_ok c (topo w) = false)));
  law_route : ∀ t ex rk, tp_exchanges t !! ex = Some "topic"%string →
    NoDup (amqp_route t ex rk) ∧
    ∀ q, q ∈ amqp_route t ex rk ↔ ∃ key, (ex, q, key) ∈ tp_bindings t ∧ topic_match key rk = true }.

(** ** rabbit_mq.go and dlx.go *)
Section declare.
Context {W : Type} `{World W} `{Amqp W}.

Definition DeclareDLX (queueName bindingKey : string) : ST W (result unit) :=
  _ <-? amqp (ExchangeDeclare DLXExchange "topic") ;;
  _ <-? amqp (QueueDeclare (dlx_queue queueName) None) ;;
  _ <-? amqp (QueueBind (dlx_queue queueName) bindingKey DLXExchange) ;;
  st_ret (Ok tt).

(** a failure to declare the dead-letter queue is only logged *)
Definition DeclareTopic (exchange queue bindingKey : string) : ST W (result unit) :=
  if String.eqb exchange "" || String.eqb queue "" || String.eqb bindingKey ""
  then st_ret (Err (ErrMsg "exchange/queue/bindingKey is required"))
  else
    _ <-? amqp (ExchangeDeclare exchange "topic") ;;
    _ <-? amqp (QueueDeclare queue (Some DLXExchange)) ;;
    _ <-? amqp (QueueBind queue bindingKey exchange) ;;
    DeclareDLX queue bindingKey ;;; st_ret (Ok tt).

(** [conn]: neither the receiver nor its connection is nil *)
Definition NewChannelClient (conn : bool) : ST W (result unit) :=
  if negb conn then st_ret (Err (ErrMsg "rabbitmq connection is not initialized"))
  else open_channel.

(** The constructors; [base]: the client they are given is not nil. *)
Definition base_nil : ST W (result unit) := st_ret (Err (ErrMsg "rabbitmq base is nil")).

Definition NewLikeMQ (base : bool) : ST W (result unit) :=
  if negb base then base_nil else DeclareTopic LikeExchange LikeQueue LikeBindingKey.
Definition NewCommentMQ (base : bool) : ST W (result unit) :=
  if negb base then base_nil else DeclareTopic CommentExchange CommentQueue CommentBindingKey.
Definition NewSocialMQ (base : bool) : ST W (result unit) :=
  if negb base then base_nil else DeclareTopic SocialExchange SocialQueue SocialBindingKey.
Definition NewPopularityMQ (base : bool) : ST W (result unit) :=
  if negb base then base_nil else DeclareTopic PopularityExchange PopularityQueue PopularityBindingKey.
Definition NewTimelineMQ (base : bool) : ST W (result unit) :=
  if negb base then base_nil else DeclareTopic TimelineExchange TimelineQueue TimelineBindingKey.
Definition NewNotificationMQ (base : bool) : ST W (result unit) :=
  if negb base then base_nil
  else
    _ <-? DeclareTopic LikeExchange NotificationLikeQueue LikeRoutingKeyLike ;;
    _ <-? DeclareTopic CommentExchange NotificationCommentQueue CommentRoutingKeyPublish ;;
    DeclareTopic SocialExchange NotificationSocialQueue SocialRoutingKeyFollow.

(** ** Start-up of the API server

    [SetRouter] makes a client and a publisher for four kinds of events; one
    that fails is nil, which its service takes for "no queue". *)
Record MQs := mkMQs { mq_like : bool; mq_popularity : bool; mq_comment : bool; mq_social : bool }.

Definition router_mqs (conn : bool) : ST W MQs :=
  likeClient <- NewChannelClient conn ;;
  likeMQ <- NewLikeMQ (is_ok likeClient) ;;
  popularityClient <- NewChannelClient conn ;;
  popularityMQ <- NewPopularityMQ (is_ok popularityClient) ;;
  commentClient <- NewChannelClient conn ;;
  commentMQ <- NewCommentMQ (is_ok commentClient) ;;
  socialClient <- NewChannelClient conn ;;
  socialMQ <- NewSocialMQ (is_ok socialClient) ;;
  st_ret (mkMQs (is_ok likeMQ) (is_ok popularityMQ) (is_ok commentMQ) (is_ok socialMQ)).

(** The queues whose worker got a channel.  The three goroutines open theirs
    in some order. *)
Definition StartNotificationWorkers (conn : bool) : ST W (list string) :=
  if negb conn then st_ret []
  else st_fold (λ q started,
         client <- NewChannelClient conn ;;
         st_ret (if is_ok client then started ++ [q] else started))
         [NotificationLikeQueue; NotificationCommentQueue; NotificationSocialQueue] [].

(** without the subscription to Redis *)
Definition StartNotification (conn : bool) : ST W (list string) :=
  if negb conn then st_ret []
  else
    notificationClient <- NewChannelClient conn ;;
    if negb (is_ok notificationClient) then st_ret []
    else
      r <- NewNotificationMQ true ;;
      if negb (is_ok r) then close_channel ;;; st_ret []
      else StartNotificationWorkers conn.

Definition api_startup (conn : bool) : ST W (MQs * list string) :=
  mqs <- router_mqs conn ;; started <- StartNotification conn ;; st_ret (mqs, started).

(** ** Start-up of the workers: cmd/worker/main.go *)
Definition WorkerPrefetchCount : Z := 50.

Definition newWorkerClient (conn consumer : bool) : ST W (result unit) :=
  _ <-? NewChannelClient conn ;;
  if consumer then
    r <- qos WorkerPrefetchCount ;;
    match r with
    | Ok _ => st_ret (Ok tt)
    | Err e => close_channel ;;; st_ret (Err e)
    end
  else st_ret (Ok tt).

(** From the connection to the broker to the started workers: their names and
    the queues they consume.  An error ends the process. *)
Definition worker_startup (cache : bool) : ST W (result (list (string * option string))) :=
  _ <-? newWorkerClient true true ;; _ <-? NewSocialMQ true ;;
  _ <-? newWorkerClient true true ;; _ <-? NewLikeMQ true ;;
  _ <-? newWorkerClient true true ;; _ <-? NewCommentMQ true ;;
  _ <-? newWorkerClient true false ;; _ <-? NewTimelineMQ true ;;
  let resident := [("social_worker", Some SocialQueue); ("like_worker", Some LikeQueue);
                   ("comment_worker", Some CommentQueue); ("outbox_worker", None)]%string in
  if cache then
    _ <-? newWorkerClient true true ;; _ <-? NewPopularityMQ true ;;
    _ <-? newWorkerClient true true ;;
    st_ret (Ok (resident ++ [("popularity_worker", Some PopularityQueue);
                             ("timeline_worker", Some TimelineQueue)]%string))
  else st_ret (Ok resident).
End declare.
