(* ===== verification/Retry.v ===== *)
(** [internal/worker/retry.go]: a delivery that fails is published again with
    its attempt counted in a header, and dead-lettered after
    [MaxRetryCount] retries.  The broker's queues and the settlements make a
    transition system; its runs are bounded. *)
From S2P Require Import Prelude GoStd Entities Json Services Mq Reference.
Local Open Scope Z_scope.
Local Open Scope go_scope.

Definition RetryHeader : string := "x-retry-count".

(** An [amqp.Delivery] is a publication with the queue's hand on it; the
    fields the code reads are those of the publication. *)
Abbreviation Delivery := Pub.

(** [d.Ack(false)] and [d.Nack(false, requeue)]. *)
Inductive Settle : Type :=
| Ack
| Nack (requeue : bool).

#[export] Instance settle_eq_dec : EqDecision Settle.
Proof. solve_decision. Defined.

(** What the loop of a consumer can receive: a delivery, the closing of its
    channel, the end of its context. *)
Inductive Arrival : Type :=
| Delivered (d : Delivery)
| Closed
| CtxDone.

(** [ch.Consume]: subscribing a channel to a queue *)
Class Consumer (W : Type) := { ch_Consume : string → ST W (result unit) }.

Definition getRetryCount (d : Delivery) : Z :=
  match p_Headers d !! RetryHeader with
  | Some (HInt32 cnts) => cnts
  | _ => 0
  end.

Section worker.
Context {W : Type} `{World W}.

Definition republishForRetry (d : Delivery) (retryCount : Z) : ST W (result unit) :=
  publish (mkPub (p_Exchange d) (p_RoutingKey d)
             (<[RetryHeader := HInt32 retryCount]> (p_Headers d))
             (p_Props d) (p_Body d)).

Definition handleMainDelivery (process : Delivery → ST W (result unit)) (d : Delivery) :
    ST W Settle :=
  r <- process d ;;
  match r with
  | Err _ =>
      let retryCount := getRetryCount d in
      if MaxRetryCount <=? retryCount then st_ret (Nack false)
      else
        r <- republishForRetry d (retryCount + 1) ;;
        match r with
        | Err _ => st_ret (Nack true)
        | Ok _ => st_ret Ack
        end
  | Ok _ => st_ret Ack
  end.

(** The loop over what it receives, as long as that lasts: the settlements in
    order, and the error it returns with, none while it waits. *)
Fixpoint consume_loop (process : Delivery → ST W (result unit)) (l : list Arrival) :
    ST W (list Settle * option err) :=
  match l with
  | [] => st_ret ([], None)
  | CtxDone :: _ => st_ret ([], Some Canceled)
  | Closed :: _ => st_ret ([], Some (ErrMsg "deliveries channel closed"))
  | Delivered d :: l =>
      s <- handleMainDelivery process d ;;
      r <- consume_loop process l ;;
      st_ret (s :: r.1, r.2)
  end.

Definition consumeWithRetry `{Consumer W} (queue : string)
    (process : Delivery → ST W (result unit)) (l : list Arrival) :
    ST W (list Settle * option err) :=
  deliveries <- ch_Consume queue ;;
  match deliveries with
  | Err e => st_ret ([], Some e)
  | Ok _ => consume_loop process l
  end.
End worker.

(** ** The broker and its workers

    [route ex rk] lists the queues a topic exchange delivers to; [process q]
    is the handler of the worker of queue [q].  A step delivers one ready
    message to its worker, settles it, and routes what was published. *)
Section broker.
Context {W : Type} `{World W}.
Variable route : string → string → list string.
Variable process : string → Delivery → ST W (result unit).

Record Sys := mkSys {
  s_world : W; s_ready : list (string * Delivery); s_dead : list (string * Delivery) }.

Definition routed (p : Pub) : list (string * Delivery) :=
  (λ q, (q, p)) <$> route (p_Exchange p) (p_RoutingKey p).

Definition requeued (s : Settle) (m : string * Delivery) : list (string * Delivery) :=
  match s with Nack true => [m] | _ => [] end.
Definition dead_lettered (s : Settle) (m : string * Delivery) : list (string * Delivery) :=
  match s with Nack false => [m] | _ => [] end.

Inductive bstep : Sys → Sys → Prop :=
| bstep_deliver w q d r1 r2 dead s w' news :
    handleMainDelivery (process q) d w = (s, w') →
    v_mq (view w') = v_mq (view w) ++ news →
    bstep (mkSys w (r1 ++ (q, d) :: r2) dead)
          (mkSys w' (r1 ++ r2 ++ requeued s (q, d) ++ mjoin (routed <$> news))
             (dead ++ dead_lettered s (q, d))).

(** Attempts left to a message that is always refused: its own, and those
    of its copies in the [n] queues of its routing key. *)
Fixpoint tries (n k : nat) : nat :=
  match k with O => 1 | S k => 1 + n * tries n k end.
Fixpoint leaves (n k : nat) : nat :=
  match k with O => 1 | S k => n * leaves n k end.

Definition fanout (d : Delivery) : nat := length (route (p_Exchange d) (p_RoutingKey d)).
Definition budget (d : Delivery) : nat := Z.to_nat (MaxRetryCount - getRetryCount d).
Definition weight (m : string * Delivery) : nat := tries (fanout m.2) (budget m.2).
Definition leaf (m : string * Delivery) : nat := leaves (fanout m.2) (budget m.2).
Definition total (f : string * Delivery → nat) (l : list (string * Delivery)) : nat :=
  sum_list_with f l.

(** The schedule that always serves the message at the head, executable. *)
Definition bfirst (x : Sys) : Sys :=
  match s_ready x with
  | [] => x
  | (q, d) :: rest =>
      let '(s, w') := handleMainDelivery (process q) d (s_world x) in
      let news := drop (length (v_mq (view (s_world x)))) (v_mq (view w')) in
      mkSys w' (rest ++ requeued s (q, d) ++ mjoin (routed <$> news))
        (s_dead x ++ dead_lettered s (q, d))
  end.

(** The broker stays up and handlers publish nothing themselves. *)
Definition quiet : Prop := ∀ q d w,
  runs (process q d) w (λ _ w', v_mq (view w') = v_mq (view w) ∧
                                v_up (view w') = v_up (view w)).
Definition refusing : Prop := ∀ q d w, is_ok (process q d w).1 = false.
End broker.

Section broker_facts.
Context {W : Type} `{WorldLaws W}.
Variable route : string → string → list string.
Variable process : string → Delivery → ST W (result unit).
Implicit Types d : Delivery.

Abbreviation retry_copy d :=
  (mkPub (p_Exchange d) (p_RoutingKey d)
     (<[RetryHeader := HInt32 (getRetryCount d + 1)]> (p_Headers d))
     (p_Props d) (p_Body d)).

Lemma getRetryCount_copy d : getRetryCount (retry_copy d) = getRetryCount d + 1.
Proof. unfold getRetryCount at 1. simpl. by rewrite lookup_insert_eq. Qed.

(** The four outcomes of a delivery, with what it publishes. *)
Lemma handleMainDelivery_outcome (proc : Delivery → ST W (result unit)) d w :
  runs (proc d) w (λ _ w', v_mq (view w') = v_mq (view w) ∧ v_up (view w') = v_up (view w)) →
  runs (handleMainDelivery proc d) w (λ s w',
    v_up (view w') = v_up (view w) ∧
    ((is_ok (proc d w).1 = true ∧ s = Ack ∧ v_mq (view w') = v_mq (view w)) ∨
     (is_ok (proc d w).1 = false ∧ MaxRetryCount ≤ getRetryCount d ∧
        s = Nack false ∧ v_mq (view w') = v_mq (view w)) ∨
     (is_ok (proc d w).1 = false ∧ getRetryCount d < MaxRetryCount ∧
        s = Ack ∧ v_mq (view w') = v_mq (view w) ++ [retry_copy d]) ∨
     (is_ok (proc d w).1 = false ∧ getRetryCount d < MaxRetryCount ∧
        s = Nack true ∧ up_mq (v_up (view w)) = false))).
Proof.
  intros Hq. unfold handleMainDelivery. apply runs_bind.
  apply runs_intro. intros r w1 E. rewrite E. simpl.
  pose proof (runs_elim _ _ _ _ _ Hq E) as [Hm Hu].
  destruct r as [[]|e]; cbv beta iota.
  - apply runs_ret. split; [done|]. by left.
  - destruct (Z.leb_spec MaxRetryCount (getRetryCount d)).
    + apply runs_ret. split; [done|]. right; left. by split_and!.
    + unfold republishForRetry. call; glue.
      * rewrite Hv. simpl. split; [done|]. right; right; left. rewrite Hm. by split_and!.
      * split; [|right; right; right; split_and!; solve [done|congruence]].
        destruct Hv as [->| ->]; done.
Qed.

Lemma total_app f l1 l2 : total f (l1 ++ l2) = (total f l1 + total f l2)%nat.
Proof. unfold total. by rewrite sum_list_with_app. Qed.

Lemma total_routed f p (c : nat) :
  (∀ q, f (q, p) = c) → total f (routed route p) = (fanout route p * c)%nat.
Proof.
  intros Hf. unfold routed, fanout, total.
  generalize (route (p_Exchange p) (p_RoutingKey p)) as qs.
  induction qs as [|q qs IH]; [done|].
  rewrite fmap_cons. simpl. rewrite Hf. f_equal. exact IH.
Qed.

Lemma tries_pos n k : (1 ≤ tries n k)%nat.
Proof. destruct k; simpl; lia. Qed.

Lemma budget_copy d :
  getRetryCount d < MaxRetryCount → budget d = S (budget (retry_copy d)).
Proof. unfold budget. rewrite getRetryCount_copy. lia. Qed.

Lemma app_eq_self {A} (l m : list A) : l = l ++ m → m = [].
Proof. intros E. apply (f_equal length) in E. rewrite length_app in E. destruct m; simpl in *; [done|lia]. Qed.

(** A step uses up an attempt; exactly one where the handler refuses. *)
Lemma bstep_weight x y :
  quiet process → up_mq (v_up (view (s_world x))) = true → bstep route process x y →
  up_mq (v_up (view (s_world y))) = true ∧
  (1 + total (weight route) (s_ready y) ≤ total (weight route) (s_ready x))%nat ∧
  (refusing process →
     (1 + total (weight route) (s_ready y) = total (weight route) (s_ready x))%nat ∧
     (total (leaf route) (s_ready y) + length (s_dead y) =
        total (leaf route) (s_ready x) + length (s_dead x))%nat).
Proof.
  intros Hq Hup Hs. destruct Hs as [w q d r1 r2 dead s w' news E Hn]. simpl in *.
  pose proof (runs_elim _ _ _ _ _ (handleMainDelivery_outcome (process q) d w (Hq q d w)) E)
    as (Hu & Hcases).
  split; [congruence|]. rewrite !total_app, length_app. simpl.
  pose proof (tries_pos (fanout route d) (budget d)) as Hpos.
  destruct Hcases as [(Hok & -> & Hm)|[(Hok & Hc & -> & Hm)|[(Hok & Hc & -> & Hm)|(_ & _ & _ & Hm)]]];
    [| | |congruence].
  - rewrite Hm in Hn. apply app_eq_self in Hn as ->. simpl.
    assert (1 ≤ weight route (q, d))%nat by done.
    split; [lia|]. intros Href. specialize (Href q d w). congruence.
  - rewrite Hm in Hn. apply app_eq_self in Hn as ->. simpl.
    assert (budget d = 0)%nat as Hb by (unfold budget; lia).
    assert (weight route (q, d) = 1 ∧ leaf route (q, d) = 1)%nat as [-> ->]
      by (unfold weight, leaf; simpl; by rewrite Hb).
    split; [lia|]. intros _. lia.
  - rewrite Hm in Hn. apply app_inv_head in Hn as <-. simpl. rewrite app_nil_r.
    set (b := budget (retry_copy d)). set (n := fanout route d).
    rewrite (total_routed (weight route) _ (tries n b)),
      (total_routed (leaf route) _ (leaves n b)) by done.
    change (fanout route (retry_copy d)) with n.
    assert (weight route (q, d) = 1 + n * tries n b ∧
            leaf route (q, d) = n * leaves n b)%nat as [-> ->]
      by (unfold weight, leaf; simpl; by rewrite (budget_copy d Hc)).
    split; [lia|]. intros _. lia.
Qed.

Lemma brun_weight n x y :
  quiet process → up_mq (v_up (view (s_world x))) = true →
  nsteps (bstep route process) n x y →
  (n + total (weight route) (s_ready y) ≤ total (weight route) (s_ready x))%nat ∧
  (refusing process →
     (n + total (weight route) (s_ready y) = total (weight route) (s_ready x))%nat ∧
     (total (leaf route) (s_ready y) + length (s_dead y) =
        total (leaf route) (s_ready x) + length (s_dead x))%nat).
Proof.
  intros Hq Hup. induction 1 as [x|n x y z Hxy _ IH]; [split; [lia|intros; lia]|].
  destruct (bstep_weight _ _ Hq Hup Hxy) as (Hup' & Hle & Href).
  destruct (IH Hup') as [IH1 IH2]. split; [lia|].
  intros Hr. specialize (Href Hr). specialize (IH2 Hr). lia.
Qed.

(** A ready message can always be served. *)
Lemma bfirst_step x :
  quiet process → up_mq (v_up (view (s_world x))) = true → s_ready x ≠ [] →
  bstep route process x (bfirst route process x).
Proof.
  intros Hq Hup Hr. destruct x as [w [|[q d] rest] dead]; [done|]. unfold bfirst; simpl in *.
  destruct (handleMainDelivery (process q) d w) as [s w'] eqn:E.
  apply (bstep_deliver route process w q d [] rest dead s w'); [done|].
  pose proof (runs_elim _ _ _ _ _ (handleMainDelivery_outcome (process q) d w (Hq q d w)) E)
    as (_ & [(_&_&Hm)|[(_&_&_&Hm)|[(_&_&_&Hm)|(_&_&_&Hm)]]]);
    [rewrite Hm..|congruence]; rewrite ?drop_all, ?app_nil_r, ?drop_app_length; done.
Qed.

Lemma comes_to_rest x :
  quiet process → up_mq (v_up (view (s_world x))) = true →
  ∃ k y, nsteps (bstep route process) k x y ∧ s_ready y = [].
Proof.
  intros Hq. remember (total (weight route) (s_ready x)) as m eqn:Hm.
  revert x Hm. induction (lt_wf m) as [m _ IH]. intros x -> Hup.
  destruct (decide (s_ready x = [])) as [Hx|Hx].
  - exists 0%nat, x. split; [constructor|done].
  - pose proof (bfirst_step x Hq Hup Hx) as Hs.
    destruct (bstep_weight _ _ Hq Hup Hs) as (Hup' & Hlt & _).
    destruct (IH (total (weight route) (s_ready (bfirst route process x))) ltac:(lia)
                _ eq_refl Hup') as (k & y & Hrun & Hy).
    exists (S k), y. split; [by econstructor|done].
Qed.

Lemma brun_up n x y :
  quiet process → up_mq (v_up (view (s_world x))) = true →
  nsteps (bstep route process) n x y → up_mq (v_up (view (s_world y))) = true.
Proof.
  intros Hq Hup. induction 1 as [|n x y z Hxy _ IH]; [done|].
  apply IH. by eapply bstep_weight in Hxy as [? _].
Qed.


(** A publication that every handler refuses is handled exactly
    n + n^2 + n^3 + n^4 times and dead-lettered n^4 times, because a retry is
    published to the exchange again and so copied to all [n] queues: the four
    attempts that MaxRetryCount stands for hold for one bound queue only. *)
Theorem retry_amplification p w k y :
  quiet process → refusing process → up_mq (v_up (view w)) = true →
  p_Headers p !! RetryHeader = None →
  nsteps (bstep route process) k (mkSys w (routed route p) []) y → s_ready y = [] →
  let n := fanout route p in
  (k = n + n ^ 2 + n ^ 3 + n ^ 4)%nat ∧ (length (s_dead y) = n ^ 4)%nat.
Proof.
  intros Hq Hr Hup Hh Hrun Hy n. apply brun_weight in Hrun as [_ Hle]; [|done..].
  specialize (Hle Hr). rewrite Hy in Hle. simpl in Hle.
  rewrite (total_routed _ _ (tries n 3)), (total_routed _ _ (leaves n 3)) in Hle.
  - fold n in Hle. simpl in *. lia.
  - intros q. unfold leaf, budget, getRetryCount. simpl. by rewrite Hh.
  - intros q. unfold weight, budget, getRetryCount. simpl. by rewrite Hh.
Qed.
End broker_facts.

(** ** The topology the program declares, for like events *)
Definition demo_route (ex rk : string) : list string :=
  if String.eqb ex LikeExchange && String.eqb rk LikeRoutingKeyLike
  then [LikeQueue; NotificationLikeQueue] else [].
Definition demo_refuse (q : string) (d : Delivery) : ST RefW (result unit) :=
  st_ret (Err ErrRecordNotFound).
Definition demo_pub : Pub :=
  mkPub LikeExchange LikeRoutingKeyLike ∅ (json_props 0)
    (marshal_like (mkLikeEvent "e" "like" 1 2 0)).

Lemma demo_quiet : quiet demo_refuse.
Proof. intros q d w. by apply runs_ret. Qed.


(** One like event that both of its workers refuse: 30 attempts, 16 dead
    letters. *)
Lemma retry_amplification_witness :
  ∃ y, nsteps (bstep demo_route demo_refuse) 30
         (mkSys (ref_start empty_db 0) (routed demo_route demo_pub) []) y ∧
       length (s_dead y) = 16%nat.
Proof.
  destruct (comes_to_rest demo_route demo_refuse
              (mkSys (ref_start empty_db 0) (routed demo_route demo_pub) [])
              demo_quiet eq_refl) as (k & y & Hrun & Hy).
  destruct (retry_amplification demo_route demo_refuse demo_pub (ref_start empty_db 0) k y
              demo_quiet (λ _ _ _, eq_refl) eq_refl eq_refl Hrun Hy) as [-> Hd].
  exists y. split; [exact Hrun|exact Hd].
Defined.
