(* ===== verification/TopologyFacts.v ===== *)
(** What the declarations add up to: whatever the order in which the programs
    start, and whichever of their calls fail, the broker routes every event to
    the queues of its workers, and its dead letters to theirs. *)
From S2P Require Import Prelude GoStd TextFacts Entities Json Services Mq Reference Topology.
From Stdlib Require Import Ascii.
Local Open Scope Z_scope.
Local Open Scope go_scope.

(** ** Reachable topologies *)

(** The commands behind one call of [DeclareTopic]. *)
Definition topic_cmds (x : string * string * string) : list Cmd :=
  let '(ex, q, key) := x in
  [ExchangeDeclare ex "topic"; QueueDeclare q (Some DLXExchange); QueueBind q key ex;
   ExchangeDeclare DLXExchange "topic"; QueueDeclare (dlx_queue q) None;
   QueueBind (dlx_queue q) key DLXExchange].

(** One command of some process, accepted by the broker. *)
Definition tstep (t t' : Topo) : Prop :=
  ∃ x c, x ∈ declared_queues ∧ c ∈ topic_cmds x ∧ cmd_ok c t = true ∧ t' = cmd_effect c t.

Definition topo_reachable (t : Topo) : Prop := rtc tstep empty_topo t.

Definition queue_names : list string := (λ x, x.1.2) <$> declared_queues.
Definition dlx_names : list string := dlx_queue <$> queue_names.

Record topo_inv (t : Topo) : Prop := {
  ti_exchange : ∀ e k, tp_exchanges t !! e = Some k → k = "topic"%string;
  ti_queue : ∀ q d, tp_queues t !! q = Some d →
    (q ∈ queue_names ∧ d = Some DLXExchange) ∨ (q ∈ dlx_names ∧ d = None);
  ti_binding : ∀ e q k, (e, q, k) ∈ tp_bindings t →
    (e, q, k) ∈ declared_queues ∨
    (e = DLXExchange ∧ ∃ ex q0, q = dlx_queue q0 ∧ (ex, q0, k) ∈ declared_queues);
  ti_bound : ∀ e q k, (e, q, k) ∈ tp_bindings t →
    is_Some (tp_exchanges t !! e) ∧ is_Some (tp_queues t !! q) }.

Lemma declared_names x : x ∈ declared_queues → x.1.2 ∈ queue_names.
Proof. intros Hx. by apply (list_elem_of_fmap_2 (λ x : string * string * string, x.1.2)). Qed.

(** Plain queues and dead-letter queues have different names. *)
Lemma names_apart q : q ∈ queue_names → q ∉ dlx_names.
Proof.
  intros Hq. assert (Forall (λ q, q ∉ dlx_names) queue_names) as H
    by (apply (bool_decide_unpack _); by vm_compute).
  by eapply list.Forall_forall in H.
Qed.

Lemma exchange_apart ex q k : (ex, q, k) ∈ declared_queues → ex ≠ DLXExchange.
Proof.
  intros Hq. assert (Forall (λ x : string * string * string, x.1.1 ≠ DLXExchange) declared_queues) as H
    by (apply (bool_decide_unpack _); by vm_compute).
  by apply (proj1 (list.Forall_forall _ _) H (ex, q, k)).
Qed.

Lemma tstep_inv t t' : tstep t t' → topo_inv t → topo_inv t'.
Proof.
  intros ([[ex q] key] & c & Hx & Hc & Hok & ->) [He Hq Hb Hs].
  pose proof (declared_names _ Hx) as Hn. cbn in Hn.
  assert (dlx_queue q ∈ dlx_names) as Hdn by (by apply list_elem_of_fmap_2).
  assert (∀ e k, (e, k) = (ex, "topic"%string) ∨ (e, k) = (DLXExchange, "topic"%string) →
    topo_inv (cmd_effect (ExchangeDeclare e k) t)) as Hex.
  { intros e k Hek. assert (k = "topic"%string) as -> by (destruct Hek; congruence). split; cbn.
    - intros e' k' [[_ <-]|[_ E]]%lookup_insert_Some; [done|by eapply He].
    - done.
    - done.
    - intros e' q' k' Hin. destruct (Hs _ _ _ Hin) as [? ?]. split; [|done].
      destruct (decide (e = e')) as [->|]; [rewrite lookup_insert_eq; by eexists|by rewrite lookup_insert_ne]. }
  assert (∀ q' d, (q' ∈ queue_names ∧ d = Some DLXExchange) ∨ (q' ∈ dlx_names ∧ d = None) →
    topo_inv (cmd_effect (QueueDeclare q' d) t)) as Hqd.
  { intros q' d Hd. split; cbn; [done| |done|].
    - intros q2 d2 [[<- <-]|[_ E]]%lookup_insert_Some; [done|by apply Hq].
    - intros e' q2 k' Hin. destruct (Hs _ _ _ Hin) as [? ?]. split; [done|].
      destruct (decide (q' = q2)) as [->|]; [rewrite lookup_insert_eq; by eexists|by rewrite lookup_insert_ne]. }
  assert (∀ q' k' e', cmd_ok (QueueBind q' k' e') t = true →
    ((e', q', k') ∈ declared_queues ∨
     (e' = DLXExchange ∧ ∃ ex q0, q' = dlx_queue q0 ∧ (ex, q0, k') ∈ declared_queues)) →
    topo_inv (cmd_effect (QueueBind q' k' e') t)) as Hqb.
  { intros q' k' e' Hok' Hd. cbn in Hok'. bool_to_prop. split; cbn; [done|done| |];
      intros e2 q2 k2 [E|Hin]%elem_of_union;
      [apply elem_of_singleton in E; by simplify_eq|by apply Hb
      |apply elem_of_singleton in E; by simplify_eq|by eapply Hs]. }
  cbn [topic_cmds] in Hc.
  repeat (apply elem_of_cons in Hc as [->|Hc];
    [first [apply Hex; tauto|apply Hqd; tauto|apply Hqb; [done|]; by eauto 10]|]).
  by apply elem_of_nil in Hc.
Qed.

Lemma reachable_inv t : topo_reachable t → topo_inv t.
Proof.
  unfold topo_reachable. intros Hr.
  cut (∀ t0, topo_inv t0 → rtc tstep t0 t → topo_inv t); [intros Hc; apply (Hc empty_topo); [|done]|].
  - split; cbn; intros *; by rewrite ?lookup_empty || intros []%not_elem_of_empty.
  - intros t0 H0 Hs. induction Hs; eauto using tstep_inv.
Qed.

(** Nothing is ever taken down. *)
Lemma tstep_bindings t t' : rtc tstep t t' → tp_bindings t ⊆ tp_bindings t'.
Proof.
  induction 1 as [|t t1 t2 (x & c & _ & _ & _ & ->) _ IH]; [done|].
  etrans; [|exact IH]. destruct c; cbn; set_solver.
Qed.

(** ** Routes *)

(** [ready t x]: the queue of a declaration is bound, and so is its
    dead-letter queue. *)
Definition ready (t : Topo) (x : string * string * string) : Prop :=
  x ∈ tp_bindings t ∧ (DLXExchange, dlx_queue x.1.2, x.2) ∈ tp_bindings t.

Lemma ready_mono t t' x : rtc tstep t t' → ready t x → ready t' x.
Proof. intros Hs%tstep_bindings [? ?]. split; set_solver. Qed.

(** The declared queues that take a key of an exchange, and those whose dead
    letters may have the key. *)
Definition queues_of (ex rk : string) : list string :=
  (λ x : string * string * string, x.1.2) <$>
    List.filter (λ x, String.eqb x.1.1 ex && topic_match x.2 rk) declared_queues.
Definition dlx_queues_of (rk : string) : list string :=
  (λ x : string * string * string, dlx_queue x.1.2) <$>
    List.filter (λ x, topic_match x.2 rk) declared_queues.

Lemma elem_of_queues_of ex rk q :
  q ∈ queues_of ex rk ↔ ∃ key, (ex, q, key) ∈ declared_queues ∧ topic_match key rk = true.
Proof.
  unfold queues_of. rewrite list_elem_of_fmap. setoid_rewrite elem_of_lfilter. split.
  - intros ([[e q'] key] & -> & Hm & Hx). cbn [fst snd] in *. bool_to_prop. subst. by exists key.
  - intros (key & Hx & Hm). exists (ex, q, key). cbn [fst snd]. by rewrite String.eqb_refl, Hm.
Qed.

Lemma elem_of_dlx_queues_of rk q :
  q ∈ dlx_queues_of rk ↔
    ∃ ex q0 key, q = dlx_queue q0 ∧ (ex, q0, key) ∈ declared_queues ∧ topic_match key rk = true.
Proof.
  unfold dlx_queues_of. rewrite list_elem_of_fmap. setoid_rewrite elem_of_lfilter. split.
  - intros ([[e q'] key] & -> & Hm & Hx). by exists e, q', key.
  - intros (ex & q0 & key & -> & Hx & Hm). by exists (ex, q0, key).
Qed.

(** Every key the program publishes with, and the queues that get it. *)
Definition event_routes : list (string * string * list string) :=
  [(LikeExchange, LikeRoutingKeyLike, [LikeQueue; NotificationLikeQueue]);
   (LikeExchange, LikeRoutingKeyUnlike, [LikeQueue]);
   (CommentExchange, CommentRoutingKeyPublish, [CommentQueue; NotificationCommentQueue]);
   (CommentExchange, CommentRoutingKeyDelete, [CommentQueue]);
   (SocialExchange, SocialRoutingKeyFollow, [SocialQueue; NotificationSocialQueue]);
   (SocialExchange, SocialRoutingKeyUnFollow, [SocialQueue]);
   (PopularityExchange, PopularityRoutingKeyUpdate, [PopularityQueue]);
   (TimelineExchange, TimelineRoutingKeyPublish, [TimelineQueue])].

Lemma event_routes_of x : x ∈ event_routes →
  let '(ex, rk, qs) := x in
  queues_of ex rk = qs ∧ dlx_queues_of rk = dlx_queue <$> qs ∧ NoDup qs ∧ ex ≠ DLXExchange ∧ qs ≠ [].
Proof.
  assert (Forall (λ x : string * string * list string,
    queues_of x.1.1 x.1.2 = x.2 ∧ dlx_queues_of x.1.2 = dlx_queue <$> x.2 ∧ NoDup x.2 ∧
    x.1.1 ≠ DLXExchange ∧ x.2 ≠ []) event_routes) as Hall.
  { apply (bool_decide_unpack _). by vm_compute. }
  destruct x as [[ex rk] qs]. intros Hx. by apply (proj1 (list.Forall_forall _ _) Hall (ex, rk, qs)).
Qed.

Section routing.
Context {W : Type} `{AmqpLaws W}.
Implicit Types t : Topo.

(** Where the broker sends a message that queue [q] has rejected. *)
Definition dead_letters t (q rk : string) : list string :=
  match tp_queues t !! q with Some (Some dlx) => amqp_route t dlx rk | _ => [] end.

Lemma inv_exchange t e q k : topo_inv t → (e, q, k) ∈ tp_bindings t →
  tp_exchanges t !! e = Some "topic"%string.
Proof. intros [He _ _ Hs] [[k' Ek] _]%Hs. by rewrite Ek, (He _ _ Ek). Qed.

Lemma dlx_queue_inj : Inj (=) (=) dlx_queue.
Proof.
  unfold dlx_queue. intros q1. induction q1 as [|a q1 IH]; intros [|b q2] E.
  - done.
  - apply (f_equal String.length) in E. rewrite !string_length_app in E. simpl in E. lia.
  - apply (f_equal String.length) in E. rewrite !string_length_app in E. simpl in E. lia.
  - rewrite !TextFacts.string_app_cons in E. injection E as -> E. f_equal. by apply IH.
Qed.

Section reachable.
Variables (t : Topo) (ex rk : string) (qs : list string).
Hypothesis Hreach : topo_reachable t.
Hypothesis Hready : ∀ x, x ∈ declared_queues → ready t x.
Hypothesis Hroute : (ex, rk, qs) ∈ event_routes.

Lemma routes_bound q : q ∈ qs →
  ∃ key, (ex, q, key) ∈ tp_bindings t ∧ (DLXExchange, dlx_queue q, key) ∈ tp_bindings t.
Proof.
  pose proof (event_routes_of _ Hroute) as (Hqs & _). rewrite <-Hqs.
  intros (key & Hx & _)%elem_of_queues_of. exists key. by apply Hready.
Qed.

(** The queues that a message for an exchange goes to. *)
Lemma routes_to : amqp_route t ex rk ≡ₚ qs.
Proof.
  pose proof (reachable_inv _ Hreach) as Hinv.
  pose proof (event_routes_of _ Hroute) as (Hqs & _ & Hnd & Hne & Hnil).
  assert (∃ q0, q0 ∈ qs) as [q0 Hq0] by (clear -Hnil; destruct qs as [|q0 l]; [done|]; exists q0; by left).
  destruct (routes_bound q0 Hq0) as (k0 & Hb0 & _).
  destruct (law_route t ex rk (inv_exchange _ _ _ _ Hinv Hb0)) as [Hnd1 Hin1].
  apply NoDup_Permutation; [done|done|]. intros q. rewrite Hin1, <-Hqs, elem_of_queues_of.
  split; intros (key & Hb & Hm); exists key; (split; [|done]).
  - by apply (ti_binding _ Hinv) in Hb as [|[-> _]].
  - by apply Hready.
Qed.

(** The queues that the dead letters of one of them go to. *)
Lemma dead_letters_to q : q ∈ qs → dead_letters t q rk ≡ₚ (dlx_queue <$> qs).
Proof.
  intros Hq. pose proof (reachable_inv _ Hreach) as Hinv.
  pose proof (event_routes_of _ Hroute) as (Hqs & Hdl & Hnd & Hne & _). unfold dead_letters.
  destruct (routes_bound q Hq) as (key & Hb & Hd0). destruct (ti_bound _ Hinv _ _ _ Hb) as [_ [d Ed]].
  destruct (law_route t DLXExchange rk (inv_exchange _ _ _ _ Hinv Hd0)) as [Hnd2 Hin2].
  assert (q ∈ queue_names) as Hqn.
  { rewrite <-Hqs in Hq. apply elem_of_queues_of in Hq as (k & Hk & _). by apply declared_names in Hk. }
  rewrite Ed. destruct (ti_queue _ Hinv _ _ Ed) as [[_ ->]|[Hbad _]]; [|by apply names_apart in Hqn].
  apply NoDup_Permutation; [done|apply NoDup_fmap; [apply dlx_queue_inj|done]|].
  intros q'. rewrite Hin2, <-Hdl, elem_of_dlx_queues_of. split.
  - intros (k & Hk & Hm). apply (ti_binding _ Hinv) in Hk as [Hk|(_ & e & q1 & -> & Hk)].
    + by apply exchange_apart in Hk.
    + by exists e, q1, k.
  - intros (e & q1 & k & -> & Hk & Hm). exists k. split; [|done]. by apply Hready in Hk as [_ ?].
Qed.
End reachable.

End routing.

(** ** Start-up *)

(** facts about the declarations, by computation *)
Ltac declared := apply (bool_decide_unpack _); by vm_compute.
Ltac declared_in := apply (proj1 (list.Forall_forall _ _)), (bool_decide_unpack _); by vm_compute.
Section startup.
Context {W : Type} `{WorldLaws W} `{!Amqp W} `{!AmqpLaws W}.
Implicit Types w : W.

(** the broker answers and no channel has failed *)
Definition working w : Prop := up_mq (v_up (view w)) = true ∧ broken w = false.

(** [issues m]: the commands of [m] are those of [DeclareTopic]. *)
Definition issues {A} (m : ST W A) : Prop := ∀ w,
  runs m w (λ _ w', rtc tstep (topo w) (topo w') ∧ v_up (view w') = v_up (view w)).
(** [boots m xs φ]: with a working broker [m] makes the declarations [xs] and
    returns a result that satisfies [φ]. *)
Definition boots {A} (m : ST W A) (xs : list (string * string * string)) (φ : A → Prop) : Prop :=
  ∀ w, topo_reachable (topo w) → working w →
    runs m w (λ r w', φ r ∧ working w' ∧ rtc tstep (topo w) (topo w') ∧
      ∀ x, x ∈ xs → ready (topo w') x).

Lemma issues_ret {A} (a : A) : issues (st_ret a).
Proof. intros w. by apply runs_ret. Qed.

Lemma issues_bind {A B} (m : ST W A) (k : A → ST W B) :
  issues m → (∀ a, issues (k a)) → issues (st_bind m k).
Proof.
  intros Hm Hk w. apply runs_bind. eapply runs_mono; [apply Hm|]. intros a w1 [Hs1 Hu1].
  eapply runs_mono; [apply Hk|]. intros b w2 [Hs2 Hu2]. split; [by etrans|congruence].
Qed.

Lemma issues_try {A B} (m : ST W (result A)) (k : A → ST W (result B)) :
  issues m → (∀ a, issues (k a)) → issues (st_try m k).
Proof. intros Hm Hk. apply issues_bind; [done|]. intros [a|e]; [done|apply issues_ret]. Qed.

Lemma boots_ret {A} (a : A) (φ : A → Prop) : φ a → boots (st_ret a) [] φ.
Proof.
  intros Ha w _ Hw. apply runs_ret. split; [done|]. split; [done|]. split; [done|].
  by intros x ?%not_elem_of_nil.
Qed.

Lemma boots_bind {A B} (m : ST W A) (k : A → ST W B) xs ys φ ψ :
  boots m xs φ → (∀ a, φ a → boots (k a) ys ψ) → boots (st_bind m k) (xs ++ ys) ψ.
Proof.
  intros Hm Hk w Hr Hw. apply runs_bind. eapply runs_mono; [by apply Hm|].
  intros a w1 (Ha & Hw1 & Hs1 & Hx1).
  assert (topo_reachable (topo w1)) as Hr1 by (unfold topo_reachable; by etrans).
  eapply runs_mono; [by apply (Hk a Ha)|]. intros b w2 (Hb & Hw2 & Hs2 & Hx2).
  split; [done|]. split; [done|]. split; [by etrans|]. intros x [Hx|Hx]%elem_of_app; [|by apply Hx2].
  eapply ready_mono; [done|by apply Hx1].
Qed.

Lemma boots_try {A B} (m : ST W (result A)) (k : A → ST W (result B)) xs ys φ ψ :
  boots m xs (λ r, ∃ a, r = Ok a ∧ φ a) → (∀ a, φ a → boots (k a) ys ψ) →
  boots (st_try m k) (xs ++ ys) ψ.
Proof. intros Hm Hk. eapply boots_bind; [exact Hm|]. intros ? (a & -> & Ha). by apply Hk. Qed.

(** One command: its effect, and that a working broker accepts it. *)
Lemma amqp_issues x c : x ∈ declared_queues → c ∈ topic_cmds x → issues (amqp c).
Proof.
  intros Hx Hc w. apply runs_intro. intros r w' E.
  apply law_amqp in E as (Hu & Hcase). split; [|done].
  assert (∀ t, cmd_ok c (topo w) = true → t = cmd_effect c (topo w) → rtc tstep (topo w) t) as Hstep.
  { intros t Hok ->. apply rtc_once. by exists x, c. }
  destruct Hcase as [(_ & Hok & Ht & _)|(_ & [->|[Hok Ht]] & _)]; [by apply Hstep|done|by apply Hstep].
Qed.

Lemma amqp_works c w : working w → cmd_ok c (topo w) = true →
  runs (amqp c) w (λ r w', r = Ok tt ∧ working w' ∧ topo w' = cmd_effect c (topo w)).
Proof.
  intros [Hup Hbr] Hok. apply runs_intro. intros r w' E. apply law_amqp in E as (Hu & Hcase).
  destruct Hcase as [(-> & _ & Ht & Hb)|(_ & _ & [?|[?|?]])]; [|congruence..].
  split; [done|]. split; [|done]. split; congruence.
Qed.

(** Declarations never disagree with what is there. *)
Lemma declare_exchange_ok t e : topo_inv t → cmd_ok (ExchangeDeclare e "topic") t = true.
Proof.
  intros [He _ _ _]. cbn. apply bool_decide_eq_true. destruct (tp_exchanges t !! e) eqn:E; [|done].
  by apply He in E.
Qed.

Lemma declare_queue_ok t q d : topo_inv t →
  (q ∈ queue_names ∧ d = Some DLXExchange) ∨ (q ∈ dlx_names ∧ d = None) →
  cmd_ok (QueueDeclare q d) t = true.
Proof.
  intros [_ Hq _ _] Hd. cbn. apply bool_decide_eq_true. destruct (tp_queues t !! q) as [d'|] eqn:E; [|done].
  apply Hq in E. simpl. destruct Hd as [[Hn ->]|[Hn ->]], E as [[Hn' ->]|[Hn' ->]]; try done;
    exfalso; eapply names_apart; done.
Qed.

(** An exchange, a queue and the binding between them, then [k]. *)
Lemma declare3_works {A} x e q key d (k : ST W (result A)) w Q :
  x ∈ declared_queues →
  (∀ c, c ∈ [ExchangeDeclare e "topic"; QueueDeclare q d; QueueBind q key e] → c ∈ topic_cmds x) →
  (q ∈ queue_names ∧ d = Some DLXExchange) ∨ (q ∈ dlx_names ∧ d = None) →
  topo_reachable (topo w) → working w →
  (∀ w', working w' → rtc tstep (topo w) (topo w') → (e, q, key) ∈ tp_bindings (topo w') →
     runs k w' Q) →
  runs (_ <-? amqp (ExchangeDeclare e "topic") ;; _ <-? amqp (QueueDeclare q d) ;;
        _ <-? amqp (QueueBind q key e) ;; k) w Q.
Proof.
  intros Hx Hcs Hd Hr Hw HQ. pose proof (reachable_inv _ Hr) as Hinv.
  assert (∀ c t, c ∈ [ExchangeDeclare e "topic"; QueueDeclare q d; QueueBind q key e] →
    cmd_ok c t = true → tstep t (cmd_effect c t)) as Hstep by (intros c t Hc Hok; exists x, c; auto).
  apply runs_try. eapply runs_mono; [apply amqp_works; [done|by apply declare_exchange_ok]|].
  intros ? w1 (-> & Hw1 & Ht1).
  assert (tstep (topo w) (topo w1)) as Hs1
    by (rewrite Ht1; apply Hstep; [by left|by apply declare_exchange_ok]).
  pose proof (tstep_inv _ _ Hs1 Hinv) as Hinv1.
  apply runs_try. eapply runs_mono; [apply amqp_works; [done|by apply declare_queue_ok]|].
  intros ? w2 (-> & Hw2 & Ht2).
  assert (tstep (topo w1) (topo w2)) as Hs2
    by (rewrite Ht2; apply Hstep; [by right; left|by apply declare_queue_ok]).
  assert (cmd_ok (QueueBind q key e) (topo w2) = true) as Hok3.
  { rewrite Ht2, Ht1. cbn. rewrite !lookup_insert_eq. by rewrite !bool_decide_eq_true_2 by by eexists. }
  apply runs_try. eapply runs_mono; [by apply amqp_works|]. intros ? w3 (-> & Hw3 & Ht3).
  assert (tstep (topo w2) (topo w3)) as Hs3
    by (rewrite Ht3; apply Hstep; [by right; right; left|done]).
  apply HQ; [done| |rewrite Ht3; cbn; set_solver].
  eapply rtc_l; [exact Hs1|]. eapply rtc_l; [exact Hs2|]. by apply rtc_once.
Qed.

Lemma DeclareTopic_issues ex q key : (ex, q, key) ∈ declared_queues → issues (DeclareTopic ex q key).
Proof.
  intros Hx. assert (∀ c, c ∈ topic_cmds (ex, q, key) → issues (amqp c)) as Hc
    by (intros c Hc; by eapply amqp_issues).
  unfold DeclareTopic, DeclareDLX. destruct (_ || _ || _); [apply issues_ret|].
  do 3 (apply issues_try; [apply Hc; cbn; set_solver|intros _]).
  apply issues_bind; [|intros _; apply issues_ret].
  do 3 (apply issues_try; [apply Hc; cbn; set_solver|intros _]). apply issues_ret.
Qed.

Lemma DeclareTopic_boots ex q key :
  (ex, q, key) ∈ declared_queues → boots (DeclareTopic ex q key) [(ex, q, key)] (λ r, r = Ok tt).
Proof.
  intros Hx w Hr Hw. unfold DeclareTopic, DeclareDLX.
  pose proof (declared_names _ Hx) as Hn. cbn in Hn.
  assert (Forall (λ x : string * string * string,
    String.eqb x.1.1 "" || String.eqb x.1.2 "" || String.eqb x.2 "" = false) declared_queues) as Hne
    by (apply (bool_decide_unpack _); by vm_compute).
  pose proof (proj1 (list.Forall_forall _ _) Hne _ Hx) as E. cbn [fst snd] in E. rewrite E.
  eapply (declare3_works (ex, q, key)); [done|cbn; set_solver|by left|done|done|].
  intros w1 Hw1 Hs1 Hb1. apply runs_bind.
  eapply (declare3_works (ex, q, key)); [done|cbn; set_solver| |by unfold topo_reachable; etrans|done|].
  { right. split; [by apply list_elem_of_fmap_2|done]. }
  intros w2 Hw2 Hs2 Hb2. do 2 apply runs_ret. split; [done|]. split; [done|].
  split; [by etrans|]. intros x ->%list_elem_of_singleton. split; [|done].
  by apply (tstep_bindings _ _ Hs2).
Qed.

Lemma boots_weaken {A} (m : ST W A) xs ys (φ ψ : A → Prop) :
  boots m xs φ → (∀ x, x ∈ ys → x ∈ xs) → (∀ a, φ a → ψ a) → boots m ys ψ.
Proof.
  intros Hm Hxs Hφ w Hr Hw. eapply runs_mono; [by apply Hm|].
  intros a w' (Ha & Hw' & Hs & Hx). eauto 10.
Qed.

Lemma boots_same {A} (m : ST W A) (φ : A → Prop) :
  (∀ w, working w → runs m w (λ r w', φ r ∧ topo w' = topo w ∧ v_up (view w') = v_up (view w) ∧
     broken w' = broken w)) →
  boots m [] φ.
Proof.
  intros Hm w _ Hw. eapply runs_mono; [by apply Hm|]. intros r w' (Ha & Ht & Hu & Hb).
  destruct Hw as [Hup Hbr]. split; [done|]. split; [split; congruence|]. split; [by rewrite Ht|].
  by intros x ?%not_elem_of_nil.
Qed.

Lemma open_issues conn : issues (NewChannelClient conn).
Proof.
  destruct conn; [|apply issues_ret]. intros w. apply runs_intro. intros r w' E.
  by apply law_open in E as (-> & -> & _).
Qed.

Lemma open_boots : boots (NewChannelClient true) [] (λ r, r = Ok tt).
Proof.
  apply boots_same. intros w [Hup Hbr]. apply runs_intro. intros r w' E.
  by apply law_open in E as (-> & Hu & [(-> & Hb)|[_ ?]]); [|congruence].
Qed.

Lemma close_issues : issues close_channel.
Proof. intros w. apply runs_intro. intros r w' E. by apply law_close in E as (-> & ->). Qed.

Lemma newWorkerClient_issues consumer : issues (newWorkerClient true consumer).
Proof.
  apply issues_try; [apply open_issues|intros _]. destruct consumer; [|apply issues_ret].
  apply issues_bind.
  - intros w. apply runs_intro. intros r w' E. by apply law_qos in E as (-> & -> & _).
  - intros [a|e]; [apply issues_ret|]. apply issues_bind; [apply close_issues|intros; apply issues_ret].
Qed.

Lemma newWorkerClient_boots consumer : boots (newWorkerClient true consumer) [] (λ r, r = Ok tt).
Proof.
  eapply (boots_try _ _ [] [] (λ _, True)).
  { eapply boots_weaken; [apply open_boots|done|]. intros ? ->. by exists tt. }
  intros _ _. destruct consumer; [|by apply boots_ret].
  eapply (boots_bind _ _ [] [] (λ r, r = Ok tt)); [|by intros ? ->; apply boots_ret].
  apply boots_same. intros w [Hup Hbr]. apply runs_intro. intros r w' E.
  by apply law_qos in E as (-> & Hu & [(-> & Hb)|(_ & [?|?])]); [|congruence..].
Qed.

Lemma boots_ok m xs : boots m xs (λ r, r = Ok tt) → boots m xs (λ r, ∃ a, r = Ok a ∧ True).
Proof. intros Hm. eapply boots_weaken; [exact Hm|done|]. intros ? ->. by exists tt. Qed.

(** ** Whole start-ups *)
Definition of_exchange (ex : string) : list (string * string * string) :=
  List.filter (λ x, String.eqb x.1.1 ex) declared_queues.
Definition notification_queues : list string :=
  [NotificationLikeQueue; NotificationCommentQueue; NotificationSocialQueue].

Ltac issue :=
  lazymatch goal with
  | |- issues (st_ret _) => apply issues_ret
  | |- issues (st_bind _ _) => apply issues_bind; [issue|intros ?; issue]
  | |- issues (st_try _ _) => apply issues_try; [issue|intros ?; issue]
  | |- issues (NewChannelClient _) => apply open_issues
  | |- issues (newWorkerClient _ _) => apply newWorkerClient_issues
  | |- issues (DeclareTopic _ _ _) => apply DeclareTopic_issues; declared
  | |- issues (if ?b then _ else _) => destruct b; issue
  | |- issues close_channel => apply close_issues
  | |- issues base_nil => apply issues_ret
  end.

(** The next step of a start-up: a client, or the declarations of a queue. *)
Ltac boot :=
  lazymatch goal with
  | |- boots (st_bind (NewChannelClient true) _) _ _ =>
      eapply (boots_bind _ _ []); [apply open_boots|intros ? ->; cbn [is_ok negb]]
  | |- boots (st_bind (DeclareTopic _ _ _) _) _ _ =>
      eapply boots_bind; [apply DeclareTopic_boots; declared|intros ? ->; cbn [is_ok negb]]
  | |- boots (st_try (DeclareTopic _ _ _) _) _ _ =>
      eapply boots_try; [apply boots_ok, DeclareTopic_boots; declared|intros _ _]
  | |- boots (st_try (newWorkerClient true _) _) _ _ =>
      eapply (boots_try _ _ []); [apply boots_ok, newWorkerClient_boots|intros _ _]
  end.

Lemma router_mqs_boots :
  boots (router_mqs true)
    (of_exchange PopularityExchange ++
     [(LikeExchange, LikeQueue, LikeBindingKey); (CommentExchange, CommentQueue, CommentBindingKey);
      (SocialExchange, SocialQueue, SocialBindingKey)])
    (λ r, r = mkMQs true true true true).
Proof.
  eapply (boots_weaken _ _ _ (λ r, r = mkMQs true true true true)).
  { unfold router_mqs, NewLikeMQ, NewPopularityMQ, NewCommentMQ, NewSocialMQ.
    repeat boot. by apply boots_ret. }
  { declared_in. }
  done.
Qed.

Lemma NewNotificationMQ_boots :
  boots (NewNotificationMQ true)
    [(LikeExchange, NotificationLikeQueue, LikeRoutingKeyLike);
     (CommentExchange, NotificationCommentQueue, CommentRoutingKeyPublish);
     (SocialExchange, NotificationSocialQueue, SocialRoutingKeyFollow)] (λ r, r = Ok tt).
Proof.
  unfold NewNotificationMQ. cbn [negb].
  eapply (boots_try _ _ [_] [_; _]); [apply boots_ok, DeclareTopic_boots; declared|intros _ _].
  eapply (boots_try _ _ [_] [_]); [apply boots_ok, DeclareTopic_boots; declared|intros _ _].
  apply DeclareTopic_boots. declared.
Qed.

Lemma StartNotification_boots :
  boots (StartNotification true)
    [(LikeExchange, NotificationLikeQueue, LikeRoutingKeyLike);
     (CommentExchange, NotificationCommentQueue, CommentRoutingKeyPublish);
     (SocialExchange, NotificationSocialQueue, SocialRoutingKeyFollow)]
    (λ l, l = notification_queues).
Proof.
  unfold StartNotification, StartNotificationWorkers. cbn [negb st_fold].
  boot. rewrite <-(app_nil_r [_; _; _]).
  eapply boots_bind; [apply NewNotificationMQ_boots|]. intros ? ->. cbn [is_ok negb].
  do 3 (eapply (boots_bind _ _ [] [] (λ l, l = _));
    [boot; apply boots_ret; reflexivity|intros ? ->]).
  by apply boots_ret.
Qed.

Definition started (cache : bool) : list (string * option string) :=
  [("social_worker", Some SocialQueue); ("like_worker", Some LikeQueue);
   ("comment_worker", Some CommentQueue); ("outbox_worker", None)]%string
  ++ (if cache then [("popularity_worker", Some PopularityQueue);
                     ("timeline_worker", Some TimelineQueue)]%string else []).

Lemma worker_startup_boots cache :
  boots (worker_startup cache)
    (List.filter (λ x, bool_decide (x.1.2 ∉ notification_queues) &&
       (cache || negb (String.eqb x.1.1 PopularityExchange))) declared_queues)
    (λ r, ∃ ws, r = Ok ws ∧
       omap snd ws ++ (if cache then [] else [PopularityQueue; TimelineQueue]) ++ notification_queues
         ≡ₚ queue_names).
Proof.
  assert (omap snd (started cache) ++ (if cache then [] else [PopularityQueue; TimelineQueue]) ++
            notification_queues ≡ₚ queue_names) as Hws.
  { destruct cache; apply (bool_decide_unpack _); by vm_compute. }
  eapply (boots_weaken _ _ _ (λ r, r = Ok (started cache))); [|intros x Hx; exact Hx|by intros ? ->; eauto].
  unfold worker_startup, NewSocialMQ, NewLikeMQ, NewCommentMQ, NewTimelineMQ, NewPopularityMQ.
  cbn [negb]. destruct cache.
  - eapply (boots_weaken _ _ _ (λ r, r = Ok (started true))).
    { repeat boot. by apply boots_ret. }
    { declared_in. }
    done.
  - eapply (boots_weaken _ _ _ (λ r, r = Ok (started false))).
    { repeat boot. by apply boots_ret. }
    { declared_in. }
    done.
Qed.

Lemma api_startup_boots :
  boots (api_startup true)
    (List.filter (λ x, negb (String.eqb x.1.1 TimelineExchange)) declared_queues)
    (λ r, r = (mkMQs true true true true, notification_queues)).
Proof.
  eapply (boots_weaken _ _ _ (λ r, r = (mkMQs true true true true, notification_queues))).
  { unfold api_startup. eapply boots_bind; [apply router_mqs_boots|]. intros ? ->.
    eapply boots_bind; [apply StartNotification_boots|]. intros ? ->. by apply boots_ret. }
  { declared_in. }
  done.
Qed.

Lemma api_startup_issues : issues (api_startup true).
Proof.
  unfold api_startup, router_mqs, StartNotification, StartNotificationWorkers, NewNotificationMQ,
    NewLikeMQ, NewPopularityMQ, NewCommentMQ, NewSocialMQ. cbn [negb st_fold]. issue.
Qed.

Lemma worker_startup_issues cache : issues (worker_startup cache).
Proof.
  unfold worker_startup, NewSocialMQ, NewLikeMQ, NewCommentMQ, NewTimelineMQ, NewPopularityMQ.
  cbn [negb]. issue.
Qed.

Lemma starts {A} (m : ST W A) xs φ w :
  issues m → boots m xs φ → topo_reachable (topo w) →
  runs m w (λ r w', topo_reachable (topo w') ∧
    (working w → φ r ∧ working w' ∧ ∀ x, x ∈ xs → ready (topo w') x)).
Proof.
  intros Hi Hb Hr. apply runs_intro. intros r w' E.
  destruct (runs_elim _ _ _ _ _ (Hi w) E) as [Hs _].
  split; [by unfold topo_reachable; etrans|]. intros Hw.
  by destruct (runs_elim _ _ _ _ _ (Hb w Hr Hw) E) as (? & ? & _ & ?).
Qed.

(** C40: each program declares what it uses. From any topology that some
    processes have left behind, the start of the API server and that of the
    workers leave a reachable topology, even where calls fail; with a working
    broker every constructor succeeds, the queues of the API server's events
    and of its notifications are ready, those of the workers are ready, and
    the started workers consume every queue but the popularity and timeline
    queues of a worker process without Redis. *)
Theorem startup_declares cache w :
  topo_reachable (topo w) →
  runs (api_startup true) w (λ r w', topo_reachable (topo w') ∧
    (working w → r = (mkMQs true true true true, notification_queues) ∧ working w' ∧
       ∀ x, x ∈ declared_queues → x.1.1 ≠ TimelineExchange → ready (topo w') x)) ∧
  runs (worker_startup cache) w (λ r w', topo_reachable (topo w') ∧
    (working w → ∃ ws, r = Ok ws ∧ working w' ∧
       omap snd ws ++ (if cache then [] else [PopularityQueue; TimelineQueue]) ++ notification_queues
         ≡ₚ queue_names ∧
       ∀ x, x ∈ declared_queues → x.1.2 ∉ notification_queues →
         cache = true ∨ x.1.1 ≠ PopularityExchange → ready (topo w') x)).
Proof.
  intros Hr. split.
  - eapply runs_mono; [by apply (starts _ _ _ _ api_startup_issues api_startup_boots)|].
    intros r w' (? & Hgo). split; [done|]. intros (-> & ? & Hx)%Hgo. split; [done|]. split; [done|].
    intros x Hd Hne%String.eqb_neq. apply Hx, elem_of_lfilter. by rewrite Hne.
  - eapply runs_mono; [by apply (starts _ _ _ _ (worker_startup_issues cache) (worker_startup_boots cache))|].
    intros r w' (? & Hgo). split; [done|]. intros ((ws & -> & Hws) & ? & Hx)%Hgo.
    exists ws. split; [done|]. split; [done|]. split; [done|].
    intros x Hd Hn Hc. apply Hx, elem_of_lfilter. split; [|done].
    rewrite bool_decide_eq_true_2 by done. destruct Hc as [->|Hne%String.eqb_neq]; [done|].
    by rewrite Hne, orb_true_r.
Qed.
End startup.

(** ** A concrete broker *)
Record Broker := mkBroker { bk_topo : Topo; bk_broken : bool }.
Abbreviation BrokerW := (RefW * Broker)%type.

#[export] Instance broker_amqp : Amqp BrokerW := {|
  topo w := bk_topo w.2;
  broken w := bk_broken w.2;
  open_channel w := (if up_mq (v_up (view w)) then Ok tt else Err (ErrIO 0), w);
  close_channel w := (tt, w);
  qos n w := (if up_mq (v_up (view w)) && negb (bk_broken w.2) then Ok tt else Err (ErrIO 0), w);
  amqp c w :=
    if up_mq (v_up (view w)) && negb (bk_broken w.2) then
      if cmd_ok c (bk_topo w.2) then (Ok tt, (w.1, mkBroker (cmd_effect c (bk_topo w.2)) false))
      else (Err (ErrIO 406), (w.1, mkBroker (bk_topo w.2) true))
    else (Err (ErrIO 0), w);
  amqp_route t ex rk :=
    elements (set_map (D := gset string) (λ b : string * string * string, b.1.2)
      (filter (λ b : string * string * string, b.1.1 = ex ∧ topic_match b.2 rk = true)
         (tp_bindings t))) |}.

#[export] Instance broker_laws : AmqpLaws BrokerW.
Proof.
  split.
  - intros w r w'. simpl. destruct (up_mq _) eqn:Hu; intros [= <- <-]; (do 2 (split; [done|])); [by left|by right].
  - by intros w r w' [= <- <-].
  - intros n w r w'. simpl.
    destruct (up_mq _) eqn:?, (bk_broken w.2) eqn:?; intros [= <- <-]; (do 2 (split; [done|])); auto.
  - intros c w r w'. simpl.
    destruct (up_mq _) eqn:Hu, (bk_broken w.2) eqn:Hb; cbn [andb negb];
      try (intros [= <- <-]; split; [done|]; right; by auto).
    destruct (cmd_ok c (bk_topo w.2)) eqn:Hok; intros [= <- <-]; (split; [done|]); [left|right]; auto.
  - intros t ex rk _. simpl. split; [apply NoDup_elements|].
    intros q. rewrite elem_of_elements, elem_of_map. setoid_rewrite elem_of_filter. split.
    + intros ([[e q'] k] & -> & [<- Hm] & Hin). by exists k.
    + intros (k & Hin & Hm). by exists (ex, q, k).
Qed.

Definition new_broker : BrokerW := (ref_start empty_db 0, mkBroker empty_topo false).
(** the topology after both programs have started on a new broker *)
Definition both_started : BrokerW := (api_startup true (worker_startup true new_broker).2).2.

Lemma both_reachable : topo_reachable (topo both_started).
Proof.
  unfold both_started.
  pose proof (worker_startup_issues true new_broker) as [H1 _].
  pose proof (api_startup_issues (worker_startup true new_broker).2) as [H2 _].
  unfold topo_reachable. by etrans.
Qed.


Lemma startup_declares_witness :
  runs (api_startup true) new_broker (λ r w', topo_reachable (topo w') ∧
    (working new_broker → r = (mkMQs true true true true, notification_queues) ∧ working w' ∧
       ∀ x, x ∈ declared_queues → x.1.1 ≠ TimelineExchange → ready (topo w') x)) ∧
  runs (worker_startup true) new_broker (λ r w', topo_reachable (topo w') ∧
    (working new_broker → ∃ ws, r = Ok ws ∧ working w' ∧
       omap snd ws ++ [] ++ notification_queues ≡ₚ queue_names ∧
       ∀ x, x ∈ declared_queues → x.1.2 ∉ notification_queues →
         true = true ∨ x.1.1 ≠ PopularityExchange → ready (topo w') x)).
Proof. apply (startup_declares true new_broker). apply rtc_refl. Defined.
