(* ===== verification/DbFacts.v ===== *)
(** Lemmas on tables and statements that the components share. *)
From S2P Require Import Prelude GoStd Query Entities Json Services.
Local Open Scope Z_scope.

(** Every table keyed by its primary key, which is positive, with its unique
    index respected. *)
Definition table_ok `{Collation} {R} (T : table R) (d : Db) : Prop :=
  keyed T d ∧ unique_ok T d ∧ (∀ k r, tget T d !! k = Some r → 0 < k).
Definition db_ok `{Collation} (d : Db) : Prop := ∀ R (T : table R), table_ok T d.

(** The tables are pairwise independent. *)
Inductive table_eq : ∀ {R R'}, table R → table R' → Prop :=
| table_eq_refl R (T : table R) : table_eq T T.

Definition table_eqb {R R'} (T : table R) (T' : table R') : bool :=
  match T, T' with
  | TAccount, TAccount | TVideo, TVideo | TOutbox, TOutbox | TTag, TTag
  | TVideoTag, TVideoTag | TLike, TLike | TComment, TComment | TSocial, TSocial
  | TMessage, TMessage | TNotification, TNotification => true
  | _, _ => false
  end.

Lemma table_eqb_eq {R R'} (T : table R) (T' : table R') : table_eqb T T' = true → table_eq T T'.
Proof. destruct T, T'; try done; constructor. Qed.

Lemma tget_tset_ne {R R'} (T : table R) (T' : table R') t d :
  table_eqb T T' = false → tget T' (tset T t d) = tget T' d.
Proof. by destruct T, T', d. Qed.

Lemma table_ok_tset_ne `{Collation} {R R'} (T : table R) (T' : table R') t d :
  table_eqb T T' = false → table_ok T' d → table_ok T' (tset T t d).
Proof. intros E. unfold table_ok, keyed, unique_ok. by rewrite (tget_tset_ne T T'). Qed.

Lemma db_ok_tset `{Collation} {R} (T : table R) t d :
  db_ok d → table_ok T (tset T t d) → db_ok (tset T t d).
Proof.
  intros Hd Ht R' T'. destruct (table_eqb T T') eqn:E.
  - apply table_eqb_eq in E. destruct E. done.
  - by apply table_ok_tset_ne.
Qed.

Lemma db_ok_empty `{Collation} : db_ok empty_db.
Proof. intros R T. unfold table_ok, keyed, unique_ok. by destruct T. Qed.

Section updates.
Context {R : Type} (T : table R).
Implicit Types (wh g : R → bool) (f : R → R) (d : Db).

Lemma lookup_upd_rows wh f (t : gmap Z R) k :
  upd_rows wh f t !! k = (λ r, if wh r then f r else r) <$> t !! k.
Proof. unfold upd_rows. by rewrite lookup_fmap. Qed.

(** UPDATE ... WHERE id = i AND g *)
Lemma upd_rows_id i g f d :
  keyed T d →
  upd_rows (λ r, (row_id T r =? i) && g r) f (tget T d) =
    match tget T d !! i with
    | Some r => if g r then <[i := f r]> (tget T d) else tget T d
    | None => tget T d
    end.
Proof.
  intros Hk. apply map_eq. intros k. rewrite lookup_upd_rows.
  destruct (decide (k = i)) as [->|Hne].
  - destruct (tget T d !! i) as [r|] eqn:E; simpl; [|by rewrite E].
    rewrite (Hk _ _ E), Z.eqb_refl. simpl.
    destruct (g r); [by rewrite lookup_insert_eq|by rewrite E].
  - transitivity (tget T d !! k).
    + destruct (tget T d !! k) as [r|] eqn:E; simpl; [|done].
      rewrite (Hk _ _ E). destruct (Z.eqb_spec k i); done.
    + repeat case_match; by rewrite ?lookup_insert_ne.
Qed.

Lemma lfilter_id_rows i g d :
  keyed T d →
  List.filter (λ r, (row_id T r =? i) && g r) (rows T d) =
    match tget T d !! i with
    | Some r => if g r then [r] else []
    | None => []
    end.
Proof.
  intros Hk. unfold rows. destruct (tget T d !! i) as [r|] eqn:E.
  - assert (map_to_list (tget T d) ≡ₚ (i, r) :: map_to_list (delete i (tget T d))) as Hp.
    { rewrite <-map_to_list_insert by apply lookup_delete_eq. by rewrite insert_delete_id. }
    assert (List.filter (λ r, (row_id T r =? i) && g r) (map_to_list (tget T d)).*2 ≡ₚ
              if g r then [r] else []) as HP.
    { rewrite (lfilter_perm _ _ _ (fmap_Permutation snd _ _ Hp)).
      rewrite fmap_cons. cbn [List.filter snd].
      rewrite (Hk _ _ E), Z.eqb_refl. cbn [andb].
      rewrite (lfilter_none _ ((map_to_list (delete i (tget T d))).*2)); [by destruct (g r)|].
      intros r' ([k r''] & -> & Hr%elem_of_map_to_list)%list_elem_of_fmap. simpl.
      apply lookup_delete_Some in Hr as [Hne Hr]. rewrite (Hk _ _ Hr).
      destruct (Z.eqb_spec k i); done. }
    destruct (g r); [by apply Permutation_singleton_r in HP|by apply Permutation_nil_r in HP].
  - apply lfilter_none.
    intros r' ([k r''] & -> & Hr%elem_of_map_to_list)%list_elem_of_fmap. simpl.
    rewrite (Hk _ _ Hr). destruct (Z.eqb_spec k i) as [->|]; [congruence|done].
Qed.

Lemma changed_id i g f d :
  keyed T d →
  changed T (λ r, (row_id T r =? i) && g r) f d =
    match tget T d !! i with
    | Some r => if g r then (if row_eq_dec T (f r) r then 0 else 1) else 0
    | None => 0
    end.
Proof.
  intros Hk. unfold changed.
  rewrite (lfilter_ext _ (λ r, (row_id T r =? i) &&
             (g r && negb (if row_eq_dec T (f r) r then true else false))))
    by (intros; by rewrite andb_assoc).
  rewrite (lfilter_id_rows i (λ r, g r && negb (if row_eq_dec T (f r) r then true else false)) d Hk).
  destruct (tget T d !! i) as [r|]; [|done]. destruct (g r); [|done]. simpl.
  by destruct (row_eq_dec T (f r) r).
Qed.

Lemma elem_of_select `{SqlLaws} wh ks lim d r :
  r ∈ eng_select wh ks lim (rows T d) → wh r = true ∧ ∃ k, tget T d !! k = Some r.
Proof.
  intros Hr. apply (is_select_elem _ _ _ _ _ _ (law_select _ _ _ _ _)) in Hr as [? Hr].
  split; [done|]. by apply elem_of_rows.
Qed.

(** An UPDATE that keeps primary and unique keys. *)
Lemma table_ok_update `{Collation} wh f d :
  (∀ r, row_id T (f r) = row_id T r) → (∀ r, row_key T (f r) = row_key T r) →
  table_ok T d → table_ok T (tset T (upd_rows wh f (tget T d)) d).
Proof.
  intros Hid Hkey (Hk & Hu & Hp). unfold table_ok, keyed, unique_ok. rewrite tget_tset.
  assert (∀ k r, upd_rows wh f (tget T d) !! k = Some r →
    ∃ r', tget T d !! k = Some r' ∧ row_id T r = row_id T r' ∧ row_key T r = row_key T r') as Hl.
  { intros k r. rewrite lookup_upd_rows.
    intros (r' & E & ->)%fmap_Some. exists r'. case_match; auto. }
  split_and!.
  - intros k r (r' & E & -> & _)%Hl. by apply Hk.
  - intros k1 k2 r1 r2 (r1' & E1 & _ & K1)%Hl (r2' & E2 & _ & K2)%Hl [Hs Hc].
    apply (Hu k1 k2 r1' r2' E1 E2). split; [by rewrite <-K1|congruence].
  - intros k r (r' & E & _)%Hl. by eapply Hp.
Qed.

Lemma table_ok_delete `{Collation} (P : Z * R → Prop) `{!∀ x, Decision (P x)} d :
  table_ok T d → table_ok T (tset T (filter P (tget T d)) d).
Proof.
  intros (Hk & Hu & Hp). unfold table_ok, keyed, unique_ok. rewrite tget_tset. split_and!.
  - intros k r [? _]%map_lookup_filter_Some. by apply Hk.
  - intros k1 k2 r1 r2 [? _]%map_lookup_filter_Some [? _]%map_lookup_filter_Some. by apply Hu.
  - intros k r [? _]%map_lookup_filter_Some. by eapply Hp.
Qed.

Lemma table_ok_create `{Collation} id now r d :
  0 < id → tget T d !! id = None →
  (∀ k r', tget T d !! k = Some r' → ¬ row_clash T r r') →
  table_ok T d → table_ok T (tset T (<[id := row_stored T id now r]> (tget T d)) d).
Proof.
  intros Hid Hfresh Hc (Hk & Hu & Hp). unfold table_ok, keyed, unique_ok. rewrite tget_tset.
  split_and!.
  - intros k r' [[<- <-]|[_ E]]%lookup_insert_Some; [apply row_id_stored|by apply Hk].
  - assert (∀ k r', tget T d !! k = Some r' → ¬ row_clash T (row_stored T id now r) r') as Hc'.
    { unfold row_clash. setoid_rewrite row_key_stored. exact Hc. }
    intros k1 k2 r1 r2 [[<- <-]|[? E1]]%lookup_insert_Some
      [[<- <-]|[? E2]]%lookup_insert_Some Hcl; try done.
    + by apply Hc' in E2.
    + apply row_clash_sym in Hcl. by apply Hc' in E1.
    + by eapply Hu.
  - intros k r' [[<- <-]|[_ E]]%lookup_insert_Some; [done|by eapply Hp].
Qed.
End updates.

(** ** What a statement that succeeded did *)
Section statements.
Context `{SqlLaws} {R : Type} (T : table R).
Implicit Types (wh : R → bool) (f : R → R) (d : Db).

Definition texts_fit wh f d : Prop :=
  map_Forall (λ _ r, wh r = true →
    row_texts T (f r) = row_texts T r ∨ eng_fits T (row_texts T (f r)) = true) (tget T d).

#[global] Instance texts_fit_dec wh f d : Decision (texts_fit wh f d).
Proof. unfold texts_fit. apply _. Defined.

Lemma update_ok wh f d :
  (∀ r, row_id T (f r) = row_id T r) → (∀ r, row_key T (f r) = row_key T r) →
  texts_fit wh f d →
  eng_update T wh f d = (Ok (changed T wh f d), tset T (upd_rows wh f (tget T d)) d).
Proof.
  intros Hid Hkey Hfit. apply law_update_ok; [|by left].
  intros k r E Hw. split; [done|]. by eapply Hfit.
Qed.

Lemma update_misfit wh f d :
  ¬ texts_fit wh f d → ∃ code, eng_update T wh f d = (Err (ErrIO code), d).
Proof.
  intros (k & r & E & Hn)%map_not_Forall; [|apply _].
  destruct (wh r) eqn:Hw; [|naive_solver].
  destruct (decide (row_texts T (f r) = row_texts T r)) as [|Ht]; [naive_solver|].
  destruct (eng_fits T (row_texts T (f r))) eqn:Hf; [naive_solver|].
  apply (law_update_misfit R T wh f d k r); [done|done|congruence|done].
Qed.

Lemma update_ok_inv wh f d n d' :
  (∀ r, row_id T (f r) = row_id T r) → (∀ r, row_key T (f r) = row_key T r) →
  eng_update T wh f d = (Ok n, d') →
  n = changed T wh f d ∧ d' = tset T (upd_rows wh f (tget T d)) d.
Proof.
  intros Hid Hkey E. destruct (decide (texts_fit wh f d)) as [Hf|Hf].
  - rewrite update_ok in E by done. by simplify_eq.
  - apply update_misfit in Hf as [code Hf]. congruence.
Qed.

(** The statement as a case split: done, or refused with nothing changed. *)
Lemma update_cases wh f d :
  (∀ r, row_id T (f r) = row_id T r) → (∀ r, row_key T (f r) = row_key T r) →
  eng_update T wh f d = (Ok (changed T wh f d), tset T (upd_rows wh f (tget T d)) d) ∨
  (¬ texts_fit wh f d ∧ ∃ code, eng_update T wh f d = (Err (ErrIO code), d)).
Proof.
  intros. destruct (decide (texts_fit wh f d)) as [Hf|Hf].
  - left. by apply update_ok.
  - right. split; [done|]. by apply update_misfit.
Qed.

Lemma texts_fit_same wh f d :
  (∀ r, row_texts T (f r) = row_texts T r) → texts_fit wh f d.
Proof. intros Ht k r _ _. left. apply Ht. Qed.

(** INSERT as a case split. *)
Lemma create_cases r now d :
  row_id T r = 0 →
  (∃ id, 0 < id ∧ tget T d !! id = None ∧
     (∀ k r', tget T d !! k = Some r' → ¬ row_clash T r r') ∧
     eng_create T r now d =
       (Ok (row_stored T id now r), tset T (<[id := row_stored T id now r]> (tget T d)) d)) ∨
  ((∃ k r', tget T d !! k = Some r' ∧ row_clash T r r') ∧
     eng_create T r now d = (Err ErrDuplicate, d)) ∨
  (eng_fits T (row_texts T r) = false ∧
     ∃ code, eng_create T r now d = (Err (ErrIO code), d)).
Proof.
  intros Hid. destruct (eng_fits T (row_texts T r)) eqn:Hf.
  - destruct (decide (map_Forall (λ _ r', ¬ row_clash T r r') (tget T d))) as [Hn|Hc].
    + left. destruct (law_create_ok R T r now d Hid Hf Hn) as (id & ? & ? & ?). eauto.
    + right; left. apply map_not_Forall in Hc as (k & r' & E & Hc); [|apply _].
      apply dec_stable in Hc. split; [eauto|]. apply law_create_dup; eauto.
  - right; right. split; [done|]. by apply law_create_misfit.
Qed.
End statements.

Lemma keyed_inj {R} (T : table R) d r1 r2 :
  keyed T d → r1 ∈ rows T d → r2 ∈ rows T d → row_id T r1 = row_id T r2 → r1 = r2.
Proof.
  intros Hk H1%elem_of_rows_keyed H2%elem_of_rows_keyed E; [|done|done].
  rewrite E in H1. congruence.
Qed.

(** An UPDATE that matches no row leaves the table as it was. *)
Lemma upd_rows_none {R} (wh : R → bool) f (t : gmap Z R) :
  (∀ k r, t !! k = Some r → wh r = false) → upd_rows wh f t = t.
Proof.
  intros Hn. apply map_eq. intros k. rewrite lookup_upd_rows.
  destruct (t !! k) as [r|] eqn:E; simpl; [|done]. by rewrite (Hn _ _ E).
Qed.

(** ** Statements on one row, and reads *)

(** WHERE id = i AND g *)
Definition where_id {R} (T : table R) (i : Z) (g : R → bool) : R → bool :=
  λ r, (row_id T r =? i) && g r.
Definition always {R} : R → bool := λ _, true.

(** The database with row [i] rewritten where [g] holds of it. *)
Definition at_row {R} (T : table R) (i : Z) (g : R → bool) (f : R → R) (d : Db) : Db :=
  match tget T d !! i with
  | Some r => if g r then tset T (<[i := f r]> (tget T d)) d else d
  | None => d
  end.

(** [db.First(&r, wh)] with its order, [Find] and [Count] *)
Definition sel_first `{SqlEngine} {A} (wh : A → bool) (ks : list (okey A)) (l : list A) : result A :=
  match eng_select wh ks (Some 1%nat) l with
  | r :: _ => Ok r
  | [] => Err ErrRecordNotFound
  end.
Definition sel_count `{SqlEngine} {A} (wh : A → bool) (l : list A) : Z :=
  Z.of_nat (length (eng_select wh [] None l)).

(** A statement that only reads. *)
Definition query {W} `{World W} {A} (f : Db → result A) : ST W (result A) :=
  sql (λ _ d, (f d, d)).

(** An UPDATE whose count is not used. *)
Definition exec {A} (r : result A * Db) : result unit * Db :=
  (res_map (λ _, tt) r.1, r.2).

Section rows.
Context `{SqlLaws} {R : Type} (T : table R).
Implicit Types (g : R → bool) (f : R → R) (d : Db).

Lemma update_id i g f d :
  keyed T d → (∀ r, row_id T (f r) = row_id T r) → (∀ r, row_key T (f r) = row_key T r) →
  (∀ r, row_texts T (f r) = row_texts T r) →
  eng_update T (where_id T i g) f d =
    (Ok (match tget T d !! i with
         | Some r => if g r then if row_eq_dec T (f r) r then 0 else 1 else 0
         | None => 0
         end), at_row T i g f d).
Proof.
  intros Hk Hi Hkey Ht. rewrite update_ok by (done || by apply texts_fit_same).
  unfold where_id. rewrite changed_id, upd_rows_id by done. f_equal. unfold at_row.
  destruct (tget T d !! i) as [r|]; [destruct (g r)|]; by rewrite ?tset_tget.
Qed.

(** UPDATE of one row: done, or refused with nothing changed. *)
Lemma update_row_cases i g f d :
  keyed T d → (∀ r, row_id T (f r) = row_id T r) → (∀ r, row_key T (f r) = row_key T r) →
  (∃ n, eng_update T (where_id T i g) f d = (Ok n, at_row T i g f d)) ∨
  (∃ code, eng_update T (where_id T i g) f d = (Err (ErrIO code), d)).
Proof.
  intros Hk Hi Hkey.
  destruct (update_cases T (where_id T i g) f d Hi Hkey) as [->|[_ ?]]; [left|by right].
  eexists. f_equal. unfold where_id. rewrite upd_rows_id by done. unfold at_row.
  destruct (tget T d !! i) as [r|]; [destruct (g r)|]; by rewrite ?tset_tget.
Qed.

Lemma at_row_upd i g f d :
  keyed T d → tset T (upd_rows (where_id T i g) f (tget T d)) d = at_row T i g f d.
Proof.
  intros Hk. unfold where_id. rewrite upd_rows_id by done. unfold at_row.
  destruct (tget T d !! i) as [r|]; [destruct (g r)|]; by rewrite ?tset_tget.
Qed.

Lemma at_row_compose i f f' d :
  at_row T i always f' (at_row T i always f d) = at_row T i always (λ r, f' (f r)) d.
Proof.
  unfold at_row. destruct (tget T d !! i) as [r|] eqn:E; simpl; [|by rewrite E].
  rewrite tget_tset, lookup_insert_eq. simpl. by rewrite insert_insert_eq, tset_tset.
Qed.

(** UPDATE that may change the unique key: done and the index still
    respected, or refused with nothing changed. *)
Lemma update_any wh f d :
  table_ok T d → (∀ r, row_id T (f r) = row_id T r) →
  let d' := tset T (upd_rows wh f (tget T d)) d in
  (eng_update T wh f d = (Ok (changed T wh f d), d') ∧ table_ok T d') ∨
  (∃ e, eng_update T wh f d = (Err e, d)).
Proof.
  intros (Hk & Hu & Hp) Hi d'. set (t' := upd_rows wh f (tget T d)) in *.
  destruct (decide (texts_fit T wh f d)) as [Hf|Hf].
  2:{ right. destruct (update_misfit T _ f d Hf) as [code E]. eauto. }
  assert (∀ k r, tget T d !! k = Some r → wh r = true →
     row_id T (f r) = row_id T r ∧
     (row_texts T (f r) = row_texts T r ∨ eng_fits T (row_texts T (f r)) = true)) as Hrow.
  { intros k r E Hw. split; [done|]. by eapply Hf. }
  destruct (unique_okb T t') eqn:Eu.
  - apply (unique_okb_spec T t' d) in Eu. left.
    split; [apply law_update_ok; [done|by right]|]. split; [|split; [done|]]; unfold d'.
    + intros k r. rewrite tget_tset. unfold t'. rewrite lookup_upd_rows.
      intros (r' & E & ->)%fmap_Some. apply Hk in E. case_match; by rewrite ?Hi.
    + intros k r. rewrite tget_tset. unfold t'. rewrite lookup_upd_rows.
      intros (r' & E & _)%fmap_Some. by eapply Hp.
  - right. eexists. apply law_update_dup; [done|done|].
    intros Hn. apply (unique_okb_spec T t' d) in Hn. unfold t' in *. congruence.
Qed.

Lemma update_key_cases i f d :
  table_ok T d → (∀ r, row_id T (f r) = row_id T r) →
  (eng_update T (where_id T i always) f d =
     (Ok (changed T (where_id T i always) f d), at_row T i always f d) ∧
   table_ok T (at_row T i always f d)) ∨
  (∃ e, eng_update T (where_id T i always) f d = (Err e, d)).
Proof. intros Hok Hi. rewrite <-at_row_upd by apply Hok. by apply update_any. Qed.

Lemma changed_where_id i g f d :
  keyed T d →
  changed T (where_id T i g) f d =
    match tget T d !! i with
    | Some r => if g r then (if row_eq_dec T (f r) r then 0 else 1) else 0
    | None => 0
    end.
Proof. apply changed_id. Qed.

Lemma tget_at_row i g f d :
  tget T (at_row T i g f d) =
    match tget T d !! i with
    | Some r => if g r then <[i := f r]> (tget T d) else tget T d
    | None => tget T d
    end.
Proof.
  unfold at_row. destruct (tget T d !! i) as [r|]; [destruct (g r)|]; by rewrite ?tget_tset.
Qed.

Lemma tget_at_row_ne {R'} (T' : table R') i g f d :
  table_eqb T T' = false → tget T' (at_row T i g f d) = tget T' d.
Proof.
  intros Hn. unfold at_row. destruct (tget T d !! i) as [r|]; [|done].
  destruct (g r); [by apply tget_tset_ne|done].
Qed.

Lemma table_ok_at_row `{Collation} i g f d :
  (∀ r, row_id T (f r) = row_id T r) → (∀ r, row_key T (f r) = row_key T r) →
  table_ok T d → table_ok T (at_row T i g f d).
Proof.
  intros Hi Hkey Hok. pose proof Hok as (Hk & _).
  replace (at_row T i g f d) with (tset T (upd_rows (where_id T i g) f (tget T d)) d).
  - by apply table_ok_update.
  - unfold where_id. rewrite upd_rows_id by done. unfold at_row.
    destruct (tget T d !! i) as [r|]; [destruct (g r)|]; by rewrite ?tset_tget.
Qed.

Lemma db_ok_at_row `{Collation} i g f d :
  (∀ r, row_id T (f r) = row_id T r) → (∀ r, row_key T (f r) = row_key T r) →
  db_ok d → db_ok (at_row T i g f d).
Proof.
  intros Hi Hkey Hok. pose proof (table_ok_at_row i g f d Hi Hkey (Hok _ T)) as Ht.
  unfold at_row in *. destruct (tget T d !! i) as [r|]; [|done]. destruct (g r); [|done].
  by apply db_ok_tset.
Qed.

(** [First] by primary key *)
Lemma sel_first_id i ks d :
  keyed T d →
  sel_first (where_id T i always) ks (rows T d) =
    match tget T d !! i with Some r => Ok r | None => Err ErrRecordNotFound end.
Proof.
  intros Hk. unfold sel_first.
  destruct (law_select _ (where_id T i always) ks (Some 1%nat) (rows T d)) as (srt & Hp & _ & ->).
  unfold where_id in Hp. rewrite lfilter_id_rows in Hp by done. simpl.
  destruct (tget T d !! i) as [r|].
  - apply Permutation_singleton_r in Hp as ->. done.
  - apply Permutation_nil_r in Hp as ->. done.
Qed.

Lemma sel_count_eq wh d :
  sel_count wh (rows T d) = Z.of_nat (length (List.filter wh (rows T d))).
Proof.
  unfold sel_count. destruct (law_select _ wh [] None (rows T d)) as (srt & Hp & _ & ->).
  simpl. by rewrite Hp.
Qed.

Lemma sel_first_none {A} (wh : A → bool) ks l :
  (∀ x, x ∈ l → wh x = false) → sel_first wh ks l = Err ErrRecordNotFound.
Proof.
  intros Hn. unfold sel_first.
  destruct (law_select _ wh ks (Some 1%nat) l) as (srt & Hp & _ & ->).
  rewrite (lfilter_none wh l Hn) in Hp. by apply Permutation_nil_r in Hp as ->.
Qed.

Lemma sel_first_cases {A} (wh : A → bool) ks l :
  (sel_first wh ks l = Err ErrRecordNotFound ∧ ∀ x, x ∈ l → wh x = false) ∨
  (∃ x, sel_first wh ks l = Ok x ∧ x ∈ l ∧ wh x = true).
Proof.
  unfold sel_first.
  destruct (law_select _ wh ks (Some 1%nat) l) as (srt & Hp & _ & ->).
  destruct srt as [|x srt]; simpl.
  - left. split; [done|]. intros x Hx. destruct (wh x) eqn:E; [|done].
    apply Permutation_nil_l in Hp. symmetry in Hp.
    assert (x ∈ List.filter wh l) as Hin by (by apply elem_of_lfilter).
    rewrite Hp in Hin. by apply elem_of_nil in Hin.
  - right. exists x. split; [done|].
    assert (x ∈ List.filter wh l) as Hin by (rewrite <-Hp; by left).
    apply elem_of_lfilter in Hin as [? ?]. done.
Qed.
End rows.

Lemma rows_perm_insert {R} (T : table R) d id r :
  tget T d !! id = None → rows T (tset T (<[id := r]> (tget T d)) d) ≡ₚ r :: rows T d.
Proof.
  intros Hn. unfold rows. rewrite tget_tset.
  by rewrite (fmap_Permutation snd _ _ (map_to_list_insert _ _ _ Hn)).
Qed.

(** A read in any world: it answers, or the database is down. *)
Lemma runs_query {W} `{WorldLaws W} {A} (f : Db → result A) w (Q : result A → W → Prop) :
  (∀ w', view w' = view w → Q (f (v_db (view w))) w') →
  (∀ code w', view w' = view w → up_db (v_up (view w)) = false → Q (Err (ErrIO code)) w') →
  runs (query f) w Q.
Proof.
  intros Hok Herr. unfold query. call; [|by apply Herr].
  apply Hok. rewrite Hv. by destruct (view w).
Qed.

(** Only the Redis keyspace may have changed. *)
Definition redis_only {W} `{World W} (w w' : W) : Prop :=
  ∃ s, view w' = set_rd s (view w).

Lemma redis_only_refl {W} `{World W} (w : W) : redis_only w w.
Proof. exists (v_rd (view w)). by destruct (view w). Qed.
Lemma redis_only_same {W} `{World W} (w w' : W) : view w' = view w → redis_only w w'.
Proof. intros E. exists (v_rd (view w)). rewrite E. by destruct (view w). Qed.
Lemma redis_only_trans {W} `{World W} (w w1 w2 : W) :
  redis_only w w1 → redis_only w1 w2 → redis_only w w2.
Proof. intros [s1 E1] [s2 E2]. exists s2. rewrite E2, E1. by destruct (view w). Qed.
Lemma redis_only_db {W} `{World W} (w w' : W) : redis_only w w' → v_db (view w') = v_db (view w).
Proof. by intros [s ->]. Qed.
Lemma redis_only_mq {W} `{World W} (w w' : W) : redis_only w w' → v_mq (view w') = v_mq (view w).
Proof. by intros [s ->]. Qed.
Lemma redis_only_up {W} `{World W} (w w' : W) : redis_only w w' → v_up (view w') = v_up (view w).
Proof. by intros [s ->]. Qed.

Lemma runs_rd_only {W} `{WorldLaws W} {A} (c : Z → Rds → A * Rds) w :
  runs (rd c) w (λ _ w', redis_only w w').
Proof.
  call; [by eexists|]. destruct Hv as [Hv|Hv]; [by apply redis_only_same|by eexists].
Qed.
