(* ===== verification/CachedValue.v ===== *)
(** A value of the database that Redis caches under one key, with a lock that
    keeps two nodes from filling the cache at once: the pattern of the video
    details and of the pages of the following feed. *)
From S2P Require Import Prelude GoStd Query Entities Json Services RedisFacts RedisClient DbFacts.
Local Open Scope Z_scope.

Section cached.
Context {W : Type} `{WorldLaws W} `{RedisLaws}.
Context {A : Type}.
Variables (c : Client) (dkey lkey : string) (decode : bytes → result A).
Variables (value : option A) (d : Db).
Hypothesis Hne : dkey ≠ lkey.
Implicit Types (w : W) (s : Rds).

(** What is cached under the key decodes, if at all, to the value. *)
Definition coherent s : Prop :=
  string_key s dkey ∧ string_key s lkey ∧
  ∀ b dl v, s !! dkey = Some (RStr b, dl) → decode b = Ok v → value = Some v.

Definition ready w : Prop :=
  up_db (v_up (view w)) = true ∧ v_db (view w) = d ∧ coherent (v_rd (view w)).

Lemma coherent_set s b dl :
  (∀ v, decode b = Ok v → value = Some v) → coherent s → coherent (<[dkey := (RStr b, dl)]> s).
Proof.
  intros Hb (H1' & H2' & H3'). split_and!; [by apply string_key_insert_str..|].
  intros b' dl' v' [[_ [= <- _]]|[_ ?]]%lookup_insert_Some; [apply Hb|by eapply H3'].
Qed.

Lemma coherent_lock s b dl : coherent s → coherent (<[lkey := (RStr b, dl)]> s).
Proof.
  intros (H1' & H2' & H3'). split_and!; [by apply string_key_insert_str..|].
  intros b' dl' v. rewrite lookup_insert_ne by done. apply H3'.
Qed.

Lemma coherent_unlock s : coherent s → coherent (delete lkey s).
Proof.
  intros (H1' & H2' & H3'). split_and!; [by apply string_key_delete..|].
  intros b dl v. rewrite lookup_delete_ne by done. apply H3'.
Qed.

Lemma ready_same w w' : ready w → view w' = view w → ready w'.
Proof. unfold ready. by intros ? ->. Qed.

(** A world that differs in a coherent keyspace only. *)
Lemma ready_rd w w' s : ready w → view w' = set_rd s (view w) → coherent s → ready w'.
Proof. intros (? & ? & _) Hv Hs. unfold ready. rewrite Hv. by split_and!. Qed.

Lemma query_ready {B} (f : Db → result B) w (Q : result B → W → Prop) :
  ready w → (∀ w', ready w' → Q (f d) w') → runs (query f) w Q.
Proof.
  intros Hr HQ. pose proof Hr as (Hup & Hd & _). apply runs_query; [|congruence].
  intros w' Hv. rewrite Hd. apply HQ. by eapply ready_same.
Qed.

Lemma GetBytes_ready w (Q : result bytes → W → Prop) :
  ready w →
  (∀ b w', ready w' → (∀ v, decode b = Ok v → value = Some v) → Q (Ok b) w') →
  (∀ e w', ready w' → Q (Err e) w') →
  runs (GetBytes dkey) w Q.
Proof.
  intros Hr Hok Herr. pose proof Hr as (_ & _ & Hco). pose proof Hco as (Hs & _ & Hc).
  unfold GetBytes. call; rewrite law_get in Hv by auto with keys; [rewrite law_get by auto with keys|]; glue.
  - assert (ready w') by (by eapply ready_rd).
    destruct (str_of _ _ _) as [b|] eqn:E; [|by apply Herr]. apply Hok; [done|].
    apply str_of_Some in E as [dl E]. eauto.
  - apply Herr. destruct Hv as [Hv|Hv]; [by eapply ready_same|by eapply ready_rd].
Qed.

Lemma SetBytes_ready b ttl w (Q : result unit → W → Prop) :
  0 < ttl → (∀ v, decode b = Ok v → value = Some v) →
  ready w → (∀ r w', ready w' → Q r w') → runs (SetBytes dkey b ttl) w Q.
Proof.
  intros Httl Hb Hr HQ. pose proof Hr as (_ & _ & Hco). unfold SetBytes.
  call; rewrite law_set in Hv by done; apply HQ.
  - eapply ready_rd; [done|done|by apply coherent_set].
  - destruct Hv as [Hv|Hv]; [by eapply ready_same|].
    eapply ready_rd; [done|done|by apply coherent_set].
Qed.

Lemma Lock_ready ttl w (Q : string * bool * option err → W → Prop) :
  0 < ttl → ready w → (∀ r w', ready w' → Q r w') → runs (Lock (Some c) lkey ttl) w Q.
Proof.
  intros Httl Hr HQ. unfold Lock. change (randToken 16) with (RandHex 16). call; glue; [|apply HQ; by eapply ready_same].
  assert (ready w') as Hr' by (by eapply ready_same). pose proof Hr' as (_ & _ & Hco).
  call; rewrite law_setnx in Hv0 by done; glue; apply HQ.
  - eapply ready_rd; [done|done|]. case_match; [done|by apply coherent_lock].
  - destruct Hv0 as [Hv0|Hv0]; [by eapply ready_same|]. eapply ready_rd; [done|done|].
    case_match; [done|by apply coherent_lock].
Qed.

Lemma Unlock_ready w token (Q : result unit → W → Prop) :
  ready w → (∀ r w', ready w' → Q r w') → runs (Unlock (Some c) lkey token) w Q.
Proof.
  intros Hr HQ. pose proof Hr as (_ & _ & Hco).
  assert (∀ t, coherent (unlockScript lkey token t (v_rd (view w))).2) as Hscript.
  { intros t. unfold unlockScript. rewrite law_get by (destruct Hco as (_ & ? & _); auto with keys).
    destruct (same_text _ _); [|done]. rewrite law_del. by apply coherent_unlock. }
  unfold Unlock. call; glue; apply HQ.
  - eapply ready_rd; [done|done|apply Hscript].
  - destruct Hv as [Hv|Hv]; [by eapply ready_same|eapply ready_rd; [done|done|apply Hscript]].
Qed.
End cached.
