(* ===== verification/Http.v ===== *)
(** [internal/apierror] and what the handlers share: the status of an error,
    a response, the account that the JWT middleware left in the context. *)
From S2P Require Import Prelude GoStd Entities Services.
From Stdlib Require Import Ascii.
Local Open Scope Z_scope.
Local Open Scope go_scope.

Definition ClassifyHttpStatus (e : option err) : Z :=
  match e with
  | None => 200
  | Some ErrUnauthorized => 401
  | Some ErrValidation => 400
  | Some ErrRecordNotFound => 404
  | Some _ => 500
  end.

(** A response: its status, and the body or the error of the JSON object. *)
Inductive Resp (A : Type) : Type :=
| RespOk (status : Z) (body : A)
| RespErr (status : Z) (e : err).
Arguments RespOk {A} status body.
Arguments RespErr {A} status e.

Definition resp_status {A} (r : Resp A) : Z :=
  match r with RespOk s _ | RespErr s _ => s end.

(** [c.JSON(apierror.ClassifyHttpStatus(err), ...)] *)
Definition fail_with {A} (e : err) : Resp A := RespErr (ClassifyHttpStatus (Some e)) e.

(** The values the middleware sets in the gin context. *)
Record Ctx := mkCtx { cx_accountID : option Z; cx_username : option string }.

Definition GetAccountID (c : Ctx) : result Z :=
  match cx_accountID c with Some a => Ok a | None => Err (ErrMsg "accountID not found") end.
Definition GetUsername (c : Ctx) : result string :=
  match cx_username c with Some u => Ok u | None => Err (ErrMsg "username not found") end.

(** [if err != nil { c.JSON(fail(err)); return }] *)
Definition or_fail {W A B} (fail : err → Resp B) (r : result A) (k : A → ST W (Resp B)) :
    ST W (Resp B) :=
  match r with Ok a => k a | Err e => st_ret (fail e) end.

(** What a middleware does with the request: [c.Next()] with the values it
    set in the context, or [c.AbortWithStatusJSON]. *)
Inductive Mid : Type :=
| Next (c : Ctx)
| Abort (status : Z) (e : err).

Definition is_next (m : Mid) : bool := match m with Next _ => true | Abort _ _ => false end.

(** The part of a request the middlewares read: the headers they name, the
    client address as gin derives it, the context so far. *)
Record Req := mkReq { rq_Authorization : string; rq_ClientIP : string; rq_ctx : Ctx }.

(** [strings.Split(s, ",")[0]] *)
Fixpoint before_comma (s : string) : string :=
  match s with
  | EmptyString => EmptyString
  | String a s' => if Ascii.eqb a ","%char then EmptyString else String a (before_comma s')
  end.

(** [util.BuildAbsoluteURL], which nothing calls any more: over TLS or not, the
    header X-Forwarded-Proto, the host of the request *)
Definition BuildAbsoluteURL (tls : bool) (forwardedProto host urlPath : string) : string :=
  let scheme := if tls then "https" else "http" in
  let scheme := if negb (String.eqb forwardedProto "") then TrimSpace (before_comma forwardedProto)
                else scheme in
  scheme +:+ "://" +:+ host +:+ urlPath.

Example BuildAbsoluteURL_demo :
  BuildAbsoluteURL false "" "example.com" "/static/a.jpg" = "http://example.com/static/a.jpg" ∧
  BuildAbsoluteURL true "" "example.com" "/static/a.jpg" = "https://example.com/static/a.jpg" ∧
  BuildAbsoluteURL false " https , http" "example.com" "/a" = "https://example.com/a".
Proof. by vm_compute. Qed.
