(* ===== verification/Frames.v ===== *)
(** What a program leaves alone, or keeps true, whatever it answers and
    whichever services fail: [within R m] says that every run of [m] relates
    the states before and after by [R].  The rules follow the program, so a
    handler is within a relation as soon as its statements are. *)
From S2P Require Import Prelude GoStd Query Entities Json Services RedisClient DbFacts Http Mq.
Local Open Scope Z_scope.
Local Open Scope go_scope.

Definition within {S A} (R : relation S) (m : ST S A) : Prop := ∀ s, R s (m s).2.

Section monad.
Context {S : Type} (R : relation S) `{!PreOrder R}.

Lemma within_ret {A} (a : A) : within R (st_ret a).
Proof. by intros s. Qed.

Lemma within_bind {A B} (m : ST S A) (k : A → ST S B) :
  within R m → (∀ a, within R (k a)) → within R (st_bind m k).
Proof.
  intros Hm Hk s. unfold st_bind. specialize (Hm s). destruct (m s) as [a s1]. simpl in *.
  etransitivity; [exact Hm|apply Hk].
Qed.

Lemma within_try {A B} (m : ST S (result A)) (k : A → ST S (result B)) :
  within R m → (∀ a, within R (k a)) → within R (st_try m k).
Proof.
  intros Hm Hk. unfold st_try. apply within_bind; [done|]. intros [a|e]; [apply Hk|apply within_ret].
Qed.

(** the same, for the values the first part can answer *)
Lemma within_try_of {A B} (m : ST S (result A)) (k : A → ST S (result B)) :
  within R m → (∀ s a, (m s).1 = Ok a → within R (k a)) → within R (st_try m k).
Proof.
  intros Hm Hk s. unfold st_try, st_bind. pose proof (Hm s) as Hs. specialize (Hk s).
  destruct (m s) as [[a|e] s1]; simpl in *; [|done]. etransitivity; [exact Hs|by apply Hk].
Qed.

Lemma within_iter {A} (f : A → ST S unit) l : (∀ a, within R (f a)) → within R (st_iter f l).
Proof.
  intros Hf. induction l as [|a l IH]; simpl; [apply within_ret|].
  by apply within_bind.
Qed.

Lemma within_fold {A B} (f : A → B → ST S B) l b :
  (∀ a b, within R (f a b)) → within R (st_fold f l b).
Proof.
  intros Hf. revert b. induction l as [|a l IH]; intros b; simpl; [apply within_ret|].
  by apply within_bind.
Qed.

Lemma within_or_fail {A B} (fail : err → Resp B) (r : result A) (k : A → ST S (Resp B)) :
  (∀ a, within R (k a)) → within R (or_fail fail r k).
Proof. intros Hk. destruct r; [apply Hk|apply within_ret]. Qed.

Lemma within_runs {A} (m : ST S A) s : within R m → runs m s (λ _ s', R s s').
Proof. intros Hm. apply Hm. Qed.
End monad.

(** ** The world *)

(** A relation between what the services hold before and after, indifferent to
    Redis and the process cache. *)
Class Frame (R : relation View) : Prop := {
  frame_preorder :: PreOrder R;
  frame_rd : ∀ v s, R v (set_rd s v);
  frame_lc : ∀ v m, R v (set_lc m v) }.

(** the clock does not go back, and the services are related *)
Definition on_view {W} `{World W} (R : relation View) : relation W :=
  λ w w', clk w ≤ clk w' ∧ R (view w) (view w').

#[export] Instance on_view_preorder {W} `{World W} R `{!PreOrder R} : PreOrder (on_view (W := W) R).
Proof.
  split; unfold on_view; [by intros w|]. intros w1 w2 w3 [? H1] [? H2]. split; [lia|by etransitivity].
Qed.

Section world.
Context {W : Type} `{WorldLaws W} (R : relation View) `{!Frame R}.
Abbreviation keeps := (within (S := W) (on_view R)).

Lemma keeps_same {A} (m : ST W A) :
  (∀ w r w', m w = (r, w') → clk w ≤ clk w' ∧ view w' = view w) → keeps m.
Proof.
  intros Hm w. destruct (m w) as [r w'] eqn:E. apply Hm in E as [? E]. split; [done|].
  cbn [snd]. by rewrite E.
Qed.

Lemma keeps_sql {A} (f : Z → Db → result A * Db) :
  (∀ v t, R v (set_db (f t (v_db v)).2 v)) → keeps (sql f).
Proof.
  intros Hf w. destruct (sql f w) as [r w'] eqn:E.
  apply law_sql in E as (? & [[_ E]|(_ & _ & E)]); (split; [done|]); cbn [snd]; rewrite E; [apply Hf|done].
Qed.

Lemma keeps_publish p : (∀ v, R v (set_mq (v_mq v ++ [p]) v)) → keeps (publish p).
Proof.
  intros Hp w. destruct (publish p w) as [r w'] eqn:E.
  apply law_publish in E as (? & [[_ E]|(_ & _ & [E|E])]); (split; [done|]); cbn [snd]; rewrite E;
    done || apply Hp.
Qed.

Lemma keeps_query {A} (f : Db → result A) : keeps (query f).
Proof.
  apply keeps_sql. intros v t. simpl. assert (set_db (v_db v) v = v) as -> by (by destruct v). done.
Qed.

Lemma keeps_rd {A} (c : Z → Rds → A * Rds) : keeps (rd c).
Proof.
  intros w. destruct (rd c w) as [r w'] eqn:E.
  apply law_rd in E as (? & [[_ E]|(_ & _ & [E|E])]); (split; [done|]); cbn [snd]; rewrite E;
    done || apply frame_rd.
Qed.

Lemma keeps_lc_get k : keeps (lc_get k).
Proof. apply keeps_same. by intros w r w' (? & E & _)%law_lc_get. Qed.

Lemma keeps_lc_set k v ttl : keeps (lc_set k v ttl).
Proof.
  intros w. destruct (lc_set k v ttl w) as [r w'] eqn:E.
  apply law_lc_set in E as (? & E). split; [done|]. cbn [snd]. rewrite E. apply frame_lc.
Qed.

Lemma keeps_sf {A} k (m : ST W A) : keeps m → keeps (sf_do k m).
Proof. intros Hm w. rewrite law_sf. apply Hm. Qed.

Lemma keeps_now : keeps now.
Proof. apply keeps_same. by intros w r w' (? & _ & E)%law_now. Qed.

Lemma keeps_rand n : keeps (rand_read n).
Proof. apply keeps_same. by intros w r w' (? & E & _)%law_rand. Qed.
End world.

(** [frame] walks through a program with these rules, unfolding the functions
    it calls; what it cannot decide, the statements that write, is left. *)
Create HintDb frames.
#[export] Hint Extern 1 (within _ (query _)) => apply keeps_query; apply _ : frames.
#[export] Hint Extern 1 (within _ (rd _)) => apply keeps_rd; apply _ : frames.
#[export] Hint Extern 1 (within _ (lc_get _)) => apply keeps_lc_get; apply _ : frames.
#[export] Hint Extern 1 (within _ (lc_set _ _ _)) => apply keeps_lc_set; apply _ : frames.
#[export] Hint Extern 1 (within _ now) => apply keeps_now; apply _ : frames.
#[export] Hint Extern 1 (within _ (rand_read _)) => apply keeps_rand; apply _ : frames.

Ltac head_of t := lazymatch t with ?f _ => head_of f | _ => t end.

Ltac frame_step :=
  lazymatch goal with
  | |- ∀ _, _ => intros ?
  | |- within _ (st_ret _) => apply within_ret; apply _
  | |- within _ (st_bind _ _) => apply within_bind; [apply _| |]
  | |- within _ (st_try _ _) => apply within_try; [apply _| |]
  | |- within _ (st_iter _ _) => apply within_iter; [apply _|]
  | |- within _ (st_fold _ _ _) => apply within_fold; [apply _|]
  | |- within _ (or_fail _ _ _) => apply within_or_fail; [apply _|]
  | |- within _ (sf_do _ _) => apply keeps_sf
  | |- within _ (match ?x with _ => _ end) => destruct x
  | |- within _ ?m =>
      first [solve [eauto 2 with frames]
            | progress cbv zeta beta
            | let h := head_of m in
              lazymatch h with
              | @sql => fail
              | @publish => fail
              | _ => unfold h; cbv beta
              end]
  end.
Ltac frame := repeat frame_step.

(** ** The schema: every table keyed, and its unique index respected *)
Definition schema_db `{Collation} : relation Db := λ d d', db_ok d → db_ok d'.
Definition schema `{Collation} : relation View := λ v v', db_ok (v_db v) → db_ok (v_db v').

#[export] Instance schema_db_preorder `{Collation} : PreOrder schema_db.
Proof. split; unfold schema_db; [by intros d|]. intros d1 d2 d3 H1 H2 Hd. by apply H2, H1. Qed.

#[export] Instance schema_frame `{Collation} : Frame schema.
Proof. split; [split|..]; unfold schema; [by intros v|by intros v1 v2 v3 H1 H2 Hd; apply H2, H1|done|done]. Qed.

(** What is within the empty changes: tables and queue untouched. *)
Definition untouched : relation View := λ v v', v_db v' = v_db v ∧ v_mq v' = v_mq v.

#[export] Instance untouched_frame : Frame untouched.
Proof.
  split; [split|..]; unfold untouched; [by intros v| |done|done].
  intros v1 v2 v3 [<- <-] [-> ->]. done.
Qed.

Section statements.
Context `{SqlLaws}.

Lemma schema_create {R} (T : table R) r t : row_id T r = 0 → within schema_db (eng_create T r t).
Proof.
  intros Hid d Hd. destruct (create_cases T r t d Hid) as [(id & ? & ? & ? & ->)|[[_ ->]|[_ [? ->]]]]; [|done..].
  apply db_ok_tset; [done|]. by apply table_ok_create.
Qed.

Lemma schema_update {R} (T : table R) wh f :
  (∀ r, row_id T (f r) = row_id T r) → within schema_db (eng_update T wh f).
Proof.
  intros Hid d Hd. destruct (update_any T wh f d (Hd _ T) Hid) as [[-> Hok]|[e ->]]; [|done].
  by apply db_ok_tset.
Qed.

Lemma schema_delete {R} (T : table R) wh : within schema_db (eng_delete T wh).
Proof.
  intros d Hd. rewrite law_delete. apply db_ok_tset; [done|]. apply table_ok_delete, Hd.
Qed.

Lemma schema_tx {A} (body : Db → result A * Db) : within schema_db body → within schema_db (eng_tx body).
Proof.
  intros Hb d Hd. rewrite law_tx. specialize (Hb d Hd). by destruct (body d) as [[a|e] d'].
Qed.

Lemma schema_exec {A} (f : Db → result A * Db) : within schema_db f → within schema_db (λ d, exec (f d)).
Proof. intros Hf d Hd. apply Hf, Hd. Qed.

Lemma schema_read {A} (f : Db → result A) : within schema_db (λ d, (f d, d)).
Proof. by intros d. Qed.

Lemma keeps_schema {W} `{WorldLaws W} {A} (f : Z → Db → result A * Db) :
  (∀ t, within schema_db (f t)) → within (S := W) (on_view schema) (sql f).
Proof. intros Hf. apply keeps_sql; [apply _|]. intros v t Hd. apply Hf, Hd. Qed.

Lemma schema_publish {W} `{WorldLaws W} p : within (S := W) (on_view schema) (publish p).
Proof. apply (keeps_publish schema). intros v Hd. exact Hd. Qed.
End statements.

(** [keep_schema] is [frame] for the schema: the statements that write are
    inserts of rows without an id, updates that keep ids, and deletions. *)
Ltac schema_step :=
  lazymatch goal with
  | |- within _ (sql _) => apply keeps_schema; intros ?; cbv beta
  | |- within _ (publish _) => apply schema_publish
  | |- within schema_db (eng_tx _) => apply schema_tx
  | |- within schema_db (eng_create _ _ _) => apply schema_create; reflexivity
  | |- within schema_db (eng_update _ _ _) => apply schema_update; reflexivity
  | |- within schema_db (eng_delete _ _) => apply schema_delete
  | |- within schema_db (λ d, exec _) => apply schema_exec
  | |- within schema_db (λ d, (_, d)) => apply schema_read
  | |- _ => frame_step
  end.
Ltac keep_schema := repeat schema_step.
