(* ===== verification/Outbox.v ===== *)
(** [internal/worker/outbox_worker.go]: the transactional outbox.  The worker
    polls the pending rows, claims one with a conditional update, publishes its
    timeline event and records the outcome.  Each statement is a definition of
    its own, used by the worker's program and by the transition system in which
    any number of workers interleave. *)
From S2P Require Import Prelude GoStd Query Entities Json Services Mq DbFacts Reference.
Local Open Scope Z_scope.
Local Open Scope go_scope.

Definition defaultOutboxBatchSize : Z := 100.
Definition defaultOutboxInterval : Z := Second.
Definition defaultOutboxProcessingTimeout : Z := 5 * Minute.
Definition maxOutboxRetry : Z := 3.
Definition maxOutboxErrorLength : nat := 512.

Record OutboxWorker := mkOutboxWorker {
  ow_timelineMQ : bool; ow_batchSize : Z; ow_interval : Z; ow_timeout : Z }.

Definition NewOutboxWorker (timelineMQ : bool) : OutboxWorker :=
  mkOutboxWorker timelineMQ defaultOutboxBatchSize defaultOutboxInterval
    defaultOutboxProcessingTimeout.

Definition is_status (s : OutboxStatus) (r : OutboxMsg) : bool := bool_decide (o_Status r = s).

Definition set_status (s : OutboxStatus) (t : time) (r : OutboxMsg) : OutboxMsg :=
  mkOutboxMsg (o_ID r) (o_VideoID r) (o_EventType r) (o_CreateTime r) s (o_RetryCount r)
    (o_LastError r) t (o_PublishedAt r).

(** ** Error texts

    The message of an error made outside the program is unknown. *)
Class ErrTexts := { io_text : Z → string }.

Definition Error `{ErrTexts} (e : err) : string :=
  match e with
  | ErrRecordNotFound => "record not found"
  | ErrDuplicate => io_text 1062
  | ErrRedisNil => "redis: nil"
  | ErrUnauthorized => "unauthorized"
  | ErrValidation => "validation error"
  | ErrMsg s => s
  | ErrIO code => io_text code
  end.

Definition truncateOutboxError `{ErrTexts} (e : option err) : string :=
  match e with
  | None => ""
  | Some e =>
      let msg := TrimSpace (Error e) in
      if (String.length msg <=? maxOutboxErrorLength)%nat then msg
      else str_take maxOutboxErrorLength msg
  end.

(** ** The statements *)
Section statements.
Context `{SqlEngine} `{ErrTexts}.

Definition stmt_reset (deadline t : time) : Db → result Z * Db :=
  eng_update TOutbox
    (λ r, is_status OutboxStatusProcessing r && (o_UpdatedAt r <? deadline))
    (set_status OutboxStatusPending t).

Definition stmt_pending (batch : Z) (d : Db) : list OutboxMsg :=
  eng_select (is_status OutboxStatusPending) [Asc o_CreateTime] (sql_limit batch)
    (rows TOutbox d).

Definition stmt_claim (id : Z) (t : time) : Db → result Z * Db :=
  eng_update TOutbox
    (λ r, (o_ID r =? id) && is_status OutboxStatusPending r)
    (set_status OutboxStatusProcessing t).

Definition as_published (t : time) (r : OutboxMsg) : OutboxMsg :=
  mkOutboxMsg (o_ID r) (o_VideoID r) (o_EventType r) (o_CreateTime r)
    OutboxStatusPublished (o_RetryCount r) "" t (Some t).

Definition stmt_published (id : Z) (t : time) : Db → result Z * Db :=
  eng_update TOutbox (λ r, (o_ID r =? id) && true) (as_published t).

Definition nextStatus (nextRetry : Z) : OutboxStatus :=
  if maxOutboxRetry <? nextRetry then OutboxStatusFailed else OutboxStatusPending.

Definition as_failed (nextRetry : Z) (e : err) (t : time) (r : OutboxMsg) : OutboxMsg :=
  mkOutboxMsg (o_ID r) (o_VideoID r) (o_EventType r) (o_CreateTime r)
    (nextStatus nextRetry) nextRetry (truncateOutboxError (Some e)) t (o_PublishedAt r).

Definition stmt_failed (msg : OutboxMsg) (e : err) (t : time) : Db → result Z * Db :=
  eng_update TOutbox (λ r, (o_ID r =? o_ID msg) && true)
    (as_failed (o_RetryCount msg + 1) e t).
End statements.

(** ** The worker's program *)
Section worker.
Context {W : Type} `{World W} `{SqlEngine} `{ErrTexts}.

Definition resetExpiredProcessing (w : OutboxWorker) : ST W (result unit) :=
  t1 <- now ;;
  t2 <- now ;;
  _ <-? sql (λ _, stmt_reset (t1 - ow_timeout w) t2) ;;
  st_ret (Ok tt).

Definition claim (id : Z) : ST W (result bool) :=
  if id =? 0 then st_ret (Ok false)
  else t <- now ;;
       n <-? sql (λ _, stmt_claim id t) ;;
       st_ret (Ok (n =? 1)).

Definition markPublished (id : Z) : ST W (result unit) :=
  if id =? 0 then st_ret (Ok tt)
  else t <- now ;; _ <-? sql (λ _, stmt_published id t) ;; st_ret (Ok tt).

Definition markPublishFailed (msg : OutboxMsg) (publishErr : err) : ST W (result unit) :=
  if o_ID msg =? 0 then st_ret (Ok tt)
  else t <- now ;; _ <-? sql (λ _, stmt_failed msg publishErr t) ;; st_ret (Ok tt).

Definition publishOne (w : OutboxWorker) (msg : OutboxMsg) : ST W (result unit) :=
  if o_VideoID msg =? 0 then st_ret (Ok tt)
  else
    claimed <-? claim (o_ID msg) ;;
    if negb claimed then st_ret (Ok tt)
    else
      r <- TimelineMQ_Publish (ow_timelineMQ w) (o_VideoID msg) (o_CreateTime msg) ;;
      match r with
      | Err e => _ <- markPublishFailed msg e ;; st_ret (Err e)
      | Ok _ => markPublished (o_ID msg)
      end.

Definition pollOnce (w : OutboxWorker) : ST W (result unit) :=
  _ <-? resetExpiredProcessing w ;;
  messages <-? sql (λ _ d, (Ok (stmt_pending (ow_batchSize w) d), d)) ;;
  st_iter (λ msg, _ <- publishOne w msg ;; st_ret tt) messages ;;;
  st_ret (Ok tt).

(** [Run] until the context is done after [ticks] ticks: it polls before it
    waits. *)
Definition Run_defaults (w : OutboxWorker) : OutboxWorker :=
  mkOutboxWorker (ow_timelineMQ w)
    (if ow_batchSize w <=? 0 then defaultOutboxBatchSize else ow_batchSize w)
    (if ow_interval w <=? 0 then defaultOutboxInterval else ow_interval w)
    (if ow_timeout w <=? 0 then defaultOutboxProcessingTimeout else ow_timeout w).

Definition Run (w : OutboxWorker) (ticks : nat) : ST W (result unit) :=
  if negb (ow_timelineMQ w) then st_ret (Err (ErrMsg "outbox worker is not initialized"))
  else
    let w := Run_defaults w in
    st_iter (λ _, _ <- pollOnce w ;; st_ret tt) (seq 0 (S ticks)) ;;;
    st_ret (Err Canceled).
End worker.

(** ** Any number of workers

    The shared state is the database and what the broker accepted; each worker
    is where it stands in [pollOnce].  A publication may fail after the broker
    accepted it; a worker may crash anywhere and start again. *)
Inductive WState : Type :=
| WIdle
| WReset
| WLoop (rest : list OutboxMsg)
| WClaimed (msg : OutboxMsg) (rest : list OutboxMsg)
| WSent (msg : OutboxMsg) (rest : list OutboxMsg)
| WRefused (msg : OutboxMsg) (e : err) (rest : list OutboxMsg).

Record OState := mkOState {
  os_db : Db; os_broker : list TimelineEvent; os_workers : gmap Z WState }.

Definition outbox_event (msg : OutboxMsg) (evt : TimelineEvent) : Prop :=
  te_VideoID evt = o_VideoID msg ∧ te_CreateTime evt = UnixMilli (o_CreateTime msg) ∧
  te_Action evt = "publish".

Section interleaving.
Context `{SqlEngine} `{ErrTexts}.
Variable batch : Z.

Inductive ostep : OState → OState → Prop :=
| ostep_reset d b ws i deadline t n d' :
    ws !! i = Some WIdle → stmt_reset deadline t d = (Ok n, d') →
    ostep (mkOState d b ws) (mkOState d' b (<[i := WReset]> ws))
| ostep_select d b ws i :
    ws !! i = Some WReset →
    ostep (mkOState d b ws) (mkOState d b (<[i := WLoop (stmt_pending batch d)]> ws))
| ostep_skip d b ws i msg rest :
    ws !! i = Some (WLoop (msg :: rest)) → o_VideoID msg = 0 ∨ o_ID msg = 0 →
    ostep (mkOState d b ws) (mkOState d b (<[i := WLoop rest]> ws))
| ostep_claim d b ws i msg rest t n d' :
    ws !! i = Some (WLoop (msg :: rest)) → o_VideoID msg ≠ 0 → o_ID msg ≠ 0 →
    stmt_claim (o_ID msg) t d = (Ok n, d') →
    ostep (mkOState d b ws)
      (mkOState d' b (<[i := if n =? 1 then WClaimed msg rest else WLoop rest]> ws))
| ostep_publish d b ws i msg rest evt :
    ws !! i = Some (WClaimed msg rest) → outbox_event msg evt →
    ostep (mkOState d b ws) (mkOState d (b ++ [evt]) (<[i := WSent msg rest]> ws))
| ostep_refuse d b ws i msg rest e bs :
    ws !! i = Some (WClaimed msg rest) → (bs = [] ∨ ∃ evt, bs = [evt] ∧ outbox_event msg evt) →
    ostep (mkOState d b ws) (mkOState d (b ++ bs) (<[i := WRefused msg e rest]> ws))
| ostep_mark d b ws i msg rest t n d' :
    ws !! i = Some (WSent msg rest) → stmt_published (o_ID msg) t d = (Ok n, d') →
    ostep (mkOState d b ws) (mkOState d' b (<[i := WLoop rest]> ws))
| ostep_mark_failed d b ws i msg e rest t n d' :
    ws !! i = Some (WRefused msg e rest) → stmt_failed msg e t d = (Ok n, d') →
    ostep (mkOState d b ws) (mkOState d' b (<[i := WLoop rest]> ws))
| ostep_stmt_error d b ws i rest :
    (ws !! i = Some WIdle ∧ rest = [] ∨
     (∃ msg, ws !! i = Some (WLoop (msg :: rest)) ∨ ws !! i = Some (WSent msg rest) ∨
             ∃ e, ws !! i = Some (WRefused msg e rest))) →
    ostep (mkOState d b ws) (mkOState d b (<[i := WLoop rest]> ws))
| ostep_crash d b ws i :
    ostep (mkOState d b ws) (mkOState d b (<[i := WIdle]> ws))
| ostep_done d b ws i :
    ws !! i = Some (WLoop []) →
    ostep (mkOState d b ws) (mkOState d b (<[i := WIdle]> ws))
(** a video is published by the server: its transaction adds a pending row *)
| ostep_new d b ws r :
    0 < o_ID r → tget TOutbox d !! o_ID r = None → o_VideoID r ≠ 0 →
    o_Status r = OutboxStatusPending → o_RetryCount r = 0 → o_LastError r = "" →
    ostep (mkOState d b ws)
      (mkOState (tset TOutbox (<[o_ID r := r]> (tget TOutbox d)) d) b ws).
End interleaving.

Section invariant.
Context `{SqlLaws} `{ErrTexts}.
Variable batch : Z.
Implicit Types (d : Db) (b : list TimelineEvent).

Definition same_msg (r msg : OutboxMsg) : Prop :=
  o_ID r = o_ID msg ∧ o_VideoID r = o_VideoID msg ∧ o_CreateTime r = o_CreateTime msg.

Definition in_broker b (msg : OutboxMsg) : Prop := ∃ evt, evt ∈ b ∧ outbox_event msg evt.

(** What holds of every row. *)
Record row_inv b (r : OutboxMsg) : Prop := {
  ri_published : o_Status r = OutboxStatusPublished → in_broker b r;
  ri_retry : 0 ≤ o_RetryCount r ≤ maxOutboxRetry + 1;
  ri_failed : o_Status r = OutboxStatusFailed → o_RetryCount r = maxOutboxRetry + 1;
  ri_open : o_Status r = OutboxStatusPending ∨ o_Status r = OutboxStatusProcessing →
            o_RetryCount r ≤ maxOutboxRetry;
  ri_error : (String.length (o_LastError r) ≤ maxOutboxErrorLength)%nat }.

(** A message a worker holds has its row, and was open when it was read. *)
Definition held d (msg : OutboxMsg) : Prop :=
  0 ≤ o_RetryCount msg ≤ maxOutboxRetry ∧
  ∃ r, tget TOutbox d !! o_ID msg = Some r ∧ same_msg r msg.

Definition worker_inv d b (s : WState) : Prop :=
  match s with
  | WIdle | WReset => True
  | WLoop rest => ∀ m, m ∈ rest → held d m
  | WClaimed msg rest => held d msg ∧ ∀ m, m ∈ rest → held d m
  | WSent msg rest => held d msg ∧ in_broker b msg ∧ ∀ m, m ∈ rest → held d m
  | WRefused msg _ rest => held d msg ∧ ∀ m, m ∈ rest → held d m
  end.

Definition outbox_inv (s : OState) : Prop :=
  keyed TOutbox (os_db s) ∧
  (∀ k r, tget TOutbox (os_db s) !! k = Some r → row_inv (os_broker s) r) ∧
  (∀ i ws, os_workers s !! i = Some ws → worker_inv (os_db s) (os_broker s) ws).

(** A statement that rewrites rows in place, keeping what identifies them. *)
Definition rewrites d d' : Prop :=
  ∀ k, match tget TOutbox d !! k, tget TOutbox d' !! k with
       | Some r, Some r' => same_msg r' r
       | None, None => True
       | _, _ => False
       end.

Lemma in_broker_app b b' msg : in_broker b msg → in_broker (b ++ b') msg.
Proof. intros (evt & He & Ho). exists evt. split; [|done]. apply elem_of_app. by left. Qed.

Lemma outbox_event_same r msg evt : same_msg r msg → outbox_event msg evt → outbox_event r evt.
Proof. unfold outbox_event. intros (_ & -> & ->). done. Qed.

Lemma row_inv_app b b' r : row_inv b r → row_inv (b ++ b') r.
Proof. intros [Hp ? ? ? ?]. split; try done. intros ?. by apply in_broker_app, Hp. Qed.

Lemma held_rewrites d d' msg : rewrites d d' → held d msg → held d' msg.
Proof.
  intros Hr (Hc & r & E & Hs). split; [done|]. specialize (Hr (o_ID msg)). rewrite E in Hr.
  destruct (tget TOutbox d' !! o_ID msg) as [r'|]; [|done]. exists r'. split; [done|].
  destruct Hr as (?&?&?), Hs as (?&?&?). split_and!; congruence.
Qed.

Lemma worker_inv_mono d d' b b' s :
  (∀ m, held d m → held d' m) → worker_inv d b s → worker_inv d' (b ++ b') s.
Proof. intros Hh. destruct s; simpl; [done|done|intros Hi ? ?; by apply Hh, Hi|..].
  - intros [? Hi]; split; [by apply Hh|]; intros; by apply Hh, Hi.
  - intros (? & ? & Hi); split_and!; [by apply Hh|by apply in_broker_app|].
    intros; by apply Hh, Hi.
  - intros [? Hi]; split; [by apply Hh|]; intros; by apply Hh, Hi. Qed.

Lemma rewrites_upd wh f d :
  (∀ r, same_msg (f r) r) →
  rewrites d (tset TOutbox (upd_rows wh f (tget TOutbox d)) d).
Proof.
  intros Hf k. rewrite tget_tset, lookup_upd_rows.
  destruct (tget TOutbox d !! k) as [r|]; simpl; [|done].
  destruct (wh r); [apply Hf|done].
Qed.

Lemma keyed_upd wh f d :
  (∀ r, o_ID (f r) = o_ID r) → keyed TOutbox d →
  keyed TOutbox (tset TOutbox (upd_rows wh f (tget TOutbox d)) d).
Proof.
  intros Hf Hk k r. rewrite tget_tset, lookup_upd_rows.
  intros (r' & E & ->)%fmap_Some. apply Hk in E. simpl in E. destruct (wh r'); simpl; [|done].
  by rewrite Hf.
Qed.

Lemma truncate_length e : (String.length (truncateOutboxError e) ≤ maxOutboxErrorLength)%nat.
Proof.
  unfold truncateOutboxError. destruct e as [e|]; simpl; [|unfold maxOutboxErrorLength; lia].
  destruct (Nat.leb_spec (String.length (TrimSpace (Error e))) maxOutboxErrorLength); [done|].
  unfold str_take. rewrite length_substring0; lia.
Qed.

(** The step of one worker: its statement rewrites rows that keep [row_inv]. *)
Lemma outbox_inv_update wh f d b ws i s n d' :
  outbox_inv (mkOState d b ws) →
  (∀ r, same_msg (f r) r) → eng_update TOutbox wh f d = (Ok n, d') →
  (∀ k r, tget TOutbox d !! k = Some r → wh r = true → row_inv b r → row_inv b (f r)) →
  worker_inv d b s →
  outbox_inv (mkOState d' b (<[i := s]> ws)).
Proof.
  intros (Hk & Hr & Hw) Hf E Hrow Hs. simpl in *.
  apply update_ok_inv in E as [-> ->]; [|apply Hf|done].
  pose proof (rewrites_upd wh f d Hf) as Hre. split_and!; simpl.
  - apply keyed_upd; [apply Hf|done].
  - intros k r. rewrite tget_tset, lookup_upd_rows. intros (r' & Er & ->)%fmap_Some.
    destruct (wh r') eqn:Hwh; eauto.
  - rewrite <-(app_nil_r b). intros j s' [[<- <-]|[_ Es]]%lookup_insert_Some;
      (eapply worker_inv_mono; [|eauto]); intros m; by apply held_rewrites.
Qed.

(** A step that only moves a worker and appends to the broker. *)
Lemma outbox_inv_move d b bs ws i s :
  outbox_inv (mkOState d b ws) → worker_inv d (b ++ bs) s →
  outbox_inv (mkOState d (b ++ bs) (<[i := s]> ws)).
Proof.
  intros (Hk & Hr & Hw) Hs. split_and!; simpl in *; [done|..].
  - intros k r E. eapply row_inv_app, Hr, E.
  - intros j s' [[<- <-]|[_ Es]]%lookup_insert_Some; [done|].
    eapply worker_inv_mono; eauto.
Qed.

Lemma row_inv_status b r s t :
  row_inv b r → (s = OutboxStatusPending ∨ s = OutboxStatusProcessing) →
  (o_Status r = OutboxStatusPending ∨ o_Status r = OutboxStatusProcessing) →
  row_inv b (set_status s t r).
Proof. intros [? ? ? Ho ?] Hs Ho'. split; simpl; try done; destruct Hs; naive_solver. Qed.

Lemma held_selected d m :
  (∀ k r, tget TOutbox d !! k = Some r → 0 ≤ o_RetryCount r ∧
     (o_Status r = OutboxStatusPending → o_RetryCount r ≤ maxOutboxRetry)) →
  keyed TOutbox d → m ∈ stmt_pending batch d → held d m.
Proof.
  intros Hr Hk Hin. destruct (elem_of_select TOutbox _ _ _ _ _ Hin) as [Hs [k E]]. unfold is_status in Hs. bool_to_prop.
  pose proof (Hk _ _ E) as Hid. simpl in Hid. destruct (Hr _ _ E) as [? Ho].
  split; [split; [done|by apply Ho]|].
  exists m. rewrite Hid. split; [done|]. by split_and!.
Qed.

Lemma held_insert d r m :
  tget TOutbox d !! o_ID r = None → held d m →
  held (tset TOutbox (<[o_ID r := r]> (tget TOutbox d)) d) m.
Proof.
  intros Hn (Hc & r' & E & Hs). split; [done|]. exists r'. split; [|done].
  rewrite tget_tset, lookup_insert_ne by congruence. done.
Qed.

Lemma as_failed_inv b msg e t r :
  0 ≤ o_RetryCount msg ≤ maxOutboxRetry → row_inv b r →
  row_inv b (as_failed (o_RetryCount msg + 1) e t r).
Proof.
  intros Hc _. unfold as_failed, nextStatus.
  destruct (Z.ltb_spec maxOutboxRetry (o_RetryCount msg + 1));
    (split; simpl; [done|lia|intros; solve [done|lia]|intros [|]; solve [done|lia]
                   |apply (truncate_length (Some e))]).
Qed.

Lemma ostep_inv s s' : ostep batch s s' → outbox_inv s → outbox_inv s'.
Proof.
  intros Hstep Hinv. pose proof Hinv as (Hk & Hr & Hw).
  destruct Hstep as [d b ws i dl t n d' Hi E|d b ws i Hi|d b ws i msg rest Hi _
    |d b ws i msg rest t n d' Hi _ _ E|d b ws i msg rest evt Hi Ho
    |d b ws i msg rest e bs Hi Hbs|d b ws i msg rest t n d' Hi E
    |d b ws i msg e rest t n d' Hi E|d b ws i rest Hi|d b ws i|d b ws i Hi
    |d b ws r Hpos Hn Hv Hst Hrc Hle]; simpl in *;
    try (pose proof (Hw _ _ Hi) as Hwi; simpl in Hwi).
  - eapply outbox_inv_update; [done| |exact E| |done]; [done|].
    intros k r _ Hg Hri. unfold is_status in Hg. bool_to_prop.
    apply row_inv_status; auto.
  - rewrite <-(app_nil_r b). apply outbox_inv_move; [done|]. simpl. intros m.
    apply held_selected; [|done]. intros k r Er. destruct (Hr _ _ Er) as [_ ? _ Ho _].
    split; [lia|]. intros. apply Ho. by left.
  - rewrite <-(app_nil_r b). apply outbox_inv_move; [done|]. simpl. intros m Hm.
    apply Hwi. by right.
  - eapply outbox_inv_update; [done| |exact E| |]; [done| |].
    + intros k r _ Hg Hri. unfold is_status in Hg. bool_to_prop.
      apply row_inv_status; auto.
    + destruct (n =? 1); simpl; [split; [apply Hwi; by left|]|]; intros m Hm;
        apply Hwi; by right.
  - apply outbox_inv_move; [done|]. simpl. split; [apply (proj1 Hwi)|split; [|exact (proj2 Hwi)]].
    exists evt. split; [|done]. apply elem_of_app. right. by left.
  - apply outbox_inv_move; done.
  - eapply outbox_inv_update; [done| |exact E| |]; [done| |exact (proj2 (proj2 Hwi))].
    intros k r Er Hg [_ ? _ _ _]. cbv beta in Hg. bool_to_prop.
    split; simpl; try done; [|intros [|]; done|unfold maxOutboxErrorLength; lia].
    intros _. destruct Hwi as ((_ & r0 & Er0 & Hs) & (evt & He & Hev) & _).
    assert (r = r0) as -> by (apply Hk in Er as Hid; simpl in Hid; congruence).
    exists evt. split; [done|]. by eapply outbox_event_same.
  - eapply outbox_inv_update; [done| |exact E| |]; [done| |exact (proj2 Hwi)].
    intros k r _ _ Hri. apply as_failed_inv; [apply (proj1 Hwi)|done].
  - rewrite <-(app_nil_r b). apply outbox_inv_move; [done|]. simpl. intros m Hm.
    destruct Hi as [[_ ->]|(msg & [Hi|[Hi|[e Hi]]])]; [by apply elem_of_nil in Hm|..];
      pose proof (Hw _ _ Hi) as Hwi; simpl in Hwi; apply Hwi; [by right|done|done].
  - rewrite <-(app_nil_r b). by apply outbox_inv_move.
  - rewrite <-(app_nil_r b). by apply outbox_inv_move.
  - split_and!; simpl.
    + intros k r'. rewrite tget_tset.
      intros [[<- <-]|[_ E]]%lookup_insert_Some; [done|by apply Hk].
    + intros k r'. rewrite tget_tset. intros [[<- <-]|[_ E]]%lookup_insert_Some; [|eauto].
      split; rewrite ?Hst, ?Hrc, ?Hle; unfold maxOutboxRetry, maxOutboxErrorLength;
        simpl; try done; lia.
    + intros i s Hs. rewrite <-(app_nil_r b). eapply worker_inv_mono; [|eauto].
      intros m. by apply held_insert.
Qed.

(** The server starts with no outbox row, and with workers that idle. *)
Definition outbox_start (s : OState) : Prop :=
  tget TOutbox (os_db s) = ∅ ∧ ∀ i ws, os_workers s !! i = Some ws → ws = WIdle.

Lemma outbox_reachable s0 s :
  outbox_start s0 → rtc (ostep batch) s0 s → outbox_inv s.
Proof.
  intros [He Hi] Hrun. assert (outbox_inv s0) as Hs0.
  { split_and!.
    - intros k r. by rewrite He, lookup_empty.
    - intros k r. by rewrite He, lookup_empty.
    - by intros i ws ->%Hi. }
  clear He Hi. induction Hrun; eauto using ostep_inv.
Qed.

(** C9: with any number of workers interleaving at every statement, crashing,
    and reclaiming the rows of workers that timed out, an outbox row marked
    published has its timeline event in the broker: no video is dropped from
    the timeline by the outbox. *)
Theorem outbox_published_delivered s0 s k r :
  outbox_start s0 → rtc (ostep batch) s0 s →
  tget TOutbox (os_db s) !! k = Some r → o_Status r = OutboxStatusPublished →
  ∃ evt, evt ∈ os_broker s ∧ te_VideoID evt = o_VideoID r ∧
         te_CreateTime evt = UnixMilli (o_CreateTime r).
Proof.
  intros Hs Hrun E Hp. apply outbox_reachable in Hrun as (_ & Hr & _); [|done].
  destruct (ri_published _ _ (Hr _ _ E) Hp) as (evt & He & ? & ? & _). eauto.
Qed.

(** C13: in every interleaving the retry counter stays within 0 and 4, a row is
    failed only with the counter at 4, an open row never has it above 3, and
    the stored error fits its 512-byte column. *)
Theorem outbox_row_bounds s0 s k r :
  outbox_start s0 → rtc (ostep batch) s0 s → tget TOutbox (os_db s) !! k = Some r →
  0 ≤ o_RetryCount r ≤ 4 ∧
  (o_Status r = OutboxStatusFailed → o_RetryCount r = 4) ∧
  (o_Status r = OutboxStatusPending ∨ o_Status r = OutboxStatusProcessing →
     o_RetryCount r ≤ 3) ∧
  (String.length (o_LastError r) ≤ 512)%nat.
Proof.
  intros Hs Hrun E. apply outbox_reachable in Hrun as (_ & Hr & _); [|done].
  destruct (Hr _ _ E) as [_ Ha Hb Hc Hd]. exact (conj Ha (conj Hb (conj Hc Hd))).
Qed.
End invariant.

(** ** Exactly once, when no claim expires

    Without resets and crashes, and with refused publications not accepted,
    the conditional update hands a row to one worker at a time, and a row is
    never published twice. *)
Section once.
Context `{SqlLaws} `{ErrTexts}.
Variable batch : Z.
Implicit Types (d : Db) (b : list TimelineEvent).

Inductive ostep_calm : OState → OState → Prop :=
| calm_select d b ws i :
    (ws !! i = Some WIdle ∨ ws !! i = Some WReset) →
    ostep_calm (mkOState d b ws) (mkOState d b (<[i := WLoop (stmt_pending batch d)]> ws))
| calm_claim d b ws i msg rest t n d' :
    ws !! i = Some (WLoop (msg :: rest)) → o_VideoID msg ≠ 0 → o_ID msg ≠ 0 →
    stmt_claim (o_ID msg) t d = (Ok n, d') →
    ostep_calm (mkOState d b ws)
      (mkOState d' b (<[i := if n =? 1 then WClaimed msg rest else WLoop rest]> ws))
| calm_publish d b ws i msg rest evt :
    ws !! i = Some (WClaimed msg rest) → outbox_event msg evt →
    ostep_calm (mkOState d b ws) (mkOState d (b ++ [evt]) (<[i := WSent msg rest]> ws))
| calm_refuse d b ws i msg rest e :
    ws !! i = Some (WClaimed msg rest) →
    ostep_calm (mkOState d b ws) (mkOState d b (<[i := WRefused msg e rest]> ws))
| calm_mark d b ws i msg rest t n d' :
    ws !! i = Some (WSent msg rest) → stmt_published (o_ID msg) t d = (Ok n, d') →
    ostep_calm (mkOState d b ws) (mkOState d' b (<[i := WLoop rest]> ws))
| calm_mark_failed d b ws i msg e rest t n d' :
    ws !! i = Some (WRefused msg e rest) → stmt_failed msg e t d = (Ok n, d') →
    ostep_calm (mkOState d b ws) (mkOState d' b (<[i := WLoop rest]> ws))
| calm_done d b ws i :
    ws !! i = Some (WLoop []) →
    ostep_calm (mkOState d b ws) (mkOState d b (<[i := WIdle]> ws)).

(** the message a worker has claimed, and whether the broker has its event *)
Definition holds (s : WState) : option (OutboxMsg * bool) :=
  match s with
  | WClaimed m _ => Some (m, false)
  | WSent m _ => Some (m, true)
  | WRefused m _ _ => Some (m, false)
  | WIdle | WReset | WLoop _ => None
  end.
Definition todo (s : WState) : list OutboxMsg :=
  match s with
  | WLoop rest | WClaimed _ rest | WSent _ rest | WRefused _ _ rest => rest
  | WIdle | WReset => []
  end.

Definition events_of (v : Z) b : nat :=
  length (List.filter (λ e, te_VideoID e =? v) b).

Definition holder (ws : gmap Z WState) (k i : Z) (m : OutboxMsg) (sent : bool) : Prop :=
  ∃ s, ws !! i = Some s ∧ holds s = Some (m, sent) ∧ o_ID m = k.

Definition row_ok d b (ws : gmap Z WState) (k : Z) (r : OutboxMsg) : Prop :=
  match o_Status r with
  | OutboxStatusProcessing =>
      ∃ i m sent, holder ws k i m sent ∧ same_msg r m ∧
        events_of (o_VideoID r) b = (if sent then 1 else 0)%nat ∧
        ∀ j m' sent', holder ws k j m' sent' → j = i
  | OutboxStatusPublished =>
      (∀ i m sent, ¬ holder ws k i m sent) ∧ events_of (o_VideoID r) b = 1%nat
  | OutboxStatusPending | OutboxStatusFailed =>
      (∀ i m sent, ¬ holder ws k i m sent) ∧ events_of (o_VideoID r) b = 0%nat
  end.

(** The messages a worker works on have rows, one row per video. *)
Definition from_rows d (m : OutboxMsg) : Prop :=
  ∃ r, tget TOutbox d !! o_ID m = Some r ∧ same_msg r m.

Record calm_inv (s : OState) : Prop := {
  ci_keyed : keyed TOutbox (os_db s);
  ci_videos : ∀ k k' r r', tget TOutbox (os_db s) !! k = Some r →
    tget TOutbox (os_db s) !! k' = Some r' → o_VideoID r = o_VideoID r' → k = k';
  ci_todo : ∀ i ws m, os_workers s !! i = Some ws →
    (m ∈ todo ws ∨ ∃ x, holds ws = Some (m, x)) → from_rows (os_db s) m;
  ci_rows : ∀ k r, tget TOutbox (os_db s) !! k = Some r →
    row_ok (os_db s) (os_broker s) (os_workers s) k r }.

Lemma holder_insert_ne ws k i s j m x :
  (∀ m x, holds s = Some (m, x) → o_ID m ≠ k) →
  holder (<[i := s]> ws) k j m x → holder ws k j m x.
Proof.
  intros Hs (s' & [[<- <-]|[Hn E]]%lookup_insert_Some & Hh & Hk);
    [by apply Hs in Hh|by exists s'].
Qed.

Lemma holder_insert_inv ws k i s0 s j m x :
  ws !! i = Some s0 → (∀ m x, holds s0 = Some (m, x) → o_ID m ≠ k) →
  holder ws k j m x → holder (<[i := s]> ws) k j m x.
Proof.
  intros E0 Hs (s' & E & Hh & Hk). exists s'. split; [|done].
  rewrite lookup_insert_ne; [done|]. intros <-. simplify_eq. by apply Hs in Hh.
Qed.

(** A row the step does not concern keeps its state. *)
Lemma row_ok_frame d d' b b' ws i s0 s k r :
  ws !! i = Some s0 →
  (∀ m x, holds s0 = Some (m, x) → o_ID m ≠ k) →
  (∀ m x, holds s = Some (m, x) → o_ID m ≠ k) →
  events_of (o_VideoID r) b' = events_of (o_VideoID r) b →
  row_ok d b ws k r → row_ok d' b' (<[i := s]> ws) k r.
Proof.
  intros Hi H0' Hs Hb. unfold row_ok. rewrite Hb. destruct (o_Status r).
  - intros [Hn Hc]. split; [|done]. intros ??? ?%holder_insert_ne; [|done]. by eapply Hn.
  - intros (j & m & x & Hj & Hsame & Hc & Hu). exists j, m, x. split_and!; try done.
    + by eapply holder_insert_inv.
    + intros ??? ?%holder_insert_ne; [|done]. by eapply Hu.
  - intros [Hn Hc]. split; [|done]. intros ??? ?%holder_insert_ne; [|done]. by eapply Hn.
  - intros [Hn Hc]. split; [|done]. intros ??? ?%holder_insert_ne; [|done]. by eapply Hn.
Qed.

(** A statement on one row. *)
Lemma stmt_id_inv id g f d n d' :
  keyed TOutbox d → (∀ r, o_ID (f r) = o_ID r) →
  eng_update TOutbox (λ r, (o_ID r =? id) && g r) f d = (Ok n, d') →
  n = match tget TOutbox d !! id with
      | Some r => if g r then if row_eq_dec TOutbox (f r) r then 0 else 1 else 0
      | None => 0
      end ∧
  tget TOutbox d' = match tget TOutbox d !! id with
                    | Some r => if g r then <[id := f r]> (tget TOutbox d) else tget TOutbox d
                    | None => tget TOutbox d
                    end.
Proof.
  intros Hk Hf E. apply update_ok_inv in E as [-> ->]; [|done|done].
  rewrite tget_tset. split.
  - exact (changed_id TOutbox id g f d Hk).
  - exact (upd_rows_id TOutbox id g f d Hk).
Qed.

Lemma events_of_app v b e :
  events_of v (b ++ [e]) = (events_of v b + if (te_VideoID e =? v)%Z then 1 else 0)%nat.
Proof.
  unfold events_of. rewrite List.filter_app, length_app. simpl.
  by destruct (te_VideoID e =? v).
Qed.

(** Rewriting one row in place keeps where messages come from. *)
Lemma from_rows_insert d d' id r r' m :
  tget TOutbox d !! id = Some r → tget TOutbox d' = <[id := r']> (tget TOutbox d) →
  same_msg r' r → from_rows d m → from_rows d' m.
Proof.
  intros Er Ed Hs (r0 & E0 & Hm). unfold from_rows. rewrite Ed.
  destruct (decide (o_ID m = id)) as [<-|Hn].
  - rewrite lookup_insert_eq. eexists; split; [done|].
    assert (r0 = r) as -> by congruence.
    destruct Hs as (?&?&?), Hm as (?&?&?). split_and!; congruence.
  - rewrite lookup_insert_ne by done. eauto.
Qed.

Lemma calm_move d b ws i s0 s :
  calm_inv (mkOState d b ws) → ws !! i = Some s0 → holds s0 = None → holds s = None →
  (∀ m, m ∈ todo s → from_rows d m) → calm_inv (mkOState d b (<[i := s]> ws)).
Proof.
  intros [Hk Hv Ht Hr] Hi Hh0 Hh Htodo. simpl in *. split; simpl; [done|done|..].
  - intros j s' m [[<- <-]|[_ E]]%lookup_insert_Some; [|eauto].
    intros [?|[x ?]]; [auto|congruence].
  - intros k r E. eapply row_ok_frame; [done| | |done|by apply Hr]; congruence.
Qed.

Lemma calm_touch d d' b b' ws i s0 s k0 r0 r' :
  calm_inv (mkOState d b ws) → ws !! i = Some s0 →
  tget TOutbox d !! k0 = Some r0 → tget TOutbox d' = <[k0 := r']> (tget TOutbox d) →
  same_msg r' r0 →
  (∀ m x, holds s0 = Some (m, x) → o_ID m = k0) →
  (∀ m x, holds s = Some (m, x) → o_ID m = k0) →
  (∀ m, m ∈ todo s ∨ (∃ x, holds s = Some (m, x)) → from_rows d m) →
  (∀ v, v ≠ o_VideoID r0 → events_of v b' = events_of v b) →
  row_ok d' b' (<[i := s]> ws) k0 r' →
  calm_inv (mkOState d' b' (<[i := s]> ws)).
Proof.
  intros [Hk Hv Ht Hr] Hi Er Ed Hsame Hh0 Hh Hfrom Hb Hrow. simpl in *.
  pose proof Hsame as (Hid & Hvid & _). split; simpl.
  - intros k r. rewrite Ed. intros [[<- <-]|[_ E]]%lookup_insert_Some; [|by apply Hk].
    simpl. rewrite Hid. by apply Hk.
  - intros k k' r1 r2. rewrite Ed.
    intros [[<- <-]|[_ E1]]%lookup_insert_Some [[<- <-]|[_ E2]]%lookup_insert_Some Heq;
      [done|..|by eapply Hv]; rewrite ?Hvid in Heq; by eapply Hv.
  - intros j s' m [[<- <-]|[_ E]]%lookup_insert_Some Hm;
      (eapply from_rows_insert; [exact Er|exact Ed|exact Hsame|]); eauto.
  - intros k r. rewrite Ed. intros [[<- <-]|[Hn E]]%lookup_insert_Some; [done|].
    eapply row_ok_frame; [exact Hi| | | |by apply Hr].
    + intros m x ->%Hh0. done.
    + intros m x ->%Hh. done.
    + apply Hb. intros Heq. by eapply Hn, Hv.
Qed.

(** The row of a message in hand is being processed, by its holder only. *)
Lemma calm_held d b ws i s m x :
  calm_inv (mkOState d b ws) → ws !! i = Some s → holds s = Some (m, x) →
  ∃ r, tget TOutbox d !! o_ID m = Some r ∧ same_msg r m ∧
    o_Status r = OutboxStatusProcessing ∧
    events_of (o_VideoID r) b = (if x then 1 else 0)%nat ∧
    ∀ j m' x', holder ws (o_ID m) j m' x' → j = i.
Proof.
  intros [Hk Hv Ht Hr] Hi Hh. simpl in *.
  destruct (Ht i s m Hi) as (r & E & Hs); [right; eauto|].
  exists r. split; [done|]. split; [done|].
  assert (holder ws (o_ID m) i m x) as Hhold by (by exists s).
  specialize (Hr _ _ E). unfold row_ok in Hr. destruct (o_Status r); try (by destruct Hr as [Hn _]; apply Hn in Hhold).
  destruct Hr as (j & m' & x' & Hj & _ & Hc & Hu). split; [done|].
  assert (j = i) as -> by (symmetry; by eapply Hu).
  destruct Hj as (s' & E' & Hh' & _). simplify_eq. split; [done|].
  intros j m0 x0 Hj. by eapply Hu.
Qed.

Lemma no_holder_after ws i s k :
  holds s = None → (∀ j m x, holder ws k j m x → j = i) →
  ∀ j m x, ¬ holder (<[i := s]> ws) k j m x.
Proof.
  intros Hh Hu j m x (s' & E & Hs' & Hk).
  apply lookup_insert_Some in E as [[<- <-]|[Hn E]]; [congruence|].
  apply Hn. symmetry. apply (Hu j m x). by exists s'.
Qed.

Lemma only_holder_after ws i s k :
  (∀ j m x, holder ws k j m x → j = i) →
  ∀ j m x, holder (<[i := s]> ws) k j m x → j = i.
Proof.
  intros Hu j m x (s' & E & Hs' & Hk).
  apply lookup_insert_Some in E as [[<- _]|[Hn E]]; [done|].
  apply (Hu j m x). by exists s'.
Qed.

Lemma holder_here ws i s m x : holds s = Some (m, x) → holder (<[i := s]> ws) (o_ID m) i m x.
Proof. intros Hh. exists s. split; [apply lookup_insert_eq|done]. Qed.

Lemma same_msg_trans r1 r2 r3 : same_msg r1 r2 → same_msg r2 r3 → same_msg r1 r3.
Proof. intros (?&?&?) (?&?&?). split_and!; congruence. Qed.

Lemma calm_claim_ok d b ws i msg rest t n d' :
  calm_inv (mkOState d b ws) → ws !! i = Some (WLoop (msg :: rest)) →
  stmt_claim (o_ID msg) t d = (Ok n, d') →
  calm_inv (mkOState d' b (<[i := if n =? 1 then WClaimed msg rest else WLoop rest]> ws)).
Proof.
  intros Hinv Hi E. pose proof Hinv as [Hk Hv Ht Hr]. simpl in *.
  assert (∀ m, m ∈ msg :: rest → from_rows d m) as Hfrom by (intros m Hm; eapply Ht; eauto).
  apply stmt_id_inv in E as [-> Ed]; [|done|done].
  destruct (Hfrom msg) as (r & Er & Hs); [by left|]. rewrite Er in Ed |- *.
  destruct (is_status OutboxStatusPending r) eqn:Hst.
  - unfold is_status in Hst. bool_to_prop.
    destruct (row_eq_dec TOutbox _ r) as [Eq|_]; [by apply (f_equal o_Status) in Eq; simpl in Eq; congruence|].
    simpl. eapply calm_touch; [done|exact Hi|exact Er|exact Ed|done|done| | |done|].
    + simpl. intros m x. by intros [= -> _].
    + simpl. intros m [Hm|[x [= <- _]]]; apply Hfrom; [by right|by left].
    + specialize (Hr _ _ Er). unfold row_ok in *. rewrite Hst in Hr. simpl.
      destruct Hr as [Hn Hc]. exists i, msg, false. split_and!; try done; try apply Hs.
      * by apply holder_here.
      * apply only_holder_after. intros j m x Hj. by apply Hn in Hj.
  - simpl. assert (tget TOutbox d' = tget TOutbox d) as Ed' by done.
    eapply (calm_touch d d' b b ws i _ _ (o_ID msg) r r);
      [done|exact Hi|exact Er| |done|done|done| |done|].
    + by rewrite Ed', insert_id.
    + simpl. intros m [Hm|[x [=]]]. apply Hfrom. by right.
    + eapply (row_ok_frame d d' b b); [exact Hi|done|done|done|by apply Hr].
Qed.

(** Recording the outcome of the message in hand. *)
Lemma calm_mark_ok d b ws i s msg sent rest f t n d' :
  calm_inv (mkOState d b ws) → ws !! i = Some s → holds s = Some (msg, sent) → todo s = rest →
  (∀ r, same_msg (f r) r) →
  (∀ r, o_Status (f r) = if sent then OutboxStatusPublished else nextStatus t) →
  eng_update TOutbox (λ r, (o_ID r =? o_ID msg) && true) f d = (Ok n, d') →
  calm_inv (mkOState d' b (<[i := WLoop rest]> ws)).
Proof.
  intros Hinv Hi Hh Hrest Hf Hst E.
  destruct (calm_held _ _ _ _ _ _ _ Hinv Hi Hh) as (r & Er & Hs & _ & Hc & Hu).
  pose proof Hinv as [Hk Hv Ht Hr]. simpl in *.
  apply stmt_id_inv in E as [_ Ed]; [|done|apply Hf]. rewrite Er in Ed. simpl in Ed.
  eapply calm_touch; [done|exact Hi|exact Er|exact Ed|apply Hf| |done| |done|].
  - intros m x Hm. by simplify_eq.
  - simpl. intros m [Hm|[x [=]]]. eapply Ht; [done|]. left. by rewrite Hrest.
  - unfold row_ok. rewrite Hst. destruct (Hf r) as (_ & -> & _). unfold nextStatus.
    destruct sent; [|destruct (maxOutboxRetry <? t)];
      (split; [by apply no_holder_after|done]).
Qed.

Lemma calm_send_ok d b bs ws i s s' msg rest x :
  calm_inv (mkOState d b ws) → ws !! i = Some s → holds s = Some (msg, false) →
  holds s' = Some (msg, x) → todo s = rest → todo s' = rest →
  (∀ v, v ≠ o_VideoID msg → events_of v (b ++ bs) = events_of v b) →
  events_of (o_VideoID msg) (b ++ bs) =
    (events_of (o_VideoID msg) b + if x then 1 else 0)%nat →
  calm_inv (mkOState d (b ++ bs) (<[i := s']> ws)).
Proof.
  intros Hinv Hi Hh Hh' Hrest Hrest' Hb Hb'.
  destruct (calm_held _ _ _ _ _ _ _ Hinv Hi Hh) as (r & Er & Hs & Hst & Hc & Hu).
  pose proof Hinv as [Hk Hv Ht Hr]. simpl in *. pose proof Hs as (_ & Hvid & _).
  eapply (calm_touch d d b (b ++ bs) ws i _ _ (o_ID msg) r r);
    [done|exact Hi|exact Er|by rewrite insert_id|done| | | | |].
  - intros m y Hm. by simplify_eq.
  - intros m y Hm. by simplify_eq.
  - intros m [Hm|[y Hm]].
    + eapply Ht; [done|]. left. by rewrite Hrest, <-Hrest'.
    + simplify_eq. exists r. done.
  - intros v Hv'. apply Hb. congruence.
  - unfold row_ok. rewrite Hst. exists i, msg, x. split_and!; try apply Hs.
    + by apply holder_here.
    + rewrite Hvid, Hb', <-Hvid, Hc. by destruct x.
    + by apply only_holder_after.
Qed.

Lemma calm_step_inv s s' : ostep_calm s s' → calm_inv s → calm_inv s'.
Proof.
  intros Hstep Hinv. pose proof Hinv as [Hk Hv Ht Hr].
  destruct Hstep as [d b ws i Hi|d b ws i msg rest t n d' Hi _ _ E|d b ws i msg rest evt Hi Ho
    |d b ws i msg rest e Hi|d b ws i msg rest t n d' Hi E|d b ws i msg e rest t n d' Hi E
    |d b ws i Hi]; simpl in *.
  - assert (∃ s0, ws !! i = Some s0 ∧ holds s0 = None) as (s0 & E0 & Hh0)
      by (destruct Hi; eauto).
    eapply calm_move; [done|done|done|done|]. simpl. intros m Hm.
    destruct (elem_of_select TOutbox _ _ _ _ _ Hm) as [_ [k E]].
    pose proof (Hk _ _ E) as Hid. simpl in Hid. exists m. rewrite Hid. by split_and!.
  - by eapply calm_claim_ok.
  - destruct Ho as (Hvid & _).
    eapply calm_send_ok; [done|done|done|done|done|done|..].
    + intros v Hne. rewrite events_of_app. destruct (Z.eqb_spec (te_VideoID evt) v); [congruence|lia].
    + rewrite events_of_app, Hvid, Z.eqb_refl. done.
  - rewrite <-(app_nil_r b).
    eapply calm_send_ok; [done|done|done|done|done|done|..]; intros; rewrite app_nil_r; lia.
  - eapply (calm_mark_ok _ _ _ _ _ _ true _ _ 0); [done|done|done|done| | |exact E]; done.
  - eapply (calm_mark_ok _ _ _ _ _ _ false _ _ (o_RetryCount msg + 1));
      [done|done|done|done| | |exact E]; done.
  - eapply calm_move; [done|done|done|done|]. simpl. by intros m ?%elem_of_nil.
Qed.

(** Every row pending, one row per video, nothing published, workers idle. *)
Record calm_start (s : OState) : Prop := {
  cs_keyed : keyed TOutbox (os_db s);
  cs_videos : ∀ k k' r r', tget TOutbox (os_db s) !! k = Some r →
    tget TOutbox (os_db s) !! k' = Some r' → o_VideoID r = o_VideoID r' → k = k';
  cs_pending : ∀ k r, tget TOutbox (os_db s) !! k = Some r →
    o_Status r = OutboxStatusPending;
  cs_broker : os_broker s = [];
  cs_idle : ∀ i ws, os_workers s !! i = Some ws → ws = WIdle }.

End once.

(** ** The program refines the transition system *)
Section refinement.
Context {W : Type} `{WorldLaws W} `{SqlLaws} `{ErrTexts}.
Variable ow : OutboxWorker.
Abbreviation step := (ostep (ow_batchSize ow)).

(** The timeline events among the publications of the broker. *)
Definition timeline_event (p : Pub) : option TimelineEvent :=
  if String.eqb (p_Exchange p) TimelineExchange
  then match unmarshal_timeline (p_Body p) with Ok e => Some e | Err _ => None end
  else None.
Definition timeline_events (l : list Pub) : list TimelineEvent := omap timeline_event l.

(** What the transition system sees of a world. *)
Definition seen (w : W) (ws : gmap Z WState) : OState :=
  mkOState (v_db (view w)) (timeline_events (v_mq (view w))) ws.

Definition msg_ok (m : OutboxMsg) : bool :=
  is_uint (o_VideoID m) && is_int64 (UnixMilli (o_CreateTime m)).

Lemma seen_same w w' ws : view w' = view w → seen w' ws = seen w ws.
Proof. unfold seen. by intros ->. Qed.

Lemma seen_set_db w w' ws d :
  view w' = set_db d (view w) → seen w' ws = mkOState d (timeline_events (v_mq (view w))) ws.
Proof. unfold seen. by intros ->. Qed.

Lemma timeline_events_app l t b ex rk :
  timeline_events (l ++ [mkPub ex rk ∅ (json_props t) b]) =
    timeline_events l ++ match timeline_event (mkPub ex rk ∅ (json_props t) b) with
                         | Some e => [e] | None => [] end.
Proof. unfold timeline_events. rewrite omap_app. simpl. by destruct (timeline_event _). Qed.

Lemma timeline_event_sent m id t t' rk :
  msg_ok m = true →
  ∃ evt, timeline_event (mkPub TimelineExchange rk ∅ (json_props t)
           (marshal_timeline (mkTimelineEvent id "publish" (o_VideoID m)
              (UnixMilli (o_CreateTime m)) t'))) = Some evt ∧ outbox_event m evt.
Proof.
  intros Hm. eexists. unfold timeline_event. cbn [p_Exchange p_Body].
  rewrite String.eqb_refl, unmarshal_marshal_timeline by done. by split.
Qed.

(** [TimelineMQ_Publish] is a publish step or a refuse step. *)
Lemma publish_refines w ws i msg rest :
  ws !! i = Some (WClaimed msg rest) → o_VideoID msg ≠ 0 → msg_ok msg = true →
  runs (TimelineMQ_Publish true (o_VideoID msg) (o_CreateTime msg)) w (λ r w',
    v_db (view w') = v_db (view w) ∧
    rtc step (seen w ws)
      (seen w' (<[i := match r with Ok _ => WSent msg rest | Err e => WRefused msg e rest end]> ws))).
Proof.
  intros Hi Hv Hm. eapply runs_mono; [by apply TimelineMQ_publish_spec|].
  intros r w' (_ & [(-> & t & b & (id & t' & _ & ->) & E)|(_ & (e & ->) & Hcase)]).
  - split; [by rewrite E|]. unfold seen. rewrite E. simpl. rewrite timeline_events_app.
    destruct (timeline_event_sent msg id t t' TimelineRoutingKeyPublish Hm) as (evt & Ee & Ho).
    rewrite Ee. apply rtc_once. by apply ostep_publish.
  - destruct Hcase as [E|(t & b & (id & t' & _ & ->) & E)];
      (split; [by rewrite E|]); unfold seen; rewrite E; simpl.
    + rewrite <-(app_nil_r (timeline_events (v_mq (view w)))) at 2.
      apply rtc_once. apply ostep_refuse; [done|by left].
    + rewrite timeline_events_app.
      destruct (timeline_event_sent msg id t t' TimelineRoutingKeyPublish Hm) as (evt & Ee & Ho).
      rewrite Ee. apply rtc_once. apply ostep_refuse; [done|right; eauto].
Qed.

Lemma mark_refines w ws i msg rest s f :
  ws !! i = Some s →
  (s = WSent msg rest ∧ (∃ t, f = stmt_published (o_ID msg) t) ∨
   ∃ e t, s = WRefused msg e rest ∧ f = stmt_failed msg e t) →
  runs (sql (λ _, f)) w (λ _ w',
    rtc step (seen w ws) (seen w' (<[i := WLoop rest]> ws))).
Proof.
  intros Hi Hs.
  assert (∀ w', view w' = view w → rtc step (seen w ws) (seen w' (<[i := WLoop rest]> ws))) as Herr.
  { intros w' E. rewrite (seen_same w w') by done. apply rtc_once. apply ostep_stmt_error.
    right. exists msg. destruct Hs as [[-> _]|(e & t & -> & _)]; eauto. }
  call; [|by apply Herr].
  destruct Hs as [[-> [t ->]]|(e & t & -> & ->)].
  - destruct (stmt_published (o_ID msg) t (v_db (view w))) as [[n|e] d'] eqn:E; simpl in *.
    + rewrite (seen_set_db w w') with (d := d') by done. apply rtc_once.
      by eapply ostep_mark.
    + apply Herr. rewrite Hv. unfold stmt_published in E.
      destruct (update_cases TOutbox (λ r, (o_ID r =? o_ID msg) && true) (as_published t)
                  (v_db (view w))) as [E'|(_ & code & E')]; [done|done| |]; rewrite E' in E; simplify_eq.
      by destruct (view w).
  - destruct (stmt_failed msg e t (v_db (view w))) as [[n|e'] d'] eqn:E; simpl in *.
    + rewrite (seen_set_db w w') with (d := d') by done. apply rtc_once.
      by eapply ostep_mark_failed.
    + apply Herr. rewrite Hv. unfold stmt_failed in E.
      destruct (update_cases TOutbox (λ r, (o_ID r =? o_ID msg) && true)
                  (as_failed (o_RetryCount msg + 1) e t) (v_db (view w)))
        as [E'|(_ & code & E')]; [done|done| |]; rewrite E' in E; simplify_eq.
      by destruct (view w).
Qed.

(** A statement that refused left the database alone. *)
Lemma claim_refines w ws i msg rest :
  ws !! i = Some (WLoop (msg :: rest)) → o_VideoID msg ≠ 0 → o_ID msg ≠ 0 →
  runs (claim (o_ID msg)) w (λ r w',
    rtc step (seen w ws)
      (seen w' (<[i := match r with Ok true => WClaimed msg rest | _ => WLoop rest end]> ws))).
Proof.
  intros Hi Hv Hid. unfold claim. destruct (Z.eqb_spec (o_ID msg) 0); [done|].
  assert (∀ w', view w' = view w → rtc step (seen w ws) (seen w' (<[i := WLoop rest]> ws))) as Herr.
  { intros w' E. rewrite (seen_same w w') by done. apply rtc_once. apply ostep_stmt_error. eauto. }
  call. call; glue; [|apply Herr; congruence].
  destruct (stmt_claim (o_ID msg) (clk w') (v_db (view w'))) as [[k|e] d'] eqn:E; simpl in *; glue.
  - rewrite Hv0 in E. rewrite (seen_set_db w w'0) with (d := d') by congruence.
    apply rtc_once. eapply ostep_claim in E; [|done..].
    by destruct (k =? 1).
  - apply Herr. unfold stmt_claim in E.
    destruct (update_cases TOutbox (λ r, (o_ID r =? o_ID msg) && is_status OutboxStatusPending r)
                (set_status OutboxStatusProcessing (clk w')) (v_db (view w')))
      as [E'|(_ & code & E')]; [done|done| |]; rewrite E' in E; simplify_eq.
    rewrite Hv1, Hv0. by destruct (view w).
Qed.

Lemma publishOne_refines w ws i msg rest :
  ow_timelineMQ ow = true → msg_ok msg = true → ws !! i = Some (WLoop (msg :: rest)) →
  runs (publishOne ow msg) w (λ _ w',
    rtc step (seen w ws) (seen w' (<[i := WLoop rest]> ws))).
Proof.
  intros Hmq Hm Hi. unfold publishOne. rewrite Hmq.
  destruct (Z.eqb_spec (o_VideoID msg) 0) as [Hv|Hv].
  { apply runs_ret. apply rtc_once. eapply ostep_skip; eauto. }
  destruct (decide (o_ID msg = 0)) as [Hid|Hid].
  { unfold claim. rewrite Hid. simpl. glue. apply rtc_once. eapply ostep_skip; eauto. }
  apply runs_try. eapply runs_mono; [by apply claim_refines|].
  intros [[]|e] w1 R1; cbv beta iota; cbn [negb]; [|by apply runs_ret|done].
  apply runs_bind. set (ws1 := <[i:=WClaimed msg rest]> ws) in *.
  assert (ws1 !! i = Some (WClaimed msg rest)) as Hi1 by apply lookup_insert_eq.
  eapply runs_mono; [by eapply publish_refines|]. intros r w2 [_ R2].
  set (ws2 := <[i := _]> ws1) in R2.
  assert (ws2 = <[i := match r with Ok _ => WSent msg rest | Err e => WRefused msg e rest end]> ws)
    as Ews by apply insert_insert_eq.
  assert (∀ (w3 w4 : W), view w3 = view w2 →
    rtc step (seen w3 ws2) (seen w4 (<[i := WLoop rest]> ws2)) →
    rtc step (seen w ws) (seen w4 (<[i := WLoop rest]> ws))) as Hdone.
  { intros w3 w4 E3 R4. rewrite (seen_same w2 w3) in R4 by done.
    rewrite Ews, insert_insert_eq, <-Ews in R4. by do 2 (etransitivity; [eassumption|]). }
  assert (ws2 !! i = Some match r with Ok _ => WSent msg rest | Err e => WRefused msg e rest end)
    as Hi2 by apply lookup_insert_eq.
  destruct r as [[]|e].
  - unfold markPublished. destruct (Z.eqb_spec (o_ID msg) 0); [done|].
    call. apply runs_try. eapply runs_mono; [eapply mark_refines; [exact Hi2|left; eauto]|].
    intros [?|?] w4 R4; [apply runs_ret|]; by eapply Hdone.
  - unfold markPublishFailed. destruct (Z.eqb_spec (o_ID msg) 0); [done|].
    apply runs_bind. call. apply runs_try.
    eapply runs_mono; [eapply mark_refines; [exact Hi2|right; eauto]|].
    intros [?|?] w4 R4; glue; by eapply Hdone.
Qed.

Lemma publish_all_refines msgs w ws i :
  ow_timelineMQ ow = true → (∀ m, m ∈ msgs → msg_ok m = true) → ws !! i = Some (WLoop msgs) →
  runs (st_iter (λ msg, st_bind (publishOne ow msg) (λ _, st_ret tt)) msgs) w (λ _ w',
    rtc step (seen w ws) (seen w' (<[i := WLoop []]> ws))).
Proof.
  intros Hmq. revert w ws. induction msgs as [|m msgs IH]; intros w ws Hm Hi; simpl.
  { apply runs_ret. rewrite insert_id by done. constructor. }
  apply runs_bind, runs_bind. eapply runs_mono; [apply publishOne_refines; [done| |done]|].
  { apply Hm. by left. }
  intros ? w1 R1. apply runs_ret.
  eapply runs_mono; [apply (IH w1 (<[i := WLoop msgs]> ws)); [|apply lookup_insert_eq]|].
  { intros m' ?. apply Hm. by right. }
  intros ? w2 R2. rewrite insert_insert_eq in R2. etransitivity; [exact R1|exact R2].
Qed.

(** C10: in every world, services up or down, one [pollOnce] is a sequence of
    steps of the transition system that starts and ends with the worker idle:
    what is proved of all interleavings holds of the program. *)
Theorem pollOnce_refines w ws i :
  ow_timelineMQ ow = true → ws !! i = Some WIdle →
  (∀ k r, tget TOutbox (v_db (view w)) !! k = Some r → msg_ok r = true) →
  runs (pollOnce ow) w (λ _ w', rtc step (seen w ws) (seen w' ws)).
Proof.
  intros Hmq Hi Hm. unfold pollOnce, resetExpiredProcessing.
  assert (∀ w', view w' = view w → rtc step (seen w ws) (seen w' ws)) as Hsame.
  { intros w' E. rewrite (seen_same w w') by done. constructor. }
  call. call. call; glue; [|apply Hsame; congruence].
  destruct (stmt_reset (clk w' - ow_timeout ow) (clk w'0) (v_db (view w'0))) as [[n|e] d'] eqn:E;
    simpl in *; glue.
  2:{ apply Hsame. unfold stmt_reset in E. edestruct (update_cases TOutbox) as [E'|(_ & code & E')];
        [| |rewrite E' in E|rewrite E' in E]; [done|done|done|].
      simplify_eq. rewrite Hv1, Hv0, Hv. by destruct (view w). }
  assert (rtc step (seen w ws) (seen w'1 (<[i := WReset]> ws))) as R1.
  { rewrite (seen_set_db w w'1) with (d := d') by congruence.
    apply rtc_once. eapply ostep_reset; [done|]. rewrite Hv0, Hv in E. exact E. }
  assert (∀ w', view w' = view w'1 → rtc step (seen w ws) (seen w' ws)) as Hcrash.
  { intros w2 E2. etransitivity; [exact R1|]. rewrite (seen_same w'1 w2) by done.
    apply rtc_once. rewrite <-(insert_id ws i WIdle Hi) at 2.
    rewrite <-(insert_insert_eq ws i WIdle WReset). apply ostep_crash. }
  call; glue; [|by apply Hcrash].
  set (ws1 := <[i := WLoop (stmt_pending (ow_batchSize ow) (v_db (view w'1)))]> ws).
  assert (rtc step (seen w ws) (seen w'2 ws1)) as R2.
  { etransitivity; [exact R1|]. rewrite (seen_same w'1 w'2) by (rewrite Hv2; by destruct (view w'1)).
    apply rtc_once. unfold ws1.
    rewrite <-(insert_insert_eq ws i (WLoop (stmt_pending (ow_batchSize ow) (v_db (view w'1)))) WReset).
    apply ostep_select. apply lookup_insert_eq. }
  glue.
  eapply runs_mono; [apply (publish_all_refines _ w'2 ws1 i Hmq); [|apply lookup_insert_eq]|].
  { intros m Hsel. destruct (elem_of_select TOutbox _ _ _ _ _ Hsel) as [_ [k Ek]].
    apply update_ok_inv in E as [_ ->]; [|done|done].
    rewrite Hv1 in Ek. simpl in Ek. rewrite tget_tset, lookup_upd_rows in Ek.
    apply fmap_Some in Ek as (r & Er & ->). rewrite Hv0, Hv in Er. apply Hm in Er.
    by case_match. }
  intros ? w3 R3. glue. etransitivity; [exact R2|]. etransitivity; [exact R3|].
  unfold ws1. rewrite insert_insert_eq. apply rtc_once.
  rewrite <-(insert_id ws i WIdle Hi) at 2.
  rewrite <-(insert_insert_eq ws i WIdle (WLoop [])). apply ostep_done. apply lookup_insert_eq.
Qed.
End refinement.

(** ** With every service up a poll publishes its batch *)
Section healthy.
Context {W : Type} `{WorldLaws W} `{SqlLaws} `{ErrTexts}.
Variable ow : OutboxWorker.
Hypothesis Hmq : ow_timelineMQ ow = true.

Definition publishable (m : OutboxMsg) : Prop :=
  o_VideoID m ≠ 0 ∧ o_ID m ≠ 0 ∧ msg_ok m = true ∧
  eng_fits TOutbox [o_EventType m; ""] = true.

Abbreviation outbox w := (tget TOutbox (v_db (view w))).
Abbreviation broker w := (timeline_events (v_mq (view w))).

Lemma publishOne_up w m :
  v_up (view w) = all_up → keyed TOutbox (v_db (view w)) → publishable m →
  outbox w !! o_ID m = Some m → o_Status m = OutboxStatusPending →
  runs (publishOne ow m) w (λ r w',
    r = Ok tt ∧ v_up (view w') = all_up ∧ keyed TOutbox (v_db (view w')) ∧
    ∃ t evt, outbox w' = <[o_ID m := as_published t m]> (outbox w) ∧
             broker w' = broker w ++ [evt] ∧ outbox_event m evt).
Proof.
  intros Hup Hk (Hv & Hid & Hok & Hfit) Er Hst. unfold publishOne, claim, markPublished. rewrite Hmq.
  destruct (Z.eqb_spec (o_VideoID m) 0), (Z.eqb_spec (o_ID m) 0); try done.
  call. call; [|outage].
  rewrite Hv0 in *.
  set (d := v_db (view w)) in *. unfold stmt_claim in *.
  rewrite update_ok in Hv1 |- * by (done || by apply texts_fit_same). cbn [fst snd] in *.
  assert (changed TOutbox (λ r, (o_ID r =? o_ID m) && is_status OutboxStatusPending r)
            (set_status OutboxStatusProcessing (clk w')) d = 1) as ->.
  { etransitivity; [exact (changed_id TOutbox (o_ID m) _ _ d Hk)|]. rewrite Er.
    unfold is_status. rewrite bool_decide_eq_true_2 by done.
    destruct (row_eq_dec TOutbox _ m) as [Eq|]; [|done].
    apply (f_equal o_Status) in Eq. simpl in Eq. congruence. }
  glue. change (1 =? 1) with true. cbn [negb]. glue.
  set (d1 := tset TOutbox _ _) in *.
  assert (tget TOutbox d1 = <[o_ID m := set_status OutboxStatusProcessing (clk w') m]> (tget TOutbox d)) as Ed1.
  { unfold d1. rewrite tget_tset. etransitivity; [exact (upd_rows_id TOutbox (o_ID m) _ _ d Hk)|].
    rewrite Er. unfold is_status. by rewrite bool_decide_eq_true_2. }
  assert (keyed TOutbox d1) as Hk1.
  { intros k r. rewrite Ed1. intros [[<- <-]|[_ E]]%lookup_insert_Some; [done|by apply Hk]. }
  apply (runs_mono _ _ _ _ (TimelineMQ_publish_spec w'0 "publish" TimelineRoutingKeyPublish
           (o_VideoID m) (UnixMilli (o_CreateTime m)) ltac:(done) ltac:(done))).
  intros r w2 Hpub. apply published_up in Hpub as (_ & -> & t & b & (id & t' & _ & ->) & E2);
    [|by rewrite Hv1, ?Hv0; simpl; rewrite Hup..].
  cbv beta iota. call. call; [|outage].
  rewrite Hv2, E2, Hv1 in Hv3 |- *. cbn [v_db set_mq set_db] in *.
  unfold stmt_published in *.
  rewrite update_ok in Hv3 |- *; try done.
  2, 3: intros k r E Hg; rewrite Ed1 in E; bool_to_prop;
    apply lookup_insert_Some in E as [[_ <-]|[Hn E]]; [by right|];
    apply Hk in E; simpl in E; congruence.
  glue. cbn [fst snd] in Hv3. split; [done|].
  rewrite Hv3. cbn [v_up v_db v_mq set_mq set_db]. rewrite Hup. split; [done|].
  assert (upd_rows (λ r, (o_ID r =? o_ID m) && true) (as_published (clk w'1)) (tget TOutbox d1) =
          <[o_ID m := as_published (clk w'1) m]> (tget TOutbox d)) as Ed2.
  { etransitivity; [exact (upd_rows_id TOutbox (o_ID m) (λ _, true) _ d1 Hk1)|].
    by rewrite Ed1, lookup_insert_eq, insert_insert_eq. }
  rewrite Ed2. split.
  - intros k r. rewrite tget_tset. intros [[<- <-]|[_ E]]%lookup_insert_Some; [done|by apply Hk].
  - destruct (timeline_event_sent m id t t' TimelineRoutingKeyPublish Hok) as (evt & Ee & Ho).
    exists (clk w'1), evt. rewrite tget_tset, timeline_events_app, Ee. done.
Qed.

(** The rows [ms] published, every other row as it was. *)
Definition published_rows (ms : list OutboxMsg) (t t' : gmap Z OutboxMsg) : Prop :=
  (∀ m, m ∈ ms → ∃ now, t' !! o_ID m = Some (as_published now m)) ∧
  (∀ k, k ∉ o_ID <$> ms → t' !! k = t !! k).

Lemma publish_all_up ms w :
  v_up (view w) = all_up → keyed TOutbox (v_db (view w)) → NoDup (o_ID <$> ms) →
  (∀ m, m ∈ ms → publishable m ∧ outbox w !! o_ID m = Some m ∧
                 o_Status m = OutboxStatusPending) →
  runs (st_iter (λ msg, st_bind (publishOne ow msg) (λ _, st_ret tt)) ms) w (λ _ w',
    published_rows ms (outbox w) (outbox w') ∧
    ∃ evts, broker w' = broker w ++ evts ∧ Forall2 outbox_event ms evts).
Proof.
  revert w. induction ms as [|m ms IH]; intros w Hup Hk Hnd Hms; cbn [st_iter].
  { apply runs_ret. split; [split; [by intros m ?%elem_of_nil|done]|].
    exists []. rewrite app_nil_r. split; [done|constructor]. }
  apply list.NoDup_cons in Hnd as [Hnot Hnd].
  destruct (Hms m) as (Hpub & Em & Hst); [by left|].
  apply runs_bind, runs_bind. eapply runs_mono; [by apply publishOne_up|].
  intros ? w1 (_ & Hup1 & Hk1 & now & evt & Et & Eb & Hevt). apply runs_ret.
  assert (∀ m', m' ∈ ms → o_ID m' ≠ o_ID m) as Hne.
  { intros m' Hm' E. apply Hnot. rewrite <-E. by apply list_elem_of_fmap_2. }
  eapply runs_mono; [apply IH; try done|].
  { intros m' Hm'. destruct (Hms m') as (? & ? & ?); [by right|].
    rewrite Et, lookup_insert_ne by (symmetry; by apply Hne). done. }
  intros ? w2 ([Hin Hout] & evts & Eb2 & Hall). split; [split|].
  - intros m' [->|Hm']%elem_of_cons; [|by apply Hin].
    exists now. rewrite Hout, Et by done. apply lookup_insert_eq.
  - intros k Hk'. rewrite fmap_cons, not_elem_of_cons in Hk'. destruct Hk' as [Hk0 Hk'].
    rewrite Hout, Et by done. by apply lookup_insert_ne.
  - exists (evt :: evts). rewrite Eb2, Eb, <-app_assoc. split; [done|by constructor].
Qed.

End healthy.

(** ** A concrete outbox *)
#[export] Instance demo_texts : ErrTexts := {| io_text _ := "io" |}.

Definition demo_row (id : Z) (s : OutboxStatus) : OutboxMsg :=
  mkOutboxMsg id (10 + id) "video_published" (1000 * id) s 0 "" 0 None.
Definition demo_outbox : Db :=
  tset TOutbox {[1 := demo_row 1 OutboxStatusPending; 2 := demo_row 2 OutboxStatusPending]} empty_db.
Definition demo_event (id : Z) : TimelineEvent :=
  mkTimelineEvent "e" "publish" (10 + id) (1000 * id) 0.

Definition demo_s0 : OState := mkOState empty_db [] {[0 := WIdle]}.
Definition demo_db1 : Db := tset TOutbox {[1 := demo_row 1 OutboxStatusPending]} empty_db.
Definition demo_msg : OutboxMsg := set_status OutboxStatusPending 0 (demo_row 1 OutboxStatusPending).
Definition demo_db2 : Db :=
  tset TOutbox {[1 := set_status OutboxStatusProcessing 9 (demo_row 1 OutboxStatusPending)]} empty_db.
Definition demo_db3 : Db :=
  tset TOutbox {[1 := as_published 10 (demo_row 1 OutboxStatusPending)]} empty_db.
Definition demo_s3 : OState := mkOState demo_db3 [demo_event 1] {[0 := WLoop []]}.

Lemma demo_run : rtc (ostep 100) demo_s0 demo_s3.
Proof.
  assert (∀ x y : WState, <[0 := x]> {[0 := y]} = ({[0 := x]} : gmap Z WState)) as Hw
    by (intros; apply insert_singleton_eq).
  eapply rtc_l; [apply (ostep_new 100 empty_db [] _ (demo_row 1 OutboxStatusPending)); done|].
  change (tset TOutbox _ _) with demo_db1.
  eapply rtc_l; [apply (ostep_reset 100 _ _ _ 0 0 5 0 demo_db1); by vm_compute|]. rewrite Hw.
  eapply rtc_l; [apply (ostep_select 100 _ _ _ 0); done|]. rewrite Hw.
  change (stmt_pending 100 demo_db1) with [demo_row 1 OutboxStatusPending].
  eapply rtc_l; [apply (ostep_claim 100 _ _ _ 0 (demo_row 1 OutboxStatusPending) [] 9 1 demo_db2);
                 try done; by vm_compute|]. rewrite Hw.
  eapply rtc_l; [apply (ostep_publish 100 _ _ _ 0 (demo_row 1 OutboxStatusPending) [] (demo_event 1)); done|].
  rewrite Hw.
  eapply rtc_l; [apply (ostep_mark 100 _ _ _ 0 (demo_row 1 OutboxStatusPending) [] 10 1 demo_db3);
                 try done; by vm_compute|]. rewrite Hw.
  constructor.
Qed.

Lemma demo_start : outbox_start demo_s0.
Proof.
  split; [done|]. intros i ws Hi. cbn in Hi. by apply lookup_singleton_Some in Hi as [<- <-].
Qed.

Lemma outbox_published_delivered_witness :
  ∃ evt, evt ∈ os_broker demo_s3 ∧ te_VideoID evt = 11 ∧ te_CreateTime evt = 1000.
Proof.
  exact (outbox_published_delivered 100 demo_s0 demo_s3 1 (as_published 10 (demo_row 1 OutboxStatusPending))
           demo_start demo_run eq_refl eq_refl).
Defined.

Lemma outbox_row_bounds_witness :
  let r := as_published 10 (demo_row 1 OutboxStatusPending) in
  0 ≤ o_RetryCount r ≤ 4 ∧ (o_Status r = OutboxStatusFailed → o_RetryCount r = 4) ∧
  (o_Status r = OutboxStatusPending ∨ o_Status r = OutboxStatusProcessing → o_RetryCount r ≤ 3) ∧
  (String.length (o_LastError r) ≤ 512)%nat.
Proof. exact (outbox_row_bounds 100 demo_s0 demo_s3 1 _ demo_start demo_run eq_refl). Defined.

(** Two workers race for a row. *)
Definition demo_c0 : OState := mkOState demo_db1 [] {[0 := WIdle; 1 := WIdle]}.
Definition demo_c4 : OState :=
  mkOState demo_db2 [] {[0 := WClaimed (demo_row 1 OutboxStatusPending) []; 1 := WLoop []]}.

Lemma demo_race : rtc (ostep_calm 100) demo_c0 demo_c4.
Proof.
  eapply rtc_l; [apply (calm_select 100 _ _ _ 0); by left|].
  eapply rtc_l; [apply (calm_select 100 _ _ _ 1); by left|].
  change (stmt_pending 100 demo_db1) with [demo_row 1 OutboxStatusPending].
  eapply rtc_l; [apply (calm_claim 100 _ _ _ 0 (demo_row 1 OutboxStatusPending) [] 9 1 demo_db2);
                 try done; by vm_compute|].
  eapply rtc_l; [apply (calm_claim 100 _ _ _ 1 (demo_row 1 OutboxStatusPending) [] 9 0 demo_db2);
                 try done; by vm_compute|].
  match goal with |- rtc _ (mkOState ?d ?b ?ws) _ =>
    replace ws with ({[0 := WClaimed (demo_row 1 OutboxStatusPending) []; 1 := WLoop []]} : gmap Z WState)
      by (by vm_compute) end.
  constructor.
Qed.

Lemma demo_db1_inv k r :
  tget TOutbox demo_db1 !! k = Some r → k = 1 ∧ r = demo_row 1 OutboxStatusPending.
Proof.
  unfold demo_db1. rewrite tget_tset. by intros [<- <-]%lookup_singleton_Some.
Qed.

Lemma demo_outbox_inv k r :
  tget TOutbox demo_outbox !! k = Some r →
  (k = 1 ∨ k = 2) ∧ r = demo_row k OutboxStatusPending.
Proof.
  unfold demo_outbox. rewrite tget_tset.
  intros [[<- <-]|[_ [<- <-]%lookup_singleton_Some]]%lookup_insert_Some; auto.
Qed.

Lemma demo_calm_start : calm_start demo_c0.
Proof.
  split; simpl.
  - by intros k r [-> ->]%demo_db1_inv.
  - by intros k k' r r' [-> ->]%demo_db1_inv [-> ->]%demo_db1_inv.
  - by intros k r [-> ->]%demo_db1_inv.
  - done.
  - intros i ws [[<- <-]|[_ [<- <-]%lookup_singleton_Some]]%lookup_insert_Some; done.
Qed.


Lemma demo_publishable k r :
  tget TOutbox demo_outbox !! k = Some r → publishable r ∧ o_Status r = OutboxStatusPending.
Proof. by intros [[-> | ->] ->]%demo_outbox_inv; split_and!. Qed.

Lemma demo_keyed : keyed TOutbox demo_outbox.
Proof. by intros k r [[-> | ->] ->]%demo_outbox_inv. Qed.

Lemma pollOnce_refines_witness :
  let w := ref_start demo_outbox 0 in
  runs (pollOnce (NewOutboxWorker true)) w (λ _ w',
    rtc (ostep 100) (seen w {[0 := WIdle]}) (seen w' {[0 := WIdle]})).
Proof.
  apply (pollOnce_refines (NewOutboxWorker true) (ref_start demo_outbox 0) {[0 := WIdle]} 0);
    [reflexivity|reflexivity|].
  intros k r E. destruct (demo_publishable k r E) as [(_ & _ & Hm & _) _]. exact Hm.
Defined.

