(* ===== verification/Video.v ===== *)
(** [internal/api/video] and the workers of its caches: the repository, the
    popularity cache, publishing in one transaction with the outbox, reading a
    video through the cache, and the timeline and popularity workers. *)
From S2P Require Import Prelude GoStd Query Entities Json Services RedisFacts RedisClient Mq.
From S2P Require Import DbFacts Http.
Local Open Scope Z_scope.
Local Open Scope go_scope.

(** ** repo.go *)
Definition add_likes (c : Z) (r : Video) : Video :=
  mkVideo (v_ID r) (v_AuthorID r) (v_Username r) (v_Title r) (v_Description r)
    (v_PlayURL r) (v_CoverURL r) (v_CreateTime r) (Z.max (v_LikesCount r + c) 0)
    (v_Popularity r).
Definition add_popularity (c : Z) (r : Video) : Video :=
  mkVideo (v_ID r) (v_AuthorID r) (v_Username r) (v_Title r) (v_Description r)
    (v_PlayURL r) (v_CoverURL r) (v_CreateTime r) (v_LikesCount r)
    (Z.max (v_Popularity r + c) 0).

Section repo.
Context {W : Type} `{World W} `{SqlEngine}.

Definition VideoRepo_ListByAuthorID (authorID : Z) : ST W (result (list Video)) :=
  query (λ d, Ok (eng_select (λ v, v_AuthorID v =? authorID) [Desc v_CreateTime]
                    (Some 200%nat) (rows TVideo d))).

Definition FindByID (id : Z) : ST W (result Video) :=
  query (λ d, sel_first (where_id TVideo id always) [Asc v_ID] (rows TVideo d)).

Definition IsExist (id : Z) : ST W (result bool) :=
  r <- query (λ d, sel_first (where_id TVideo id always) [Asc v_ID] (rows TVideo d)) ;;
  st_ret (match r with
          | Ok _ => Ok true
          | Err ErrRecordNotFound => Ok false
          | Err e => Err e
          end).

Definition ChangeLikesCount (id change : Z) : ST W (result unit) :=
  sql (λ _ d, exec (eng_update TVideo (where_id TVideo id always) (add_likes change) d)).

Definition ChangePopularity (id change : Z) : ST W (result unit) :=
  sql (λ _ d, exec (eng_update TVideo (where_id TVideo id always) (add_popularity change) d)).

Definition CountByAuthorID (authorID : Z) : ST W (result Z) :=
  query (λ d, Ok (sel_count (λ v, v_AuthorID v =? authorID) (rows TVideo d))).

Definition TotalLikesByAuthorID (authorID : Z) : ST W (result Z) :=
  query (λ d, Ok (foldr Z.add 0 (v_LikesCount <$>
    eng_select (λ v, v_AuthorID v =? authorID) [] None (rows TVideo d)))).
End repo.

(** ** popularity_cache.go *)
Section caches.
Context {W : Type} `{World W} `{RedisServer}.

Definition detail_key (cache : option Client) (id : Z) : string :=
  Key cache ("video:detail:id=" +:+ dec id).
Definition window_key (cache : option Client) (t : time) : string :=
  Key cache ("hot:video:1m:" +:+ FormatMinute t).

Definition UpdatePopularityCache (cache : option Client) (id change : Z) : ST W unit :=
  match cache with
  | None => st_ret tt
  | Some _ =>
      if (id =? 0) || (change =? 0) then st_ret tt
      else
        Delete (detail_key cache id) ;;;
        t <- now ;;
        let windowKey := window_key cache (TruncateMinute t) in
        let member := dec id in
        ZIncrBy cache windowKey member change ;;;
        Expire cache windowKey (2 * Hour) ;;;
        st_ret tt
  end.

(** *** worker/popularity_worker.go *)
Definition PopularityWorker_process (cache : option Client) (body : bytes) :
    ST W (result unit) :=
  match unmarshal_popularity body with
  | Err _ => st_ret (Ok tt)
  | Ok evt =>
      if (pe_VideoID evt =? 0) || (pe_Change evt =? 0) then st_ret (Ok tt)
      else UpdatePopularityCache cache (pe_VideoID evt) (pe_Change evt) ;;; st_ret (Ok tt)
  end.

(** *** worker/timeline_worker.go *)
Definition timeline_key (cache : option Client) : string := Key cache "feed:global_timeline".

Definition TimelineWorker_process (cache : option Client) (body : bytes) :
    ST W (result unit) :=
  match unmarshal_timeline body with
  | Err _ => st_ret (Ok tt)
  | Ok evt =>
      if (te_VideoID evt =? 0) || (te_CreateTime evt =? 0) then st_ret (Ok tt)
      else
        r <- ZAdd cache (timeline_key cache) [(dec (te_VideoID evt), te_CreateTime evt)] ;;
        match r with
        | Err e => st_ret (Err e)
        | Ok _ =>
            ZRemRangeByRank cache (timeline_key cache) 0 (-1001) ;;;
            st_ret (Ok tt)
        end
  end.
End caches.

(** ** service.go *)

(** The texts of [tagRegex.FindAllStringSubmatch], first group each; the
    regular expression engine and its Unicode tables are parameters. *)
Class TagRegex := { tag_matches : string → list string }.

Fixpoint dedup (seen : gset string) (l : list string) : list string :=
  match l with
  | [] => []
  | t :: l => if decide (t ∈ seen) then dedup seen l else t :: dedup ({[t]} ∪ seen) l
  end.

Definition extractTags `{TagRegex} (text : string) : list string := dedup ∅ (tag_matches text).

Record VideoService := mkVideoService { vs_cache : option Client; vs_cacheTTL : Z }.
Definition NewVideoService (cache : option Client) : VideoService :=
  mkVideoService cache (5 * Minute).

Section service.
Context {W : Type} `{World W} `{SqlEngine} `{RedisServer} `{TagRegex}.

(** [tx.Where("name = ?", tagName).FirstOrCreate(&t, &tag.Tag{Name: tagName})] *)
Definition FirstOrCreateTag (t : Z) (tagName : string) : ST Db (result Tag) :=
  r <- (λ d, (sel_first (λ g, text_eq (t_Name g) tagName) [Asc t_ID] (rows TTag d), d)) ;;
  match r with
  | Err ErrRecordNotFound => eng_create TTag (mkTag 0 tagName) t
  | r => st_ret r
  end.

Fixpoint publish_tags (t : Z) (videoID : Z) (tags : list string) : ST Db (result unit) :=
  match tags with
  | [] => st_ret (Ok tt)
  | tagName :: tags =>
      g <-? FirstOrCreateTag t tagName ;;
      _ <-? eng_create TVideoTag (mkVideoTag 0 videoID (t_ID g)) t ;;
      publish_tags t videoID tags
  end.

Definition outbox_msg (v : Video) : OutboxMsg :=
  mkOutboxMsg 0 (v_ID v) "video_published" (v_CreateTime v) OutboxStatusPending 0 ""
    zero_time None.

Definition publish_tx (v : Video) (t : Z) : ST Db (result Video) :=
  v <-? eng_create TVideo v t ;;
  _ <-? eng_create TOutbox (outbox_msg v) t ;;
  _ <-? publish_tags t (v_ID v) (extractTags (v_Title v +:+ " " +:+ v_Description v)) ;;
  st_ret (Ok v).

Definition trimmed (v : Video) : Video :=
  mkVideo (v_ID v) (v_AuthorID v) (v_Username v) (TrimSpace (v_Title v)) (v_Description v)
    (TrimSpace (v_PlayURL v)) (TrimSpace (v_CoverURL v)) (v_CreateTime v)
    (v_LikesCount v) (v_Popularity v).

(** The video as the caller's pointer shows it after success. *)
Definition Publish (v : Video) : ST W (result Video) :=
  let v := trimmed v in
  if String.eqb (v_Title v) "" then st_ret (Err (ErrMsg "title is required"))
  else if String.eqb (v_PlayURL v) "" then st_ret (Err (ErrMsg "play_url is required"))
  else if String.eqb (v_CoverURL v) "" then st_ret (Err (ErrMsg "cover url is required"))
  else sql (λ t, eng_tx (publish_tx v t)).

Definition VideoService_ListByAuthorID (authorID : Z) : ST W (result (list Video)) :=
  VideoRepo_ListByAuthorID authorID.

Definition getCacheFunc (cacheKey : string) : ST W (option Video) :=
  r <- GetBytes cacheKey ;;
  st_ret (match r with
          | Ok b => match unmarshal_video b with Ok v => Some v | Err _ => None end
          | Err _ => None
          end).

Definition setCacheFunc (s : VideoService) (cacheKey : string) (v : Video) : ST W unit :=
  SetBytes cacheKey (marshal_video v) (vs_cacheTTL s) ;;; st_ret tt.

(** query the database and write the cache back *)
Definition find_and_set (s : VideoService) (cacheKey : string) (id : Z) :
    ST W (result Video) :=
  v <-? FindByID id ;;
  setCacheFunc s cacheKey v ;;; st_ret (Ok v).

(** [for i := 0; i < n; i++]: wait for another request to fill the cache *)
Fixpoint wait_cache (n : nat) (cacheKey : string) (k : ST W (result Video)) :
    ST W (result Video) :=
  match n with
  | O => k
  | S n =>
      c <- getCacheFunc cacheKey ;;
      match c with Some v => st_ret (Ok v) | None => wait_cache n cacheKey k end
  end.

Definition detail_miss (s : VideoService) (cacheKey : string) (id : Z) :
    ST W (result Video) :=
  c <- getCacheFunc cacheKey ;;
  match c with
  | Some v => st_ret (Ok v)
  | None =>
      let lockKey := Key (vs_cache s) ("lock:video:detail:id=" +:+ dec id) in
      l <- Lock (vs_cache s) lockKey (2 * Second) ;;
      match l with
      | (_, _, Some _) => find_and_set s cacheKey id
      | (token, true, None) =>
          r <- (c <- getCacheFunc cacheKey ;;
                match c with
                | Some v => st_ret (Ok v)
                | None => find_and_set s cacheKey id
                end) ;;
          Unlock (vs_cache s) lockKey token ;;; st_ret r
      | (_, false, None) => wait_cache 5 cacheKey (find_and_set s cacheKey id)
      end
  end.

Definition VideoService_GetDetail (s : VideoService) (id : Z) : ST W (result Video) :=
  match vs_cache s with
  | None => FindByID id
  | Some _ =>
      let cacheKey := detail_key (vs_cache s) id in
      r <- GetBytes cacheKey ;;
      match r with
      | Ok b =>
          match unmarshal_video b with
          | Ok cached => st_ret (Ok cached)
          | Err _ => find_and_set s cacheKey id
          end
      | Err e =>
          if IsMiss e
          then sf_do (Key (vs_cache s) ("sf:video:detail:id=" +:+ dec id))
                 (detail_miss s cacheKey id)
          else find_and_set s cacheKey id
      end
  end.
End service.

(** ** handler.go: the routes that do not upload files *)
Record PublishVideoRequest := mkPublishVideoRequest {
  pv_Title : string; pv_Description : string; pv_PlayURL : string; pv_CoverURL : string }.

Section handler.
Context {W : Type} `{World W} `{SqlEngine} `{RedisServer} `{TagRegex}.

(** [req] is the outcome of [c.ShouldBindJSON] *)
Definition PublishVideo (c : Ctx) (req : result PublishVideoRequest) : ST W (Resp Video) :=
  or_fail fail_with req (λ req,
  or_fail fail_with (GetAccountID c) (λ authorID,
  or_fail fail_with (GetUsername c) (λ username,
    t <- now ;;
    r <- Publish (mkVideo 0 authorID username (pv_Title req) (pv_Description req)
                    (pv_PlayURL req) (pv_CoverURL req) t 0 0) ;;
    or_fail fail_with r (λ v, st_ret (RespOk 200 v))))).

Definition VideoHandler_ListByAuthorID (req : result Z) : ST W (Resp (list Video)) :=
  or_fail fail_with req (λ authorID,
    r <- VideoService_ListByAuthorID authorID ;;
    or_fail fail_with r (λ videos, st_ret (RespOk 200 videos))).

Definition VideoHandler_GetDetail (s : VideoService) (req : result Z) : ST W (Resp Video) :=
  or_fail fail_with req (λ id,
    r <- VideoService_GetDetail s id ;;
    or_fail fail_with r (λ v, st_ret (RespOk 200 v))).
End handler.
