(* ===== verification/VideoCaches.v ===== *)
(** The caches of the videos: the global timeline that the timeline worker
    maintains, the popularity windows, and a detail read through the cache. *)
From S2P Require Import Prelude GoStd Query Entities Json Services RedisFacts RedisClient Mq.
From S2P Require Import DbFacts CachedValue Video Reference.
Local Open Scope Z_scope.

(** ** The timeline worker *)
Section timeline.
Context {W : Type} `{WorldLaws W} `{RedisLaws}.

(** The timeline after one event: the event's video added at its creation
    time, and all but the 1000 highest dropped. *)
Definition timeline_after (evt : TimelineEvent) (z z' : gmap string Z) : Prop :=
  trimmed_to 1000 (<[dec (te_VideoID evt) := te_CreateTime evt]> z) z'.

Definition event_ok (evt : TimelineEvent) : bool :=
  is_uint (te_VideoID evt) && is_int64 (te_CreateTime evt) &&
  negb (te_VideoID evt =? 0) && negb (te_CreateTime evt =? 0).

Lemma timeline_process w c evt z :
  up_rd (v_up (view w)) = true → event_ok evt = true →
  holds_zset (v_rd (view w)) (timeline_key (Some c)) z →
  runs (TimelineWorker_process (Some c) (marshal_timeline evt)) w (λ r w',
    r = Ok tt ∧ v_up (view w') = v_up (view w) ∧ v_db (view w') = v_db (view w) ∧
    ∃ z', holds_zset (v_rd (view w')) (timeline_key (Some c)) z' ∧
          timeline_after evt z z').
Proof.
  intros Hup Hok Hz. unfold event_ok in Hok. bool_to_prop. unfold TimelineWorker_process.
  rewrite unmarshal_marshal_timeline by (apply andb_true_iff; done).
  destruct (Z.eqb_spec (te_VideoID evt) 0), (Z.eqb_spec (te_CreateTime evt) 0); try done.
  cbn [orb ZAdd ZRemRangeByRank when_client]. set (key := timeline_key (Some c)) in *.
  call; [|congruence].
  rewrite law_zadd in Hv by (done || by eapply holds_zset_is_str). glue.
  rewrite (holds_zset_of _ _ _ _ Hz), (holds_zset_deadline _ _ _ _ Hz) in Hv.
  cbn [fst snd zadd_all foldl] in Hv.
  set (s1 := <[key := _]> _) in Hv.
  set (z1 := <[dec (te_VideoID evt) := te_CreateTime evt]> z) in *.
  assert (holds_zset s1 key z1) as Hz1 by apply holds_zset_insert.
  call; [|rewrite Hv in Hu; simpl in Hu; congruence]. rewrite Hv in Hv0. simpl in Hv0. glue.
  destruct (law_zremrangebyrank key 0 (-1001) (clk w'0) s1) as (l & Hl & E);
    [by eapply holds_zset_is_str|].
  rewrite E in Hv0. cbn [fst snd] in Hv0.
  rewrite (holds_zset_of _ _ _ _ Hz1) in Hl, Hv0.
  rewrite (holds_zset_deadline _ _ _ _ Hz1) in Hv0.
  rewrite Hv0. simpl. split_and!; [done..|].
  eexists. split; [apply holds_zset_put|]. exists l. split; [done|].
  change (-1001) with (- Z.of_nat 1000 - 1). rewrite rank_slice_low.
  by apply filter_low_listing.
Qed.


(** delivering a timeline event twice leaves the timeline that delivering
    it once leaves, so the duplicates the outbox may send are harmless. *)
Theorem timeline_idempotent w c evt z :
  up_rd (v_up (view w)) = true → event_ok evt = true →
  holds_zset (v_rd (view w)) (timeline_key (Some c)) z →
  runs (TimelineWorker_process (Some c) (marshal_timeline evt)) w (λ r1 w1,
    runs (TimelineWorker_process (Some c) (marshal_timeline evt)) w1 (λ r2 w2,
      r1 = Ok tt ∧ r2 = Ok tt ∧
      ∃ z', holds_zset (v_rd (view w1)) (timeline_key (Some c)) z' ∧
            holds_zset (v_rd (view w2)) (timeline_key (Some c)) z')).
Proof.
  intros Hup Hok Hz. eapply runs_mono; [by apply timeline_process|].
  intros r1 w1 (-> & Hup1 & _ & z1 & Hz1 & Ht1).
  eapply runs_mono; [apply timeline_process; [congruence|done|done]|].
  intros r2 w2 (-> & _ & _ & z2 & Hz2 & Ht2). split_and!; [done..|].
  exists z1. split; [done|].
  assert (z2 = z1) as ->; [|done].
  eapply trimmed_insert_idem; [|exact Ht1|exact Ht2]. lia.
Qed.
End timeline.

(** ** The popularity windows *)
Section popularity.
Context {W : Type} `{WorldLaws W} `{RedisLaws}.

(** the first characters after the prefix tell the keys apart *)
Lemma detail_ne_window c id t : detail_key (Some c) id ≠ window_key (Some c) t.
Proof. by intros [=]%string_app_inj_l. Qed.

(** One change applied at the instant [t]: the detail of the video is no
    longer cached, and the window of the minute of [t] has the change added,
    alive for two hours. *)
Definition popularity_changed (c : Client) (id change : Z) (t : time) (s s' : Rds) : Prop :=
  ∃ t1 t2, t ≤ t1 ≤ t2 ∧
  let key := window_key (Some c) (TruncateMinute t) in
  s' !! detail_key (Some c) id = None ∧
  s' !! key = Some (RZset (<[dec id := default 0 (zset_of t1 s key !! dec id) + change]>
                             (zset_of t1 s key)), Some (t2 + 2 * Hour)) ∧
  ∀ k, k ≠ key → k ≠ detail_key (Some c) id → s' !! k = s !! k.

(** Windows are sorted sets that live at least until [horizon]. *)
Definition windows_ok (c : Client) (horizon : Z) (s : Rds) : Prop :=
  ∀ t e, s !! window_key (Some c) t = Some e →
    ∃ z dl, e = (RZset z, Some dl) ∧ horizon ≤ dl.

Lemma windows_zset c hz s t : windows_ok c hz s → zset_key s (window_key (Some c) t).
Proof. intros Hw b dl E. by apply Hw in E as (? & ? & [=] & _). Qed.

Lemma windows_deadline c hz s t t1 :
  windows_ok c hz s → match deadline t1 s (window_key (Some c) t) with
                      | Some d => hz ≤ d | None => True end.
Proof.
  intros Hw. unfold deadline. destruct (live_entry t1 s _) as [[v [dl|]]|] eqn:E; try done.
  apply live_alive in E as [_ E]. by apply Hw in E as (? & ? & [= -> ->] & ?).
Qed.

(** With Redis up, [UpdatePopularityCache] drops the cached detail of the
    video, adds the change to the video's score in the window of the current
    minute and in no other key, and lets that window live two hours from then
    (provided the window's previous deadline was not reached meanwhile). *)
Theorem UpdatePopularityCache_spec w c id change horizon :
  up_rd (v_up (view w)) = true → id ≠ 0 → change ≠ 0 →
  windows_ok c horizon (v_rd (view w)) →
  runs (UpdatePopularityCache (Some c) id change) w (λ _ w',
    v_db (view w') = v_db (view w) ∧ v_mq (view w') = v_mq (view w) ∧
    (clk w' < horizon →
     ∃ t, clk w ≤ t ∧ popularity_changed c id change t (v_rd (view w)) (v_rd (view w')))).
Proof.
  intros Hup Hid Hch Hw. unfold UpdatePopularityCache.
  destruct (Z.eqb_spec id 0), (Z.eqb_spec change 0); try done. cbn [orb].
  unfold Delete, ZIncrBy, Expire, when_client.
  call; [|congruence]. rewrite law_del in Hv. call. glue.
  set (key := window_key (Some c) (TruncateMinute (clk w'0))).
  pose proof (detail_ne_window c id (TruncateMinute (clk w'0))) as Hne. fold key in Hne.
  call; [|rewrite Hv0, Hv in Hu; simpl in Hu; congruence]. glue.
  rewrite Hv0, Hv in Hv1. simpl in Hv1.
  set (s0 := v_rd (view w)) in *. set (s1 := delete _ s0) in *.
  assert (zset_key s1 key) as Hk1 by (by eapply zset_key_delete, windows_zset).
  rewrite law_zincrby in Hv1 by auto with keys. cbn [snd] in Hv1.
  assert (zset_of (clk w'1) s1 key = zset_of (clk w'1) s0 key) as Hz
    by (unfold zset_of, s1; by rewrite live_delete_ne).
  assert (deadline (clk w'1) s1 key = deadline (clk w'1) s0 key) as Hd
    by (unfold deadline, s1; by rewrite live_delete_ne).
  rewrite Hz, Hd in Hv1.
  call; [|rewrite Hv1 in Hu; simpl in Hu; congruence]. glue. rewrite Hv1 in Hv2. simpl in Hv2.
  rewrite law_pexpire in Hv2 by (unfold Hour, Minute, Second; lia).
  rewrite Hv2. simpl. split; [done|]. split; [done|]. intros Hhz.
  exists (clk w'0). split; [lia|]. exists (clk w'1), (clk w'2). split; [lia|].
  rewrite live_insert_eq.
  2:{ pose proof (windows_deadline c horizon s0 (TruncateMinute (clk w'0)) (clk w'1) Hw) as Hdl.
      fold key in Hdl. unfold alive. destruct (deadline _ _ _); [lia|done]. }
  simpl. fold key. split; [|split].
  - rewrite !lookup_insert_ne by done. apply lookup_delete_eq.
  - apply lookup_insert_eq.
  - intros k Hk Hk'. rewrite !lookup_insert_ne by done. by apply lookup_delete_ne.
Qed.
End popularity.

(** ** A detail read through the cache *)
Section detail.
Context {W : Type} `{WorldLaws W} `{SqlLaws} `{RedisLaws}.
Variables (c : Client) (ttl : Z) (id : Z) (row : option Video).
Hypothesis Httl : 0 < ttl.
Hypothesis Hrange : ∀ v, row = Some v → video_in_range v = true.
Abbreviation dkey := (detail_key (Some c) id).
Abbreviation lkey := (Key (Some c) ("lock:video:detail:id=" +:+ dec id)).
Abbreviation svc := (mkVideoService (Some c) ttl).

Variable (d : Db).
Hypothesis Hkeyed : keyed TVideo d.
Hypothesis Hrow : tget TVideo d !! id = row.

Definition the_row : result Video :=
  match row with Some v => Ok v | None => Err ErrRecordNotFound end.

Lemma the_row_some v : row = Some v → Ok v = the_row.
Proof. unfold the_row. by intros ->. Qed.

Lemma detail_ne_lock : dkey ≠ lkey.
Proof. by intros [=]%string_app_inj_l. Qed.

Abbreviation cready := (ready dkey lkey unmarshal_video row d).

Lemma FindByID_ready w (Q : result Video → W → Prop) :
  cready w → (∀ w', cready w' → Q the_row w') → runs (FindByID id) w Q.
Proof.
  intros Hr HQ. apply (query_ready dkey lkey unmarshal_video row d); [done|].
  intros w'. rewrite sel_first_id, Hrow by done. apply HQ.
Qed.

Lemma find_and_set_ready w (Q : result Video → W → Prop) :
  cready w → (∀ w', cready w' → Q the_row w') → runs (find_and_set svc dkey id) w Q.
Proof.
  intros Hr HQ. unfold find_and_set. apply runs_try. apply FindByID_ready; [done|].
  intros w1 Hr1. destruct the_row as [v|] eqn:Erow; [|by apply HQ].
  assert (row = Some v) as Hv by (unfold the_row in Erow; by destruct row; simplify_eq).
  unfold setCacheFunc. apply runs_bind, runs_bind.
  apply (SetBytes_ready dkey lkey unmarshal_video row d); [done| |done|].
  - intros v'. rewrite unmarshal_marshal_video by auto. by intros [= <-].
  - intros r w' Hr'. glue. by apply HQ.
Qed.

Lemma getCacheFunc_ready w (Q : option Video → W → Prop) :
  cready w →
  (∀ v w', cready w' → row = Some v → Q (Some v) w') →
  (∀ w', cready w' → Q None w') →
  runs (getCacheFunc dkey) w Q.
Proof.
  intros Hr Hsome Hnone. unfold getCacheFunc. apply runs_bind.
  apply (GetBytes_ready dkey lkey unmarshal_video row d); [done|..].
  - intros b w' Hr' Hb. glue. destruct (unmarshal_video b) as [v|] eqn:E; auto.
  - intros e w' Hr'. glue. auto.
Qed.

Lemma wait_cache_ready n w (Q : result Video → W → Prop) :
  cready w → (∀ w', cready w' → Q the_row w') →
  runs (wait_cache n dkey (find_and_set svc dkey id)) w Q.
Proof.
  revert w. induction n as [|n IH]; intros w Hr HQ; cbn [wait_cache]; [by apply find_and_set_ready|].
  apply runs_bind. apply getCacheFunc_ready; [done|..]; [|by auto].
  intros v w' Hr' Hv. glue. rewrite (the_row_some v Hv). by apply HQ.
Qed.

Lemma detail_miss_ready w (Q : result Video → W → Prop) :
  cready w → (∀ w', cready w' → Q the_row w') → runs (detail_miss svc dkey id) w Q.
Proof.
  intros Hr HQ. unfold detail_miss.
  assert (∀ v w', row = Some v → cready w' → Q (Ok v) w') as HQv.
  { intros v w' Hv Hr'. rewrite (the_row_some v Hv). by apply HQ. }
  apply runs_bind. apply getCacheFunc_ready; [done|..]; [intros v w' Hr' Hv; glue; by apply HQv|].
  intros w1 Hr1. apply runs_bind. apply (Lock_ready c dkey lkey unmarshal_video row d);
    [apply detail_ne_lock|unfold Second; lia|done|].
  intros [[token [|]] [e|]] w2 Hr2; try by apply find_and_set_ready.
  - apply runs_bind, runs_bind. apply getCacheFunc_ready; [done|..].
    + intros v w3 Hr3 Hv. glue.
      apply (Unlock_ready c dkey lkey unmarshal_video row d); [apply detail_ne_lock|done|].
      intros. glue. by apply HQv.
    + intros w3 Hr3. apply find_and_set_ready; [done|]. intros w4 Hr4. apply runs_bind.
      apply (Unlock_ready c dkey lkey unmarshal_video row d); [apply detail_ne_lock|done|].
      intros. glue. by apply HQ.
  - by apply wait_cache_ready.
Qed.

Lemma GetDetail_ready w :
  cready w → runs (VideoService_GetDetail svc id) w (λ r w', r = the_row ∧ cready w').
Proof.
  intros Hr. unfold VideoService_GetDetail. cbn [vs_cache].
  apply runs_bind. apply (GetBytes_ready dkey lkey unmarshal_video row d); [done|..].
  - intros b w1 Hr1 Hb. destruct (unmarshal_video b) as [v|] eqn:E; [|by apply find_and_set_ready].
    glue. split; [|done]. unfold the_row. by rewrite (Hb v eq_refl).
  - intros e w1 Hr1. destruct (IsMiss e); [|by apply find_and_set_ready].
    apply runs_sf. by apply detail_miss_ready.
Qed.
End detail.

(** Redis caches the detail of a video coherently with its row. *)
Definition coherent_detail (c : Client) (id : Z) (row : option Video) (s : Rds) : Prop :=
  coherent (detail_key (Some c) id) (Key (Some c) ("lock:video:detail:id=" +:+ dec id))
    unmarshal_video row s.


(** Whatever Redis does, updating the popularity cache touches Redis only. *)
Lemma UpdatePopularityCache_only {W} `{WorldLaws W} `{RedisServer} cache id change w :
  runs (UpdatePopularityCache cache id change) w (λ _ w', redis_only w w').
Proof.
  destruct cache as [c|]; [|by apply runs_ret, redis_only_refl]. unfold UpdatePopularityCache.
  destruct ((id =? 0) || (change =? 0)); [by apply runs_ret, redis_only_refl|].
  unfold Delete, ZIncrBy, Expire, when_client. glue.
  eapply runs_mono; [apply runs_rd_only|]. intros r1 w1 R1.
  assert (runs
    (st_bind now (λ t, st_bind (rd (c_zincrby (window_key (Some c) (TruncateMinute t)) (dec id) change))
       (λ _, st_bind (rd (c_pexpire (window_key (Some c) (TruncateMinute t)) (2 * Hour)))
               (λ _, st_ret tt)))) w1 (λ _ w', redis_only w w')) as Hrest.
  { call. glue. eapply runs_mono; [apply runs_rd_only|]. intros r2 w2 R2. glue.
    eapply runs_mono; [apply runs_rd_only|]. intros r3 w3 R3. glue.
    eapply redis_only_trans; [exact R1|]. eapply redis_only_trans; [by apply redis_only_same|].
    eapply redis_only_trans; [exact R2|exact R3]. }
  destruct r1; glue; apply runs_bind_inv in Hrest; exact Hrest.
Qed.

(** ** The theorems at concrete inputs *)
Definition demo_row : Video := mkVideo 3 7 "ann" "t" "" "p" "c" 1000 4 9.
Definition demo_event : TimelineEvent := mkTimelineEvent "e" "publish" 3 1000 1001.
Definition cl : Client := mkClient DefaultKeyPrefix.

(** A cold cache, one timeline entry, one video. *)
Definition demo_world : RefW :=
  mkRefW (mkView (tset TVideo {[3 := demo_row]} empty_db)
            {[timeline_key (Some cl) := (RZset {["2" := 900]}, None)]} [] ∅ all_up) 5000 0 [].

Example timeline_demo :
  let '(r, w') := TimelineWorker_process (Some cl) (marshal_timeline demo_event) demo_world in
  r = Ok tt ∧
  zset_of 6000 (v_rd (view w')) (timeline_key (Some cl)) = {["2" := 900; "3" := 1000]}.
Proof. by vm_compute. Qed.

Example GetDetail_demo :
  let '(r, w') := VideoService_GetDetail (NewVideoService (Some cl)) 3 demo_world in
  r = Ok demo_row ∧
  str_of 6000 (v_rd (view w')) (detail_key (Some cl) 3) = Some (marshal_video demo_row).
Proof. by vm_compute. Qed.


Lemma timeline_idempotent_witness :
  runs (TimelineWorker_process (Some cl) (marshal_timeline demo_event)) demo_world (λ r1 w1,
    runs (TimelineWorker_process (Some cl) (marshal_timeline demo_event)) w1 (λ r2 w2,
      r1 = Ok tt ∧ r2 = Ok tt ∧
      ∃ z', holds_zset (v_rd (view w1)) (timeline_key (Some cl)) z' ∧
            holds_zset (v_rd (view w2)) (timeline_key (Some cl)) z')).
Proof.
  exact (timeline_idempotent demo_world cl demo_event {["2" := 900]} eq_refl eq_refl
           (or_intror (lookup_singleton_eq _ _))).
Defined.

Lemma UpdatePopularityCache_spec_witness :
  let w := ref_start empty_db 5000 in
  runs (UpdatePopularityCache (Some cl) 3 1) w (λ _ w',
    v_db (view w') = v_db (view w) ∧ v_mq (view w') = v_mq (view w) ∧
    (clk w' < 9999 →
     ∃ t, clk w ≤ t ∧ popularity_changed cl 3 1 t (v_rd (view w)) (v_rd (view w')))).
Proof.
  intros w. apply (UpdatePopularityCache_spec (ref_start empty_db 5000) cl 3 1 9999);
    [reflexivity|discriminate|discriminate|].
  intros t e He. discriminate He.
Defined.

