(* ===== verification/VideoPublish.v ===== *)
(** Publishing a video: one transaction writes the video, its pending outbox
    row, its tags and their links, or nothing at all. *)
From S2P Require Import Prelude GoStd Query Entities Json Services DbFacts RedisClient Video.
From S2P Require Import Reference.
Local Open Scope Z_scope.

Section publish.
Context {W : Type} `{WorldLaws W} `{SqlLaws} `{RedisServer} `{TagRegex}.

(** The tables other than the tags and their links are as they were. *)
Definition only_tags (d d' : Db) : Prop :=
  ∀ R (T : table R), table_eqb T TTag = false → table_eqb T TVideoTag = false →
    tget T d' = tget T d.

Definition tagged (videoID : Z) (d : Db) (name : string) : Prop :=
  ∃ g l, g ∈ rows TTag d ∧ text_eq (t_Name g) name = true ∧ l ∈ rows TVideoTag d ∧
         vt_VideoID l = videoID ∧ vt_TagID l = t_ID g.

(** [tags] linked to the video, one link each. *)
Definition tags_done (videoID : Z) (tags : list string) (d d' : Db) : Prop :=
  db_ok d' ∧ only_tags d d' ∧
  tget TTag d ⊆ tget TTag d' ∧ tget TVideoTag d ⊆ tget TVideoTag d' ∧
  (∀ name, name ∈ tags → tagged videoID d' name) ∧
  size (tget TVideoTag d') = (size (tget TVideoTag d) + length tags)%nat.

Lemma rows_mono {R} (T : table R) d d' r :
  tget T d ⊆ tget T d' → r ∈ rows T d → r ∈ rows T d'.
Proof.
  rewrite !elem_of_rows. intros Hs [k E]. exists k. by eapply lookup_weaken.
Qed.

Lemma tagged_mono v d d' name :
  tget TTag d ⊆ tget TTag d' → tget TVideoTag d ⊆ tget TVideoTag d' →
  tagged v d name → tagged v d' name.
Proof. intros Hg Hl (g & l & ? & ? & ? & ? & ?). exists g, l. split_and!; [by eapply rows_mono|done|by eapply rows_mono|done|done]. Qed.

(** A created row, and what stays. *)
Lemma create_done {R} (T : table R) r t d x d' :
  db_ok d → row_id T r = 0 → eng_create T r t d = (Ok x, d') →
  db_ok d' ∧ ∃ id, 0 < id ∧ x = row_stored T id t r ∧ tget T d !! id = None ∧
    d' = tset T (<[id := x]> (tget T d)) d.
Proof.
  intros Hd Hid E.
  destruct (create_cases T r t d Hid) as [(id & Hp & Hn & Hc & E')|[(_ & E')|(_ & code & E')]];
    rewrite E' in E; simplify_eq.
  split; [|by exists id]. apply db_ok_tset; [done|]. apply table_ok_create; [done..|apply Hd].
Qed.

Lemma first_or_create t name d g d' :
  db_ok d → FirstOrCreateTag t name d = (Ok g, d') →
  db_ok d' ∧ only_tags d d' ∧ tget TTag d ⊆ tget TTag d' ∧ tget TVideoTag d' = tget TVideoTag d ∧
  g ∈ rows TTag d' ∧ text_eq (t_Name g) name = true.
Proof.
  intros Hd. unfold FirstOrCreateTag, st_bind.
  destruct (sel_first_cases (λ g, text_eq (t_Name g) name) [Asc t_ID] (rows TTag d))
    as [[-> Hn]|(x & -> & Hx & Hname)].
  - intros E. eapply create_done in E as (Hd' & id & Hp & -> & Hfresh & ->); [|done|done].
    split; [done|]. rewrite tget_tset, (tget_tset_ne TTag TVideoTag) by done. split_and!; try done.
    + intros R T Ht _. rewrite tget_tset_ne; [done|]. by destruct T.
    + by apply insert_subseteq.
    + apply elem_of_rows. exists id. rewrite tget_tset. apply lookup_insert_eq.
    + apply text_eq_refl.
  - unfold st_ret. intros [= -> ->]. by split_and!.
Qed.

Lemma publish_tags_done t vid tags d u d' :
  db_ok d → publish_tags t vid tags d = (Ok u, d') → tags_done vid tags d d'.
Proof.
  revert d. induction tags as [|name tags IH]; intros d Hd; cbn [publish_tags].
  { intros [= _ <-]. unfold tags_done. simpl. split_and!; try done; try lia.
    by intros ? ?%elem_of_nil. }
  unfold st_try, st_bind. destruct (FirstOrCreateTag t name d) as [[g|e] d1] eqn:E1; [|done].
  eapply first_or_create in E1 as (Hd1 & Ho1 & Hg1 & Hl1 & Hg & Hname); [|done].
  destruct (eng_create TVideoTag (mkVideoTag 0 vid (t_ID g)) t d1) as [[l|e] d2] eqn:E2; [|done].
  eapply create_done in E2 as (Hd2 & id & _ & -> & Hfresh & ->); [|done|done].
  intros E3. eapply IH in E3 as (Hd3 & Ho3 & Hg3 & Hl3 & Hall & Hsz); [|done].
  rewrite (tget_tset_ne TVideoTag TTag) in Hg3 by done. rewrite tget_tset in Hl3, Hsz.
  split; [done|]. split_and!.
  - intros R T Ht Hv. rewrite Ho3 by done. rewrite tget_tset_ne; [by apply Ho1|]. by destruct T.
  - by etransitivity.
  - rewrite <-Hl1. etransitivity; [|exact Hl3]. by apply insert_subseteq.
  - intros n [->|Hn]%elem_of_cons; [|auto].
    exists g, (mkVideoTag id vid (t_ID g)). split; [by eapply rows_mono|]. split_and!; try done.
    apply elem_of_rows. exists id. eapply lookup_weaken; [|exact Hl3]. apply lookup_insert_eq.
  - rewrite Hsz, map_size_insert_None, Hl1 by done. simpl. lia.
Qed.

(** What a successful publication leaves: [v'] is the stored video. *)
Definition published_video (v v' : Video) (d d' : Db) : Prop :=
  ∃ id oid t,
    v' = row_stored TVideo id t (trimmed v) ∧ 0 < id ∧ tget TVideo d !! id = None ∧
    tget TVideo d' = <[id := v']> (tget TVideo d) ∧
    tget TOutbox d !! oid = None ∧
    tget TOutbox d' = <[oid := row_stored TOutbox oid t (outbox_msg v')]> (tget TOutbox d) ∧
    tags_done id (extractTags (v_Title v' +:+ " " +:+ v_Description v'))
      (tset TOutbox (tget TOutbox d') (tset TVideo (tget TVideo d') d)) d'.

Lemma publish_tx_done v t d v' d' :
  db_ok d → v_ID v = 0 → publish_tx (trimmed v) t d = (Ok v', d') → published_video v v' d d'.
Proof.
  intros Hd Hid. unfold publish_tx, st_try, st_bind.
  destruct (eng_create TVideo (trimmed v) t d) as [[x|e] d1] eqn:E1; [|done].
  eapply create_done in E1 as (Hd1 & id & Hp & Hx & Hfresh & ->); [|done|done].
  destruct (eng_create TOutbox (outbox_msg x) t _) as [[m|e] d2] eqn:E2; [|done].
  eapply create_done in E2 as (Hd2 & oid & _ & Hm & Hofresh & ->); [|done|done].
  rewrite (tget_tset_ne TVideo TOutbox) in * by done.
  destruct (publish_tags t (v_ID x) _ _) as [[u|e] d3] eqn:E3; [|done].
  intros [= -> ->]. eapply publish_tags_done in E3 as Htags; [|done].
  assert (v_ID v' = id) as Hv by (by rewrite Hx). rewrite Hv in Htags.
  pose proof Htags as (_ & Honly & _).
  assert (tget TVideo d' = <[id := v']> (tget TVideo d)) as Ev.
  { rewrite (Honly _ TVideo), (tget_tset_ne TOutbox TVideo), tget_tset by done. done. }
  assert (tget TOutbox d' = <[oid := m]> (tget TOutbox d)) as Eo.
  { rewrite (Honly _ TOutbox), tget_tset by done. done. }
  exists id, oid, t. rewrite Ev, Eo, <-Hm. by split_and!.
Qed.

(** C14: publishing is all or nothing: on success the tables gain exactly the
    video, one pending outbox row with its id and creation time, and a link
    for each extracted tag, to the tag of that name in MySQL's collation; on any error, whatever statement failed, the
    tables are unchanged. *)
Theorem Publish_atomic w v :
  db_ok (v_db (view w)) → v_ID v = 0 →
  runs (Publish v) w (λ r w',
    match r with
    | Ok v' => published_video v v' (v_db (view w)) (v_db (view w'))
    | Err _ => v_db (view w') = v_db (view w)
    end).
Proof.
  intros Hd Hid. unfold Publish.
  destruct (String.eqb _ ""); [by apply runs_ret|].
  destruct (String.eqb _ ""); [by apply runs_ret|].
  destruct (String.eqb _ ""); [by apply runs_ret|].
  call; [|by rewrite Hv]. rewrite law_tx in Hv |- *.
  destruct (publish_tx (trimmed v) (clk w') (v_db (view w))) as [[v'|e] d'] eqn:E; simpl in *;
    rewrite Hv; simpl; [|done]. by eapply publish_tx_done.
Qed.
End publish.

#[export] Instance demo_regex : TagRegex := {| tag_matches _ := ["go"; "redis"; "go"] |}.
Definition demo_video : Video := mkVideo 0 7 "ann" " t " "#go #redis #go" "p" "c" 1000 0 0.

Example Publish_demo :
  (Publish demo_video (ref_start empty_db 5)).1 =
    Ok (mkVideo 1 7 "ann" "t" "#go #redis #go" "p" "c" 1000 0 0) ∧
  size (d_video_tags (v_db (view (Publish demo_video (ref_start empty_db 5)).2))) = 2%nat.
Proof. by vm_compute. Qed.

Lemma Publish_atomic_witness :
  runs (Publish demo_video) (ref_start empty_db 5) (λ r w',
    match r with
    | Ok v' => published_video demo_video v' empty_db (v_db (view w'))
    | Err _ => v_db (view w') = empty_db
    end).
Proof. exact (Publish_atomic (ref_start empty_db 5) demo_video db_ok_empty eq_refl). Defined.
