(* ===== verification/Like.v ===== *)
(** [internal/api/like] and [internal/worker/like_worker.go]: likes of videos,
    their denormalised counters, and the two ways a like reaches the database:
    in the request's transaction, or through the queue and the worker. *)
From S2P Require Import Prelude GoStd Query Entities Json Services RedisFacts RedisClient Mq.
From S2P Require Import DbFacts Http Video.
Local Open Scope Z_scope.
Local Open Scope go_scope.

(** ** repo.go *)
Definition is_like (videoID accountID : Z) (l : Like) : bool :=
  (l_VideoID l =? videoID) && (l_AccountID l =? accountID).

Section repo.
Context {W : Type} `{World W} `{SqlEngine}.

Definition LikeRepo_IsLiked (videoID accountID : Z) : ST W (result bool) :=
  query (λ d, Ok (0 <? sel_count (is_like videoID accountID) (rows TLike d))).

(** videos join likes on likes.video_id = videos.id *)
Definition liked_join (d : Db) : list (Video * Like) :=
  v ← rows TVideo d; l ← rows TLike d;
  if l_VideoID l =? v_ID v then [(v, l)] else [].

Definition LikeRepo_ListLikedVideos (accountID : Z) : ST W (result (list Video)) :=
  query (λ d, Ok (eng_select (λ vl, l_AccountID vl.2 =? accountID)
                    [Desc (λ vl : Video * Like, l_CreatedAt vl.2)] (Some 200%nat)
                    (liked_join d)).*1).

Definition GetBatchLiked (videoIDs : list Z) (accountID : Z) :
    ST W (result (gmap Z bool)) :=
  match videoIDs with
  | [] => st_ret (Ok ∅)
  | _ =>
      if accountID =? 0 then st_ret (Ok ∅)
      else
        likes <-? query (λ d, Ok (eng_select
          (λ l, bool_decide (l_VideoID l ∈ videoIDs) && (l_AccountID l =? accountID))
          [] None (rows TLike d))) ;;
        st_ret (Ok (foldl (λ m l, <[l_VideoID l := true]> m) ∅ likes))
  end.

Definition LikeIgnoreDuplicate (l : Like) : ST W (result bool) :=
  if (l_VideoID l =? 0) || (l_AccountID l =? 0) then st_ret (Ok false)
  else
    r <- sql (eng_create TLike l) ;;
    st_ret (match r with
            | Ok _ => Ok true
            | Err ErrDuplicate => Ok false
            | Err e => Err e
            end).

Definition DeleteByVideoAndAccount (videoID accountID : Z) : ST W (result bool) :=
  if (videoID =? 0) || (accountID =? 0) then st_ret (Ok false)
  else
    n <-? sql (λ _, eng_delete TLike (is_like videoID accountID)) ;;
    st_ret (Ok (0 <? n)).
End repo.

(** ** service.go *)

(** What the service was built with: whether it has the two publishers. *)
Record LikeService := mkLikeService {
  ls_cache : option Client; ls_likeMQ : bool; ls_popularityMQ : bool }.

Definition likes_plus (c : Z) (r : Video) : Video :=
  mkVideo (v_ID r) (v_AuthorID r) (v_Username r) (v_Title r) (v_Description r)
    (v_PlayURL r) (v_CoverURL r) (v_CreateTime r) (v_LikesCount r + c) (v_Popularity r).
Definition popularity_plus (c : Z) (r : Video) : Video :=
  mkVideo (v_ID r) (v_AuthorID r) (v_Username r) (v_Title r) (v_Description r)
    (v_PlayURL r) (v_CoverURL r) (v_CreateTime r) (v_LikesCount r) (v_Popularity r + c).

Section service.
Context {W : Type} `{World W} `{SqlEngine} `{RedisServer}.

Definition like_tx (l : Like) (t : Z) : ST Db (result unit) :=
  r <- (λ d, (sel_first (where_id TVideo (l_VideoID l) always) [Asc v_ID] (rows TVideo d), d)) ;;
  match r with
  | Err ErrRecordNotFound => st_ret (Err (ErrMsg "video not found"))
  | Err e => st_ret (Err e)
  | Ok _ =>
      r <- eng_create TLike l t ;;
      match r with
      | Err ErrDuplicate => st_ret (Err (ErrMsg "user has liked this video"))
      | Err e => st_ret (Err e)
      | Ok _ =>
          _ <-? (λ d, exec (eng_update TVideo (where_id TVideo (l_VideoID l) always)
                              (likes_plus 1) d)) ;;
          _ <-? (λ d, exec (eng_update TVideo (where_id TVideo (l_VideoID l) always)
                              (popularity_plus 1) d)) ;;
          st_ret (Ok tt)
      end
  end.

Definition unlike_tx (l : Like) : ST Db (result unit) :=
  n <-? eng_delete TLike (is_like (l_VideoID l) (l_AccountID l)) ;;
  if n =? 0 then st_ret (Err (ErrMsg "user has not liked this video"))
  else
    _ <-? (λ d, exec (eng_update TVideo (where_id TVideo (l_VideoID l) (λ v, 0 <? v_LikesCount v))
                        (likes_plus (-1)) d)) ;;
    _ <-? (λ d, exec (eng_update TVideo (where_id TVideo (l_VideoID l) (λ v, 0 <? v_Popularity v))
                        (popularity_plus (-1)) d)) ;;
    st_ret (Ok tt).

Definition with_created_at (t : time) (l : Like) : Like :=
  mkLike (l_ID l) (l_VideoID l) (l_AccountID l) t.

(** [if mq != nil { if err := publish(); err == nil { enqueued = true } }] *)
Definition enqueue (mq : bool) (m : ST W (result unit)) : ST W bool :=
  if mq then r <- m ;; st_ret (is_ok r) else st_ret false.

(** the checks that Like and Unlike start with; the videoRepo is never nil *)
Definition like_checks (l : Like) (k : bool → ST W (result unit)) : ST W (result unit) :=
  if (l_VideoID l =? 0) || (l_AccountID l =? 0)
  then st_ret (Err (ErrMsg "video_id and account_id are required"))
  else
    ok <-? IsExist (l_VideoID l) ;;
    if negb ok then st_ret (Err (ErrMsg "video not found"))
    else
      isLiked <-? LikeRepo_IsLiked (l_VideoID l) (l_AccountID l) ;;
      k isLiked.

Definition LikeService_Like (s : LikeService) (l : Like) : ST W (result unit) :=
  like_checks l (λ isLiked,
    if isLiked then st_ret (Err (ErrMsg "user has liked this video"))
    else
      t <- now ;;
      let l := with_created_at t l in
      mysqlEnqueued <- enqueue (ls_likeMQ s) (LikeMQ_Like true (l_AccountID l) (l_VideoID l)) ;;
      redisEnqueued <- enqueue (ls_popularityMQ s) (PopularityMQ_Update true (l_VideoID l) 1) ;;
      if mysqlEnqueued && redisEnqueued then st_ret (Ok tt)
      else
        _ <-? (if negb mysqlEnqueued then sql (λ t, eng_tx (like_tx l t)) else st_ret (Ok tt)) ;;
        (if negb redisEnqueued then UpdatePopularityCache (ls_cache s) (l_VideoID l) 1
         else st_ret tt) ;;;
        st_ret (Ok tt)).

Definition LikeService_Unlike (s : LikeService) (l : Like) : ST W (result unit) :=
  like_checks l (λ isLiked,
    if negb isLiked then st_ret (Err (ErrMsg "user has not liked this video"))
    else
      mysqlEnqueued <- enqueue (ls_likeMQ s) (LikeMQ_Unlike true (l_AccountID l) (l_VideoID l)) ;;
      redisEnqueued <- enqueue (ls_popularityMQ s) (PopularityMQ_Update true (l_VideoID l) (-1)) ;;
      if mysqlEnqueued && redisEnqueued then st_ret (Ok tt)
      else
        _ <-? (if negb mysqlEnqueued then sql (λ _, eng_tx (unlike_tx l)) else st_ret (Ok tt)) ;;
        (if negb redisEnqueued then UpdatePopularityCache (ls_cache s) (l_VideoID l) (-1)
         else st_ret tt) ;;;
        st_ret (Ok tt)).

Definition LikeService_IsLiked (videoID accountID : Z) : ST W (result bool) :=
  LikeRepo_IsLiked videoID accountID.
Definition LikeService_ListLikedVideos (accountID : Z) : ST W (result (list Video)) :=
  LikeRepo_ListLikedVideos accountID.
End service.

(** ** worker/like_worker.go *)
Section worker.
Context {W : Type} `{World W} `{SqlEngine}.

Definition applyLike (userID videoID : Z) : ST W (result unit) :=
  ok <-? IsExist videoID ;;
  if negb ok then st_ret (Ok tt)
  else
    t <- now ;;
    created <-? LikeIgnoreDuplicate (mkLike 0 videoID userID t) ;;
    if negb created then st_ret (Ok tt)
    else
      _ <-? ChangeLikesCount videoID 1 ;;
      ChangePopularity videoID 1.

Definition applyUnlike (userID videoID : Z) : ST W (result unit) :=
  ok <-? IsExist videoID ;;
  if negb ok then st_ret (Ok tt)
  else
    deleted <-? DeleteByVideoAndAccount videoID userID ;;
    if negb deleted then st_ret (Ok tt)
    else
      _ <-? ChangeLikesCount videoID (-1) ;;
      ChangePopularity videoID (-1).

Definition LikeWorker_process (body : bytes) : ST W (result unit) :=
  match unmarshal_like body with
  | Err _ => st_ret (Ok tt)
  | Ok evt =>
      if (le_UserID evt =? 0) || (le_VideoID evt =? 0) then st_ret (Ok tt)
      else if String.eqb (le_Action evt) "like" then applyLike (le_UserID evt) (le_VideoID evt)
      else if String.eqb (le_Action evt) "unlike" then applyUnlike (le_UserID evt) (le_VideoID evt)
      else st_ret (Ok tt)
  end.
End worker.

(** ** handler.go *)
Section handler.
Context {W : Type} `{World W} `{SqlEngine} `{RedisServer}.

Definition status_500 {A} (e : err) : Resp A := RespErr 500 e.

(** the common start: the bound video id, then the account *)
Definition with_video {A} (c : Ctx) (req : result Z) (k : Z → Z → ST W (Resp A)) :
    ST W (Resp A) :=
  or_fail fail_with req (λ videoID,
    if videoID <=? 0 then st_ret (RespErr 400 (ErrMsg "video_id is required"))
    else or_fail fail_with (GetAccountID c) (λ accountID, k videoID accountID)).

Definition LikeHandler_Like (s : LikeService) (c : Ctx) (req : result Z) : ST W (Resp string) :=
  with_video c req (λ videoID accountID,
    r <- LikeService_Like s (mkLike 0 videoID accountID zero_time) ;;
    or_fail status_500 r (λ _, st_ret (RespOk 200 "like success"))).

Definition LikeHandler_Unlike (s : LikeService) (c : Ctx) (req : result Z) : ST W (Resp string) :=
  with_video c req (λ videoID accountID,
    r <- LikeService_Unlike s (mkLike 0 videoID accountID zero_time) ;;
    or_fail status_500 r (λ _, st_ret (RespOk 200 "unlike success"))).

Definition LikeHandler_IsLiked (c : Ctx) (req : result Z) : ST W (Resp bool) :=
  with_video c req (λ videoID accountID,
    r <- LikeService_IsLiked videoID accountID ;;
    or_fail status_500 r (λ b, st_ret (RespOk 200 b))).

Definition ListMyLikedVideos (c : Ctx) : ST W (Resp (list Video)) :=
  or_fail fail_with (GetAccountID c) (λ accountID,
    r <- LikeService_ListLikedVideos accountID ;;
    or_fail status_500 r (λ videos, st_ret (RespOk 200 videos))).
End handler.
