(* ===== verification/LikeFacts.v ===== *)
(** Theorems on likes: the denormalised counters agree with the rows of the
    likes table, the worker is idempotent, and the queued path ends where the
    direct path ends. *)
From S2P Require Import Prelude GoStd Query Entities Json Services RedisFacts RedisClient Mq.
From S2P Require Import DbFacts Video VideoCaches Like Reference.
Local Open Scope Z_scope.

(** ** The abstract state: who likes what *)
Definition pair_of (l : Like) : Z * Z := (l_VideoID l, l_AccountID l).
Definition pairs (d : Db) : gset (Z * Z) := list_to_set (pair_of <$> rows TLike d).
Definition likes_of (k : Z) (d : Db) : Z :=
  Z.of_nat (size (filter (λ p : Z * Z, p.1 = k) (pairs d))).

(** The counters of every video agree with the likes table. *)
Definition counts_inv (d : Db) : Prop :=
  ∀ k r, tget TVideo d !! k = Some r → v_LikesCount r = likes_of k d ∧ 0 ≤ v_Popularity r.

Definition liked (r : Video) : Video := popularity_plus 1 (likes_plus 1 r).
Definition unliked (r : Video) : Video :=
  add_popularity (-1) (likes_plus (-1) r).

Definition only_likes (d d' : Db) : Prop :=
  ∀ R (T : table R), table_eqb T TVideo = false → table_eqb T TLike = false →
    tget T d' = tget T d.

(** A like of video [v] by account [u] has been applied. *)
Definition like_applied `{Collation} (v u : Z) (d d' : Db) : Prop :=
  db_ok d' ∧ only_likes d d' ∧ ((v, u) ∉ pairs d) ∧ pairs d' = ({[(v, u)]} ∪ pairs d) ∧
  tget TVideo d' = alter liked v (tget TVideo d).
Definition unlike_applied `{Collation} (v u : Z) (d d' : Db) : Prop :=
  db_ok d' ∧ only_likes d d' ∧ (v, u) ∈ pairs d ∧ pairs d' = pairs d ∖ {[(v, u)]} ∧
  tget TVideo d' = alter unliked v (tget TVideo d).

Lemma elem_of_pairs d p : p ∈ pairs d ↔ ∃ l, l ∈ rows TLike d ∧ pair_of l = p.
Proof.
  unfold pairs. rewrite elem_of_list_to_set, list_elem_of_fmap. naive_solver.
Qed.

Lemma is_like_pair v u l : is_like v u l = true ↔ pair_of l = (v, u).
Proof.
  unfold is_like, pair_of. rewrite andb_true_iff, !Z.eqb_eq. split; [by intros [-> ->]|].
  by intros [= -> ->].
Qed.

Lemma likes_of_insert (v u k : Z) (P : gset (Z * Z)) :
  (v, u) ∉ P →
  Z.of_nat (size (filter (λ p : Z * Z, p.1 = k) ({[(v, u)]} ∪ P))) =
  Z.of_nat (size (filter (λ p : Z * Z, p.1 = k) P)) + (if decide (v = k) then 1 else 0).
Proof.
  intros Hn.
  assert (filter (λ p : Z * Z, p.1 = k) ({[(v, u)]} ∪ P) =
          if decide (v = k) then {[(v, u)]} ∪ filter (λ p : Z * Z, p.1 = k) P
          else filter (λ p : Z * Z, p.1 = k) P) as ->.
  { apply set_eq. intros p. case_decide; set_solver. }
  case_decide; [|lia]. rewrite size_union, size_singleton by set_solver. lia.
Qed.

Lemma counts_like `{Collation} v u d d' :
  counts_inv d → like_applied v u d d' → counts_inv d'.
Proof.
  intros Hc (_ & _ & Hn & Hp & Hv) k r. rewrite Hv.
  intros E. apply lookup_alter_Some in E as [(-> & r0 & E0 & ->)|[Hne E0]];
    apply Hc in E0 as [El Ep]; unfold likes_of in *; rewrite Hp, likes_of_insert by done.
  - simpl. rewrite decide_True by done. lia.
  - rewrite decide_False by congruence. lia.
Qed.

Lemma counts_unlike `{Collation} v u d d' :
  counts_inv d → unlike_applied v u d d' → counts_inv d'.
Proof.
  intros Hc (_ & _ & Hin & Hp & Hv) k r. rewrite Hv.
  assert (pairs d = {[(v, u)]} ∪ pairs d') as Hpd.
  { rewrite Hp. by apply union_difference_singleton_L. }
  assert ((v, u) ∉ pairs d') as Hn by (rewrite Hp; set_solver).
  intros E. apply lookup_alter_Some in E as [(-> & r0 & E0 & ->)|[Hne E0]];
    apply Hc in E0 as [El Ep]; unfold likes_of in *; rewrite Hpd, likes_of_insert in El by done.
  - rewrite decide_True in El by done. simpl. lia.
  - rewrite decide_False in El by congruence. lia.
Qed.

Lemma likes_of_pos v u d : (v, u) ∈ pairs d → 0 < likes_of v d.
Proof.
  intros Hin. unfold likes_of.
  assert ((v, u) ∈ filter (λ p : Z * Z, p.1 = v) (pairs d)) as Hf by set_solver.
  assert (size (filter (λ p : Z * Z, p.1 = v) (pairs d)) ≠ 0%nat); [|lia].
  intros Hs%size_empty_inv. by apply (Hs (v, u)), not_elem_of_empty in Hf.
Qed.

Section statements.
Context `{SqlLaws}.

Lemma is_liked_count v u d :
  (0 <? sel_count (is_like v u) (rows TLike d)) = bool_decide ((v, u) ∈ pairs d).
Proof.
  rewrite sel_count_eq. destruct (decide ((v, u) ∈ pairs d)) as [Hin|Hn].
  - rewrite bool_decide_eq_true_2 by done. apply Z.ltb_lt.
    apply elem_of_pairs in Hin as (l & Hl & Hp).
    assert (l ∈ List.filter (is_like v u) (rows TLike d)) as Hf
      by (apply elem_of_lfilter; split; [by apply is_like_pair|done]).
    destruct (List.filter (is_like v u) (rows TLike d)); [by apply elem_of_nil in Hf|simpl; lia].
  - rewrite bool_decide_eq_false_2 by done. rewrite lfilter_none; [done|].
    intros l Hl. destruct (is_like v u l) eqn:E; [|done]. exfalso. apply Hn.
    apply elem_of_pairs. exists l. split; [done|]. by apply is_like_pair.
Qed.

Lemma like_clash d l :
  (∃ k r', tget TLike d !! k = Some r' ∧ row_clash TLike l r') ↔ pair_of l ∈ pairs d.
Proof.
  rewrite elem_of_pairs. unfold row_clash. simpl. split.
  - intros (k & r' & E & _ & [= Hv Hu]). exists r'. split; [apply elem_of_rows; eauto|].
    unfold pair_of. congruence.
  - intros (r' & [k E]%elem_of_rows & [= Hv Hu]). exists k, r'. split_and!; [done|by eexists|].
    congruence.
Qed.

Lemma create_like l t d :
  db_ok d → l_ID l = 0 →
  ((pair_of l ∉ pairs d) ∧ ∃ l' d', eng_create TLike l t d = (Ok l', d') ∧
     db_ok d' ∧ pairs d' = ({[pair_of l]} ∪ pairs d) ∧
     (∀ R (T : table R), table_eqb T TLike = false → tget T d' = tget T d)) ∨
  (pair_of l ∈ pairs d ∧ eng_create TLike l t d = (Err ErrDuplicate, d)) ∨
  (eng_fits TLike [] = false ∧ ∃ code, eng_create TLike l t d = (Err (ErrIO code), d)).
Proof.
  intros Hd Hid. destruct (create_cases TLike l t d Hid) as [(id & Hp & Hf & Hc & ->)|[(Hc & ->)|Hm]].
  - left. split.
    { intros Hin%like_clash. destruct Hin as (k & r' & E & Hcl). by apply (Hc k r'). }
    do 2 eexists. split; [done|]. split_and!.
    + apply db_ok_tset; [done|]. apply table_ok_create; [done..|apply Hd].
    + apply set_eq. intros p. rewrite elem_of_union, elem_of_singleton, !elem_of_pairs.
      setoid_rewrite (rows_perm_insert TLike d id _ Hf). setoid_rewrite elem_of_cons.
      split; [intros (l' & [->|?] & <-)|intros [->|(l' & ? & <-)]]; eauto.
    + intros R T Hn. rewrite tget_tset_ne; [done|]. by destruct T.
  - right; left. split; [by apply like_clash|done].
  - right; right. done.
Qed.

Lemma delete_like v u d :
  db_ok d →
  ∃ n d', eng_delete TLike (is_like v u) d = (Ok n, d') ∧ db_ok d' ∧
    (0 <? n) = bool_decide ((v, u) ∈ pairs d) ∧ 0 ≤ n ∧
    pairs d' = pairs d ∖ {[(v, u)]} ∧
    (∀ R (T : table R), table_eqb T TLike = false → tget T d' = tget T d) ∧
    (((v, u) ∉ pairs d) → d' = d).
Proof.
  intros Hd. rewrite law_delete. do 2 eexists. split; [done|]. split_and!.
  - apply db_ok_tset; [done|]. apply table_ok_delete, Hd.
  - rewrite <-is_liked_count, sel_count_eq. done.
  - lia.
  - apply set_eq. intros p. rewrite elem_of_difference, elem_of_singleton, !elem_of_pairs.
    setoid_rewrite elem_of_rows. rewrite tget_tset.
    split.
    + intros (l & [k [E Hw]%map_lookup_filter_Some] & <-). simpl in Hw. split; [eauto|].
      intros Hp%is_like_pair. congruence.
    + intros [(l & [k E] & <-) Hne]. exists l. split; [|done]. exists k.
      apply map_lookup_filter_Some. split; [done|]. simpl.
      destruct (is_like v u l) eqn:E'; [|done]. by apply is_like_pair in E'.
  - intros R T Hn. rewrite tget_tset_ne; [done|]. by destruct T.
  - intros Hn. rewrite map_filter_id, tset_tget; [done|]. intros k l E. simpl.
    destruct (is_like v u l) eqn:E'; [|done]. exfalso. apply Hn. apply elem_of_pairs.
    exists l. split; [by apply elem_of_rows; exists k|]. by apply is_like_pair.
Qed.

(** A counter update of one video. *)
Lemma update_video v g f d :
  db_ok d → (∀ r, v_ID (f r) = v_ID r) → (∀ r, row_texts TVideo (f r) = row_texts TVideo r) →
  exec (eng_update TVideo (where_id TVideo v g) f d) = (Ok tt, at_row TVideo v g f d) ∧
  db_ok (at_row TVideo v g f d).
Proof.
  intros Hd Hi Ht. split; [|by apply db_ok_at_row].
  rewrite update_id; [done|apply Hd|done..].
Qed.

Lemma pairs_at_row v g f d : pairs (at_row TVideo v g f d) = pairs d.
Proof. unfold pairs, rows. by rewrite tget_at_row_ne. Qed.

Lemma tget_at_row_alter v g f d :
  (∀ r, tget TVideo d !! v = Some r → g r = true) →
  tget TVideo (at_row TVideo v g f d) = alter f v (tget TVideo d).
Proof.
  intros Hg. rewrite tget_at_row. destruct (tget TVideo d !! v) as [r|] eqn:E.
  - rewrite (Hg r eq_refl). apply map_eq. intros k.
    destruct (decide (k = v)) as [->|Hn].
    + by rewrite lookup_insert_eq, lookup_alter_eq, E.
    + by rewrite lookup_insert_ne, lookup_alter_ne.
  - symmetry. apply alter_id. congruence.
Qed.

Lemma alter_compose_eq (f g h : Video → Video) v (t : gmap Z Video) :
  (∀ r, t !! v = Some r → f (g r) = h r) → alter f v (alter g v t) = alter h v t.
Proof.
  intros Hh. apply map_eq. intros k. destruct (decide (k = v)) as [->|Hn].
  - rewrite !lookup_alter_eq. destruct (t !! v) as [r|]; simpl; [|done]. by rewrite Hh.
  - by rewrite !lookup_alter_ne.
Qed.

(** Two counter updates of a video. *)
Lemma update_twice v (g1 : Video → bool) (f1 : Video → Video) (g2 : Video → bool)
    (f2 h : Video → Video) d d0 :
  db_ok d0 → tget TVideo d0 = tget TVideo d →
  (∀ R (T : table R), table_eqb T TLike = false → tget T d0 = tget T d) →
  (∀ r, v_ID (f1 r) = v_ID r) → (∀ r, row_texts TVideo (f1 r) = row_texts TVideo r) →
  (∀ r, v_ID (f2 r) = v_ID r) → (∀ r, row_texts TVideo (f2 r) = row_texts TVideo r) →
  (∀ r, tget TVideo d !! v = Some r →
     g1 r = true ∧ (if g2 (f1 r) then f2 (f1 r) else f1 r) = h r) →
  let d1 := at_row TVideo v g1 f1 d0 in
  let d2 := at_row TVideo v g2 f2 d1 in
  exec (eng_update TVideo (where_id TVideo v g1) f1 d0) = (Ok tt, d1) ∧
  exec (eng_update TVideo (where_id TVideo v g2) f2 d1) = (Ok tt, d2) ∧
  db_ok d2 ∧ only_likes d d2 ∧ pairs d2 = pairs d0 ∧
  tget TVideo d2 = alter h v (tget TVideo d).
Proof.
  intros Hd Ev Hsame Hi1 Ht1 Hi2 Ht2 Hh d1 d2.
  destruct (update_video v g1 f1 d0) as [E1 Hd1]; [done..|].
  destruct (update_video v g2 f2 d1) as [E2 Hd2]; [done..|].
  split_and!; [done|done|done| | |].
  - intros R T Hv Hl. unfold d2, d1. rewrite !tget_at_row_ne by (by destruct T). by apply Hsame.
  - unfold d2, d1. by rewrite !pairs_at_row.
  - unfold d2. rewrite tget_at_row.
    assert (tget TVideo d1 = alter f1 v (tget TVideo d)) as ->.
    { unfold d1. rewrite tget_at_row_alter, Ev; [done|]. intros r. rewrite Ev. intros E. by apply Hh. }
    rewrite lookup_alter_eq. destruct (tget TVideo d !! v) as [r|] eqn:E; simpl.
    + destruct (Hh r eq_refl) as [_ Hhr]. apply map_eq. intros k.
      destruct (decide (k = v)) as [->|Hn].
      * rewrite (lookup_alter_eq h), E. simpl. rewrite <-Hhr. destruct (g2 (f1 r)).
        -- by rewrite lookup_insert_eq.
        -- by rewrite lookup_alter_eq, E.
      * rewrite (lookup_alter_ne h) by done.
        destruct (g2 (f1 r)); rewrite ?lookup_insert_ne by done; by rewrite lookup_alter_ne.
    + rewrite (alter_id f1), (alter_id h) by congruence. done.
Qed.

(** The transaction of [Like]: every outcome. *)
Lemma like_tx_spec l t d :
  db_ok d → l_ID l = 0 →
  match eng_tx (like_tx l t) d with
  | (Ok _, d') => is_Some (tget TVideo d !! l_VideoID l) ∧
                  like_applied (l_VideoID l) (l_AccountID l) d d'
  | (Err e, d') => d' = d ∧
      ((tget TVideo d !! l_VideoID l = None ∧ e = ErrMsg "video not found") ∨
       (pair_of l ∈ pairs d ∧ e = ErrMsg "user has liked this video") ∨
       (eng_fits TLike [] = false))
  end.
Proof.
  intros Hd Hid. rewrite law_tx. unfold like_tx. unfold st_bind at 1. cbv beta.
  rewrite sel_first_id by apply Hd.
  destruct (tget TVideo d !! l_VideoID l) as [r|] eqn:Er; simpl; [|by auto].
  unfold st_bind.
  destruct (create_like l t d Hd Hid) as [(Hn & l' & d0 & -> & Hd0 & Hp & Hsame)|[(Hin & ->)|(Hm & code & ->)]];
    [|simpl; by auto|simpl; by auto].
  destruct (update_twice (l_VideoID l) always (likes_plus 1) always (popularity_plus 1) liked d d0)
    as (E1 & E2 & Hd2 & Ho & Hp2 & Hv2); [done|by apply Hsame|done..|].
  unfold st_try, st_bind. rewrite E1, E2. simpl.
  split; [by eexists|]. rewrite Hp in Hp2. by split_and!.
Qed.

(** The transaction of [Unlike]. *)
Lemma unlike_tx_spec l d :
  db_ok d → counts_inv d →
  match eng_tx (unlike_tx l) d with
  | (Ok _, d') => unlike_applied (l_VideoID l) (l_AccountID l) d d'
  | (Err e, d') => d' = d ∧ (pair_of l ∉ pairs d) ∧ e = ErrMsg "user has not liked this video"
  end.
Proof.
  intros Hd Hc. rewrite law_tx. unfold unlike_tx, st_try, st_bind.
  destruct (delete_like (l_VideoID l) (l_AccountID l) d Hd)
    as (n & d0 & -> & Hd0 & Hn & Hn0 & Hp & Hsame & _).
  destruct (decide ((l_VideoID l, l_AccountID l) ∈ pairs d)) as [Hin|Hnot].
  - rewrite bool_decide_eq_true_2 in Hn by done. apply Z.ltb_lt in Hn.
    destruct (Z.eqb_spec n 0); [lia|].
    destruct (update_twice (l_VideoID l) (λ v, 0 <? v_LikesCount v) (likes_plus (-1))
                (λ v, 0 <? v_Popularity v) (popularity_plus (-1)) unliked d d0)
      as (E1 & E2 & Hd2 & Ho & Hp2 & Hv2); [done|by apply Hsame|done..| |].
    { intros r Er. destruct (Hc _ _ Er) as [Hl Hpop].
      pose proof (likes_of_pos _ _ _ Hin). split; [apply Z.ltb_lt; lia|].
      unfold unliked, likes_plus, add_popularity, popularity_plus. simpl.
      destruct (Z.ltb_spec 0 (v_Popularity r)); f_equal; lia. }
    rewrite E1, E2. simpl. rewrite Hp in Hp2. by split_and!.
  - rewrite bool_decide_eq_false_2 in Hn by done. apply Z.ltb_ge in Hn.
    destruct (Z.eqb_spec n 0); [|lia]. simpl. by split_and!.
Qed.
End statements.

(** ** The service *)
Section service.
Context {W : Type} `{WorldLaws W} `{SqlLaws} `{RedisServer}.
Implicit Types w : W.

(** Publications were appended, nothing else changed. *)
Definition mq_only (sfx : list Pub) w w' : Prop :=
  view w' = set_mq (v_mq (view w) ++ sfx) (view w).

Definition like_pub (rk action : string) (u v : Z) (p : Pub) : Prop :=
  p_Exchange p = LikeExchange ∧ p_RoutingKey p = rk ∧
  ∃ id t, p_Body p = marshal_like (mkLikeEvent id action u v t).

Lemma enqueue_none (m : ST W (result unit)) w :
  runs (enqueue false m) w (λ b w', b = false ∧ mq_only [] w w').
Proof. apply runs_ret. unfold mq_only. rewrite app_nil_r. by destruct (view w). Qed.

Lemma enqueue_published mq m ex rk P w :
  runs m w (published ex rk P w) →
  runs (enqueue mq m) w (λ b w', ∃ sfx, mq_only sfx w w' ∧
    (b = true → mq = true ∧ ∃ t body, P body ∧ sfx = [mkPub ex rk ∅ (json_props t) body]) ∧
    (b = false → mq = true → up_mq (v_up (view w)) = false ∨ up_rand (v_up (view w)) = false)).
Proof.
  intros Hm. destruct mq.
  - cbn [enqueue]. apply runs_bind. eapply runs_mono; [exact Hm|].
    intros r w' (_ & [(-> & t & b & HP & E)|(Hdown & (e & ->) & [E|(t & b & HP & E)])]); glue.
    + exists [mkPub ex rk ∅ (json_props t) b]. split; [done|]. split; [eauto|done].
    + exists []. split; [|done]. unfold mq_only. rewrite app_nil_r, E. by destruct (view w).
    + exists [mkPub ex rk ∅ (json_props t) b]. split; [done|done].
  - eapply runs_mono; [apply enqueue_none|]. intros b w' [-> E]. exists []. by split_and!.
Qed.

Lemma enqueue_like mq action rk u v w :
  u ≠ 0 → v ≠ 0 → rk ≠ "" →
  runs (enqueue mq (LikeMQ_publish true action rk u v)) w (λ b w', ∃ sfx, mq_only sfx w w' ∧
    (b = true → mq = true ∧ ∃ p, sfx = [p] ∧ like_pub rk action u v p) ∧
    (b = false → mq = true → up_mq (v_up (view w)) = false ∨ up_rand (v_up (view w)) = false)).
Proof.
  intros Hu Hv Hr. eapply runs_mono; [eapply enqueue_published, LikeMQ_publish_spec; done|].
  intros b w' (sfx & Hs & Hb & Hdown). exists sfx. split; [done|]. split; [|done]. intros Ht.
  destruct (Hb Ht) as (Hmq & t & body & (id & t' & _ & ->) & ->). split; [done|]. eexists. split; [done|].
  split_and!; [done|done|]. by exists id, t'.
Qed.

Lemma enqueue_popularity mq v c w :
  v ≠ 0 → c ≠ 0 →
  runs (enqueue mq (PopularityMQ_Update true v c)) w (λ _ w', ∃ sfx, mq_only sfx w w').
Proof.
  intros Hv Hc. eapply runs_mono; [eapply enqueue_published, PopularityMQ_publish_spec; done|].
  intros b w' (sfx & Hs & _). eauto.
Qed.

Lemma IsExist_runs v w (Q : result bool → W → Prop) :
  keyed TVideo (v_db (view w)) →
  (∀ w', view w' = view w →
     Q (Ok (bool_decide (is_Some (tget TVideo (v_db (view w)) !! v)))) w') →
  (∀ code w', view w' = view w → up_db (v_up (view w)) = false → Q (Err (ErrIO code)) w') →
  runs (IsExist v) w Q.
Proof.
  intros Hk Hok Herr. unfold IsExist. apply runs_bind. apply runs_query.
  - intros w' Hv. rewrite sel_first_id by done. glue. specialize (Hok w' Hv).
    by destruct (tget TVideo (v_db (view w)) !! v).
  - intros code w' Hv Hu. glue. by apply Herr.
Qed.

Lemma IsLiked_runs v u w (Q : result bool → W → Prop) :
  (∀ w', view w' = view w → Q (Ok (bool_decide ((v, u) ∈ pairs (v_db (view w))))) w') →
  (∀ code w', view w' = view w → up_db (v_up (view w)) = false → Q (Err (ErrIO code)) w') →
  runs (LikeRepo_IsLiked v u) w Q.
Proof.
  intros Hok Herr. apply runs_query; [|done]. intros w' Hv. rewrite is_liked_count. auto.
Qed.

(** The outcomes of a request: nothing reached the database, or the change
    did; success without a change means that the event is in the broker. *)
Definition request_outcome (rk action : string) (v u : Z)
    (applied : Z → Z → Db → Db → Prop) w (r : result unit) w' : Prop :=
  (v_db (view w') = v_db (view w) ∧
     (r = Ok tt → ∃ l1 p l2, v_mq (view w') = v_mq (view w) ++ l1 ++ p :: l2 ∧
                            like_pub rk action u v p)) ∨
  (r = Ok tt ∧ applied v u (v_db (view w)) (v_db (view w'))).

Lemma outcome_error rk action v u applied w e w' :
  v_db (view w') = v_db (view w) → request_outcome rk action v u applied w (Err e) w'.
Proof. intros E. left. by split. Qed.

(** The part of a request after the checks. *)
Lemma request_tail rk action l c (applied : Z → Z → Db → Db → Prop) (tx : Z → Db → result unit * Db)
    (s : LikeService) w :
  l_VideoID l ≠ 0 → l_AccountID l ≠ 0 → rk ≠ "" → c ≠ 0 →
  (∀ t, match tx t (v_db (view w)) with
        | (Ok _, d') => applied (l_VideoID l) (l_AccountID l) (v_db (view w)) d'
        | (Err e, d') => d' = v_db (view w)
        end) →
  runs (st_bind (enqueue (ls_likeMQ s)
            (LikeMQ_publish true action rk (l_AccountID l) (l_VideoID l))) (λ mysqlEnqueued,
        st_bind (enqueue (ls_popularityMQ s) (PopularityMQ_Update true (l_VideoID l) c))
        (λ redisEnqueued,
        if mysqlEnqueued && redisEnqueued then st_ret (Ok tt)
        else
          st_try (if negb mysqlEnqueued then sql tx else st_ret (Ok tt)) (λ _,
          st_bind (if negb redisEnqueued then UpdatePopularityCache (ls_cache s) (l_VideoID l) c
                   else st_ret tt) (λ _, st_ret (Ok tt)))))) w
    (request_outcome rk action (l_VideoID l) (l_AccountID l) applied w).
Proof.
  intros Hv Hu Hr Hc Htx. apply runs_bind. eapply runs_mono; [by apply enqueue_like|].
  intros b1 w1 (sfx1 & E1 & Hb1 & _). apply runs_bind.
  eapply runs_mono; [by apply enqueue_popularity|].
  intros b2 w2 (sfx2 & E2). unfold mq_only in *.
  assert (∀ w', redis_only w2 w' → b1 = true →
    request_outcome rk action (l_VideoID l) (l_AccountID l) applied w (Ok tt) w') as Hqueued.
  { intros w' Ho Hb. destruct (Hb1 Hb) as (_ & p & -> & Hp). left. split.
    - by rewrite (redis_only_db _ _ Ho), E2, E1.
    - intros _. exists [], p, sfx2. split; [|done].
      rewrite (redis_only_mq _ _ Ho), E2, E1. simpl. by rewrite <-app_assoc. }
  assert (∀ (b : bool) w0 (Q : result unit → W → Prop),
    (∀ w', redis_only w0 w' → Q (Ok tt) w') →
    runs (st_bind (if negb b then UpdatePopularityCache (ls_cache s) (l_VideoID l) c
                   else st_ret tt) (λ _, st_ret (Ok tt))) w0 Q) as Hcache.
  { intros b w0 Q HQ. apply runs_bind. destruct b; simpl.
    - glue. apply HQ, redis_only_refl.
    - eapply runs_mono; [apply UpdatePopularityCache_only|]. intros. by glue; apply HQ. }
  destruct b1; simpl.
  - destruct b2; simpl; [glue; apply Hqueued; [apply redis_only_refl|done]|].
    apply runs_try, runs_ret. apply (Hcache false). intros. by apply Hqueued.
  - apply runs_try. call.
    + rewrite E2, E1 in Hv0 |- *. cbn [v_db set_mq] in *.
      specialize (Htx (clk w')). destruct (tx (clk w') (v_db (view w))) as [[[]|e] d']; simpl in *.
      * apply (Hcache b2). intros w3 Ho. right. split; [done|].
        by rewrite (redis_only_db _ _ Ho), Hv0.
      * apply outcome_error. by rewrite Hv0.
    + apply outcome_error. by rewrite Hv0, E2, E1.
Qed.

Lemma like_checks_runs l k w (Q : result unit → W → Prop) :
  keyed TVideo (v_db (view w)) →
  (∀ e w', view w' = view w → Q (Err e) w') →
  (∀ w', view w' = view w → l_VideoID l ≠ 0 → l_AccountID l ≠ 0 →
     is_Some (tget TVideo (v_db (view w)) !! l_VideoID l) →
     runs (k (bool_decide (pair_of l ∈ pairs (v_db (view w))))) w' Q) →
  runs (like_checks l k) w Q.
Proof.
  intros Hk Herr Hok. unfold like_checks.
  destruct (Z.eqb_spec (l_VideoID l) 0); [glue; by apply Herr|].
  destruct (Z.eqb_spec (l_AccountID l) 0); [glue; by apply Herr|]. cbn [orb].
  apply runs_try. apply IsExist_runs; [done| |by intros; apply Herr].
  intros w1 E1.
  destruct (bool_decide_reflect (is_Some (tget TVideo (v_db (view w)) !! l_VideoID l))) as [Hex|Hex];
    cbn [negb]; [|glue; by apply Herr].
  apply runs_try. apply IsLiked_runs; rewrite E1.
  - intros w2 E2. apply Hok; [congruence|done|done|done].
  - intros. apply Herr. congruence.
Qed.

Lemma outcome_same rk action v u applied w w0 r w' :
  view w0 = view w → request_outcome rk action v u applied w0 r w' →
  request_outcome rk action v u applied w r w'.
Proof. unfold request_outcome. by intros ->. Qed.

Lemma Like_outcome s l w :
  db_ok (v_db (view w)) → l_ID l = 0 →
  runs (LikeService_Like s l) w
    (request_outcome LikeRoutingKeyLike "like" (l_VideoID l) (l_AccountID l) like_applied w).
Proof.
  intros Hd Hid. unfold LikeService_Like. apply like_checks_runs; [apply Hd|..].
  { intros. apply outcome_error. congruence. }
  intros w1 E1 Hv Hu Hex. case_bool_decide as Hin; [glue; apply outcome_error; congruence|].
  call.
  eapply runs_mono; [apply (request_tail LikeRoutingKeyLike "like" (with_created_at (clk w') l) 1
    like_applied (λ t, eng_tx (like_tx (with_created_at (clk w') l) t))); try done|].
  - intros t. rewrite Hv0, E1.
    pose proof (like_tx_spec (with_created_at (clk w') l) t (v_db (view w)) Hd Hid) as Ht.
    destruct (eng_tx _ _) as [[|] d']; apply Ht.
  - intros r w2. apply outcome_same. congruence.
Qed.

Lemma Unlike_outcome s l w :
  db_ok (v_db (view w)) → counts_inv (v_db (view w)) →
  runs (LikeService_Unlike s l) w
    (request_outcome LikeRoutingKeyUnlike "unlike" (l_VideoID l) (l_AccountID l) unlike_applied w).
Proof.
  intros Hd Hc. unfold LikeService_Unlike. apply like_checks_runs; [apply Hd|..].
  { intros. apply outcome_error. congruence. }
  intros w1 E1 Hv Hu Hex. case_bool_decide as Hin; cbn [negb]; [|glue; apply outcome_error; congruence].
  eapply runs_mono; [apply (request_tail LikeRoutingKeyUnlike "unlike" l (-1)
    unlike_applied (λ _, eng_tx (unlike_tx l))); try done|].
  - intros t. rewrite E1. pose proof (unlike_tx_spec l (v_db (view w)) Hd Hc) as Ht.
    destruct (eng_tx _ _) as [[|] d']; apply Ht.
  - intros r w2. by apply outcome_same.
Qed.

(** With every service up, a request that passes its checks succeeds: through
    the queue where there is one, else in its transaction. *)
Lemma Like_up s l w :
  v_up (view w) = all_up → db_ok (v_db (view w)) → l_ID l = 0 → eng_fits TLike [] = true →
  l_VideoID l ≠ 0 → l_AccountID l ≠ 0 →
  is_Some (tget TVideo (v_db (view w)) !! l_VideoID l) → pair_of l ∉ pairs (v_db (view w)) →
  runs (LikeService_Like s l) w (λ r w', r = Ok tt ∧ v_up (view w') = all_up ∧
    if ls_likeMQ s
    then v_db (view w') = v_db (view w) ∧
         ∃ l1 p l2, v_mq (view w') = v_mq (view w) ++ l1 ++ p :: l2 ∧
                    like_pub LikeRoutingKeyLike "like" (l_AccountID l) (l_VideoID l) p
    else like_applied (l_VideoID l) (l_AccountID l) (v_db (view w)) (v_db (view w'))).
Proof.
  intros Hup Hd Hid Hfit Hv Hu Hex Hnot. unfold LikeService_Like, like_checks.
  destruct (Z.eqb_spec (l_VideoID l) 0), (Z.eqb_spec (l_AccountID l) 0); try done. cbn [orb].
  apply runs_try. apply IsExist_runs; [apply Hd| |rewrite Hup; done].
  intros w1 E1. rewrite bool_decide_eq_true_2 by done. cbn [negb].
  apply runs_try. apply IsLiked_runs; rewrite E1; [|rewrite Hup; done].
  intros w2 E2. rewrite bool_decide_eq_false_2 by done. call.
  apply runs_bind. eapply runs_mono; [by apply enqueue_like|].
  intros b1 w3 (sfx1 & E3 & Hb1 & Hdown). unfold mq_only in E3.
  assert (v_up (view w') = all_up) as Hup' by congruence.
  assert (b1 = ls_likeMQ s) as ->.
  { destruct b1; [symmetry; by apply Hb1|]. destruct (ls_likeMQ s); [|done].
    rewrite Hup' in Hdown. by destruct (Hdown eq_refl eq_refl). }
  apply runs_bind. eapply runs_mono; [by apply enqueue_popularity|].
  intros b2 w4 (sfx2 & E4). unfold mq_only in E4.
  assert (view w4 = set_mq (v_mq (view w) ++ sfx1 ++ sfx2) (view w)) as E.
  { rewrite E4, E3, Hv0, E2, ?E1. cbn [v_mq set_mq v_db v_rd v_lc v_up]. by rewrite <-app_assoc. }
  assert (∀ (b : bool) w0 (Q : result unit → W → Prop),
    (∀ w', redis_only w0 w' → Q (Ok tt) w') →
    runs (st_bind (if negb b then UpdatePopularityCache (ls_cache s) (l_VideoID l) 1
                   else st_ret tt) (λ _, st_ret (Ok tt))) w0 Q) as Hcache.
  { intros b w0 Q HQ. apply runs_bind. destruct b; simpl.
    - glue. apply HQ, redis_only_refl.
    - eapply runs_mono; [apply UpdatePopularityCache_only|]. intros. by glue; apply HQ. }
  destruct (ls_likeMQ s); cbn [andb negb with_created_at l_AccountID l_VideoID] in *.
  - destruct (Hb1 eq_refl) as (_ & p & -> & Hp).
    assert (∀ w', redis_only w4 w' → Ok tt = Ok tt ∧ v_up (view w') = all_up ∧
      v_db (view w') = v_db (view w) ∧ ∃ l1 p l2, v_mq (view w') = v_mq (view w) ++ l1 ++ p :: l2 ∧
        like_pub LikeRoutingKeyLike "like" (l_AccountID l) (l_VideoID l) p) as Hdone.
    { intros w5 Ho. rewrite (redis_only_up _ _ Ho), (redis_only_db _ _ Ho), (redis_only_mq _ _ Ho), E.
      split_and!; [done|done|done|]. by exists [], p, sfx2. }
    destruct b2; [glue; apply Hdone, redis_only_refl|].
    apply runs_try, runs_ret. apply (Hcache false). intros. by apply Hdone.
  - apply runs_try. call; [|rewrite E in Hu0; simpl in Hu0; rewrite Hup in Hu0; done].
    rewrite E in Hv1 |- *. cbn [v_db set_mq] in *.
    pose proof (like_tx_spec (with_created_at (clk w') l) (clk w'0) (v_db (view w)) Hd Hid) as Ht.
    destruct (eng_tx _ _) as [[[]|e] d']; simpl in *.
    + destruct Ht as [_ Ht]. apply (Hcache b2). intros w5 Ho.
      rewrite (redis_only_up _ _ Ho), (redis_only_db _ _ Ho), Hv1. by split_and!.
    + exfalso. destruct Ht as (_ & [[Hn _]|[[Hin _]|Hf]]); [|done|congruence].
      rewrite Hn in Hex. by destruct Hex.
Qed.

(** C5: whatever fails, a Like or Unlike request keeps every video's
    likes_count equal to the number of its likes; it reports success only when
    its change is in the database or its event is in the broker. *)
Theorem like_requests_consistent s l w (unlike : bool) :
  db_ok (v_db (view w)) → counts_inv (v_db (view w)) → l_ID l = 0 →
  runs (if unlike then LikeService_Unlike s l else LikeService_Like s l) w (λ r w',
    db_ok (v_db (view w')) ∧ counts_inv (v_db (view w')) ∧
    (r = Ok tt →
      (if unlike then (l_VideoID l, l_AccountID l) ∉ pairs (v_db (view w'))
       else (l_VideoID l, l_AccountID l) ∈ pairs (v_db (view w'))) ∨
      ∃ l1 p l2, v_mq (view w') = v_mq (view w) ++ l1 ++ p :: l2 ∧
        like_pub (if unlike then LikeRoutingKeyUnlike else LikeRoutingKeyLike)
          (if unlike then "unlike" else "like") (l_AccountID l) (l_VideoID l) p)).
Proof.
  intros Hd Hc Hid. destruct unlike.
  - eapply runs_mono; [by apply Unlike_outcome|].
    intros r w' [[E Hq]|[-> Happ]]; [rewrite E; by eauto|].
    pose proof Happ as (Hd' & _ & _ & Hp & _).
    split_and!; [done|by eapply counts_unlike|]. intros _. left. rewrite Hp. set_solver.
  - eapply runs_mono; [by apply Like_outcome|].
    intros r w' [[E Hq]|[-> Happ]]; [rewrite E; by eauto|].
    pose proof Happ as (Hd' & _ & _ & Hp & _).
    split_and!; [done|by eapply counts_like|]. intros _. left. rewrite Hp. set_solver.
Qed.
End service.

(** ** The worker *)
Section worker.
Context {W : Type} `{WorldLaws W} `{SqlLaws}.
Hypothesis Hfits : eng_fits TLike [] = true.
Implicit Types w : W.

(** What one like or unlike event does to the tables. *)
Definition like_effect (v u : Z) (d d' : Db) : Prop :=
  if decide (is_Some (tget TVideo d !! v) ∧ (v, u) ∉ pairs d)
  then like_applied v u d d' else d' = d.
Definition unlike_effect (v u : Z) (d d' : Db) : Prop :=
  if decide (is_Some (tget TVideo d !! v) ∧ (v, u) ∈ pairs d)
  then unlike_applied v u d d' else d' = d.

Lemma exec_runs (f : Z → Db → result unit * Db) w (Q : result unit → W → Prop) d' :
  up_db (v_up (view w)) = true → (∀ t, f t (v_db (view w)) = (Ok tt, d')) →
  (∀ w', view w' = set_db d' (view w) → Q (Ok tt) w') → runs (sql f) w Q.
Proof.
  intros Hup Hf HQ. call; [|congruence]. rewrite Hf in Hv |- *. by apply HQ.
Qed.

(** The two counter updates of the worker, after the row. *)
Lemma change_counts v c (h : Video → Video) d d0 w (Q : result unit → W → Prop) :
  up_db (v_up (view w)) = true → v_db (view w) = d0 → db_ok d0 →
  tget TVideo d0 = tget TVideo d →
  (∀ R (T : table R), table_eqb T TLike = false → tget T d0 = tget T d) →
  (∀ r, tget TVideo d !! v = Some r → add_popularity c (add_likes c r) = h r) →
  (∀ w' d', view w' = set_db d' (view w) → db_ok d' → only_likes d d' →
     pairs d' = pairs d0 → tget TVideo d' = alter h v (tget TVideo d) → Q (Ok tt) w') →
  runs (st_try (ChangeLikesCount v c) (λ _, ChangePopularity v c)) w Q.
Proof.
  intros Hup Ew Hd Ev Hsame Hh HQ.
  destruct (update_twice v always (add_likes c) always (add_popularity c) h d d0)
    as (E1 & E2 & Hd2 & Ho & Hp & Hv); [done..|by intros r E; split; [|apply Hh]|].
  apply runs_try. eapply exec_runs; [done|intros t; rewrite Ew; exact E1|].
  intros w1 Ew1. eapply exec_runs; [by rewrite Ew1|intros t; rewrite Ew1; exact E2|].
  intros w2 Ew2. eapply HQ; [|exact Hd2|exact Ho|exact Hp|exact Hv].
  rewrite Ew2, Ew1. by destruct (view w).
Qed.

Lemma applyLike_up u v w :
  up_db (v_up (view w)) = true → db_ok (v_db (view w)) → counts_inv (v_db (view w)) →
  u ≠ 0 → v ≠ 0 →
  runs (applyLike u v) w (λ r w', r = Ok tt ∧
    ∃ d', view w' = set_db d' (view w) ∧ like_effect v u (v_db (view w)) d').
Proof.
  intros Hup Hd Hc Hu Hv. unfold applyLike. set (d := v_db (view w)) in *.
  assert (∀ w', view w' = view w → ¬ (is_Some (tget TVideo d !! v) ∧ (v, u) ∉ pairs d) →
    ∃ d', view w' = set_db d' (view w) ∧ like_effect v u d d') as Hskip.
  { intros w' E Hn. exists d. split; [|unfold like_effect; by rewrite decide_False].
    rewrite E. unfold d. by destruct (view w). }
  apply runs_try. apply IsExist_runs; [apply Hd| |congruence].
  intros w1 E1. fold d.
  destruct (bool_decide_reflect (is_Some (tget TVideo d !! v))) as [Hex|Hex]; cbn [negb].
  2:{ glue. split; [done|]. apply Hskip; tauto. }
  call. unfold LikeIgnoreDuplicate. simpl.
  destruct (Z.eqb_spec v 0), (Z.eqb_spec u 0); try done. cbn [orb].
  call; [|rewrite Hv0, E1 in Hu0; congruence]. rewrite Hv0, E1 in Hv1 |- *. fold d in Hv1 |- *.
  destruct (create_like (mkLike 0 v u (clk w')) (clk w'0) d Hd eq_refl)
    as [(Hn & l' & d0 & E & Hd0 & Hp & Hsame)|[(Hin & E)|(Hm & _)]]; [| |congruence];
    rewrite E in Hv1 |- *; cbn [fst snd] in Hv1; glue; cbn [negb].
  - unfold pair_of in Hn, Hp. simpl in Hn, Hp. assert (∀ d', like_applied v u d d' → like_effect v u d d') as Heff
      by (intros d' Ha; unfold like_effect; by rewrite decide_True).
    apply (change_counts v 1 liked d d0); try done.
    + by rewrite Hv1.
    + by rewrite Hv1.
    + by apply Hsame.
    + intros r Er. destruct (Hc _ _ Er) as [Hl Hpop]. unfold likes_of in Hl.
      unfold liked, add_popularity, add_likes, popularity_plus, likes_plus. simpl. f_equal; lia.
    + intros w2 d2 Ew2 Hd2 Ho Hp2 Hv2. split; [done|]. exists d2. split.
      * rewrite Ew2, Hv1. by destruct (view w).
      * apply Heff. split_and!; [done|done|done|by rewrite Hp2, Hp|done].
  - glue. split; [done|]. unfold pair_of in Hin. simpl in Hin.
    apply Hskip; [|tauto]. rewrite Hv1. unfold d. by destruct (view w).
Qed.

Lemma applyUnlike_up u v w :
  up_db (v_up (view w)) = true → db_ok (v_db (view w)) → counts_inv (v_db (view w)) →
  u ≠ 0 → v ≠ 0 →
  runs (applyUnlike u v) w (λ r w', r = Ok tt ∧
    ∃ d', view w' = set_db d' (view w) ∧ unlike_effect v u (v_db (view w)) d').
Proof.
  intros Hup Hd Hc Hu Hv. unfold applyUnlike. set (d := v_db (view w)) in *.
  assert (∀ w', view w' = view w → ¬ (is_Some (tget TVideo d !! v) ∧ (v, u) ∈ pairs d) →
    ∃ d', view w' = set_db d' (view w) ∧ unlike_effect v u d d') as Hskip.
  { intros w' E Hn. exists d. split; [|unfold unlike_effect; by rewrite decide_False].
    rewrite E. unfold d. by destruct (view w). }
  apply runs_try. apply IsExist_runs; [apply Hd| |congruence].
  intros w1 E1. fold d.
  destruct (bool_decide_reflect (is_Some (tget TVideo d !! v))) as [Hex|Hex]; cbn [negb].
  2:{ glue. split; [done|]. apply Hskip; tauto. }
  unfold DeleteByVideoAndAccount.
  destruct (Z.eqb_spec v 0), (Z.eqb_spec u 0); try done. cbn [orb].
  call; [|rewrite E1 in Hu0; congruence]. rewrite E1 in Hv0 |- *. fold d in Hv0 |- *.
  destruct (delete_like v u d Hd) as (k & d0 & E & Hd0 & Hn & _ & Hp & Hsame & Hid).
  rewrite E in Hv0 |- *. cbn [fst snd] in Hv0. glue. rewrite Hn.
  destruct (bool_decide_reflect ((v, u) ∈ pairs d)) as [Hin|Hin]; cbn [negb].
  - assert (∀ d', unlike_applied v u d d' → unlike_effect v u d d') as Heff
      by (intros d' Ha; unfold unlike_effect; by rewrite decide_True).
    apply (change_counts v (-1) unliked d d0); try done.
    + by rewrite Hv0.
    + by rewrite Hv0.
    + by apply Hsame.
    + intros r Er. destruct (Hc _ _ Er) as [Hl Hpop]. pose proof (likes_of_pos _ _ _ Hin).
      unfold unliked, add_popularity, add_likes, popularity_plus, likes_plus. simpl. f_equal; lia.
    + intros w2 d2 Ew2 Hd2 Ho Hp2 Hv2. split; [done|]. exists d2. split.
      * rewrite Ew2, Hv0. by destruct (view w).
      * apply Heff. split_and!; [done|done|done|by rewrite Hp2, Hp|done].
  - glue. split; [done|]. apply Hskip; [|tauto]. rewrite Hv0, Hid by done.
    unfold d. by destruct (view w).
Qed.

Definition event_effect (evt : LikeEvent) (d d' : Db) : Prop :=
  if String.eqb (le_Action evt) "like" then like_effect (le_VideoID evt) (le_UserID evt) d d'
  else unlike_effect (le_VideoID evt) (le_UserID evt) d d'.

Definition event_valid (evt : LikeEvent) : bool :=
  is_uint (le_UserID evt) && is_uint (le_VideoID evt) &&
  negb (le_UserID evt =? 0) && negb (le_VideoID evt =? 0) &&
  (String.eqb (le_Action evt) "like" || String.eqb (le_Action evt) "unlike").

Lemma process_up evt w :
  up_db (v_up (view w)) = true → db_ok (v_db (view w)) → counts_inv (v_db (view w)) →
  event_valid evt = true →
  runs (LikeWorker_process (marshal_like evt)) w (λ r w', r = Ok tt ∧
    ∃ d', view w' = set_db d' (view w) ∧ event_effect evt (v_db (view w)) d').
Proof.
  intros Hup Hd Hc Hev. unfold event_valid in Hev. bool_to_prop.
  unfold LikeWorker_process, event_effect.
  rewrite unmarshal_marshal_like by (apply andb_true_iff; done).
  destruct (Z.eqb_spec (le_UserID evt) 0), (Z.eqb_spec (le_VideoID evt) 0); try done. cbn [orb].
  destruct (String.eqb (le_Action evt) "like"); [by apply applyLike_up|].
  destruct (String.eqb (le_Action evt) "unlike"); [by apply applyUnlike_up|].
  naive_solver.
Qed.

Lemma effect_inv evt d d' :
  event_effect evt d d' → db_ok d → counts_inv d → db_ok d' ∧ counts_inv d'.
Proof.
  unfold event_effect, like_effect, unlike_effect. intros He Hd Hc.
  destruct (String.eqb _ _); case_decide; subst; try done.
  - split; [apply He|by eapply counts_like].
  - split; [apply He|by eapply counts_unlike].
Qed.

(** an event applied to its own result changes nothing *)
Lemma effect_again evt d d1 d2 :
  event_effect evt d d1 → event_effect evt d1 d2 → d2 = d1.
Proof.
  unfold event_effect, like_effect, unlike_effect. intros H1' H2'.
  destruct (String.eqb _ _); repeat case_decide; subst; try done; exfalso.
  - destruct H1' as (_ & _ & _ & Hp & _). set_solver.
  - destruct H1' as (_ & _ & _ & Hp & _). set_solver.
Qed.

(** With the database up, the worker keeps the counters right, and an
    event delivered a second time changes nothing: redelivery is harmless. *)
Theorem like_worker_idempotent evt w :
  up_db (v_up (view w)) = true → db_ok (v_db (view w)) → counts_inv (v_db (view w)) →
  event_valid evt = true →
  runs (LikeWorker_process (marshal_like evt)) w (λ r1 w1,
    runs (LikeWorker_process (marshal_like evt)) w1 (λ r2 w2,
      r1 = Ok tt ∧ r2 = Ok tt ∧ counts_inv (v_db (view w1)) ∧ view w2 = view w1)).
Proof.
  intros Hup Hd Hc Hev. eapply runs_mono; [by apply process_up|].
  intros r1 w1 (-> & d1 & E1 & He1).
  destruct (effect_inv _ _ _ He1 Hd Hc) as [Hd1 Hc1].
  assert (v_db (view w1) = d1) as Ed1 by (by rewrite E1).
  eapply runs_mono; [apply process_up; rewrite ?Ed1; try done; by rewrite E1|].
  intros r2 w2 (-> & d2 & E2 & He2). rewrite Ed1 in *.
  apply (effect_again _ _ _ _ He1) in He2 as ->.
  split_and!; [done|done|done|]. rewrite E2, E1. by destruct (view w).
Qed.

(** C8: with every service up, a like that goes through the queue and the
    worker ends with the same likes and the same videos as a like that the
    request writes itself. *)
Theorem queued_like_equals_direct `{RedisServer} cache pm1 pm2 l w r1 w1 r2 w2 :
  v_up (view w) = all_up → db_ok (v_db (view w)) → counts_inv (v_db (view w)) →
  l_ID l = 0 → l_VideoID l ≠ 0 → l_AccountID l ≠ 0 →
  is_uint (l_VideoID l) && is_uint (l_AccountID l) = true →
  is_Some (tget TVideo (v_db (view w)) !! l_VideoID l) → pair_of l ∉ pairs (v_db (view w)) →
  LikeService_Like (mkLikeService cache false pm1) l w = (r1, w1) →
  LikeService_Like (mkLikeService cache true pm2) l w = (r2, w2) →
  r1 = Ok tt ∧ r2 = Ok tt ∧
  ∃ l1 p l2, v_mq (view w2) = v_mq (view w) ++ l1 ++ p :: l2 ∧
    runs (LikeWorker_process (p_Body p)) w2 (λ r3 w3, r3 = Ok tt ∧
      pairs (v_db (view w3)) = pairs (v_db (view w1)) ∧
      tget TVideo (v_db (view w3)) = tget TVideo (v_db (view w1))).
Proof.
  intros Hup Hd Hc Hid Hv Hu [Rv Ru]%andb_true_iff Hex Hnot Hrun1 Hrun2.
  eapply runs_elim in Hrun1; [|by eapply (Like_up (mkLikeService cache false pm1))].
  eapply runs_elim in Hrun2; [|by eapply (Like_up (mkLikeService cache true pm2))].
  destruct Hrun1 as (-> & _ & Ha), Hrun2 as (-> & Hup2 & Edb & l1 & p & l2 & Emq & _ & _ & id & t & Eb).
  split_and!; [done|done|]. exists l1, p, l2. split; [done|]. rewrite Eb.
  eapply runs_mono; [apply process_up; rewrite ?Edb, ?Hup2; try done|].
  { unfold event_valid. cbn [le_UserID le_VideoID le_Action]. rewrite Rv, Ru.
    by destruct (Z.eqb_spec (l_AccountID l) 0), (Z.eqb_spec (l_VideoID l) 0). }
  intros r3 w3 (-> & d' & E3 & He). split; [done|]. rewrite E3. simpl. rewrite Edb in He.
  unfold event_effect, like_effect in He. simpl in He.
  rewrite decide_True in He by done. destruct He as (_ & _ & _ & Hp & Ht).
  destruct Ha as (_ & _ & _ & Hp' & Ht'). simpl in *. by rewrite Hp, Hp', Ht, Ht'.
Qed.
End worker.

(** ** Concrete worlds *)
Definition like_db : Db :=
  tset TVideo {[1 := mkVideo 1 7 "ann" "t" "" "p" "c" 1000 0 0]} empty_db.
Definition a_like : Like := mkLike 0 1 9 zero_time.
Definition like_evt : LikeEvent := mkLikeEvent "e" "like" 9 1 5.

(** The database fails the fourth call and answers every other one. *)
Definition flaky_world : RefW :=
  mkRefW (mkView like_db ∅ [] ∅ (mkUp false true true true)) 0 0
    [false; false; false; true; false; false; false; false; false; false].

(** The worker's three statements are not one transaction: a failure
    between the insertion of the like and the counter update is reported, the
    redelivered event is then taken for a duplicate and acknowledged, and the
    video keeps one like with a likes_count of zero. *)
Theorem like_worker_drift :
  let '(r1, w1) := LikeWorker_process (marshal_like like_evt) flaky_world in
  let '(r2, w2) := LikeWorker_process (marshal_like like_evt) w1 in
  is_ok r1 = false ∧ r2 = Ok tt ∧
  likes_of 1 (v_db (view w2)) = 1 ∧
  (v_LikesCount <$> tget TVideo (v_db (view w2)) !! 1) = Some 0.
Proof. vm_compute. by split_and!. Qed.

Lemma like_db_inv k r :
  tget TVideo like_db !! k = Some r → k = 1 ∧ r = mkVideo 1 7 "ann" "t" "" "p" "c" 1000 0 0.
Proof. unfold like_db. rewrite tget_tset. by intros [<- <-]%lookup_singleton_Some. Qed.

Lemma like_db_ok : db_ok like_db.
Proof.
  apply db_ok_tset; [apply db_ok_empty|]. split_and!.
  - by intros k r [-> ->]%like_db_inv.
  - by intros k1 k2 r1 r2 [-> ->]%like_db_inv [-> ->]%like_db_inv.
  - intros k r [-> ->]%like_db_inv. lia.
Qed.

Lemma like_db_counts : counts_inv like_db.
Proof. by intros k r [-> ->]%like_db_inv. Qed.

Lemma a_like_fresh : pair_of a_like ∉ pairs like_db.
Proof. apply (bool_decide_eq_false_1 (pair_of a_like ∈ pairs like_db)). by vm_compute. Qed.

Lemma like_requests_consistent_witness :
  let w := ref_start like_db 5 in
  runs (LikeService_Like (mkLikeService None false false) a_like) w (λ r w',
    db_ok (v_db (view w')) ∧ counts_inv (v_db (view w')) ∧
    (r = Ok tt →
      (1, 9) ∈ pairs (v_db (view w')) ∨
      ∃ l1 p l2, v_mq (view w') = v_mq (view w) ++ l1 ++ p :: l2 ∧
        like_pub LikeRoutingKeyLike "like" 9 1 p)).
Proof.
  intros w. exact (like_requests_consistent (mkLikeService None false false) a_like w false
           like_db_ok like_db_counts eq_refl).
Defined.

Lemma like_worker_idempotent_witness :
  let w := ref_start like_db 5 in
  runs (LikeWorker_process (marshal_like like_evt)) w (λ r1 w1,
    runs (LikeWorker_process (marshal_like like_evt)) w1 (λ r2 w2,
      r1 = Ok tt ∧ r2 = Ok tt ∧ counts_inv (v_db (view w1)) ∧ view w2 = view w1)).
Proof.
  intros w. exact (like_worker_idempotent (eq_refl : @eng_fits ref_engine _ TLike [] = true) like_evt w eq_refl like_db_ok like_db_counts eq_refl).
Defined.

Lemma queued_like_equals_direct_witness :
  let w := ref_start like_db 5 in
  let w1 := (LikeService_Like (mkLikeService None false false) a_like w).2 in
  let '(r2, w2) := LikeService_Like (mkLikeService None true false) a_like w in
  r2 = Ok tt ∧
  ∃ l1 p l2, v_mq (view w2) = v_mq (view w) ++ l1 ++ p :: l2 ∧
    runs (LikeWorker_process (p_Body p)) w2 (λ r3 w3, r3 = Ok tt ∧
      pairs (v_db (view w3)) = pairs (v_db (view w1)) ∧
      tget TVideo (v_db (view w3)) = tget TVideo (v_db (view w1))).
Proof.
  intros w w1. destruct (LikeService_Like (mkLikeService None true false) a_like w) as [r2 w2] eqn:E2.
  destruct (@queued_like_equals_direct RefW ref_world ref_world_laws ref_engine ref_sql_laws
              eq_refl ref_redis None false false a_like w
              (LikeService_Like (mkLikeService None false false) a_like w).1 w1 r2 w2
              eq_refl like_db_ok like_db_counts eq_refl ltac:(discriminate) ltac:(discriminate)
              eq_refl ltac:(vm_compute; eauto) a_like_fresh (surjective_pairing _) E2)
    as (_ & H2 & H3).
  split; assumption.
Defined.
