(* ===== verification/LikeRaces.v ===== *)
(** Likes under concurrency.  The like worker writes a like and its counters in
    separate statements, so those of other workers, and the transactions of the
    API servers, come in between.  The statements make a transition system that
    the programs refine; in every interleaving the counters never fall behind
    the likes, and they may run ahead. *)
From S2P Require Import Prelude GoStd Query Entities Json Services RedisFacts RedisClient Mq.
From S2P Require Import DbFacts Frames Http Video VideoCaches Like LikeFacts.
Local Open Scope Z_scope.
Local Open Scope go_scope.

(** ** The transition system

    The database, and the changes of likes_count that are due: (video, +1) once
    a worker has inserted a like, (video, -1) once it has deleted one, until its
    next statement. *)
Definition LState : Type := Db * list (Z * Z).

(** [likes_count + c] is not cut off at 0. *)
Definition in_reach (v c : Z) (d : Db) : Prop :=
  ∀ r, tget TVideo d !! v = Some r → 0 ≤ v_LikesCount r + c.

(** With [exact], no counter is cut off at 0. *)
Inductive lstep `{SqlEngine} (exact : bool) : LState → LState → Prop :=
| lstep_insert d todo v u at_ t l d' :
    is_Some (tget TVideo d !! v) →
    eng_create TLike (mkLike 0 v u at_) t d = (Ok l, d') →
    lstep exact (d, todo) (d', (v, 1) :: todo)
| lstep_delete d todo v u n d' :
    eng_delete TLike (is_like v u) d = (Ok n, d') → 0 < n →
    lstep exact (d, todo) (d', (v, -1) :: todo)
| lstep_count d todo1 v c todo2 d' :
    (exact = true → in_reach v c d) →
    exec (eng_update TVideo (where_id TVideo v always) (add_likes c) d) = (Ok tt, d') →
    lstep exact (d, todo1 ++ (v, c) :: todo2) (d', todo1 ++ todo2)
(** the transactions of the API servers *)
| lstep_like d todo l t d' :
    l_ID l = 0 → eng_tx (like_tx l t) d = (Ok tt, d') →
    lstep exact (d, todo) (d', todo)
| lstep_unlike d todo l d' :
    (exact = true → in_reach (l_VideoID l) (-1) d) →
    eng_tx (unlike_tx l) d = (Ok tt, d') →
    lstep exact (d, todo) (d', todo)
(** everything else: other tables and columns, new videos *)
| lstep_else d todo d' :
    db_ok d' → tget TLike d' = tget TLike d →
    (∀ k r, tget TVideo d !! k = Some r →
       ∃ r', tget TVideo d' !! k = Some r' ∧ v_LikesCount r' = v_LikesCount r) →
    (∀ k r', tget TVideo d !! k = None → tget TVideo d' !! k = Some r' → v_LikesCount r' = 0) →
    lstep exact (d, todo) (d', todo).

Definition due (k : Z) (todo : list (Z * Z)) : Z :=
  foldr Z.add 0 (snd <$> filter (λ vc : Z * Z, vc.1 = k) todo).

(** Likes are for videos that exist. *)
Definition likes_refer (d : Db) : Prop :=
  ∀ v u, (v, u) ∈ pairs d → is_Some (tget TVideo d !! v).

Definition linv `{Collation} (exact : bool) (s : LState) : Prop :=
  let '(d, todo) := s in
  db_ok d ∧ likes_refer d ∧ (∀ v c, (v, c) ∈ todo → is_Some (tget TVideo d !! v)) ∧
  ∀ k r, tget TVideo d !! k = Some r →
    0 ≤ v_LikesCount r ∧ likes_of k d ≤ v_LikesCount r + due k todo ∧
    (exact = true → likes_of k d = v_LikesCount r + due k todo).

Lemma due_cons k v c todo : due k ((v, c) :: todo) = (if decide (v = k) then c else 0) + due k todo.
Proof.
  unfold due. destruct (decide (v = k)) as [Hv|Hv].
  - by rewrite filter_cons_True by exact Hv.
  - by rewrite filter_cons_False by exact Hv.
Qed.
Lemma due_middle k v c todo1 todo2 :
  due k (todo1 ++ (v, c) :: todo2) = (if decide (v = k) then c else 0) + due k (todo1 ++ todo2).
Proof.
  induction todo1 as [|[v' c'] todo1 IH]; [apply due_cons|].
  cbn [app]. rewrite !due_cons, IH. lia.
Qed.

Lemma likes_of_add v u k d d' :
  (v, u) ∉ pairs d → pairs d' = {[(v, u)]} ∪ pairs d →
  likes_of k d' = likes_of k d + (if decide (v = k) then 1 else 0).
Proof. intros Hn Hp. unfold likes_of. rewrite Hp. by apply likes_of_insert. Qed.
Lemma likes_of_remove v u k d d' :
  (v, u) ∈ pairs d → pairs d' = pairs d ∖ {[(v, u)]} →
  likes_of k d' = likes_of k d - (if decide (v = k) then 1 else 0).
Proof.
  intros Hin Hp. assert (pairs d = {[(v, u)]} ∪ pairs d') as E.
  { rewrite Hp. by apply union_difference_singleton_L. }
  rewrite (likes_of_add v u k d' d) by (done || rewrite Hp; set_solver). lia.
Qed.

Section invariant.
Context `{SqlLaws}.

(** *** What the statements do to the counter *)
Lemma lookup_at_row g f v d k :
  tget TVideo (at_row TVideo v g f d) !! k =
    (λ r, if decide (k = v) then (if g r then f r else r) else r) <$> tget TVideo d !! k.
Proof.
  rewrite tget_at_row. destruct (decide (k = v)) as [->|Hne].
  - destruct (tget TVideo d !! v) as [r|] eqn:E; simpl; [|done].
    destruct (g r); [by rewrite lookup_insert_eq|done].
  - destruct (tget TVideo d !! v) as [r|]; [destruct (g r)|]; rewrite ?lookup_insert_ne by done;
      by destruct (tget TVideo d !! k).
Qed.

(** [likes_count] of video [v] is [f] of what it was, the other videos' are
    kept; the same videos exist. *)
Definition recount (v : Z) (f : Z → Z) (d d' : Db) : Prop :=
  ∀ k, v_LikesCount <$> tget TVideo d' !! k =
    (λ n, if decide (k = v) then f n else n) <$> (v_LikesCount <$> tget TVideo d !! k).

Lemma recount_at_row v (g : Video → bool) (h : Video → Video) f d :
  (∀ r, tget TVideo d !! v = Some r → v_LikesCount (if g r then h r else r) = f (v_LikesCount r)) →
  recount v f d (at_row TVideo v g h d).
Proof.
  intros Hf k. rewrite lookup_at_row. destruct (decide (k = v)) as [->|Hne].
  - destruct (tget TVideo d !! v) as [r|]; simpl; [|done]. by rewrite Hf.
  - by destruct (tget TVideo d !! k).
Qed.

Lemma recount_trans v f1 f2 f d1 d2 d3 :
  recount v f1 d1 d2 → recount v f2 d2 d3 → (∀ n, f n = f2 (f1 n)) → recount v f d1 d3.
Proof.
  intros H1 H2 Hf k. rewrite H2, H1. destruct (tget TVideo d1 !! k); simpl; [|done]. f_equal.
  case_decide; by rewrite ?Hf.
Qed.

Lemma recount_lookup v f d d' k r' :
  recount v f d d' → tget TVideo d' !! k = Some r' →
  ∃ r, tget TVideo d !! k = Some r ∧ v_LikesCount r' = if decide (k = v) then f (v_LikesCount r) else v_LikesCount r.
Proof.
  intros Hr E. specialize (Hr k). rewrite E in Hr. destruct (tget TVideo d !! k) as [r|]; [|done].
  exists r. split; [done|]. by injection Hr.
Qed.
Lemma recount_exists v f d d' k : recount v f d d' → is_Some (tget TVideo d !! k) → is_Some (tget TVideo d' !! k).
Proof.
  intros Hr [r E]. specialize (Hr k). rewrite E in Hr. destruct (tget TVideo d' !! k); [by eexists|done].
Qed.
Lemma recount_same d d' v : tget TVideo d' = tget TVideo d → recount v (λ n, n) d d'.
Proof. intros E k. rewrite E. destruct (tget TVideo d !! k); simpl; [|done]. by case_decide. Qed.

Lemma unlike_tx_any l d d' :
  db_ok d → (∀ r, tget TVideo d !! l_VideoID l = Some r → 0 ≤ v_LikesCount r) →
  eng_tx (unlike_tx l) d = (Ok tt, d') →
  db_ok d' ∧ (l_VideoID l, l_AccountID l) ∈ pairs d ∧ pairs d' = pairs d ∖ {[(l_VideoID l, l_AccountID l)]} ∧
  recount (l_VideoID l) (λ n, Z.max (n - 1) 0) d d'.
Proof.
  intros Hd Hpos. rewrite law_tx. unfold unlike_tx, st_try, st_bind.
  destruct (delete_like (l_VideoID l) (l_AccountID l) d Hd)
    as (n & d0 & -> & Hd0 & Hn & Hn0 & Hp & Hsame & _).
  destruct (Z.eqb_spec n 0) as [->|Hne]; [done|].
  destruct (update_video (l_VideoID l) (λ v, 0 <? v_LikesCount v) (likes_plus (-1)) d0) as [-> Hd1]; [done..|].
  set (d1 := at_row _ _ _ _ d0) in *. cbv beta iota.
  destruct (update_video (l_VideoID l) (λ v, 0 <? v_Popularity v) (popularity_plus (-1)) d1) as [-> Hd2]; [done..|].
  set (d2 := at_row _ _ _ _ d1) in *. intros [= <-]. split; [done|]. split; [|split].
  - destruct (bool_decide_reflect ((l_VideoID l, l_AccountID l) ∈ pairs d)); [done|].
    apply Z.ltb_ge in Hn. lia.
  - unfold d2, d1. by rewrite !pairs_at_row.
  - eapply (recount_trans _ (λ n, Z.max (n - 1) 0) (λ n, n)); [|apply recount_at_row|done].
    + eapply (recount_trans _ (λ n, n)); [by apply recount_same, Hsame|apply recount_at_row|done].
      intros r. rewrite (Hsame _ TVideo) by done. intros Er. apply Hpos in Er.
      destruct (Z.ltb_spec 0 (v_LikesCount r)); simpl; lia.
    + intros r _. by destruct (0 <? v_Popularity r).
Qed.

(** *** Every step keeps the invariant *)
Section steps.
Variables (exact : bool) (d : Db) (todo : list (Z * Z)).
Hypothesis Hinv : linv exact (d, todo).
Abbreviation exists_video v := (is_Some (tget TVideo d !! v)).

(** A step that changes the counter of one video: by as much as the likes and
    what is due of them change, or by more. *)
Lemma linv_recount d' todo' v f :
  db_ok d' → recount v f d d' →
  (∀ x u, (x, u) ∈ pairs d' → (x, u) ∈ pairs d ∨ exists_video x) →
  (∀ x c, (x, c) ∈ todo' → (x, c) ∈ todo ∨ exists_video x) →
  (∀ k n, 0 ≤ n → let n' := if decide (k = v) then f n else n in
     let gain := n' + due k todo' - (n + due k todo) in
     0 ≤ n' ∧ likes_of k d' - likes_of k d ≤ gain ∧
     (exact = true → (∃ r, tget TVideo d !! k = Some r ∧ v_LikesCount r = n) →
      likes_of k d' - likes_of k d = gain)) →
  linv exact (d', todo').
Proof.
  destruct Hinv as (Hd & Href & Htd & Hc). intros Hd' Hr Hp Ht Hk. split; [done|]. split_and!.
  - intros x u Hin. eapply recount_exists; [done|]. destruct (Hp x u Hin) as [?|?]; [by eapply Href|done].
  - intros x c Hin. eapply recount_exists; [done|]. destruct (Ht x c Hin) as [?|?]; [by eapply Htd|done].
  - intros k r' E. destruct (recount_lookup _ _ _ _ _ _ Hr E) as (r & Er & ->).
    destruct (Hc k r Er) as (Hpos & Hle & Hex). destruct (Hk k (v_LikesCount r) Hpos) as (H1 & H2 & H3).
    split; [done|]. split; [lia|]. intros Hx. specialize (Hex Hx). specialize (H3 Hx ltac:(eauto)). lia.
Qed.

Lemma linv_insert v u at_ t l d' :
  exists_video v → eng_create TLike (mkLike 0 v u at_) t d = (Ok l, d') → linv exact (d', (v, 1) :: todo).
Proof.
  intros Hex Hc. destruct (create_like (mkLike 0 v u at_) t d (proj1 Hinv) eq_refl)
    as [(Hn & l' & d0 & E & Hd0 & Hp & Hsame)|[(_ & E)|(_ & code & E)]]; rewrite E in Hc; simplify_eq.
  unfold pair_of in Hn, Hp. simpl in Hn, Hp.
  eapply (linv_recount d' _ v (λ n, n)); [done|by apply recount_same, Hsame| | |].
  - intros x y. rewrite Hp, elem_of_union, elem_of_singleton. intros [[= -> ->]|?]; auto.
  - intros x c [[= -> ->]|?]%elem_of_cons; auto.
  - intros k n Hpos. rewrite due_cons, (likes_of_add v u k d d') by done. repeat case_decide; lia.
Qed.

Lemma linv_delete v u n d' :
  eng_delete TLike (is_like v u) d = (Ok n, d') → 0 < n → linv exact (d', (v, -1) :: todo).
Proof.
  intros Hdel Hn. destruct (delete_like v u d (proj1 Hinv)) as (n0 & d0 & E & Hd0 & Hb & _ & Hp & Hsame & _).
  rewrite E in Hdel. simplify_eq.
  destruct (bool_decide_reflect ((v, u) ∈ pairs d)) as [Hin|]; [|apply Z.ltb_ge in Hb; lia].
  eapply (linv_recount d' _ v (λ n, n)); [done|by apply recount_same, Hsame| | |].
  - intros x y. rewrite Hp. set_solver.
  - intros x c [[= -> ->]|?]%elem_of_cons; [right; by apply (proj1 (proj2 Hinv) v u)|auto].
  - intros k m Hpos. rewrite due_cons, (likes_of_remove v u k d d') by done. repeat case_decide; lia.
Qed.

Lemma linv_unlike l d' :
  (exact = true → in_reach (l_VideoID l) (-1) d) → eng_tx (unlike_tx l) d = (Ok tt, d') →
  linv exact (d', todo).
Proof.
  intros Hx Htx. destruct Hinv as (Hd & _ & _ & Hcs).
  destruct (unlike_tx_any l d d') as (Hd1 & Hin & Hp & Hr); [done| |done|].
  { intros r Er. by apply (Hcs _ _ Er). }
  eapply (linv_recount d' _ (l_VideoID l)); [done|exact Hr| |by auto|].
  - intros x y. rewrite Hp. set_solver.
  - intros k m Hpos. rewrite (likes_of_remove _ _ k d d' Hin Hp). cbv zeta.
    destruct (decide (k = l_VideoID l)) as [->|Hne];
      [rewrite decide_True by done|rewrite decide_False by done; lia].
    split; [lia|]. split; [lia|]. intros Hex (r & Er & <-). specialize (Hx Hex r Er). lia.
Qed.

Lemma linv_like l t d' :
  l_ID l = 0 → eng_tx (like_tx l t) d = (Ok tt, d') → linv exact (d', todo).
Proof.
  intros Hid Htx. pose proof (like_tx_spec l t d (proj1 Hinv) Hid) as Ht. rewrite Htx in Ht.
  destruct Ht as (Hex & Hd1 & _ & Hn & Hp & Hv).
  eapply (linv_recount d' _ (l_VideoID l) (λ n, n + 1)); [done| | |by auto|].
  - intros k. rewrite Hv. destruct (decide (k = l_VideoID l)) as [->|Hne].
    + rewrite lookup_alter_eq. by destruct (tget TVideo d !! l_VideoID l).
    + rewrite lookup_alter_ne by done. by destruct (tget TVideo d !! k).
  - intros x y. rewrite Hp, elem_of_union, elem_of_singleton. intros [[= -> ->]|?]; auto.
  - intros k m Hpos. rewrite (likes_of_add _ _ k d d' Hn Hp). repeat case_decide; subst; try done; lia.
Qed.

Lemma linv_else d' :
  db_ok d' → tget TLike d' = tget TLike d →
  (∀ k r, tget TVideo d !! k = Some r →
     ∃ r', tget TVideo d' !! k = Some r' ∧ v_LikesCount r' = v_LikesCount r) →
  (∀ k r', tget TVideo d !! k = None → tget TVideo d' !! k = Some r' → v_LikesCount r' = 0) →
  linv exact (d', todo).
Proof.
  intros Hd' Hl Hv Hnew. destruct Hinv as (Hd & Href & Htd & Hcs).
  assert (pairs d' = pairs d) as Hp by (unfold pairs, rows; by rewrite Hl).
  assert (∀ k, exists_video k → is_Some (tget TVideo d' !! k)) as Hex
    by (intros k [r Er]; destruct (Hv k r Er) as (r' & E' & _); by eexists).
  split; [done|]. split_and!; [intros x u; rewrite Hp; eauto|eauto|].
  intros k r' E'. unfold likes_of. rewrite Hp. fold (likes_of k d).
  destruct (tget TVideo d !! k) as [r|] eqn:Er.
  - destruct (Hv k r Er) as (r1 & E1 & En). rewrite E' in E1. injection E1 as <-. rewrite En. by apply Hcs.
  - rewrite (Hnew k r' Er E').
    assert (filter (λ p : Z * Z, p.1 = k) (pairs d) = ∅) as Hn.
    { apply set_eq. intros [x u]. rewrite elem_of_filter. simpl. split; [|set_solver].
      intros [-> [r Hr]%Href]. congruence. }
    assert (due k todo = 0) as ->.
    { unfold due. replace (filter (λ vc : Z * Z, vc.1 = k) todo) with (@nil (Z * Z)); [done|].
      destruct (filter _ todo) as [|[x c] l] eqn:Ef; [done|]. exfalso.
      assert ((x, c) ∈ filter (λ vc : Z * Z, vc.1 = k) todo) as [Hx Hin]%list_elem_of_filter by (rewrite Ef; by left).
      simpl in Hx. subst x. destruct (Htd k c Hin) as [r Hr]. congruence. }
    unfold likes_of. rewrite Hn, size_empty. lia.
Qed.
End steps.

Lemma linv_count exact d todo1 v c todo2 d' :
  linv exact (d, todo1 ++ (v, c) :: todo2) → (exact = true → in_reach v c d) →
  exec (eng_update TVideo (where_id TVideo v always) (add_likes c) d) = (Ok tt, d') →
  linv exact (d', todo1 ++ todo2).
Proof.
  intros Hinv Hx Hu. destruct (update_video v always (add_likes c) d) as [E Hd1]; [apply Hinv|done..|].
  rewrite E in Hu. injection Hu as <-.
  eapply (linv_recount _ _ _ Hinv _ _ v (λ n, Z.max (n + c) 0)); [done|by apply recount_at_row| | |].
  - intros x y. rewrite pairs_at_row. auto.
  - intros x y. set_solver.
  - intros k m Hpos. rewrite due_middle. unfold likes_of. rewrite pairs_at_row.
    destruct (decide (k = v)) as [->|Hne]; [rewrite decide_True by done|rewrite decide_False by done; lia].
    split; [lia|]. split; [lia|]. intros Hex (r & Er & <-). specialize (Hx Hex r Er). lia.
Qed.

Lemma lstep_inv exact s s' : lstep exact s s' → linv exact s → linv exact s'.
Proof.
  intros [] Hi; [by eapply linv_insert|by eapply linv_delete|by eapply linv_count|by eapply linv_like
    |by eapply linv_unlike|by eapply linv_else].
Qed.
End invariant.

(** ** The theorems *)
Section theorems.
Context {W : Type} `{WorldLaws W} `{SqlLaws}.
Implicit Types w : W.
Abbreviation db w := (v_db (view w)).

(** C6: the like counters under concurrency. In every interleaving of the
    statements of any number of like workers with the transactions of the API
    servers and with everything else, no video's likes_count falls behind the
    number of its likes by more than what the workers are about to add; when
    they are done it is at least that number, and exactly that number if no
    decrement was cut off at zero on the way. *)
Theorem likes_never_undercount exact d0 d todo :
  db_ok d0 → counts_inv d0 → likes_refer d0 →
  rtc (lstep exact) (d0, []) (d, todo) →
  ∀ k r, tget TVideo d !! k = Some r →
    likes_of k d ≤ v_LikesCount r + due k todo ∧
    (todo = [] → likes_of k d ≤ v_LikesCount r) ∧
    (exact = true → todo = [] → likes_of k d = v_LikesCount r).
Proof.
  intros Hd Hc Href Hr. assert (linv exact (d, todo)) as (_ & _ & _ & Hinv).
  { revert Hr. apply (rtc_ind_r (R := lstep exact) (linv exact) (d0, [])).
    - split; [done|]. split; [done|]. split; [by intros v c ?%elem_of_nil|]. intros k r Er.
      destruct (Hc k r Er) as [-> _]. unfold due. simpl. rewrite Z.add_0_r. split_and!; [|done|done].
      unfold likes_of. lia.
    - intros s s' _. apply lstep_inv. }
  intros k r Er. destruct (Hinv k r Er) as (_ & Hle & Hex). split; [done|].
  split; intros *; [intros ->|intros Hx ->]; [|specialize (Hex Hx)]; unfold due in *; simpl in *; lia.
Qed.

(** *** The programs are sequences of these steps *)
Lemma counters_refine v c w todo :
  db_ok (db w) →
  runs (st_try (ChangeLikesCount v c) (λ _, ChangePopularity v c)) w (λ r w', ∃ lost,
    rtc (lstep false) (db w, (v, c) :: todo) (db w', lost ++ todo) ∧ (r = Ok tt → lost = [])).
Proof.
  intros Hd. unfold ChangeLikesCount, ChangePopularity.
  destruct (update_video v always (add_likes c) (db w) Hd) as [E1 Hd1]; [done..|].
  call; glue; [|exists [(v, c)]; by rewrite Hv].
  rewrite E1 in Hv |- *. cbn [fst snd] in Hv. glue.
  assert (rtc (lstep false) (db w, (v, c) :: todo) (db w', todo)) as Hr1.
  { rewrite Hv. apply rtc_once. by apply (lstep_count false (db w) [] v c todo). }
  destruct (update_video v always (add_popularity c) (db w')) as [E2 Hd2]; [by rewrite Hv|done..|].
  call; glue; [|exists []; by rewrite Hv0].
  exists []. split; [|done]. rewrite E2 in Hv0. cbn [fst snd] in Hv0. eapply rtc_r; [exact Hr1|].
  rewrite Hv0. cbn [v_db set_db app]. apply lstep_else.
  - done.
  - by apply tget_at_row_ne.
  - intros k r Er. rewrite lookup_at_row, Er. simpl. eexists. split; [done|]. by case_decide.
  - intros k r' Er. by rewrite lookup_at_row, Er.
Qed.

(** [lost]: the changes that a worker has not made when it fails. *)
Definition refines (m : ST W (result unit)) : Prop := ∀ w todo, db_ok (db w) →
  runs m w (λ r w', ∃ lost, rtc (lstep false) (db w, todo) (db w', lost ++ todo) ∧ (r = Ok tt → lost = [])).

Lemma refines_ret r : refines (st_ret r).
Proof. intros w todo _. apply runs_ret. by exists []. Qed.

Lemma applyLike_refines u v : refines (applyLike u v).
Proof.
  intros w todo Hd. unfold applyLike.
  assert (∀ r w', view w' = view w → ∃ lost,
    rtc (lstep false) (db w, todo) (db w', lost ++ todo) ∧ (r = Ok tt → lost = [])) as Hsame
    by (intros r w' ->; by exists []).
  apply runs_try, IsExist_runs; [apply Hd| |intros; by apply Hsame]. intros w1 E1.
  destruct (bool_decide_reflect (is_Some (tget TVideo (db w) !! v))) as [Hex|Hex]; cbn [negb];
    [|by apply runs_ret, Hsame].
  call. assert (view w' = view w) as E2 by congruence. unfold LikeIgnoreDuplicate. cbn [l_VideoID l_AccountID].
  destruct (_ || _); [by glue; apply Hsame|].
  call; glue; [|apply Hsame; congruence]. rewrite E2 in Hv0 |- *.
  destruct (create_like (mkLike 0 v u (clk w')) (clk w'0) (db w) Hd eq_refl)
    as [(_ & l' & d1 & E & Hd1 & _)|[(_ & E)|(_ & code & E)]]; rewrite E in Hv0 |- *; cbn [fst snd] in Hv0;
    glue; cbn [negb]; [|try apply runs_ret; apply Hsame; rewrite Hv0; by destruct (view w)..].
  eapply runs_mono; [apply (counters_refine v 1 w'0 todo); by rewrite Hv0|].
  intros r w2 (lost & Hr & Hl). exists lost. split; [|done]. eapply rtc_l; [|exact Hr].
  rewrite Hv0. cbn [v_db set_db]. by eapply lstep_insert.
Qed.

Lemma applyUnlike_refines u v : refines (applyUnlike u v).
Proof.
  intros w todo Hd. unfold applyUnlike.
  assert (∀ r w', view w' = view w → ∃ lost,
    rtc (lstep false) (db w, todo) (db w', lost ++ todo) ∧ (r = Ok tt → lost = [])) as Hsame
    by (intros r w' ->; by exists []).
  apply runs_try, IsExist_runs; [apply Hd| |intros; by apply Hsame]. intros w1 E1.
  destruct (bool_decide _); cbn [negb]; [|by apply runs_ret, Hsame].
  unfold DeleteByVideoAndAccount. destruct (_ || _); [by glue; apply Hsame|].
  call; glue; [|apply Hsame; congruence]. rewrite E1 in Hv |- *.
  destruct (delete_like v u (db w) Hd) as (n & d1 & E & Hd1 & Hn & _ & _ & _ & Hid).
  rewrite E in Hv |- *. cbn [fst snd] in Hv. glue.
  destruct (Z.ltb_spec 0 n) as [Hlt|Hge]; cbn [negb].
  - eapply runs_mono; [apply (counters_refine v (-1) w' todo); by rewrite Hv|].
    intros r w2 (lost & Hr & Hl). exists lost. split; [|done]. eapply rtc_l; [|exact Hr].
    rewrite Hv. cbn [v_db set_db]. by eapply lstep_delete.
  - apply runs_ret, Hsame. rewrite Hv. symmetry in Hn. apply bool_decide_eq_false in Hn.
    rewrite Hid by done. by destruct (view w).
Qed.

Lemma LikeWorker_refines body : refines (LikeWorker_process body).
Proof.
  unfold LikeWorker_process.
  repeat (case_match; try apply refines_ret); [apply applyLike_refines|apply applyUnlike_refines].
Qed.

(** The requests change the database by their transactions only. *)
Definition like_steps : relation View := λ v v', ∀ todo, rtc (lstep false) (v_db v, todo) (v_db v', todo).
#[local] Instance like_steps_frame : Frame like_steps.
Proof.
  split; [split|..]; unfold like_steps; try (intros ? **; apply rtc_refl).
  intros v1 v2 v3 H12 H23 todo. etrans; [apply H12|apply H23].
Qed.

Lemma keeps_like_tx (tx : Z → ST Db (result unit)) :
  (∀ t d d' todo, eng_tx (tx t) d = (Ok tt, d') → lstep false (d, todo) (d', todo)) →
  within (S := W) (on_view like_steps) (sql (λ t, eng_tx (tx t))).
Proof.
  intros Htx. apply keeps_sql; [apply _|]. intros vw t todo. specialize (Htx t (v_db vw)).
  rewrite law_tx in *. destruct (tx t (v_db vw)) as [[[]|e] d']; simpl; [|done].
  apply rtc_once. by apply Htx.
Qed.
Lemma keeps_like_publish p : within (S := W) (on_view like_steps) (publish p).
Proof. apply keeps_publish; [apply _|]. intros vw todo. apply rtc_refl. Qed.

Context `{RedisServer}.

Lemma LikeService_steps s l (unlike : bool) :
  l_ID l = 0 →
  within (S := W) (on_view like_steps) (if unlike then LikeService_Unlike s l else LikeService_Like s l).
Proof.
  intros Hid. destruct unlike; frame; try apply keeps_like_publish; apply (keeps_like_tx (λ t, _)).
  - intros t d d' todo Htx. by eapply lstep_unlike.
  - intros t d d' todo Htx. eapply lstep_like; [|exact Htx]. exact Hid.
Qed.
End theorems.

(** C7: the like programs are made of these steps. Whatever services fail on
    the way, handling a message in the like worker is a sequence of steps that
    leaves no change of a counter to be made when it succeeds, and what it has
    left when it fails is what is lost; a Like or Unlike request is a sequence
    of steps that leaves none. *)
Theorem like_programs_refine {W} `{WorldLaws W} `{SqlLaws} `{RedisServer} body s l (unlike : bool) (w : W) todo :
  db_ok (v_db (view w)) → l_ID l = 0 →
  runs (LikeWorker_process body) w (λ r w', ∃ lost,
    rtc (lstep false) (v_db (view w), todo) (v_db (view w'), lost ++ todo) ∧ (r = Ok tt → lost = [])) ∧
  runs (if unlike then LikeService_Unlike s l else LikeService_Like s l) w (λ _ w',
    rtc (lstep false) (v_db (view w), todo) (v_db (view w'), todo)).
Proof.
  intros Hd Hid. split; [by apply LikeWorker_refines|].
  eapply runs_mono; [apply (within_runs (on_view like_steps)), LikeService_steps, Hid|].
  intros _ w' [_ Hs]. apply Hs.
Qed.

From S2P Require Import Reference.

(** ** A race

    A worker inserts a like; before it raises the counter, the like is taken
    back by a request's transaction, which finds the counter at 0 and leaves it;
    then the worker raises it. *)
Definition raced_insert : Db := (eng_create TLike (mkLike 0 1 9 5) 5 like_db).2.
Definition raced_unlike : Db := (eng_tx (unlike_tx a_like) raced_insert).2.
Definition count_up (d : Db) : Db :=
  (exec (eng_update TVideo (where_id TVideo 1 always) (add_likes 1) d)).2.

Lemma like_step_insert exact :
  lstep exact (like_db, []) (raced_insert, [(1, 1)]).
Proof.
  eapply (lstep_insert exact like_db [] 1 9 5 5 (row_stored TLike 1 5 (mkLike 0 1 9 5))); [by eexists|by vm_compute].
Qed.

Lemma like_run : rtc (lstep true) (like_db, []) (count_up raced_insert, []).
Proof.
  eapply rtc_l; [apply like_step_insert|]. apply rtc_once.
  apply (lstep_count true raced_insert [] 1 1 []); [|by vm_compute].
  intros _ r. vm_compute. intros [= <-]. by vm_compute.
Qed.

(** The counter stays ahead for good: one like, and nobody likes the video. *)
Theorem likes_race_drift :
  rtc (lstep false) (like_db, []) (count_up raced_unlike, []) ∧
  likes_of 1 (count_up raced_unlike) = 0 ∧
  v_LikesCount <$> tget TVideo (count_up raced_unlike) !! 1 = Some 1.
Proof.
  split; [|by vm_compute]. eapply rtc_l; [apply like_step_insert|].
  eapply rtc_l; [apply (lstep_unlike false raced_insert [(1, 1)] a_like raced_unlike); [done|by vm_compute]|].
  apply rtc_once. apply (lstep_count false raced_unlike [] 1 1 []); [done|by vm_compute].
Qed.

Lemma like_db_refer : likes_refer like_db.
Proof. intros v u. rewrite elem_of_pairs. by intros (l & Hl%elem_of_nil & _). Qed.

Definition raced_video : Video := default (mkVideo 0 0 "" "" "" "" "" 0 0 0) (tget TVideo (count_up raced_insert) !! 1).

Lemma likes_never_undercount_witness :
  tget TVideo (count_up raced_insert) !! 1 = Some raced_video ∧
  likes_of 1 (count_up raced_insert) ≤ v_LikesCount raced_video + due 1 [] ∧
  (@nil (Z * Z) = [] → likes_of 1 (count_up raced_insert) ≤ v_LikesCount raced_video) ∧
  (true = true → @nil (Z * Z) = [] → likes_of 1 (count_up raced_insert) = v_LikesCount raced_video).
Proof.
  split; [by vm_compute|].
  exact (likes_never_undercount true like_db (count_up raced_insert) [] like_db_ok like_db_counts
           like_db_refer like_run 1 raced_video eq_refl).
Defined.

Lemma like_programs_refine_witness :
  let w := flaky_world in
  runs (LikeWorker_process (marshal_like like_evt)) w (λ r w', ∃ lost,
    rtc (lstep false) (v_db (view w), []) (v_db (view w'), lost ++ []) ∧ (r = Ok tt → lost = [])) ∧
  runs (LikeService_Like (mkLikeService None false false) a_like) w (λ _ w',
    rtc (lstep false) (v_db (view w), []) (v_db (view w'), [])).
Proof.
  exact (like_programs_refine (marshal_like like_evt) (mkLikeService None false false) a_like false flaky_world []
           like_db_ok eq_refl).
Defined.
