(* ===== verification/RateLimit.v ===== *)
(** [internal/middleware/ratelimit]: the middleware that limits the requests
    of one subject with the sliding window of [RedisClient.v]. *)
From S2P Require Import Prelude GoStd Query Entities Json Services RedisFacts RedisClient.
From S2P Require Import Reference SlidingWindow Http.
Local Open Scope Z_scope.
Local Open Scope go_scope.

(** ** ratelimit.go *)
Definition KeyFunc : Type := Req → option string.

Definition buildKey (keyPrefix subject : string) : string :=
  let keyPrefix := TrimSpace keyPrefix in
  let keyPrefix := if String.eqb keyPrefix "" then "default" else keyPrefix in
  "govideo:ratelimit:" +:+ keyPrefix +:+ ":" +:+ TrimSpace subject.

Definition KeyByIP : KeyFunc := λ r,
  let ip := TrimSpace (rq_ClientIP r) in
  if String.eqb ip "" then None else Some ip.

Definition KeyByAccount : KeyFunc := λ r,
  match GetAccountID (rq_ctx r) with
  | Err _ => None
  | Ok accountID => if accountID =? 0 then None else Some (dec accountID)
  end.

Section middleware.
Context {W : Type} `{World W} `{RedisServer}.

Definition Limit (cache : option Client) (keyPrefix : string) (maxRequests window : Z)
    (keyFunc : option KeyFunc) (r : Req) : ST W Mid :=
  match cache, keyFunc with
  | Some _, Some keyFunc =>
      if (maxRequests <=? 0) || (window <=? 0) then st_ret (Next (rq_ctx r))
      else
        match keyFunc r with
        | None => st_ret (Next (rq_ctx r))
        | Some subject =>
            let key := buildKey keyPrefix subject in
            a <- SlidingWindowAllow cache key maxRequests window ;;
            match a with
            | (_, _, Some _) => st_ret (Next (rq_ctx r))
            | (allowed, _, None) =>
                if negb allowed then st_ret (Abort 429 (ErrMsg "too many requests"))
                else st_ret (Next (rq_ctx r))
            end
        end
  | _, _ => st_ret (Next (rq_ctx r))
  end.
End middleware.

Lemma buildKey_nonempty p s : buildKey p s ≠ "".
Proof. done. Qed.

(** ** The limit over any history of requests *)
Section limit.
Context {W : Type} `{WorldLaws W} `{RedisLaws}.
Variables (c : Client) (keyPrefix : string) (maxRequests window : Z) (keyFunc : KeyFunc).
Variable (subject : string).
Hypothesis (Hmax : 0 < maxRequests) (Hwindow : 0 < window).
Abbreviation key := (buildKey keyPrefix subject).
Abbreviation limit r := (Limit (Some c) keyPrefix maxRequests window (Some keyFunc) r).

(** A history of the subject's requests with anything else the program does in
    between, short of writing the two keys of the subject.  Each request is
    recorded with when it started, when it was answered, and whether it went
    through; Redis answers within half a second. *)
Inductive served : W → list (Z * Z * bool) → W → Prop :=
| served_nil w : served w [] w
| served_request w r m w1 l w2 :
    keyFunc r = Some subject → limit r w = (m, w1) → clk w1 - clk w ≤ 500 →
    served w1 l w2 → served w ((clk w, clk w1, is_next m) :: l) w2
| served_other w w1 l w2 :
    clk w ≤ clk w1 → v_up (view w1) = v_up (view w) →
    v_rd (view w1) !! key = v_rd (view w) !! key →
    v_rd (view w1) !! (key +:+ ":seq") = v_rd (view w) !! (key +:+ ":seq") →
    served w1 l w2 → served w l w2.

(** One request, Redis up: what the middleware answers is what the reference
    limiter decides at some instant between its start and its answer. *)
Lemma Limit_step w r last hist bound :
  up_rd (v_up (view w)) = true → keyFunc r = Some subject →
  sw_inv key window last hist bound (v_rd (view w)) → (∀ h, h ∈ hist → h ≤ last) →
  0 ≤ bound → bound + 1 < lua_exact → 0 ≤ clk w → last ≤ clk w →
  runs (limit r) w (λ m w', ∃ now, clk w ≤ now ≤ clk w' ∧ v_up (view w') = v_up (view w) ∧
    (clk w' - clk w ≤ 500 → clk w' < lua_exact →
     is_next m = negb (maxRequests <=? in_window window now hist) ∧
     sw_inv key window now (if maxRequests <=? in_window window now hist then hist else now :: hist)
       (bound + 1) (v_rd (view w')))).
Proof.
  intros Hup Hkey Hinv Hhist Hb Hb' Hclk Hlast. unfold Limit.
  destruct (Z.leb_spec maxRequests 0), (Z.leb_spec window 0); try lia. cbn [orb]. rewrite Hkey.
  unfold SlidingWindowAllow, slidingWindowAllowAt. call. glue.
  destruct (String.eqb_spec key ""); [done|].
  destruct (Z.leb_spec maxRequests 0), (Z.leb_spec window 0); try lia. cbn [orb].
  call; [|congruence]. rewrite Hv in *. unfold UnixMilli in *. cbn [v_rd set_rd] in *.
  destruct (slidingWindowScript key (key +:+ ":seq") (clk w') window maxRequests
    (window + Second) (clk w'0) (v_rd (view w))) as [[al cnt] s'] eqn:E.
  cbn [fst snd] in *. glue.
  assert (clk w'0 - clk w ≤ 500 → clk w'0 < lua_exact →
    (al =? 1) = negb (maxRequests <=? in_window window (clk w') hist) ∧
    sw_inv key window (clk w') (if maxRequests <=? in_window window (clk w') hist
      then hist else clk w' :: hist) (bound + 1) s') as Hstep.
  { intros Hlat Hyear.
    destruct (sw_step key window maxRequests Hwindow Hmax last hist bound (v_rd (view w))
      (clk w') (clk w'0)) as (cn & s2 & E2 & Hinv2); try done; try lia.
    rewrite E in E2. injection E2 as -> _ ->. split; [|done]. by destruct (maxRequests <=? _). }
  destruct (al =? 1); cbn [negb]; apply runs_ret; exists (clk w'); rewrite Hv0; simpl;
    (split; [lia|]; split; [done|exact Hstep]).
Qed.

Lemma Limit_clk w r : runs (limit r) w (λ _ w', clk w ≤ clk w').
Proof.
  unfold Limit. destruct (_ || _); [by apply runs_ret|].
  destruct (keyFunc r); [|by apply runs_ret].
  unfold SlidingWindowAllow, slidingWindowAllowAt. call. glue.
  destruct (_ || _); [by apply runs_ret|].
  call; glue; [|lia]. destruct (fst _) as [al cnt]. glue.
  destruct (al =? 1); apply runs_ret; lia.
Qed.

Lemma served_clk w l w' : served w l w' → clk w ≤ clk w'.
Proof.
  induction 1 as [w|w r m w1 l w2 _ E _ _ IH|w w1 l w2 Hclk _ _ _ _ IH]; [done| |lia].
  apply (runs_elim _ _ _ _ _ (Limit_clk w r)) in E. lia.
Qed.

(** The keys are all the invariant looks at. *)
Lemma sw_inv_frame last hist bound s s' :
  s' !! key = s !! key → s' !! (key +:+ ":seq") = s !! (key +:+ ":seq") →
  sw_inv key window last hist bound s → sw_inv key window last hist bound s'.
Proof.
  intros Ek Eq [(-> & Hk & Hq)|(n & z & dl & Hn & [Hk Hq ? ? ? ?])].
  - left. by rewrite Ek, Eq.
  - right. exists n, z, dl. split; [done|]. split; try done; by rewrite ?Ek, ?Eq.
Qed.

Definition at_instant (n : Z) : Z * Z := (n, n).

(** A history answers like the reference limiter at instants of its requests. *)
Lemma served_spec w l w' :
  served w l w' → ∀ last hist bound,
  up_rd (v_up (view w)) = true → sw_inv key window last hist bound (v_rd (view w)) →
  (∀ h, h ∈ hist → h ≤ last) → 0 ≤ bound → bound + Z.of_nat (length l) < lua_exact →
  0 ≤ clk w → last ≤ clk w → clk w' < lua_exact →
  ∃ nows, Forall2 (λ e n, e.1.1 ≤ n ≤ e.1.2) l nows ∧
    clocks_ok last (at_instant <$> nows) ∧
    l.*2 = sw_spec window maxRequests hist (at_instant <$> nows).
Proof.
  induction 1 as [w|w r m w1 l w2 Hkey E Hlat Hs IH|w w1 l w2 Hclk Hup Ek Eq _ IH];
    intros last hist bound Hu Hinv Hhist Hb Hlen Hc Hl Hy.
  - exists []. by split_and!.
  - cbn [length] in Hlen. apply served_clk in Hs.
    destruct (runs_elim _ _ _ _ _
      (Limit_step w r last hist bound Hu Hkey Hinv Hhist Hb ltac:(lia) Hc Hl) E)
      as (now & Hnow & Hu' & Hstep). destruct (Hstep Hlat ltac:(lia)) as [Hm Hinv'].
    destruct (IH now (if maxRequests <=? in_window window now hist then hist else now :: hist)
                (bound + 1)) as (nows & Hf & Hok & Hds); try lia; [congruence|done| |].
    { intros h Hh. destruct (maxRequests <=? _); [apply Hhist in Hh; lia|].
      apply elem_of_cons in Hh as [->|Hh%Hhist]; lia. }
    exists (now :: nows). split_and!; [by constructor|..]; cbn [fmap list_fmap snd at_instant].
    + simpl. split_and!; [lia|lia|lia|done].
    + rewrite Hm, Hds. cbn [sw_spec at_instant]. by destruct (maxRequests <=? _).
  - apply (IH last hist bound); [congruence|by eapply sw_inv_frame|done|done|done|lia|lia|lia].
Qed.

(** The requests of a history that went through and lie within (x, x + window]. *)
Definition passed_within (x : Z) (l : list (Z * Z * bool)) : Z :=
  Z.of_nat (length (List.filter
    (λ e : Z * Z * bool, e.2 && (x <? e.1.1) && (e.1.2 <=? x + window)) l)).

Lemma passed_accepted x l nows :
  Forall2 (λ (e : Z * Z * bool) n, e.1.1 ≤ n ≤ e.1.2) l nows →
  passed_within x l ≤ in_span x window (accepted (at_instant <$> nows) l.*2).
Proof.
  induction 1 as [|[[a b] d] n l nows Hn _ IH]; [done|]. simpl in Hn.
  unfold passed_within in *. cbn [List.filter fst snd fmap list_fmap at_instant accepted].
  destruct d; cbn [andb]; [|exact IH]. rewrite in_span_cons.
  destruct (Z.ltb_spec x a), (Z.leb_spec b (x + window)); cbn [andb length];
    destruct (Z.ltb_spec x n), (Z.leb_spec n (x + window)); cbn [andb]; lia.
Qed.

End limit.

(** the middleware fails open: without Redis, without a subject or with a
    limit that is not positive it passes the request on untouched, and when
    Redis is down it never rejects one that Redis did not count; it aborts
    only with 429. *)
Theorem Limit_fails_open {W} `{WorldLaws W} `{RedisServer} cache keyPrefix maxRequests window
    keyFunc r w :
  runs (Limit cache keyPrefix maxRequests window keyFunc r) w (λ m w',
    v_db (view w') = v_db (view w) ∧ v_mq (view w') = v_mq (view w) ∧
    match m with
    | Next c => c = rq_ctx r
    | Abort status _ =>
        status = 429 ∧ 0 < maxRequests ∧ 0 < window ∧
        ∃ c f subject t s, cache = Some c ∧ keyFunc = Some f ∧ f r = Some subject ∧
          (slidingWindowScript (buildKey keyPrefix subject) (buildKey keyPrefix subject +:+ ":seq")
             t window maxRequests (window + Second) s (v_rd (view w))).1.1 ≠ 1
    end).
Proof.
  unfold Limit. destruct cache as [c|]; [|by apply runs_ret].
  destruct keyFunc as [f|]; [|by apply runs_ret].
  destruct (Z.leb_spec maxRequests 0), (Z.leb_spec window 0); try by apply runs_ret. cbn [orb].
  destruct (f r) as [subject|] eqn:Ef; [|by apply runs_ret].
  unfold SlidingWindowAllow, slidingWindowAllowAt. call. glue.
  destruct (String.eqb_spec (buildKey keyPrefix subject) ""); [done|].
  destruct (Z.leb_spec maxRequests 0), (Z.leb_spec window 0); try lia. cbn [orb].
  call; rewrite Hv in *; unfold UnixMilli in *; cbn [v_rd set_rd] in *.
  - destruct (slidingWindowScript _ _ _ _ _ _ _ _) as [[al cnt] s'] eqn:E. cbn [fst snd] in *. glue.
    destruct (Z.eqb_spec al 1); cbn [negb]; apply runs_ret; rewrite Hv0; simpl; [done|].
    split_and!; try done. exists c, f, subject, (clk w'), (clk w'0). rewrite E. by split_and!.
  - glue. destruct Hv0 as [->| ->]; done.
Qed.

(** ** The theorems at concrete inputs *)
Definition demo_req : Req := mkReq "" " 10.0.0.1 " (mkCtx None None).
Definition demo_limit : ST RefW Mid :=
  Limit (Some (mkClient DefaultKeyPrefix)) " login " 1 60000 (Some KeyByIP) demo_req.
Definition demo_w0 : RefW := ref_start empty_db 5000.
Definition demo_w1 : RefW := (demo_limit demo_w0).2.
Definition demo_w2 : RefW := (demo_limit demo_w1).2.

Example limit_demo :
  (demo_limit demo_w0).1 = Next (mkCtx None None) ∧
  (demo_limit demo_w1).1 = Abort 429 (ErrMsg "too many requests").
Proof. by vm_compute. Qed.


Lemma Limit_fails_open_witness :
  runs demo_limit demo_w1 (λ m w',
    v_db (view w') = v_db (view demo_w1) ∧ v_mq (view w') = v_mq (view demo_w1) ∧
    match m with
    | Next c => c = mkCtx None None
    | Abort status _ =>
        status = 429 ∧ 0 < 1 ∧ 0 < 60000 ∧
        ∃ c f subject t s, Some (mkClient DefaultKeyPrefix) = Some c ∧ Some KeyByIP = Some f ∧
          f demo_req = Some subject ∧
          (slidingWindowScript (buildKey " login " subject) (buildKey " login " subject +:+ ":seq")
             t 60000 1 (60000 + Second) s (v_rd (view demo_w1))).1.1 ≠ 1
    end).
Proof.
  exact (Limit_fails_open (Some (mkClient DefaultKeyPrefix)) " login " 1 60000 (Some KeyByIP)
           demo_req demo_w1).
Defined.
