(* ===== verification/Account.v ===== *)
(** [internal/auth], [internal/api/account] and [internal/middleware/jwt]:
    accounts, their tokens in the database and in Redis, and the middlewares
    that authenticate a request. *)
From S2P Require Import Prelude GoStd Query Entities Json Services RedisFacts RedisClient.
From S2P Require Import DbFacts Http.
Local Open Scope Z_scope.
Local Open Scope go_scope.

(** ** Third-party code

    golang-jwt signs and parses claims with the key that the callback of
    [ParseWithClaims] gives for the algorithm of the token; bcrypt hashes a
    password with a fresh salt and compares a password with a hash. *)
Record Claims := mkClaims {
  cl_AccountID : Z; cl_Username : string;
  cl_ExpiresAt : time; cl_IssuedAt : time; cl_NotBefore : time }.

Class JwtLib := {
  NewNumericDate : time → time;
  SignedString : string → string → Claims → result string;
  ParseWithClaims : (string → result string) → time → string → result Claims }.

Class JwtLaws `{JwtLib} : Prop := {
  (** a date is truncated to the second *)
  law_date : ∀ t, t - Second < NewNumericDate t ≤ t;
  law_sign : ∀ key c, key ≠ "" → ∃ tok, SignedString "HS256" key c = Ok tok ∧ tok ≠ "";
  (** a token is valid from its NotBefore until its ExpiresAt *)
  law_parse : ∀ alg key c tok keyfunc t,
    SignedString alg key c = Ok tok → keyfunc alg = Ok key →
    cl_NotBefore c ≤ t < cl_ExpiresAt c → ParseWithClaims keyfunc t tok = Ok c }.

Class Bcrypt (W : Type) := {
  GenerateFromPassword : string → ST W (result string);
  CompareHashAndPassword : string → string → result unit }.

Class BcryptLaws (W : Type) `{World W, Bcrypt W} : Prop := {
  law_generate : ∀ p w, runs (GenerateFromPassword p) w (λ r w',
    clk w ≤ clk w' ∧ view w' = view w ∧
    match r with
    | Ok h => CompareHashAndPassword h p = Ok tt
    | Err _ => True
    end) }.

(** ** auth/jwt.go *)
Definition JWTExpire : Z := 15 * Minute.
Definition HS256 : string := "HS256".

Definition SetJWTSecret (secret : string) : result string :=
  let secret := TrimSpace secret in
  if String.eqb secret "" then Err (ErrMsg "jwt secret is required") else Ok secret.

(** [jwtSigningSecret] is the argument [secret] of what uses it. *)
Definition jwtSecret (secret : string) : result string :=
  if String.eqb secret "" then Err (ErrMsg "jwt secret is not initialized") else Ok secret.

Section auth.
Context {W : Type} `{World W} `{JwtLib}.

Definition new_claims (accountID : Z) (username : string) (t : time) : Claims :=
  mkClaims accountID username (NewNumericDate (t + JWTExpire)) (NewNumericDate t)
    (NewNumericDate t).

Definition GenerateToken (secret : string) (accountID : Z) (username : string) :
    ST W (result string) :=
  t <- now ;;
  st_ret (match jwtSecret secret with
          | Err e => Err e
          | Ok key => SignedString HS256 key (new_claims accountID username t)
          end).

Definition GenerateRefreshToken (accountID : Z) : ST W (result string) :=
  b <-? rand_read 32 ;; st_ret (Ok (EncodeToString b)).

Definition key_callback (secret alg : string) : result string :=
  if negb (String.eqb alg HS256) then Err (ErrMsg "unexpected signing method")
  else jwtSecret secret.

Definition ParseToken (secret tokenStr : string) : ST W (result Claims) :=
  t <- now ;; st_ret (ParseWithClaims (key_callback secret) t tokenStr).
End auth.

(** ** repo.go *)
Definition set_tokens (token refreshToken : string) (a : Account) : Account :=
  mkAccount (ac_ID a) (ac_Username a) (ac_Password a) token refreshToken (ac_AvatarURL a) (ac_Bio a).
Definition set_token (token : string) (a : Account) : Account :=
  mkAccount (ac_ID a) (ac_Username a) (ac_Password a) token (ac_RefreshToken a) (ac_AvatarURL a)
    (ac_Bio a).
Definition set_username (name : string) (a : Account) : Account :=
  mkAccount (ac_ID a) name (ac_Password a) (ac_Token a) (ac_RefreshToken a) (ac_AvatarURL a)
    (ac_Bio a).
Definition set_password (p : string) (a : Account) : Account :=
  mkAccount (ac_ID a) (ac_Username a) p (ac_Token a) (ac_RefreshToken a) (ac_AvatarURL a) (ac_Bio a).
Definition set_avatar (url : string) (a : Account) : Account :=
  mkAccount (ac_ID a) (ac_Username a) (ac_Password a) (ac_Token a) (ac_RefreshToken a) url (ac_Bio a).
Definition set_avatar_bio (url bio : string) (a : Account) : Account :=
  mkAccount (ac_ID a) (ac_Username a) (ac_Password a) (ac_Token a) (ac_RefreshToken a) url bio.

Section repo.
Context {W : Type} `{World W} `{SqlEngine}.

Definition AccountRepo_FindByID (id : Z) : ST W (result Account) :=
  query (λ d, sel_first (where_id TAccount id always) [Asc ac_ID] (rows TAccount d)).

Definition AccountRepo_CreateAccount (a : Account) : ST W (result Account) :=
  sql (eng_create TAccount a).

Definition AccountRepo_FindByUsername (username : string) : ST W (result Account) :=
  query (λ d, sel_first (λ a, text_eq (ac_Username a) username) [Asc ac_ID] (rows TAccount d)).

(** an UPDATE of the row with the given id *)
Definition update_account (accountID : Z) (f : Account → Account) : ST W (result unit) :=
  sql (λ _ d, exec (eng_update TAccount (where_id TAccount accountID always) f d)).

Definition UpdateTokenAndRefreshToken (accountID : Z) (token refreshToken : string) :=
  update_account accountID (set_tokens token refreshToken).
Definition UpdateToken (accountID : Z) (newToken : string) :=
  update_account accountID (set_token newToken).

Definition AccountRepo_FindAll : ST W (result (list Account)) :=
  query (λ d, Ok (eng_select (λ _, true) [] None (rows TAccount d))).

Definition AccountRepo_FindByRefreshToken (refreshToken : string) : ST W (result Account) :=
  query (λ d, sel_first (λ a, text_eq (ac_RefreshToken a) refreshToken) [Asc ac_ID]
                (rows TAccount d)).

Definition rename_tx (accountID : Z) (newUsername token : string) : ST Db (result unit) :=
  n <-? eng_update TAccount (where_id TAccount accountID always) (set_username newUsername) ;;
  if n =? 0 then st_ret (Err ErrRecordNotFound)
  else (λ d, exec (eng_update TAccount (where_id TAccount accountID always) (set_token token) d)).

Definition RenameWithToken (accountID : Z) (newUsername token : string) : ST W (result unit) :=
  sql (λ _, eng_tx (rename_tx accountID newUsername token)).

Definition UpdatePassword (accountID : Z) (newHashPassword : string) :=
  update_account accountID (set_password newHashPassword).
Definition DeleteTokenAndRefreshToken (accountID : Z) :=
  update_account accountID (set_tokens "" "").
Definition AccountRepo_UpdateAvatar (accountID : Z) (avatarURL : string) :=
  update_account accountID (set_avatar avatarURL).
Definition UpdateAvatarAndProfile (accountID : Z) (avatarURL bio : string) :=
  update_account accountID (set_avatar_bio avatarURL bio).
End repo.

(** ** service.go *)
Record AccountService := mkAccountService { as_cache : option Client; as_secret : string }.

Definition ErrNewUsernameRequired : err := ErrMsg "new_username is required".
Definition ErrUsernameTaken : err := ErrMsg "username already exists".
Definition ErrIncorrectPassword : err := ErrMsg "incorrect password".

(** [util.IsDupKey] *)
Definition IsDupKey (e : err) : bool := bool_decide (e = ErrDuplicate).

Definition token_key (cache : option Client) (id : Z) : string :=
  Key cache ("account:" +:+ dec id).
Definition account_refresh_key (cache : option Client) (id : Z) : string :=
  Key cache ("account:" +:+ dec id +:+ ":refresh").
Definition refresh_key (cache : option Client) (refreshToken : string) : string :=
  Key cache ("refresh:" +:+ refreshToken).

Section service.
Context {W : Type} `{World W} `{SqlEngine} `{RedisServer} `{JwtLib} `{!Bcrypt W}.

Definition AccountService_CreateAccount (a : Account) : ST W (result Account) :=
  h <-? GenerateFromPassword (ac_Password a) ;;
  AccountRepo_CreateAccount (set_password h a).

Definition AccountService_FindByUsername (username : string) : ST W (result Account) :=
  AccountRepo_FindByUsername username.
Definition AccountService_FindByID (id : Z) : ST W (result Account) := AccountRepo_FindByID id.
Definition AccountService_FindAll : ST W (result (list Account)) := AccountRepo_FindAll.
Definition AccountService_FindByRefreshToken (refreshToken : string) : ST W (result Account) :=
  AccountRepo_FindByRefreshToken refreshToken.

Definition cache_tokens (s : AccountService) (id : Z) (token refreshToken : string) : ST W unit :=
  match as_cache s with
  | None => st_ret tt
  | Some _ =>
      SetBytes (token_key (as_cache s) id) (Text token) (24 * Hour) ;;;
      SetBytes (account_refresh_key (as_cache s) id) (Text refreshToken) (7 * 24 * Hour) ;;;
      SetBytes (refresh_key (as_cache s) refreshToken) (Text (dec id)) (7 * 24 * Hour) ;;;
      st_ret tt
  end.

Definition Login (s : AccountService) (username password : string) :
    ST W (result (string * string)) :=
  a <-? AccountService_FindByUsername username ;;
  match CompareHashAndPassword (ac_Password a) password with
  | Err e => st_ret (Err e)
  | Ok _ =>
      token <-? GenerateToken (as_secret s) (ac_ID a) (ac_Username a) ;;
      refreshToken <-? GenerateRefreshToken (ac_ID a) ;;
      _ <-? UpdateTokenAndRefreshToken (ac_ID a) token refreshToken ;;
      cache_tokens s (ac_ID a) token refreshToken ;;;
      st_ret (Ok (token, refreshToken))
  end.

(** the account that the cache names for a refresh token, when the database
    confirms it *)
Definition refresh_lookup (s : AccountService) (refreshToken : string) :
    ST W (option Account) :=
  match as_cache s with
  | None => st_ret None
  | Some _ =>
      r <- GetBytes (refresh_key (as_cache s) refreshToken) ;;
      match r with
      | Err _ => st_ret None
      | Ok b =>
          match ParseUint (default "" (bytes_text b)) with
          | None => st_ret None
          | Some id =>
              r <- AccountService_FindByID id ;;
              st_ret (match r with
                      | Ok a => if String.eqb (ac_RefreshToken a) refreshToken then Some a else None
                      | Err _ => None
                      end)
          end
      end
  end.

Definition RefreshToken (s : AccountService) (refreshToken : string) :
    ST W (result (string * Z * string)) :=
  if String.eqb refreshToken "" then st_ret (Err (ErrMsg "refresh token is empty"))
  else
    hit <- refresh_lookup s refreshToken ;;
    match hit with
    | Some a =>
        newToken <-? GenerateToken (as_secret s) (ac_ID a) (ac_Username a) ;;
        _ <-? UpdateToken (ac_ID a) newToken ;;
        _ <-? SetBytes (token_key (as_cache s) (ac_ID a)) (Text newToken) (24 * Hour) ;;
        st_ret (Ok (newToken, ac_ID a, ac_Username a))
    | None =>
        a <-? AccountService_FindByRefreshToken refreshToken ;;
        newToken <-? GenerateToken (as_secret s) (ac_ID a) (ac_Username a) ;;
        _ <-? UpdateToken (ac_ID a) newToken ;;
        st_ret (Ok (newToken, ac_ID a, ac_Username a))
    end.

Definition Rename (s : AccountService) (accountID : Z) (newUsername : string) :
    ST W (result string) :=
  if String.eqb newUsername "" then st_ret (Err ErrNewUsernameRequired)
  else
    token <-? GenerateToken (as_secret s) accountID newUsername ;;
    r <- RenameWithToken accountID newUsername token ;;
    match r with
    | Err e => st_ret (Err (if IsDupKey e then ErrUsernameTaken else e))
    | Ok _ =>
        match as_cache s with
        | None => st_ret (Ok token)
        | Some _ =>
            SetBytes (token_key (as_cache s) accountID) (Text token) (24 * Hour) ;;;
            st_ret (Ok token)
        end
    end.

Definition ChangePassword (username oldPassword newPassword : string) : ST W (result unit) :=
  a <-? AccountService_FindByUsername username ;;
  match CompareHashAndPassword (ac_Password a) oldPassword with
  | Err _ => st_ret (Err ErrIncorrectPassword)
  | Ok _ =>
      h <-? GenerateFromPassword newPassword ;;
      UpdatePassword (ac_ID a) h
  end.

Definition forget_tokens (s : AccountService) (accountID : Z) (refreshToken : string) : ST W unit :=
  match as_cache s with
  | None => st_ret tt
  | Some _ =>
      Delete (token_key (as_cache s) accountID) ;;;
      Delete (account_refresh_key (as_cache s) accountID) ;;;
      if negb (String.eqb refreshToken "")
      then Delete (refresh_key (as_cache s) refreshToken) ;;; st_ret tt
      else st_ret tt
  end.

Definition Logout (s : AccountService) (accountID : Z) : ST W (result unit) :=
  a <-? AccountService_FindByID accountID ;;
  if String.eqb (ac_Token a) "" then st_ret (Ok tt)
  else
    forget_tokens s accountID (ac_RefreshToken a) ;;;
    DeleteTokenAndRefreshToken (ac_ID a).

Definition AccountService_UpdateAvatar (accountID : Z) (avatarURL : string) : ST W (result unit) :=
  AccountRepo_UpdateAvatar accountID avatarURL.

Definition UpdateProfile (accountID : Z) (avatarURL bio : string) : ST W (result unit) :=
  if String.eqb avatarURL "" && String.eqb bio ""
  then st_ret (Err (ErrMsg "nothing to update"))
  else UpdateAvatarAndProfile accountID (TrimSpace avatarURL) (TrimSpace bio).
End service.

(** ** middleware/jwt/jwt.go *)
Section middleware.
Context {W : Type} `{World W} `{SqlEngine} `{RedisServer} `{JwtLib}.

Definition unauthorized (msg : string) : Mid := Abort 401 (ErrMsg msg).

(** [c.Set] of the claims, then [c.Next] *)
Definition let_in (claims : Claims) : Mid :=
  Next (mkCtx (Some (cl_AccountID claims)) (Some (cl_Username claims))).

(** no answer from Redis: the database decides, and the token is cached *)
Definition check_db (cache : option Client) (claims : Claims) (tokenStr : string) : ST W Mid :=
  r <- AccountRepo_FindByID (cl_AccountID claims) ;;
  match r with
  | Err _ => st_ret (unauthorized "token has been revoked")
  | Ok a =>
      if String.eqb (ac_Token a) "" || negb (String.eqb (ac_Token a) tokenStr)
      then st_ret (unauthorized "token has been revoked")
      else
        match cache with
        | None => st_ret (let_in claims)
        | Some _ =>
            SetBytes (token_key cache (cl_AccountID claims)) (Text tokenStr) (24 * Hour) ;;;
            st_ret (let_in claims)
        end
  end.

Definition check (cache : option Client) (claims : Claims) (tokenStr : string) : ST W Mid :=
  match cache with
  | None => check_db cache claims tokenStr
  | Some _ =>
      r <- GetBytes (token_key cache (cl_AccountID claims)) ;;
      match r with
      | Ok b =>
          if negb (same_text (Some b) tokenStr)
          then st_ret (unauthorized "token has been revoked")
          else st_ret (let_in claims)
      | Err _ => check_db cache claims tokenStr
      end
  end.

(** the common part of the two middlewares, for a header that is not empty *)
Definition authenticate (secret : string) (cache : option Client) (header : string) : ST W Mid :=
  match SplitN2 header with
  | [scheme; tokenStr] =>
      if negb (EqualFold scheme "Bearer")
      then st_ret (unauthorized "invalid authorization header")
      else
        r <- ParseToken secret tokenStr ;;
        match r with
        | Err _ => st_ret (unauthorized "invalid or expired token")
        | Ok claims => check cache claims tokenStr
        end
  | _ => st_ret (unauthorized "invalid authorization header")
  end.

Definition JWTAuth (secret : string) (cache : option Client) (r : Req) : ST W Mid :=
  if String.eqb (rq_Authorization r) ""
  then st_ret (unauthorized "missing authorization header")
  else authenticate secret cache (rq_Authorization r).

Definition SoftJWTAuth (secret : string) (cache : option Client) (r : Req) : ST W Mid :=
  if String.eqb (rq_Authorization r) "" then st_ret (Next (rq_ctx r))
  else authenticate secret cache (rq_Authorization r).
End middleware.

(** ** handler.go: the routes that do not upload files

    [req] is the outcome of [c.ShouldBindJSON]. *)
Record CreateAccountRequest := mkCreateAccountRequest { ca_Username : string; ca_Password : string }.
Record LoginRequest := mkLoginRequest { lq_Username : string; lq_Password : string }.
Record LoginResponse := mkLoginResponse {
  lp_Token : string; lp_RefreshToken : string; lp_AccountID : Z; lp_Username : string }.
Record RefreshResponse := mkRefreshResponse {
  rp_Token : string; rp_AccountID : Z; rp_Username : string }.
Record ChangePasswordRequest := mkChangePasswordRequest {
  cp_Username : string; cp_OldPassword : string; cp_NewPassword : string }.
Record FindByIDResponse := mkFindByIDResponse {
  fi_ID : Z; fi_Username : string; fi_AvatarURL : string; fi_Bio : string }.
Record UpdateProfileRequest := mkUpdateProfileRequest { up_AvatarURL : string; up_Bio : string }.

Section handler.
Context {W : Type} `{World W} `{SqlEngine} `{RedisServer} `{JwtLib} `{!Bcrypt W}.

Definition error_500 {A} (e : err) : Resp A := RespErr 500 e.

Definition AccountHandler_CreateAccount (req : result CreateAccountRequest) : ST W (Resp string) :=
  or_fail fail_with req (λ req,
    r <- AccountService_CreateAccount (mkAccount 0 (ca_Username req) (ca_Password req) "" "" "" "") ;;
    or_fail error_500 r (λ _, st_ret (RespOk 200 "account created"))).

Definition AccountHandler_Login (s : AccountService) (req : result LoginRequest) :
    ST W (Resp LoginResponse) :=
  or_fail fail_with req (λ req,
    r <- AccountService_FindByUsername (lq_Username req) ;;
    or_fail error_500 r (λ a,
      r <- Login s (lq_Username req) (lq_Password req) ;;
      or_fail error_500 r (λ tr,
        st_ret (RespOk 200 (mkLoginResponse tr.1 tr.2 (ac_ID a) (ac_Username a)))))).

Definition Refresh (s : AccountService) (req : result string) : ST W (Resp RefreshResponse) :=
  or_fail fail_with req (λ refreshToken,
    r <- RefreshToken s refreshToken ;;
    or_fail (λ e, RespErr (ClassifyHttpStatus (Some e)) (ErrMsg "invalid refresh token")) r
      (λ tiu, st_ret (RespOk 200 (mkRefreshResponse tiu.1.1 tiu.1.2 tiu.2)))).

Definition AccountHandler_Rename (s : AccountService) (c : Ctx) (req : result string) :
    ST W (Resp string) :=
  or_fail fail_with req (λ newUsername,
    or_fail error_500 (GetAccountID c) (λ accountID,
      r <- Rename s accountID newUsername ;;
      or_fail (λ e,
        if decide (e = ErrNewUsernameRequired) then fail_with e
        else if decide (e = ErrUsernameTaken) then RespErr 409 e
        else if decide (e = ErrRecordNotFound) then RespErr 404 (ErrMsg "account not found")
        else error_500 e) r
        (λ token, st_ret (RespOk 200 token)))).

Definition AccountHandler_ChangePassword (req : result ChangePasswordRequest) : ST W (Resp string) :=
  or_fail fail_with req (λ req,
    r <- ChangePassword (cp_Username req) (cp_OldPassword req) (cp_NewPassword req) ;;
    or_fail (λ e,
      if decide (e = ErrIncorrectPassword) then RespErr 400 (ErrMsg "incorrect password")
      else RespErr 500 (ErrMsg "failed to change password")) r
      (λ _, st_ret (RespOk 200 "password changed successfully"))).

Definition AccountHandler_FindByID (req : result Z) : ST W (Resp FindByIDResponse) :=
  or_fail fail_with req (λ id,
    r <- AccountService_FindByID id ;;
    or_fail error_500 r (λ a, st_ret (RespOk 200
      (mkFindByIDResponse (ac_ID a) (ac_Username a) (ac_AvatarURL a) (ac_Bio a))))).

(** the account as its JSON shows it, without its password and tokens *)
Definition AccountHandler_FindByUsername (req : result string) : ST W (Resp FindByIDResponse) :=
  or_fail fail_with req (λ username,
    r <- AccountService_FindByUsername username ;;
    or_fail error_500 r (λ a, st_ret (RespOk 200
      (mkFindByIDResponse (ac_ID a) (ac_Username a) (ac_AvatarURL a) (ac_Bio a))))).

Definition AccountHandler_Logout (s : AccountService) (c : Ctx) : ST W (Resp string) :=
  or_fail fail_with (GetAccountID c) (λ accountID,
    r <- Logout s accountID ;;
    or_fail error_500 r (λ _, st_ret (RespOk 200 "account logout successfully"))).

Definition AccountHandler_UpdateProfile (c : Ctx) (req : result UpdateProfileRequest) :
    ST W (Resp string) :=
  or_fail fail_with (GetAccountID c) (λ accountID,
    or_fail fail_with req (λ req,
      r <- UpdateProfile accountID (up_AvatarURL req) (up_Bio req) ;;
      or_fail fail_with r (λ _, st_ret (RespOk 200 "profile updated successfully")))).
End handler.
