(* ===== verification/Upload.v ===== *)
(** Uploads: the handlers of [internal/api/video/handler.go] and
    [internal/api/account/handler.go] that take a file, and the object store
    client of [internal/middleware/cos/cos.go].  A file is kept on the local
    disk while it is sent to the store. *)
From S2P Require Import Prelude GoStd TextFacts Paths Query Entities Json Services DbFacts Http.
From S2P Require Import Account Like LikeFacts.
Local Open Scope Z_scope.
Local Open Scope go_scope.

(** The multipart file of a request: its header and its content. *)
Record FormFile := mkFormFile { ff_Filename : string; ff_Size : Z; ff_Content : string }.

(** ** What the handlers talk to

    The local disk with the temporary files, and the bucket behind the SDK.
    Making directories touches no file. *)
Class Storage (W : Type) := {
  disk : W → gmap string string;
  bucket : W → gmap string string;
  (** whether the disk answers every call *)
  disk_up : W → bool;
  (** milliseconds east of UTC of the zone of [time.Now()] *)
  zone : Z;
  mkdir_all : string → ST W (result unit);
  save_file : FormFile → string → ST W (result unit);
  remove_file : string → ST W (result unit);
  cos_put : string → string → ST W (result unit);
  cos_delete : string → ST W (result unit) }.

(** [kept w w']: neither the disk nor the bucket has changed. *)
Definition kept {W} `{Storage W} (w w' : W) : Prop :=
  disk w' = disk w ∧ bucket w' = bucket w ∧ disk_up w' = disk_up w.

Class StorageLaws (W : Type) `{World W, Storage W} : Prop := {
  law_sql_kept : ∀ A (f : Z → Db → result A * Db) w r w', sql f w = (r, w') → kept w w';
  law_now_kept : ∀ w r w', now w = (r, w') → kept w w';
  law_rand_kept : ∀ n w r w', rand_read n w = (r, w') → kept w w';
  law_mkdir : ∀ p w r w', mkdir_all p w = (r, w') →
    clk w ≤ clk w' ∧ view w' = view w ∧ kept w w' ∧
    (r = Ok tt ∨ disk_up w = false ∧ ∃ code, r = Err (ErrIO code));
  law_save : ∀ f p w r w', save_file f p w = (r, w') →
    clk w ≤ clk w' ∧ view w' = view w ∧ bucket w' = bucket w ∧ disk_up w' = disk_up w ∧
    ((r = Ok tt ∧ disk w' = <[p := ff_Content f]> (disk w)) ∨
     (disk_up w = false ∧ (∃ code, r = Err (ErrIO code)) ∧
      (** a copy that fails may leave a part of the file behind *)
      (disk w' = disk w ∨ ∃ part, disk w' = <[p := part]> (disk w))));
  law_remove : ∀ p w r w', remove_file p w = (r, w') →
    clk w ≤ clk w' ∧ view w' = view w ∧ bucket w' = bucket w ∧ disk_up w' = disk_up w ∧
    (disk w' = delete p (disk w) ∨ (disk_up w = false ∧ disk w' = disk w));
  law_cos_put : ∀ k p w r w', cos_put k p w = (r, w') →
    clk w ≤ clk w' ∧ view w' = view w ∧ disk w' = disk w ∧ disk_up w' = disk_up w ∧
    ((∃ content, r = Ok tt ∧ disk w !! p = Some content ∧ bucket w' = <[k := content]> (bucket w)) ∨
     ((∃ code, r = Err (ErrIO code)) ∧
      (bucket w' = bucket w ∨
       ∃ content, disk w !! p = Some content ∧ bucket w' = <[k := content]> (bucket w))));
  law_cos_delete : ∀ k w r w', cos_delete k w = (r, w') →
    clk w ≤ clk w' ∧ view w' = view w ∧ disk w' = disk w ∧ disk_up w' = disk_up w ∧
    ((r = Ok tt ∧ bucket w' = delete k (bucket w)) ∨
     ((∃ code, r = Err (ErrIO code)) ∧ (bucket w' = bucket w ∨ bucket w' = delete k (bucket w)))) }.

(** ** cos.go *)

(** A [*Client] that is not nil: the text of its bucket URL and the public
    base URL, which [NewClient] has trimmed. *)
Record CosClient := mkCosClient { co_bucketURL : string; co_publicBaseURL : string }.

Definition public_base (PublicBaseURL : string) : string := TrimRightSlash (TrimSpace PublicBaseURL).

Definition normalizeKey (key : string) : string := TrimLeftSlash (TrimSpace key).

Definition ObjectURL (c : option CosClient) (key : string) : result string :=
  let key := normalizeKey key in
  if String.eqb key "" then Err (ErrMsg "cos object key is required")
  else
    match c with
    | None => Err (ErrMsg "cos client is not initialized")
    | Some c =>
        Ok (if negb (String.eqb (co_publicBaseURL c) "")
            then co_publicBaseURL c +:+ "/" +:+ key
            else TrimRightSlash (co_bucketURL c) +:+ "/" +:+ key)
    end.

Section cos.
Context {W : Type} `{Storage W}.

Definition UploadFile (c : option CosClient) (key filePath : string) : ST W (result string) :=
  let key := normalizeKey key in
  match c with
  | None => st_ret (Err (ErrMsg "cos client is not initialized"))
  | Some _ =>
      if String.eqb key "" then st_ret (Err (ErrMsg "cos object key is required"))
      else if String.eqb (TrimSpace filePath) ""
      then st_ret (Err (ErrMsg "cos upload file path is required"))
      else _ <-? cos_put key filePath ;; st_ret (ObjectURL c key)
  end.

Definition DeleteObject (c : option CosClient) (key : string) : ST W (result unit) :=
  let key := normalizeKey key in
  match c with
  | None => st_ret (Err (ErrMsg "cos client is not initialized"))
  | Some _ =>
      if String.eqb key "" then st_ret (Err (ErrMsg "cos object key is required"))
      else cos_delete key
  end.
End cos.

(** ** The handlers *)
Definition image_exts : list string := [".jpg"; ".jpeg"; ".png"; ".webp"].
Definition image_error : string := "only .jpg/.jpeg/.png/.webp allowed".

Section handlers.
Context {W : Type} `{World W} `{SqlEngine} `{Storage W}.

Definition internal {A} (e : err) : Resp A := RespErr 500 e.
Definition bad_request {A} (msg : string) : Resp A := RespErr 400 (ErrMsg msg).

(** an error of [os.Remove] is only logged *)
Definition removeTempFile (path : string) : ST W unit := remove_file path ;;; st_ret tt.

(** The steps the three handlers have in common, from the check of the client
    to the upload: [dirs] are the segments under the kind, [done] what the
    handler does with the URL before the temporary file is removed. *)
Definition upload {A} (cos : option CosClient) (file : option FormFile) (maxSize : Z)
    (exts : list string) (extError kind : string) (dirs : ST W (list string))
    (randError : err → err) (done : string → ST W (Resp A)) : ST W (Resp A) :=
  match cos with
  | None => st_ret (internal (ErrMsg "cos client is not initialized"))
  | Some _ =>
      match file with
      | None => st_ret (bad_request "missing file")
      | Some file =>
          if (ff_Size file <=? 0) || (maxSize <? ff_Size file)
          then st_ret (bad_request "invalid file size")
          else
            let ext := ToLower (Ext (ff_Filename file)) in
            if negb (bool_decide (ext ∈ exts)) then st_ret (bad_request extError)
            else
              ds <- dirs ;;
              let dir := Join ([".run"; "uploads"; kind] ++ ds) in
              r <- mkdir_all dir ;;
              or_fail internal r (λ _,
              r <- RandHex 16 ;;
              or_fail (λ e, internal (randError e)) r (λ name,
              let filename := name +:+ ext in
              let absPath := Join [dir; filename] in
              r <- save_file file absPath ;;
              or_fail internal r (λ _,
                resp <- (u <- UploadFile cos (Join ([kind] ++ ds ++ [filename])) absPath ;;
                         or_fail internal u done) ;;
                removeTempFile absPath ;;; st_ret resp)))
      end
  end.

Definition dated (authorID : Z) : ST W (list string) :=
  t <- now ;; st_ret [dec authorID; FormatDate zone t].

Record UploadVideoResponse := mkUploadVideoResponse { uv_URL : string; uv_PlayURL : string }.
Record UploadCoverResponse := mkUploadCoverResponse { uc_URL : string; uc_CoverURL : string }.

Definition UploadVideo (cos : option CosClient) (c : Ctx) (file : option FormFile) :
    ST W (Resp UploadVideoResponse) :=
  or_fail (RespErr 401) (GetAccountID c) (λ authorID,
    upload cos file (200 * 2 ^ 20) [".mp4"] "only .mp4 is allowed" "videos" (dated authorID)
      (λ _, ErrMsg "failed to generate filename")
      (λ url, st_ret (RespOk 200 (mkUploadVideoResponse url url)))).

Definition UploadCover (cos : option CosClient) (c : Ctx) (file : option FormFile) :
    ST W (Resp UploadCoverResponse) :=
  or_fail (RespErr 401) (GetAccountID c) (λ authorID,
    upload cos file (10 * 2 ^ 20) image_exts image_error "covers" (dated authorID)
      (λ _, ErrMsg "failed to generate filename")
      (λ url, st_ret (RespOk 200 (mkUploadCoverResponse url url)))).

Definition UploadAvatar (cos : option CosClient) (c : Ctx) (file : option FormFile) :
    ST W (Resp string) :=
  or_fail (RespErr 401) (GetAccountID c) (λ accountID,
    upload cos file (10 * 2 ^ 20) image_exts image_error "avatars" (st_ret [dec accountID]) id
      (λ avatarURL,
        r <- AccountService_UpdateAvatar accountID avatarURL ;;
        or_fail internal r (λ _, st_ret (RespOk 200 avatarURL)))).
End handlers.
