(* ===== verification/Sessions.v ===== *)
(** Sessions: the token that the database and Redis hold for an account is the
    one that authenticates it.  The middleware is transparent to the cache,
    the operations of the account service keep the two stores in step, and two
    defects where they do not. *)
From S2P Require Import Prelude GoStd Query Entities Json Services RedisFacts RedisClient.
From S2P Require Import ClientFacts DbFacts Http Reference Account.
From Stdlib Require Import Ascii DecimalString DecimalZ.
From stdpp Require Import countable.
Local Open Scope Z_scope.

(** ** What the middlewares promise *)
Section decision.
Context `{JwtLib}.

(** The answer to a request made at the instant [t], from the tables alone. *)
Definition session_decision (secret : string) (d : Db) (t : time) (header : string) : Mid :=
  match SplitN2 header with
  | [scheme; tokenStr] =>
      if negb (EqualFold scheme "Bearer") then unauthorized "invalid authorization header"
      else match ParseWithClaims (key_callback secret) t tokenStr with
           | Err _ => unauthorized "invalid or expired token"
           | Ok claims =>
               match tget TAccount d !! cl_AccountID claims with
               | Some a =>
                   if String.eqb (ac_Token a) "" || negb (String.eqb (ac_Token a) tokenStr)
                   then unauthorized "token has been revoked" else let_in claims
               | None => unauthorized "token has been revoked"
               end
           end
  | _ => unauthorized "invalid authorization header"
  end.
End decision.

Section sessions.
Context {W : Type} `{WorldLaws W} `{SqlLaws} `{RedisLaws} `{JwtLaws} `{!Bcrypt W} `{!BcryptLaws W}.
Variables (c : Client).
Implicit Types (w : W) (s : Rds).

Lemma token_key_inj id id' : token_key (Some c) id = token_key (Some c) id' → id = id'.
Proof. intros E%string_app_inj_l%string_app_inj_l. by apply dec_inj' in E. Qed.

Lemma token_ne_refresh id rt : token_key (Some c) id ≠ refresh_key (Some c) rt.
Proof. by intros E%string_app_inj_l. Qed.

(** A cached token is the token of its account's row, for every account. *)
Definition cached_tokens (d : Db) s : Prop := ∀ id,
  (string_key s (token_key (Some c) id) ∧ ∀ rt, string_key s (refresh_key (Some c) rt)) ∧
  ∀ b dl, s !! token_key (Some c) id = Some (RStr b, dl) →
    ∃ a, tget TAccount d !! id = Some a ∧ b = Text (ac_Token a) ∧ ac_Token a ≠ "".

Definition session_inv w : Prop :=
  db_ok (v_db (view w)) ∧ cached_tokens (v_db (view w)) (v_rd (view w)).

(** Writing the current token of one account, and forgetting it. *)
Lemma cached_set d s id a t ttl :
  cached_tokens d s → tget TAccount d !! id = Some a → ac_Token a ≠ "" →
  cached_tokens d (<[token_key (Some c) id := (RStr (Text (ac_Token a)), Some (t + ttl))]> s).
Proof.
  intros Hc Ha Ht id'. split; [split; intros; apply string_key_insert_str, Hc; exact id|].
  intros b dl [[E [= <- _]]|[_ E]]%lookup_insert_Some; [|by eapply Hc].
  apply token_key_inj in E as ->. eauto.
Qed.

Lemma cached_other d s k b dl :
  cached_tokens d s → (∀ id, token_key (Some c) id ≠ k) →
  cached_tokens d (<[k := (RStr b, dl)]> s).
Proof.
  intros Hc Hk id. split; [split; intros; apply string_key_insert_str, Hc; exact id|].
  intros b' dl'. rewrite lookup_insert_ne by done. apply Hc.
Qed.

Lemma cached_delete d s k : cached_tokens d s → cached_tokens d (delete k s).
Proof.
  intros Hc id. split; [split; intros; apply string_key_delete, Hc; exact id|].
  intros b dl [_ E]%lookup_delete_Some. by eapply Hc.
Qed.

(** The row of one account changed, its cached token dropped or absent. *)
Lemma cached_row d s id f :
  cached_tokens d s → s !! token_key (Some c) id = None ∨ (∀ a, ac_Token (f a) = ac_Token a) →
  cached_tokens (at_row TAccount id always f d) s.
Proof.
  intros Hc Hf id'. split; [apply Hc|]. intros b dl E.
  destruct (proj2 (Hc id') b dl E) as (a & Ha & -> & Hne).
  rewrite tget_at_row. destruct (decide (id' = id)) as [->|Hid].
  - destruct Hf as [Hf|Hf]; [congruence|]. rewrite Ha. simpl. rewrite lookup_insert_eq.
    exists (f a). by rewrite Hf.
  - exists a. split; [|done]. destruct (tget TAccount d !! id); simpl; [|done].
    by rewrite lookup_insert_ne.
Qed.
(** The instant at which the request's token was parsed decides the answer. *)
Definition decided secret w header (m : Mid) w' : Prop :=
  session_inv w' ∧ v_db (view w') = v_db (view w) ∧ v_up (view w') = v_up (view w) ∧
  ∃ t, clk w ≤ t ≤ clk w' ∧ m = session_decision secret (v_db (view w)) t header.

Lemma runs_FindByID id w (Q : result Account → W → Prop) :
  keyed TAccount (v_db (view w)) →
  (∀ w', clk w ≤ clk w' → view w' = view w →
     Q (match tget TAccount (v_db (view w)) !! id with
        | Some a => Ok a | None => Err ErrRecordNotFound end) w') →
  (∀ code w', clk w ≤ clk w' → view w' = view w → up_db (v_up (view w)) = false →
     Q (Err (ErrIO code)) w') →
  runs (AccountRepo_FindByID id) w Q.
Proof.
  intros Hk Hok Herr. unfold AccountRepo_FindByID, query. call; [|by apply Herr].
  rewrite sel_first_id by done. apply Hok; [done|]. rewrite Hv. by destruct (view w).
Qed.

(** The middleware after parsing: the token against the account's row. *)
Definition token_decision (d : Db) (claims : Claims) (tokenStr : string) : Mid :=
  match tget TAccount d !! cl_AccountID claims with
  | Some a =>
      if String.eqb (ac_Token a) "" || negb (String.eqb (ac_Token a) tokenStr)
      then unauthorized "token has been revoked" else let_in claims
  | None => unauthorized "token has been revoked"
  end.

Lemma check_decides w claims tokenStr :
  session_inv w → up_db (v_up (view w)) = true →
  runs (check (Some c) claims tokenStr) w (λ m w',
    clk w ≤ clk w' ∧ session_inv w' ∧ v_db (view w') = v_db (view w) ∧
    v_up (view w') = v_up (view w) ∧ m = token_decision (v_db (view w)) claims tokenStr).
Proof.
  intros [Hd Hc] Hup. set (id := cl_AccountID claims).
  assert (∀ w1, clk w ≤ clk w1 → view w1 = view w →
    runs (check_db (Some c) claims tokenStr) w1 (λ m w',
      clk w ≤ clk w' ∧ session_inv w' ∧ v_db (view w') = v_db (view w) ∧
      v_up (view w') = v_up (view w) ∧ m = token_decision (v_db (view w)) claims tokenStr)) as Hdb.
  { intros w1 Hc1 Hv1. unfold check_db. apply runs_bind.
    apply runs_FindByID; rewrite Hv1; [apply Hd| |congruence].
    intros w2 Hc2 Hv2. unfold token_decision. fold id.
    assert (clk w ≤ clk w2 ∧ session_inv w2 ∧ v_db (view w2) = v_db (view w) ∧
      v_up (view w2) = v_up (view w)) as Hsame.
    { unfold session_inv. rewrite Hv2. split_and!; [lia|done..]. }
    destruct (tget TAccount (v_db (view w)) !! id) as [a|] eqn:Ea; [|glue; by intuition].
    destruct (String.eqb_spec (ac_Token a) "") as [|Hne]; [glue; by intuition|].
    destruct (String.eqb_spec (ac_Token a) tokenStr) as [<-|]; [|glue; by intuition]. cbn [orb negb].
    apply runs_bind.
    apply runs_SetBytes; [done|intros r w3 Hc3 _ Hv3|intros code w3 Hc3 Hv3 _];
      rewrite Hv2 in Hv3; glue; unfold session_inv; rewrite Hv3; simpl.
    - split_and!; [lia|done| |done..]. by apply cached_set.
    - by split_and!; [lia|..]. }
  unfold check. apply runs_bind. apply runs_GetBytes; [apply Hc|..]; fold id.
  - intros b dl w' Hcw Hv E _. destruct (proj2 (Hc id) b dl E) as (a & Ha & -> & Hne).
    unfold token_decision. fold id. rewrite Ha. cbn [same_text].
    destruct (String.eqb_spec (ac_Token a) ""); [done|]. cbn [orb].
    destruct (String.eqb_spec (ac_Token a) tokenStr); cbn [negb]; glue; unfold session_inv;
      rewrite Hv; by split_and!.
  - intros w' Hcw Hv _. by apply Hdb.
  - intros code w' Hcw Hv _. by apply Hdb.
Qed.

Lemma authenticate_decides w secret header :
  session_inv w → up_db (v_up (view w)) = true →
  runs (authenticate secret (Some c) header) w (decided secret w header).
Proof.
  intros Hinv Hup. unfold authenticate, decided, session_decision.
  assert (∀ msg : string, session_inv w ∧ v_db (view w) = v_db (view w) ∧
    v_up (view w) = v_up (view w) ∧ ∃ t, clk w ≤ t ≤ clk w ∧ unauthorized msg = unauthorized msg) as Hsame
    by (intros; split_and!; try done; by exists (clk w)).
  destruct (SplitN2 header) as [|scheme [|tokenStr [|? ?]]]; try by apply runs_ret.
  destruct (EqualFold scheme "Bearer"); cbn [negb]; [|by apply runs_ret].
  unfold ParseToken. call. glue.
  assert (session_inv w') as Hinv' by (unfold session_inv; by rewrite Hv).
  destruct (ParseWithClaims (key_callback secret) (clk w') tokenStr) as [claims|e] eqn:E.
  - eapply runs_mono; [apply check_decides; [done|by rewrite Hv]|].
    intros m w2 (Hc2 & Hi2 & Hd2 & Hu2 & ->). rewrite Hv in *. split_and!; [done..|].
    exists (clk w'). split; [lia|]. rewrite E. done.
  - glue. rewrite Hv. split_and!; [done..|]. exists (clk w'). split; [lia|]. by rewrite E.
Qed.

(** *** The operations *)
Definition up_all w : Prop := up_db (v_up (view w)) = true ∧ up_rd (v_up (view w)) = true.

Lemma token_ne_account_refresh id id' :
  token_key (Some c) id ≠ account_refresh_key (Some c) id'.
Proof.
  intros E%string_app_inj_l%string_app_inj_l.
  apply (f_equal (has_char ":"%char)) in E. rewrite has_char_app, !dec_no_colon in E. discriminate E.
Qed.

Lemma cached_renewed d s id f tok a dl :
  cached_tokens d s → tget TAccount d !! id = Some a → ac_Token (f a) = tok → tok ≠ "" →
  cached_tokens (at_row TAccount id always f d) (<[token_key (Some c) id := (RStr (Text tok), dl)]> s).
Proof.
  intros Hc Ha Ht Hne id'. split; [split; intros; apply string_key_insert_str, Hc; exact id|].
  intros b dl' [[E [= <- _]]|[Hk E]]%lookup_insert_Some; rewrite tget_at_row, Ha; simpl.
  - apply token_key_inj in E as ->. exists (f a). rewrite lookup_insert_eq, Ht. done.
  - destruct (proj2 (Hc id') b dl' E) as (a' & Ha' & -> & Hne').
    exists a'. rewrite lookup_insert_ne; [done|]. intros ->. done.
Qed.

Lemma runs_update_account id f w (Q : result unit → W → Prop) :
  db_ok (v_db (view w)) → (∀ a, ac_ID (f a) = ac_ID a) → (∀ a, ac_Username (f a) = ac_Username a) →
  (∀ w', clk w ≤ clk w' → view w' = set_db (at_row TAccount id always f (v_db (view w))) (view w) →
     db_ok (v_db (view w')) → Q (Ok tt) w') →
  (∀ code w', clk w ≤ clk w' → view w' = view w → Q (Err (ErrIO code)) w') →
  runs (update_account id f) w Q.
Proof.
  intros Hd Hi Hn Hok Herr. unfold update_account.
  assert (∀ r, row_key TAccount (f r) = row_key TAccount r) as Hkey by (intros; simpl; by rewrite Hn).
  call; [|by eapply Herr]. unfold exec in *.
  destruct (update_row_cases TAccount id always f (v_db (view w))) as [[n E]|[code E]];
    try done; [apply Hd|..]; rewrite E in *; simpl in *.
  - apply Hok; [done|done|]. rewrite Hv. by apply db_ok_at_row.
  - apply Herr; [done|]. rewrite Hv. by destruct (view w).
Qed.

Lemma runs_GenerateToken secret id name w (Q : result string → W → Prop) :
  secret ≠ "" →
  (∀ tok t w', clk w ≤ t ≤ clk w' → view w' = view w → tok ≠ "" →
     SignedString HS256 secret (new_claims id name t) = Ok tok → Q (Ok tok) w') →
  runs (GenerateToken secret id name) w Q.
Proof.
  intros Hs%String.eqb_neq HQ. unfold GenerateToken, jwtSecret. call. glue. rewrite Hs.
  apply String.eqb_neq in Hs.
  destruct (law_sign secret (new_claims id name (clk w')) Hs) as (tok & E & Hne).
  unfold HS256 in *. rewrite E. by eapply HQ.
Qed.

(** A token made at [t] parses until it expires. *)
Lemma parse_fresh secret id name t t' tok :
  secret ≠ "" → SignedString HS256 secret (new_claims id name t) = Ok tok →
  t ≤ t' ≤ t + JWTExpire - Second →
  ParseWithClaims (key_callback secret) t' tok = Ok (new_claims id name t).
Proof.
  intros Hs%String.eqb_neq E Ht. apply (law_parse HS256 secret _ _ _ _ E).
  - unfold key_callback, jwtSecret. simpl. by rewrite Hs.
  - simpl. pose proof (law_date t). pose proof (law_date (t + JWTExpire)). lia.
Qed.

Lemma bearer_split tok : SplitN2 ("Bearer " +:+ tok) = ["Bearer"; tok].
Proof.
  apply (SplitN2_app "Bearer"). intros a Ha. simpl in Ha.
  repeat (apply elem_of_cons in Ha as [->|Ha]; [done|]). by apply elem_of_nil in Ha.
Qed.

Variables (secret : string).
Hypothesis (Hsecret : secret ≠ "").
Abbreviation svc := (mkAccountService (Some c) secret).

(** [tok] was signed for the account between the two worlds. *)
Definition signed (id : Z) (name tok : string) w w' : Prop :=
  tok ≠ "" ∧ ∃ t, clk w ≤ t ≤ clk w' ∧ SignedString HS256 secret (new_claims id name t) = Ok tok.

Lemma runs_find_account wh w (Q : result Account → W → Prop) :
  keyed TAccount (v_db (view w)) →
  (∀ a w', clk w ≤ clk w' → view w' = view w → tget TAccount (v_db (view w)) !! ac_ID a = Some a →
     wh a = true → Q (Ok a) w') →
  (∀ e w', clk w ≤ clk w' → view w' = view w → Q (Err e) w') →
  runs (query (λ d, sel_first wh [Asc ac_ID] (rows TAccount d))) w Q.
Proof.
  intros Hk Hok Herr. unfold query. call; [|by apply Herr].
  assert (view w' = view w) as Hv' by (rewrite Hv; by destruct (view w)).
  destruct (sel_first_cases wh [Asc ac_ID] (rows TAccount (v_db (view w)))) as [[-> _]|(a & -> & Ha & Hw)].
  - by apply Herr.
  - apply (elem_of_rows_keyed TAccount) in Ha; [|done]. by apply Hok.
Qed.

Lemma Login_runs username password w :
  session_inv w → up_all w →
  runs (Login svc username password) w (λ r w',
    session_inv w' ∧ v_up (view w') = v_up (view w) ∧
    match r with
    | Err _ => v_db (view w') = v_db (view w)
    | Ok (tok, rt) => ∃ a, tget TAccount (v_db (view w)) !! ac_ID a = Some a ∧
        text_eq (ac_Username a) username = true ∧
        CompareHashAndPassword (ac_Password a) password = Ok tt ∧
        signed (ac_ID a) (ac_Username a) tok w w' ∧
        v_db (view w') = at_row TAccount (ac_ID a) always (set_tokens tok rt) (v_db (view w))
    end).
Proof.
  intros [Hd Hc] [Hub Hur]. unfold Login, AccountService_FindByUsername, AccountRepo_FindByUsername.
  assert (∀ w', view w' = view w → session_inv w' ∧ v_up (view w') = v_up (view w) ∧
    v_db (view w') = v_db (view w)) as Hsame by (intros w' Hv; unfold session_inv; by rewrite Hv).
  apply runs_try. apply runs_find_account; [apply Hd| |intros e w1 _ Hv1; by apply Hsame].
  intros a w1 Hc1 Hv1 Ha Hu.
  destruct (CompareHashAndPassword (ac_Password a) password) as [[]|e] eqn:Ep;
    [|glue; by apply Hsame].
  cbn [as_secret]. apply runs_try. apply runs_GenerateToken; [done|].
  intros tok t w2 Ht Hv2 Hne Htok. change (GenerateRefreshToken _) with (RandHex 32).
  call; [|apply Hsame; congruence]. rename id into rt.
  assert (view w' = view w) as Hv' by congruence.
  apply runs_try. apply runs_update_account; rewrite ?Hv'; try done.
  2:{ intros code w3 _ Hv3. apply Hsame. congruence. }
  intros w3 Hc3 Hv3 Hd3. unfold cache_tokens. cbn [as_cache].
  assert (up_rd (v_up (view w3)) = true) as Hup3 by (rewrite Hv3; done).
  apply runs_bind, runs_bind. apply runs_SetBytes; [done| |congruence].
  intros r4 w4 Hc4 _ Hv4. apply runs_bind. apply runs_SetBytes; [done| |rewrite Hv4; simpl; congruence].
  intros r5 w5 Hc5 _ Hv5. apply runs_bind. apply runs_SetBytes; [done| |rewrite Hv5, Hv4; simpl; congruence].
  intros r6 w6 Hc6 _ Hv6. glue. unfold session_inv. rewrite Hv6, Hv5, Hv4, Hv3 in *. simpl in *.
  split_and!; [done| |done|].
  - apply cached_other; [|intros; apply token_ne_refresh].
    apply cached_other; [|intros; apply token_ne_account_refresh].
    by eapply cached_renewed.
  - exists a. do 3 (split; [done|]). split; [|done]. split; [done|]. exists t. split; [lia|done].
Qed.

Lemma session_same w w' : session_inv w → view w' = view w → session_inv w'.
Proof. unfold session_inv. by intros ? ->. Qed.

(** With Redis up the account's token is no longer cached. *)
Lemma forget_tokens_runs id rt w :
  cached_tokens (v_db (view w)) (v_rd (view w)) → up_rd (v_up (view w)) = true →
  runs (forget_tokens svc id rt) w (λ _ w', clk w ≤ clk w' ∧ ∃ s, view w' = set_rd s (view w) ∧
    s !! token_key (Some c) id = None ∧ cached_tokens (v_db (view w)) s).
Proof.
  intros Hc Hur. unfold forget_tokens. cbn [as_cache].
  apply runs_bind. apply runs_Delete; [|congruence]. intros r1 w1 Hc1 _ Hv1.
  apply runs_bind. apply runs_Delete; [|rewrite Hv1; simpl; congruence]. intros r2 w2 Hc2 _ Hv2.
  rewrite Hv1 in Hv2. cbn [v_rd set_rd] in Hv2.
  set (s2 := delete (account_refresh_key _ id) _ : Rds) in Hv2.
  assert (s2 !! token_key (Some c) id = None) as Hs2
    by (apply lookup_delete_None; right; apply lookup_delete_eq).
  assert (cached_tokens (v_db (view w)) s2) as Hcs2 by (by do 2 apply cached_delete).
  destruct (negb (String.eqb rt "")); [|glue; split; [lia|by exists s2]].
  apply runs_bind. apply runs_Delete; [|rewrite Hv2; simpl; congruence]. intros r3 w3 Hc3 _ Hv3.
  glue. split; [lia|]. rewrite Hv2 in Hv3. eexists. split; [exact Hv3|]. simpl.
  split; [apply lookup_delete_None; by right|by apply cached_delete].
Qed.

Lemma Logout_runs id w :
  session_inv w → up_all w →
  runs (Logout svc id) w (λ r w',
    session_inv w' ∧ v_up (view w') = v_up (view w) ∧
    match r with
    | Err _ => v_db (view w') = v_db (view w)
    | Ok _ => ∃ a, tget TAccount (v_db (view w)) !! id = Some a ∧
        v_db (view w') = (if String.eqb (ac_Token a) "" then v_db (view w)
                          else at_row TAccount id always (set_tokens "" "") (v_db (view w)))
    end).
Proof.
  intros Hinv [Hub Hur]. pose proof Hinv as [Hd Hc].
  unfold Logout, AccountService_FindByID. apply runs_try. apply runs_FindByID; [apply Hd| |congruence].
  intros w1 Hc1 Hv1. pose proof (session_same _ _ Hinv Hv1) as Hinv1.
  destruct (tget TAccount (v_db (view w)) !! id) as [a|] eqn:Ea; [|by rewrite Hv1].
  destruct (String.eqb (ac_Token a) "") eqn:Et.
  { glue. rewrite Hv1. split; [done|]. split; [done|]. exists a. by rewrite Et. }
  assert (ac_ID a = id) as Hid by (exact (proj1 (Hd _ TAccount) id a Ea)).
  apply runs_bind. eapply runs_mono; [apply forget_tokens_runs; rewrite Hv1; done|].
  intros _ w2 (Hc2 & s & Hv2 & Hs & Hcs). rewrite Hv1 in Hv2, Hcs.
  apply runs_update_account; rewrite ?Hv2; try done.
  - intros w3 Hc3 Hv3 Hd3. unfold session_inv. rewrite Hv3 in *. simpl in *. rewrite Hid in *.
    split; [split; [done|]|split; [done|]].
    + apply cached_row; [done|by left].
    + exists a. by rewrite Et.
  - intros code w3 Hc3 Hv3. unfold session_inv. by rewrite Hv3.
Qed.

(** The renaming transaction: both columns, or nothing. *)
Lemma rename_tx_cases id name tok d :
  db_ok d →
  (∃ a, tget TAccount d !! id = Some a ∧ ac_Username a ≠ name ∧
     let d' := at_row TAccount id always (λ a, set_token tok (set_username name a)) d in
     eng_tx (rename_tx id name tok) d = (Ok tt, d') ∧ db_ok d') ∨
  (∃ e, eng_tx (rename_tx id name tok) d = (Err e, d)).
Proof.
  intros Hd. rewrite law_tx. unfold rename_tx, st_try, st_bind.
  destruct (update_key_cases TAccount id (set_username name) d (Hd _ _)) as [[-> Hok]|[e ->]];
    [done| |right; by eexists].
  rewrite changed_where_id by apply Hd.
  destruct (tget TAccount d !! id) as [a|] eqn:Ea; [|right; by eexists]. cbn [always].
  destruct (row_eq_dec TAccount (set_username name a) a) as [Eq|Hne]; [right; by eexists|].
  cbn [Z.eqb].
  set (d1 := at_row TAccount id always (set_username name) d) in *.
  assert (db_ok d1) as Hd1.
  { unfold d1, at_row in *. rewrite Ea in *. simpl in *. by apply db_ok_tset. }
  unfold exec.
  destruct (update_row_cases TAccount id always (set_token tok) d1) as [[n E]|[code E]];
    [apply Hd1|done|done|..]; rewrite E; cbn [fst snd res_map]; [|right; by eexists].
  left. exists a. split; [done|]. split; [intros <-; by destruct a|].
  unfold d1 in *. rewrite <-(at_row_compose TAccount id (set_username name) (set_token tok)).
  split; [done|]. by apply db_ok_at_row.
Qed.

Lemma Rename_runs id name w :
  session_inv w → up_all w →
  runs (Rename svc id name) w (λ r w',
    session_inv w' ∧ v_up (view w') = v_up (view w) ∧
    match r with
    | Err _ => v_db (view w') = v_db (view w)
    | Ok tok => ∃ a, tget TAccount (v_db (view w)) !! id = Some a ∧ signed id name tok w w' ∧
        v_db (view w') = at_row TAccount id always (λ a, set_token tok (set_username name a))
                           (v_db (view w))
    end).
Proof.
  intros Hinv [Hub Hur]. pose proof Hinv as [Hd Hc]. unfold Rename. cbn [as_cache as_secret].
  destruct (String.eqb name ""); [by apply runs_ret|].
  apply runs_try. apply runs_GenerateToken; [done|]. intros tok t w1 Ht Hv1 Hne Htok.
  unfold RenameWithToken. call; rewrite Hv1 in *; [|congruence].
  destruct (rename_tx_cases id name tok (v_db (view w)) Hd) as [(a & Ea & Hn & E & Hd')|[e E]];
    rewrite E in *; cbn [fst snd] in *.
  - apply runs_bind. apply runs_SetBytes; [done| |rewrite Hv; simpl; congruence].
    intros r2 w2 Hc2 _ Hv2. rewrite Hv in Hv2. glue. unfold session_inv. rewrite Hv2. simpl.
    split; [split; [done|]|split; [done|]].
    + by eapply cached_renewed.
    + exists a. split; [done|]. split; [|done]. split; [done|]. exists t. split; [lia|done].
  - glue. unfold session_inv. by rewrite Hv.
Qed.

(** A change of other columns of one account. *)
Lemma update_account_keeps id f w :
  session_inv w → (∀ a, ac_ID (f a) = ac_ID a) → (∀ a, ac_Username (f a) = ac_Username a) →
  (∀ a, ac_Token (f a) = ac_Token a) →
  runs (update_account id f) w (λ _ w', session_inv w' ∧ v_up (view w') = v_up (view w)).
Proof.
  intros [Hd Hc] Hi Hn Ht. apply runs_update_account; try done.
  - intros w' _ Hv Hd'. unfold session_inv. rewrite Hv in *. split; [|done]. split; [done|].
    apply cached_row; [done|by right].
  - intros code w' _ Hv. unfold session_inv. by rewrite Hv.
Qed.

Lemma runs_Generate p w (Q : result string → W → Prop) :
  (∀ r w', view w' = view w → Q r w') → runs (GenerateFromPassword p) w Q.
Proof. intros HQ. eapply runs_mono; [apply law_generate|]. intros r w' (_ & Hv & _). by apply HQ. Qed.

Lemma ChangePassword_keeps u po pn w :
  session_inv w →
  runs (ChangePassword u po pn) w (λ _ w', session_inv w' ∧ v_up (view w') = v_up (view w)).
Proof.
  intros Hinv. pose proof Hinv as [Hd _].
  unfold ChangePassword, AccountService_FindByUsername, AccountRepo_FindByUsername.
  assert (∀ w', view w' = view w → session_inv w' ∧ v_up (view w') = v_up (view w)) as Hsame
    by (intros w' Hv; unfold session_inv; by rewrite Hv).
  apply runs_try. apply runs_find_account; [apply Hd| |intros; by apply Hsame].
  intros a w1 _ Hv1 _ _. destruct (CompareHashAndPassword _ _); [|glue; by apply Hsame].
  apply runs_try. apply runs_Generate. intros [h|e] w2 Hv2; [|apply Hsame; congruence].
  eapply runs_mono; [apply update_account_keeps; try done; apply Hsame; congruence|].
  intros _ w3 [? ->]. split; [done|congruence].
Qed.

Lemma CreateAccount_keeps u p w :
  session_inv w →
  runs (AccountService_CreateAccount (mkAccount 0 u p "" "" "" "")) w
    (λ _ w', session_inv w' ∧ v_up (view w') = v_up (view w)).
Proof.
  intros Hinv. pose proof Hinv as [Hd Hc].
  unfold AccountService_CreateAccount, AccountRepo_CreateAccount.
  assert (∀ w', view w' = view w → session_inv w' ∧ v_up (view w') = v_up (view w)) as Hsame
    by (intros w' Hv; unfold session_inv; by rewrite Hv).
  apply runs_try. apply runs_Generate. intros [h|e] w1 Hv1; [|by apply Hsame].
  call; rewrite Hv1 in *; [|by apply Hsame].
  set (a := set_password h _) in *.
  destruct (create_cases TAccount a (clk w') (v_db (view w)))
    as [(id & Hid & Hn & Hcl & E)|[[_ E]|[_ [code E]]]]; [done|rewrite E in *; cbn [fst snd] in *..].
  2,3: apply Hsame; rewrite Hv; by destruct (view w).
  unfold session_inv. rewrite Hv. cbn [v_db v_rd v_up set_db]. split; [|done]. split.
  - apply db_ok_tset; [done|]. apply (table_ok_create TAccount id (clk w') a); try done; apply Hd.
  - intros id'. split; [apply Hc|]. intros b dl Eb.
    destruct (proj2 (Hc id') b dl Eb) as (a' & Ha' & -> & Hne). exists a'.
    rewrite tget_tset, lookup_insert_ne; [done|]. intros ->. congruence.
Qed.

(** *** The properties *)

(** What a request with this header is answered in [w], whatever Redis does. *)
Definition authenticates header w (Q : Mid → Prop) : Prop :=
  runs (authenticate secret (Some c) header) w (λ m _, Q m).

Lemma decision_token d t header cx id :
  session_decision secret d t header = Next cx → cx_accountID cx = Some id →
  ∃ scheme tok a, SplitN2 header = [scheme; tok] ∧ tget TAccount d !! id = Some a ∧
    ac_Token a = tok ∧ tok ≠ "".
Proof.
  unfold session_decision. intros E Hcx.
  destruct (SplitN2 header) as [|scheme [|tok [|? ?]]]; try done.
  destruct (EqualFold scheme "Bearer"); [|done].
  destruct (ParseWithClaims _ _ _) as [claims|]; [|done].
  destruct (tget TAccount d !! cl_AccountID claims) as [a|] eqn:Ea; [|done].
  destruct (String.eqb_spec (ac_Token a) ""), (String.eqb_spec (ac_Token a) tok); try done.
  simpl in E. injection E as <-. simpl in Hcx. injection Hcx as <-.
  exists scheme, tok, a. split_and!; congruence.
Qed.

(** Only the token of the row authenticates the account. *)
Lemma only_current w id header :
  session_inv w → up_db (v_up (view w)) = true →
  authenticates header w (λ m, ∀ cx, m = Next cx → cx_accountID cx = Some id →
    ∃ scheme tok a, SplitN2 header = [scheme; tok] ∧
      tget TAccount (v_db (view w)) !! id = Some a ∧ ac_Token a = tok ∧ tok ≠ "").
Proof.
  intros Hinv Hup. eapply runs_mono; [by apply authenticate_decides|].
  intros m w' (_ & _ & _ & t & _ & ->) cx E Hcx. by eapply decision_token.
Qed.

(** The token just signed for the row authenticates the account until it
    expires. *)
Lemma current_accepted w0 w w1 id name tok a :
  session_inv w1 → up_db (v_up (view w1)) = true → signed id name tok w0 w → clk w ≤ clk w1 →
  tget TAccount (v_db (view w1)) !! id = Some a → ac_Token a = tok →
  runs (authenticate secret (Some c) ("Bearer " +:+ tok)) w1 (λ m w2,
    clk w2 ≤ clk w0 + JWTExpire - Second → m = Next (mkCtx (Some id) (Some name))).
Proof.
  intros Hinv Hup (Hne & t0 & Ht0 & Htok) Hc1 Ea Et.
  eapply runs_mono; [by apply authenticate_decides|].
  intros m w2 (_ & _ & _ & t & Ht & ->) Hexp. unfold session_decision.
  rewrite bearer_split. cbn [negb EqualFold String.eqb].
  change (EqualFold "Bearer" "Bearer") with true. cbn [negb].
  rewrite (parse_fresh secret id name t0 t tok Hsecret Htok) by lia.
  cbn [cl_AccountID new_claims]. rewrite Ea, Et.
  destruct (String.eqb_spec tok ""); [done|]. by rewrite String.eqb_refl.
Qed.

(** C20: the authentication middlewares are transparent to the cache: as long
    as cached tokens agree with the rows, whatever Redis does the answer is
    the one the accounts table alone gives at some instant of the request, no
    table changes, and cached tokens still agree with the rows. *)
Theorem JWTAuth_transparent w r :
  session_inv w → up_db (v_up (view w)) = true →
  runs (JWTAuth secret (Some c) r) w (λ m w',
    session_inv w' ∧ v_db (view w') = v_db (view w) ∧ ∃ t, clk w ≤ t ≤ clk w' ∧
    m = if String.eqb (rq_Authorization r) "" then unauthorized "missing authorization header"
        else session_decision secret (v_db (view w)) t (rq_Authorization r)) ∧
  runs (SoftJWTAuth secret (Some c) r) w (λ m w',
    session_inv w' ∧ v_db (view w') = v_db (view w) ∧ ∃ t, clk w ≤ t ≤ clk w' ∧
    m = if String.eqb (rq_Authorization r) "" then Next (rq_ctx r)
        else session_decision secret (v_db (view w)) t (rq_Authorization r)).
Proof.
  intros Hinv Hup. unfold JWTAuth, SoftJWTAuth.
  assert (∃ t, clk w ≤ t ≤ clk w) as Ht by (by exists (clk w)).
  destruct (String.eqb (rq_Authorization r) "").
  - split; apply runs_ret; split; [done|split; [done|naive_solver]|done|split; [done|naive_solver]].
  - split; (eapply runs_mono; [by apply authenticate_decides|]);
      intros m w' (? & ? & _ & t & ? & ->); eauto.
Qed.

(** The requests that touch accounts and tokens, but for refreshing. *)
Inductive session_op : Type :=
| OpCreate (username password : string)
| OpLogin (username password : string)
| OpLogout (id : Z)
| OpRename (id : Z) (newUsername : string)
| OpChangePassword (username oldPassword newPassword : string)
| OpUpdateAvatar (id : Z) (url : string)
| OpUpdateProfile (id : Z) (url bio : string)
| OpAuthenticate (r : Req).

Definition serve (op : session_op) : ST W unit :=
  match op with
  | OpCreate u p => st_bind (AccountService_CreateAccount (mkAccount 0 u p "" "" "" "")) (λ _, st_ret tt)
  | OpLogin u p => st_bind (Login svc u p) (λ _, st_ret tt)
  | OpLogout id => st_bind (Logout svc id) (λ _, st_ret tt)
  | OpRename id n => st_bind (Rename svc id n) (λ _, st_ret tt)
  | OpChangePassword u po pn => st_bind (ChangePassword u po pn) (λ _, st_ret tt)
  | OpUpdateAvatar id url => st_bind (AccountService_UpdateAvatar id url) (λ _, st_ret tt)
  | OpUpdateProfile id url bio => st_bind (UpdateProfile id url bio) (λ _, st_ret tt)
  | OpAuthenticate r => st_bind (JWTAuth secret (Some c) r) (λ _, st_ret tt)
  end.

Lemma serve_keeps op w :
  session_inv w → up_all w →
  runs (serve op) w (λ _ w', session_inv w' ∧ v_up (view w') = v_up (view w)).
Proof.
  intros Hinv Hup. destruct op; cbn [serve]; apply runs_bind.
  - by apply CreateAccount_keeps.
  - eapply runs_mono; [by apply Login_runs|]. intros ? ? (? & ? & _). done.
  - eapply runs_mono; [by apply Logout_runs|]. intros ? ? (? & ? & _). done.
  - eapply runs_mono; [by apply Rename_runs|]. intros ? ? (? & ? & _). done.
  - by apply ChangePassword_keeps.
  - by apply update_account_keeps.
  - unfold UpdateProfile. destruct (_ && _); [by apply runs_ret|]. by apply update_account_keeps.
  - unfold JWTAuth. destruct (String.eqb _ ""); [by apply runs_ret|].
    eapply runs_mono; [apply authenticate_decides; [done|apply Hup]|].
    intros ? ? (? & _ & ? & _). done.
Qed.

(** C21: with the database and Redis up, any sequence of account creations,
    logins, logouts, renames, password, avatar and profile changes and
    authenticated requests keeps every cached token equal to its row's. *)
Theorem sessions_consistent ops w :
  session_inv w → up_all w → runs (st_iter serve ops) w (λ _ w', session_inv w').
Proof.
  intros Hinv Hup.
  eapply runs_mono; [apply (runs_iter _ (λ w, session_inv w ∧ up_all w))|].
  - done.
  - intros op w1 _ [Hinv1 Hup1]. eapply runs_mono; [by apply serve_keeps|].
    intros _ w2 [? Hu]. unfold up_all. by rewrite Hu.
  - by intros _ w' [? _].
Qed.


(** The refresh token of nobody, in MySQL's collation, is refused. *)
Lemma RefreshToken_refused rt w :
  session_inv w →
  (∀ k a, tget TAccount (v_db (view w)) !! k = Some a →
     text_eq (ac_RefreshToken a) rt = true → rt = "") →
  runs (RefreshToken svc rt) w (λ r _, is_ok r = false).
Proof.
  intros Hinv Hno. pose proof Hinv as [Hd Hc]. unfold RefreshToken.
  destruct (String.eqb_spec rt "") as [|Hne]; [by apply runs_ret|].
  assert (∀ w', view w' = view w → runs (AccountRepo_FindByRefreshToken rt) w'
    (λ r w2, is_ok r = false)) as Hfind.
  { intros w' Hv. apply runs_find_account; [rewrite Hv; apply Hd| |done].
    intros a w2 _ _ Ea Er. rewrite Hv in Ea. by apply (Hno _ _ Ea) in Er. }
  apply runs_bind. eapply (runs_mono _ _ (λ hit w', hit = None ∧ view w' = view w)).
  2:{ intros hit w' [-> Hv]. unfold AccountService_FindByRefreshToken. apply runs_try.
      eapply runs_mono; [by apply Hfind|]. by intros [] ? ?. }
  unfold refresh_lookup. cbn [as_cache]. apply runs_bind. apply runs_GetBytes; [apply (Hc 0)|..].
  - intros b dl w' _ Hv _ _. destruct (ParseUint _) as [id|]; [|by apply runs_ret].
    unfold AccountService_FindByID. apply runs_bind. apply runs_FindByID; rewrite Hv; [apply Hd|..].
    + intros w2 _ Hv2. apply runs_ret. split; [|done].
      destruct (tget TAccount (v_db (view w)) !! id) as [a|] eqn:Ea; [|done].
      destruct (String.eqb_spec (ac_RefreshToken a) rt) as [Er|]; [|done].
      assert (text_eq (ac_RefreshToken a) rt = true) as Et by (rewrite Er; apply text_eq_refl).
      by apply (Hno _ _ Ea) in Et.
    + intros code w2 _ Hv2 _. by apply runs_ret.
  - intros w' _ Hv _. by apply runs_ret.
  - intros code w' _ Hv _. by apply runs_ret.
Qed.


(** What follows the lookup only moves the clock on. *)
Lemma rotate_clock w1 (hit : option Account) rt :
  runs (match hit with
        | Some a =>
            st_try (GenerateToken secret (ac_ID a) (ac_Username a)) (λ tok,
            st_try (UpdateToken (ac_ID a) tok) (λ _,
            st_try (SetBytes (token_key (Some c) (ac_ID a)) (Text tok) (24 * Hour)) (λ _,
            st_ret (Ok (tok, ac_ID a, ac_Username a)))))
        | None =>
            st_try (AccountService_FindByRefreshToken rt) (λ a,
            st_try (GenerateToken secret (ac_ID a) (ac_Username a)) (λ tok,
            st_try (UpdateToken (ac_ID a) tok) (λ _,
            st_ret (Ok (tok, ac_ID a, ac_Username a)))))
        end) w1 (λ _ w', clk w1 ≤ clk w').
Proof.
  unfold AccountService_FindByRefreshToken, AccountRepo_FindByRefreshToken, query, GenerateToken,
    UpdateToken, update_account, SetBytes.
  destruct hit as [a|].
  - call. glue. destruct (match jwtSecret secret with Ok _ => _ | Err _ => _ end); [|lia].
    call; [|lia]. destruct (exec _).1; [|lia]. call; glue; lia.
  - call; [|lia]. destruct (sel_first _ _ _) as [a|]; [|lia].
    call. glue. destruct (match jwtSecret secret with Ok _ => _ | Err _ => _ end); [|lia].
    call; [|lia]. destruct (exec _).1; [|lia]. glue. lia.
Qed.

(** While Redis still knows the refresh token, refreshing rotates the
    session: a new token for the account's name is in its row and in Redis, in
    step, and the refresh token stays; an error changes no table. *)
Theorem RefreshToken_rotates rt id a dl w :
  session_inv w → up_all w → rt ≠ "" → is_uint id = true →
  tget TAccount (v_db (view w)) !! id = Some a → ac_RefreshToken a = rt →
  v_rd (view w) !! refresh_key (Some c) rt = Some (RStr (Text (dec id)), Some dl) →
  runs (RefreshToken svc rt) w (λ r w', clk w' < dl → session_inv w' ∧
    match r with
    | Err _ => v_db (view w') = v_db (view w)
    | Ok (tok, id', name) => id' = id ∧ name = ac_Username a ∧ signed id name tok w w' ∧
        v_db (view w') = at_row TAccount id always (set_token tok) (v_db (view w)) ∧
        ∃ dl', v_rd (view w') !! token_key (Some c) id = Some (RStr (Text tok), Some dl')
    end).
Proof.
  intros Hinv [Hub Hur] Hrt Hid Ea Er Ek. pose proof Hinv as [Hd Hc].
  unfold RefreshToken. destruct (String.eqb_spec rt ""); [done|].
  apply runs_bind. eapply (runs_mono _ _ (λ hit w', clk w ≤ clk w' ∧ view w' = view w ∧
    (clk w' < dl → hit = Some a))).
  { unfold refresh_lookup. cbn [as_cache]. apply runs_bind.
    apply runs_GetBytes; [apply (Hc 0)| | |congruence].
    - intros b dl' w1 Hc1 Hv1 E _. rewrite Ek in E. injection E as <- <-.
      change (default "" (bytes_text (Text (dec id)))) with (dec id).
      rewrite ParseUint_dec by done. unfold AccountService_FindByID.
      apply runs_bind. apply runs_FindByID; rewrite Hv1; [apply Hd| |congruence].
      intros w2 Hc2 Hv2. apply runs_ret. rewrite Ea, Er, String.eqb_refl. split; [lia|]. by split.
    - intros w1 Hc1 Hv1 E. apply runs_ret. split; [done|]. split; [done|]. intros Hlt.
      rewrite (live_here _ _ _ _ _ Ek Hlt) in E. discriminate E. }
  assert (ac_ID a = id) as Hida by (exact (proj1 (Hd _ TAccount) id a Ea)).
  intros hit w1 (Hc1 & Hv1 & Hhit).
  destruct (Z.lt_ge_cases (clk w1) dl) as [Hlt|Hge].
  - rewrite Hhit by done. cbn [as_secret as_cache]. rewrite Hida.
    apply runs_try. apply runs_GenerateToken; [done|]. intros tok t w2 Ht Hv2 Hne Htok.
    rewrite Hv1 in Hv2. apply runs_try. apply runs_update_account; rewrite ?Hv2; try done.
    2:{ intros code w3 _ Hv3 _. split; [by eapply session_same|by rewrite Hv3]. }
    intros w3 Hc3 Hv3 Hd3. apply runs_try. apply runs_SetBytes; [done| |rewrite Hv3; simpl; congruence].
    intros r4 w4 Hc4 Hr4 Hv4. rewrite Hr4 by (rewrite Hv3; done). apply runs_ret. intros _.
    unfold session_inv. rewrite Hv4, Hv3 in *. simpl in *. split; [split; [done|by eapply cached_renewed]|].
    do 2 (split; [done|]). split; [split; [done|]|split; [done|]].
    + exists t. split; [lia|done].
    + eexists. apply lookup_insert_eq.
  - eapply (runs_mono _ _ (λ _ w', clk w1 ≤ clk w')); [|intros; lia].
    apply rotate_clock.
Qed.

(** renaming an account to the name it already has fails with 404
    "account not found": MySQL counts no changed row, which the repository
    takes for a missing account. *)
Theorem Rename_to_own_name id name u w :
  db_ok (v_db (view w)) → up_db (v_up (view w)) = true → name ≠ "" →
  (∃ a, tget TAccount (v_db (view w)) !! id = Some a ∧ ac_Username a = name) →
  runs (AccountHandler_Rename svc (mkCtx (Some id) u) (Ok name)) w (λ r w',
    r = RespErr 404 (ErrMsg "account not found") ∧ v_db (view w') = v_db (view w)).
Proof.
  intros Hd Hup Hne (a & Ea & Hn). unfold AccountHandler_Rename, or_fail, GetAccountID. cbn [cx_accountID].
  apply runs_bind. unfold Rename. cbn [as_secret as_cache].
  destruct (String.eqb_spec name ""); [done|].
  apply runs_try. apply runs_GenerateToken; [done|]. intros tok t w1 _ Hv1 _ _.
  unfold RenameWithToken. call; rewrite Hv1 in *; [|congruence].
  set (d := v_db (view w)) in *.
  assert (set_username name a = a) as Heq by (rewrite <-Hn; by destruct a).
  assert (upd_rows (where_id TAccount id always) (set_username name) (tget TAccount d) = tget TAccount d) as Hsame.
  { unfold where_id. rewrite upd_rows_id, Ea by apply Hd. cbn [always]. rewrite Heq.
    by apply insert_id. }
  assert (eng_update TAccount (where_id TAccount id always) (set_username name) d = (Ok 0, d)) as E.
  { rewrite law_update_ok.
    - rewrite Hsame, tset_tget, changed_where_id, Ea by apply Hd. cbn [always].
      rewrite Heq. by destruct (row_eq_dec TAccount a a).
    - intros k r Er Hw. unfold where_id in Hw. bool_to_prop.
      pose proof (proj1 (Hd _ TAccount) k r Er) as Hk. assert (k = id) as -> by congruence.
      assert (r = a) as -> by congruence. rewrite Heq. split; [done|by left].
    - right. rewrite Hsame, tset_tget. apply Hd. }
  assert (eng_tx (rename_tx id name tok) d = (Err ErrRecordNotFound, d)) as Etx.
  { rewrite law_tx. unfold rename_tx, st_try, st_bind. by rewrite E. }
  rewrite Etx in *. cbn [fst snd] in *. glue. split; [done|]. by rewrite Hv.
Qed.
End sessions.

(** ** A concrete signer and hash *)
#[export] Instance demo_jwt : JwtLib := {|
  NewNumericDate t := t - t mod Second;
  SignedString alg key c := Ok (dec (Zpos (encode
    [encode alg; encode key; encode (cl_AccountID c); encode (cl_Username c);
     encode (cl_ExpiresAt c); encode (cl_IssuedAt c); encode (cl_NotBefore c)])));
  ParseWithClaims keyfunc t tok :=
    default (Err (ErrMsg "token is malformed")) (
      i ← NilEmpty.int_of_string tok;
      p ← match Z.of_int i with Zpos p => Some p | _ => None end;
      l ← decode p;
      match l with
      | [alg; key; id; name; ex; ia; nb] =>
          alg ← decode alg; key ← decode key; id ← decode id; name ← decode name;
          ex ← decode ex; ia ← decode ia; nb ← decode nb;
          Some (if decide (keyfunc alg = Ok key) then
                  if (nb <=? t) && (t <? ex) then Ok (mkClaims id name ex ia nb)
                  else Err (ErrMsg "token is expired")
                else Err (ErrMsg "signature is invalid"))
      | _ => None
      end) |}.

Lemma dec_pos_nonempty p : dec (Zpos p) ≠ "".
Proof. rewrite dec_nonneg by lia. apply string_of_uint_nonempty, N_to_uint_nonnil. Qed.

#[export] Instance demo_jwt_laws : JwtLaws.
Proof.
  split; cbn [NewNumericDate SignedString ParseWithClaims demo_jwt].
  - intros t. pose proof (Z.mod_pos_bound t Second). unfold Second in *. lia.
  - intros key c _. eexists. split; [done|]. apply dec_pos_nonempty.
  - intros alg key c tok keyfunc t [= <-] Hkey Ht. unfold dec.
    rewrite NilEmpty.isi. cbn [mbind option_bind]. rewrite DecimalZ.of_to. cbn [mbind option_bind].
    repeat (rewrite decode_encode; cbn [mbind option_bind]). cbn [default from_option].
    unfold default. cbn [from_option]. rewrite decide_True by done.
    destruct (Z.leb_spec (cl_NotBefore c) t), (Z.ltb_spec t (cl_ExpiresAt c)); try lia.
    by destruct c.
Qed.

#[export] Instance demo_bcrypt {W} : Bcrypt W := {|
  GenerateFromPassword p := st_ret (Ok ("h:" +:+ p));
  CompareHashAndPassword h p :=
    if String.eqb h ("h:" +:+ p) then Ok tt else Err (ErrMsg "hashedPassword is not the hash") |}.

#[export] Instance demo_bcrypt_laws {W} `{WorldLaws W} : BcryptLaws W.
Proof.
  split. intros p w. apply runs_ret. split; [lia|]. split; [done|]. simpl.
  by rewrite String.eqb_refl.
Qed.

(** ** Three defects, executed *)
Definition demo_svc : AccountService := mkAccountService (Some (mkClient DefaultKeyPrefix)) "s3cret".
Definition demo_account : Account := mkAccount 1 "ann" "h:pw" "" "" "" "".
Definition account_world : RefW := ref_start (tset TAccount {[1 := demo_account]} empty_db) 0.

(** The same world when its clock shows [t]. *)
Definition at_clock (t : Z) (w : RefW) : RefW :=
  mkRefW (rw_view w) t (rw_seq w) (rw_fails w).

Definition bearer (tok : string) : Req := mkReq ("Bearer " +:+ tok) "" (mkCtx None None).
Definition demo_auth (tok : string) : ST RefW Mid :=
  JWTAuth (as_secret demo_svc) (as_cache demo_svc) (bearer tok).

Definition day : Z := 24 * Hour.

(** An account logs in, refreshes five minutes before the seven days of the
    refresh entry are over and again five minutes after.  The answers to a
    request with the token handed out last, and to one with the token before. *)
Definition late_refresh : option (Mid * Mid) :=
  match Login demo_svc "ann" "pw" account_world with
  | (Ok (_, rt), w1) =>
      match RefreshToken demo_svc rt (at_clock (7 * day - 5 * Minute) w1) with
      | (Ok (tok2, _, _), w2) =>
          match RefreshToken demo_svc rt (at_clock (7 * day + 5 * Minute) w2) with
          | (Ok (tok3, _, _), w3) => Some ((demo_auth tok3 w3).1, (demo_auth tok2 w3).1)
          | _ => None
          end
      | _ => None
      end
  | _ => None
  end.

(** Refreshing after Redis has forgotten the refresh token writes the new
    token to the database and not to Redis, where the old one lives on: the
    token just handed out is rejected as revoked, and the superseded one is
    accepted. *)
Theorem RefreshToken_fallback_locks_out :
  late_refresh = Some (Abort 401 (ErrMsg "token has been revoked"),
                       Next (mkCtx (Some 1) (Some "ann"))).
Proof. by vm_compute. Qed.

(** A request served between the two halves of a logout, the answer to it,
    the answer to the logout, and the answer to the same request afterwards. *)
Definition logout_race : option (Mid * result unit * Mid) :=
  match Login demo_svc "ann" "pw" account_world with
  | (Ok (tok, _), w0) =>
      match AccountService_FindByID 1 w0 with
      | (Ok a, w1) =>
          let '(_, w2) := forget_tokens demo_svc 1 (ac_RefreshToken a) w1 in
          let '(m, w3) := demo_auth tok w2 in
          let '(r, w4) := DeleteTokenAndRefreshToken (ac_ID a) w3 in
          Some (m, r, (demo_auth tok w4).1)
      | _ => None
      end
  | _ => None
  end.

(** A logout forgets the cached tokens before it clears the row. A
    request in between finds the row's token still there and caches it again
    for a day: after the logout has succeeded the token still authenticates
    the account. *)
Theorem Logout_race_keeps_session :
  logout_race = Some (Next (mkCtx (Some 1) (Some "ann")), Ok tt, Next (mkCtx (Some 1) (Some "ann"))).
Proof. by vm_compute. Qed.

(** The text of one control character, U+0001. *)
Definition soh : string := String Ascii.one EmptyString.

(** Who holds no refresh token, because of never having logged in or of having
    logged out, has the empty text in its row.  An empty refresh token is
    refused, but one of characters that the collation ignores is not empty to
    Go and equal to the empty text to MySQL: it is answered with a token that
    authenticates as the account with the lowest id of those. *)
Definition takeover : option (Z * string * Mid) :=
  match RefreshToken demo_svc soh account_world with
  | (Ok (tok, id, name), w) => Some (id, name, (demo_auth tok w).1)
  | _ => None
  end.

Theorem RefreshToken_takes_over :
  takeover = Some (1, "ann", Next (mkCtx (Some 1) (Some "ann"))).
Proof. by vm_compute. Qed.

(** ** The theorems at concrete inputs *)
Definition demo_cl : Client := mkClient DefaultKeyPrefix.
Definition in_session : Account := mkAccount 1 "ann" "h:pw" "tok" "rt" "" "".
Definition session_world : RefW :=
  mkRefW (mkView (tset TAccount {[1 := in_session]} empty_db)
            {[refresh_key (Some demo_cl) "rt" := (RStr (Text "1"), Some 9000)]} [] ∅ all_up) 0 0 [].

Lemma one_account_ok a : 0 < ac_ID a → db_ok (tset TAccount {[ac_ID a := a]} empty_db).
Proof.
  intros Hid. apply db_ok_tset; [apply db_ok_empty|].
  assert (∀ k r, ({[ac_ID a := a]} : gmap Z Account) !! k = Some r → k = ac_ID a ∧ r = a) as Hone
    by (intros k r [<- <-]%lookup_singleton_Some; done).
  unfold table_ok, keyed, unique_ok. rewrite tget_tset. split; [|split].
  - by intros k r [-> ->]%Hone.
  - by intros k1 k2 r1 r2 [-> ->]%Hone [-> ->]%Hone.
  - by intros k r [-> ->]%Hone.
Qed.

Lemma account_world_inv : session_inv demo_cl account_world.
Proof.
  split; [by apply (one_account_ok demo_account)|].
  intros id. split; [split; [|intros rt]; intros z dl E; discriminate E|].
  intros b dl E. discriminate E.
Qed.

Lemma session_world_inv : session_inv demo_cl session_world.
Proof.
  split; [by apply (one_account_ok in_session)|].
  intros id. cbn [v_rd view session_world ref_world rw_view].
  split; [split; [|intros rt]; intros z dl [_ [=]]%lookup_singleton_Some|].
  intros b dl [E _]%lookup_singleton_Some. symmetry in E. by apply token_ne_refresh in E.
Qed.

Lemma JWTAuth_transparent_witness :
  runs (demo_auth "tok") session_world (λ m w', session_inv demo_cl w' ∧
    v_db (view w') = v_db (view session_world) ∧ ∃ t, clk session_world ≤ t ≤ clk w' ∧
    m = session_decision "s3cret" (v_db (view session_world)) t "Bearer tok").
Proof.
  exact (proj1 (JWTAuth_transparent demo_cl "s3cret" session_world (bearer "tok")
                  session_world_inv eq_refl)).
Defined.

Lemma sessions_consistent_witness :
  runs (st_iter (serve demo_cl "s3cret") [OpLogin "ann" "pw"; OpRename 1 "bob"; OpLogout 1])
    account_world (λ _ w', session_inv demo_cl w').
Proof.
  apply (sessions_consistent demo_cl "s3cret"); [discriminate|apply account_world_inv|by split].
Defined.



Lemma RefreshToken_rotates_witness :
  runs (RefreshToken demo_svc "rt") session_world (λ r w',
    clk w' < 9000 → session_inv demo_cl w' ∧
    match r with
    | Err _ => v_db (view w') = v_db (view session_world)
    | Ok (tok, id', name) => id' = 1 ∧ name = ac_Username in_session ∧
        signed "s3cret" 1 name tok session_world w' ∧
        v_db (view w') = at_row TAccount 1 always (set_token tok) (v_db (view session_world)) ∧
        ∃ dl', v_rd (view w') !! token_key (Some demo_cl) 1 = Some (RStr (Text tok), Some dl')
    end).
Proof.
  apply (RefreshToken_rotates demo_cl "s3cret" ltac:(discriminate) "rt" 1 in_session 9000);
    [apply session_world_inv|by split|discriminate|reflexivity|reflexivity|reflexivity|reflexivity].
Defined.

Lemma Rename_to_own_name_witness :
  runs (AccountHandler_Rename demo_svc (mkCtx (Some 1) None) (Ok "ann")) account_world (λ r w',
    r = RespErr 404 (ErrMsg "account not found") ∧
    v_db (view w') = v_db (view account_world)).
Proof.
  apply (Rename_to_own_name demo_cl "s3cret"); [discriminate|apply account_world_inv|reflexivity
    |discriminate|by exists demo_account].
Defined.
