(* ===== verification/UploadFacts.v ===== *)
(** What becomes of an uploaded file: the object that is stored, the URL that
    is answered, and the temporary file. *)
From S2P Require Import Prelude GoStd TextFacts Paths Query Entities Json Services DbFacts Http.
From S2P Require Import Account Sessions Like LikeFacts Reference Upload.
Local Open Scope Z_scope.
Local Open Scope go_scope.

(** ** Keys and paths *)
Definition kinds : list string := ["videos"; "covers"; "avatars"].
Definition all_exts : list string := ".mp4" :: image_exts.

(** The key of an object, and the path of its temporary file. *)
Definition object_key (kind : string) (ds : list string) (filename : string) : string :=
  String.concat "/" (kind :: ds ++ [filename]).
Definition temp_path (kind : string) (ds : list string) (filename : string) : string :=
  String.concat "/" ([".run"; "uploads"; kind] ++ ds ++ [filename]).

Lemma concat_snoc s l a e :
  String.concat "/" (s :: l ++ [a +:+ e]) = String.concat "/" (s :: l ++ [a]) +:+ e.
Proof.
  revert s. induction l as [|b l IH]; intros s; simpl app.
  - rewrite !concat_cons. cbn [String.concat]. by rewrite <-string_app_assoc, string_app_cons.
  - rewrite !concat_cons, (IH b). by rewrite <-string_app_assoc, string_app_cons.
Qed.

Lemma TrimSpace_id s :
  first_stripped white_space s = None →
  first_stripped (string_rev <$> white_space) (string_rev s) = None → TrimSpace s = s.
Proof.
  intros H1 H2. unfold TrimSpace, trim_right. rewrite (trim_left_id _ _ H1), (trim_left_id _ _ H2).
  apply string_rev_involutive.
Qed.

Lemma ext_end s e : e ∈ all_exts →
  first_stripped (string_rev <$> white_space) (string_rev (s +:+ e)) = None.
Proof.
  intros He. rewrite string_rev_append. unfold all_exts, image_exts in He.
  repeat (apply elem_of_cons in He as [->|He]; [reflexivity|]). by apply elem_of_nil in He.
Qed.

Lemma object_key_normal kind ds name e :
  kind ∈ kinds → e ∈ all_exts →
  normalizeKey (object_key kind ds (name +:+ e)) = object_key kind ds (name +:+ e) ∧
  object_key kind ds (name +:+ e) ≠ "".
Proof.
  intros Hk He. unfold object_key.
  assert (∃ t, String.concat "/" (kind :: ds ++ [name +:+ e]) = kind +:+ String slash t) as [t Et].
  { destruct (ds ++ [name +:+ e]) as [|b l] eqn:E; [by destruct ds|]. rewrite concat_cons. eauto. }
  assert (TrimSpace (String.concat "/" (kind :: ds ++ [name +:+ e])) =
          String.concat "/" (kind :: ds ++ [name +:+ e])) as Ht.
  { apply TrimSpace_id; [|rewrite concat_snoc; by apply ext_end].
    rewrite Et. unfold kinds in Hk.
    repeat (apply elem_of_cons in Hk as [->|Hk]; [reflexivity|]). by apply elem_of_nil in Hk. }
  unfold normalizeKey. rewrite Ht, Et. split; [|by destruct kind]. apply trim_left_id.
  unfold kinds in Hk. repeat (apply elem_of_cons in Hk as [->|Hk]; [reflexivity|]).
  by apply elem_of_nil in Hk.
Qed.

Lemma temp_path_normal kind ds name e :
  e ∈ all_exts → TrimSpace (temp_path kind ds (name +:+ e)) ≠ "".
Proof.
  intros He. unfold temp_path. cbn [app]. rewrite TrimSpace_id; [by rewrite !concat_cons|reflexivity|].
  change (String.concat "/" (".run" :: "uploads" :: kind :: ds ++ [name +:+ e]))
    with (String.concat "/" (".run" :: ("uploads" :: kind :: ds) ++ [name +:+ e])).
  rewrite concat_snoc. by apply ext_end.
Qed.

Lemma plain_kind kind : kind ∈ kinds → plain kind.
Proof.
  unfold kinds. intros Hk.
  repeat (apply elem_of_cons in Hk as [->|Hk]; [by split_and!|]). by apply elem_of_nil in Hk.
Qed.

Lemma plain_filename name e :
  (∀ a, has_char a name = true → a ∈ String.list_ascii_of_string "0123456789abcdef") →
  String.length name = 32%nat → e ∈ all_exts → plain (name +:+ e).
Proof.
  intros Hn Hlen He.
  assert (has_char slash name = false) as Hs.
  { destruct (has_char slash name) eqn:E; [|done]. apply Hn in E. simpl in E.
    repeat (apply elem_of_cons in E as [E|E]; [discriminate E|]). by apply elem_of_nil in E. }
  assert (has_char slash e = false) as Hse.
  { unfold all_exts, image_exts in He.
    repeat (apply elem_of_cons in He as [->|He]; [done|]). by apply elem_of_nil in He. }
  split; [by rewrite has_char_app, Hs, Hse|].
  assert (32 ≤ String.length (name +:+ e))%nat as Hl by (rewrite string_length_app; lia).
  split_and!; intros E; rewrite E in Hl; simpl in Hl; lia.
Qed.

(** ** One upload *)
Section facts.
Context {W : Type} `{WorldLaws W} `{SqlLaws} `{!Storage W} `{!StorageLaws W}.
Implicit Types w : W.

#[export] Instance kept_preorder : PreOrder (kept (W := W)).
Proof.
  split; [done|]. intros ??? (?&?&?) (?&?&?). unfold kept. split_and!; congruence.
Qed.

Lemma runs_kept {A} (m : ST W A) w (Q : A → W → Prop) :
  (∀ r w', m w = (r, w') → kept w w') →
  runs m w (λ r w', kept w w' → Q r w') → runs m w Q.
Proof. intros Hk HQ. apply runs_intro. intros r w' E. eapply runs_elim in HQ; eauto. Qed.

(** [stored c kind file max exts w w' url]: the file passed the checks, its
    content is the object behind [url], and nothing else in the bucket has
    changed. *)
Definition stored (c : CosClient) (kind : string) (file : option FormFile) (max : Z)
    (exts : list string) (dirs : list string → Prop) w w' (url : string) : Prop :=
  ∃ f ds name, let ext := ToLower (Ext (ff_Filename f)) in
    let key := object_key kind ds (name +:+ ext) in
    file = Some f ∧ 0 < ff_Size f ≤ max ∧ ext ∈ exts ∧ dirs ds ∧ String.length name = 32%nat ∧
    ObjectURL (Some c) key = Ok url ∧
    bucket w' = <[key := ff_Content f]> (bucket w).

(** A path of the kind's temporary files, and a disk without it. *)
Definition tidied (kind : string) (dirs : list string → Prop) w w' : Prop :=
  disk w' = disk w ∨
  ∃ ds filename, dirs ds ∧ disk w' = delete (temp_path kind ds filename) (disk w).

Lemma stored_kept c kind file max exts dirs w w1 w2 url :
  stored c kind file max exts dirs w w1 url → bucket w2 = bucket w1 →
  stored c kind file max exts dirs w w2 url.
Proof. intros (f & ds & name & Hs) E. exists f, ds, name. by rewrite E. Qed.

Lemma ObjectURL_ok c kind ds name e : kind ∈ kinds → e ∈ all_exts →
  ∃ url, ObjectURL (Some c) (object_key kind ds (name +:+ e)) = Ok url ∧
    (co_publicBaseURL c ≠ "" → url = co_publicBaseURL c +:+ "/" +:+ object_key kind ds (name +:+ e)).
Proof.
  intros Hk He. destruct (object_key_normal kind ds name e Hk He) as [En Hne].
  unfold ObjectURL. rewrite En. apply String.eqb_neq in Hne. rewrite Hne. eexists. split; [done|].
  intros Hb%String.eqb_neq. by rewrite Hb.
Qed.

(** The upload of a file that is on the disk. *)
Lemma UploadFile_runs c kind ds name e content w :
  kind ∈ kinds → e ∈ all_exts → Forall plain (kind :: ds) → plain (name +:+ e) →
  disk w !! temp_path kind ds (name +:+ e) = Some content →
  runs (UploadFile (Some c) (Join ([kind] ++ ds ++ [name +:+ e])) (temp_path kind ds (name +:+ e))) w
    (λ r w', clk w ≤ clk w' ∧ view w' = view w ∧ disk w' = disk w ∧ disk_up w' = disk_up w ∧
      let key := object_key kind ds (name +:+ e) in
      match r with
      | Ok url => ObjectURL (Some c) key = Ok url ∧ bucket w' = <[key := content]> (bucket w)
      | Err _ => bucket w' = bucket w ∨ bucket w' = <[key := content]> (bucket w)
      end).
Proof.
  intros Hk He Hds Hn Hd. unfold UploadFile.
  assert (Join ([kind] ++ ds ++ [name +:+ e]) = object_key kind ds (name +:+ e)) as ->.
  { apply Join_plain; [done|]. rewrite (assoc_L (++)). apply list.Forall_app; split; [done|].
    by apply list.Forall_cons. }
  destruct (object_key_normal kind ds name e Hk He) as [En Hne]. rewrite En.
  apply String.eqb_neq in Hne. rewrite Hne.
  pose proof (temp_path_normal kind ds name e He) as Ht%String.eqb_neq. rewrite Ht.
  apply runs_try, runs_intro. intros r w' E.
  apply law_cos_put in E as (Hc & Hv & Hdk & Hu & [(x & -> & Ex & Hb)|((code & ->) & Hb)]).
  - destruct (ObjectURL_ok c kind ds name e Hk He) as (url & Eu & _). rewrite Eu.
    apply runs_ret. rewrite Hd in Ex. by simplify_eq.
  - do 4 (split; [done|]). destruct Hb as [Hb|(x & Ex & Hb)]; [by left|right].
    rewrite Hd in Ex. by simplify_eq.
Qed.

Definition refused {A} (r : Resp A) : Prop := ∃ st e, r = RespErr st e ∧ (st = 400 ∨ st = 500).

(** What the common part of the handlers does, for a [done] that leaves the
    disk and the bucket alone and a result [Φ] of it. *)
Definition upload_result {A} c kind file max exts D (Φ : string → Resp A → W → W → Prop) w
    (r : Resp A) w' : Prop :=
  (disk_up w = true → tidied kind D w w') ∧
  ((∃ url w1 w2, view w1 = view w ∧ Φ url r w1 w2 ∧ view w' = view w2 ∧
      stored c kind file max exts D w w' url) ∨
   (view w' = view w ∧ refused r ∧
      (bucket w' = bucket w ∨ ∃ url, stored c kind file max exts D w w' url))).

Section upload.
Context {A : Type} (c : CosClient) (file : option FormFile) (max : Z) (exts : list string).
Context (msg kind : string) (dirs : ST W (list string)) (D : list string → Prop).
Context (randError : err → err) (finish : string → ST W (Resp A)).
Context (Φ : string → Resp A → W → W → Prop) (P : View → Prop).
Hypothesis (Hkind : kind ∈ kinds) (Hexts : ∀ e, e ∈ exts → e ∈ all_exts).
Hypothesis (Hdirs : ∀ w, runs dirs w (λ ds w', view w' = view w ∧ kept w w' ∧ D ds)).
Hypothesis (HD : ∀ ds, D ds → Forall plain ds).
Hypothesis (Hfinish : ∀ url w, P (view w) → runs (finish url) w (λ r w', kept w w' ∧ Φ url r w w')).
Abbreviation result_of := (upload_result c kind file max exts D Φ).

Lemma upload_refused w w' st e :
  view w' = view w → kept w w' → st = 400 ∨ st = 500 → result_of w (RespErr st e) w'.
Proof.
  intros Hv (Hd & Hb & _) Hst. split; [by left|]. right. split; [done|].
  split; [by exists st, e|by left].
Qed.

(** After the file has been saved: the upload, what the handler does next, and
    the removal of the file. *)
Lemma upload_saved f ds name w w0 :
  let e := ToLower (Ext (ff_Filename f)) in let path := temp_path kind ds (name +:+ e) in
  P (view w0) → file = Some f → 0 < ff_Size f ≤ max → e ∈ exts → D ds → plain (name +:+ e) →
  String.length name = 32%nat → view w = view w0 → disk_up w = disk_up w0 → bucket w = bucket w0 →
  disk w = <[path := ff_Content f]> (disk w0) →
  runs (resp <- (u <- UploadFile (Some c) (Join ([kind] ++ ds ++ [name +:+ e])) path ;;
                 or_fail internal u finish) ;;
        removeTempFile path ;;; st_ret resp) w (result_of w0).
Proof.
  intros e path HP Hf Hs He Hds Hn Hl Hv Hu Hb Hd. apply runs_bind, runs_bind.
  eapply runs_mono; [apply (UploadFile_runs c kind ds name e (ff_Content f))|]; try done.
  { by apply Hexts. }
  { apply list.Forall_cons. split; [by apply plain_kind|by apply HD]. }
  { rewrite Hd. apply lookup_insert_eq. }
  intros r w1 (_ & Hv1 & Hd1 & Hu1 & Hr).
  assert (∀ url w', ObjectURL (Some c) (object_key kind ds (name +:+ e)) = Ok url →
    bucket w' = <[object_key kind ds (name +:+ e) := ff_Content f]> (bucket w0) →
    stored c kind file max exts D w0 w' url) as Hstored.
  { intros url w' Eu Eb. exists f, ds, name. destruct Hs. by split_and!. }
  assert (∀ resp w2, disk w2 = disk w → disk_up w2 = disk_up w →
    (∀ w', view w' = view w2 → bucket w' = bucket w2 →
       (disk_up w0 = true → tidied kind D w0 w') → result_of w0 resp w') →
    runs (removeTempFile path ;;; st_ret resp) w2 (result_of w0)) as Hremove.
  { intros resp w2 Hd2 Hu2 HQ. unfold removeTempFile. apply runs_bind, runs_bind, runs_intro.
    intros r3 w3 E. apply law_remove in E as (_ & Hv3 & Hb3 & _ & Hd3). do 2 apply runs_ret.
    apply HQ; [done|done|]. intros Hup. destruct Hd3 as [Hd3|[Hu3 _]]; [|congruence].
    right. exists ds, (name +:+ e). split; [done|]. rewrite Hd3, Hd2, Hd. by rewrite delete_insert_eq. }
  destruct r as [url|er]; cbn [or_fail].
  - destruct Hr as [Eurl Hb1]. eapply runs_mono; [apply Hfinish; congruence|].
    intros resp w2 [(Hd2 & Hb2 & Hu2) HΦ]. apply Hremove; [congruence|congruence|].
    intros w' Hv' Hb' Ht. split; [done|]. left. exists url, w1, w2.
    split; [congruence|]. split; [done|]. split; [done|]. apply Hstored; [done|]. congruence.
  - apply runs_ret. apply Hremove; [congruence|done|]. intros w' Hv' Hb' Ht. split; [done|].
    right. split; [congruence|]. split; [exists 500, er; by auto|].
    destruct Hr as [Hr|Hr]; [left; congruence|right].
    destruct (ObjectURL_ok c kind ds name e Hkind (Hexts _ He)) as (url & Eurl & _).
    exists url. apply Hstored; [done|congruence].
Qed.

Lemma upload_runs w :
  P (view w) → runs (upload (Some c) file max exts msg kind dirs randError finish) w (result_of w).
Proof.
  intros HP. unfold upload. assert (kept w w) as Hw by done.
  destruct file as [f|] eqn:Hf; [|apply runs_ret; rewrite <-Hf; apply upload_refused; by auto].
  rewrite <-Hf. destruct ((ff_Size f <=? 0) || (max <? ff_Size f)) eqn:Hsz;
    [apply runs_ret; apply upload_refused; by auto|]. bool_to_prop.
  set (e := ToLower (Ext (ff_Filename f))).
  destruct (bool_decide (e ∈ exts)) eqn:He; cbn [negb];
    [|apply runs_ret; apply upload_refused; by auto]. bool_to_prop.
  apply runs_bind. eapply runs_mono; [apply Hdirs|]. intros ds w1 (Hv1 & Hk1 & Hds).
  apply runs_bind, runs_intro. intros r w2 E.
  apply law_mkdir in E as (_ & Hv2 & Hk2 & Hr).
  assert (kept w w2) as Hk12 by (by etrans).
  destruct Hr as [->|(_ & code & ->)]; cbn [or_fail];
    [|apply runs_ret; apply upload_refused; [congruence|done|by auto]].
  apply runs_bind, runs_try, runs_intro. intros r w3 E.
  pose proof (law_rand_kept _ _ _ _ E) as Hk3.
  pose proof (law_rand _ _ _ _ E) as (_ & Hv3 & [(raw & -> & Hlen)|(_ & code & ->)]); [apply runs_ret|];
    cbn [or_fail]; [|apply runs_ret; apply upload_refused; [congruence|by etrans|by auto]].
  pose proof (EncodeToString_chars raw) as Hchars.
  set (name := EncodeToString raw) in *.
  assert (String.length name = 32%nat) as Hname32 by (unfold name; rewrite length_EncodeToString; lia).
  assert (e ∈ all_exts) as Hea by (by apply Hexts).
  assert (plain (name +:+ e)) as Hname by (apply plain_filename; eauto).
  assert (Forall plain ([".run"%string; "uploads"%string; kind] ++ ds)) as Hpl.
  { do 2 (apply list.Forall_cons; split; [by split_and!|]).
    apply list.Forall_cons; split; [by apply plain_kind|by apply HD]. }
  assert (Join ([".run"%string; "uploads"%string; kind] ++ ds) =
          String.concat "/" ([".run"%string; "uploads"%string; kind] ++ ds)) as -> by (by apply Join_plain).
  rewrite Join_nested by done.
  change (String.concat "/" (([".run"%string; "uploads"%string; kind] ++ ds) ++ [name +:+ e]))
    with (temp_path kind ds (name +:+ e)).
  apply runs_bind, runs_intro. intros r w4 E4.
  apply law_save in E4 as (_ & Hv4 & Hb4 & Hu4 & Hs).
  assert (kept w w3) as (Hd03 & Hb03 & Hu03) by (by etrans).
  destruct Hs as [(-> & Hd4)|(Hdown & (code & ->) & _)]; cbn [or_fail].
  - apply (upload_saved f ds name w4 w); [done|done|lia|done|done|done|done|congruence..|by rewrite <-Hd03].
  - apply runs_ret. split; [congruence|]. right. split; [congruence|].
    split; [exists 500, (ErrIO code); by auto|left; congruence].
Qed.
End upload.

Definition dated_dirs (u : Z) (ds : list string) : Prop := ∃ t, ds = [dec u; FormatDate zone t].

Lemma dated_runs u w : runs (dated u) w (λ ds w', view w' = view w ∧ kept w w' ∧ dated_dirs u ds).
Proof.
  unfold dated. apply runs_bind, runs_intro. intros t w' E. apply runs_ret.
  pose proof (law_now_kept _ _ _ E). apply law_now in E as (_ & _ & ?).
  split; [done|]. split; [done|by exists t].
Qed.

Lemma dated_plain u ds : dated_dirs u ds → Forall plain ds.
Proof.
  intros [t ->]. repeat (apply list.Forall_cons; split; [apply plain_dec||apply plain_date|]). done.
Qed.

Lemma UpdateAvatar_runs u url w :
  db_ok (v_db (view w)) →
  runs (AccountService_UpdateAvatar u url) w (λ r w', kept w w' ∧
    match r with
    | Ok _ => v_db (view w') = at_row TAccount u always (set_avatar url) (v_db (view w))
    | Err _ => view w' = view w
    end).
Proof.
  intros Hd. apply runs_and.
  - apply runs_intro. intros r w' E. by apply law_sql_kept in E.
  - apply runs_update_account; [done..| |done]. intros w' _ Hv _. by rewrite Hv.
Qed.

(** What a handler of uploads answers and leaves behind; [upd] is its effect
    on the tables. *)
Definition upload_outcome {A} c file kind max exts D (url_of : A → string)
    (upd : string → Db → Db) w (r : Resp A) w' : Prop :=
  (disk_up w = true → tidied kind D w w') ∧
  match r with
  | RespOk st body => st = 200 ∧ stored c kind file max exts D w w' (url_of body) ∧
      v_db (view w') = upd (url_of body) (v_db (view w))
  | RespErr st _ => (st = 400 ∨ st = 500) ∧ v_db (view w') = v_db (view w) ∧
      (bucket w' = bucket w ∨ ∃ url, stored c kind file max exts D w w' url)
  end.

Definition finished {A} (url_of : A → string) (upd : string → Db → Db) (url : string)
    (r : Resp A) w w' : Prop :=
  (∃ body, r = RespOk 200 body ∧ url_of body = url ∧ v_db (view w') = upd url (v_db (view w))) ∨
  (refused r ∧ v_db (view w') = v_db (view w)).

Lemma upload_result_outcome {A} c file kind max exts D (url_of : A → string) upd w r w' :
  upload_result c kind file max exts D (finished url_of upd) w r w' →
  upload_outcome c file kind max exts D url_of upd w r w'.
Proof.
  intros [Ht [(url & w1 & w2 & Hv1 & Hf & Hv2 & Hs)|(Hv & (st & e & -> & Hst) & Hb)]].
  - split; [done|]. destruct Hf as [(body & -> & <- & Hd)|((st & e & -> & Hst) & Hd)].
    + split; [done|]. split; [done|]. congruence.
    + split; [done|]. split; [congruence|]. right. by exists url.
  - split; [done|]. split; [done|]. split; [by rewrite Hv|done].
Qed.

Lemma finished_body {A} (url_of : A → string) url body w :
  url_of body = url → runs (st_ret (RespOk 200 body)) w (λ r w',
    kept w w' ∧ finished url_of (λ _ d, d) url r w w').
Proof. intros Hu. apply runs_ret. split; [done|]. left. by exists body. Qed.

(** C38: an upload that is answered with 200 has stored the content of the file,
    and nothing else, under a key of the account and the file's type, behind
    the URL of the answer; an avatar's URL is then the account's. Where it is
    refused, with 400 or 500, the tables have not changed, and the bucket has
    at most the object. Either way, while the disk works, no temporary file
    stays behind. *)
Theorem upload_lifecycle c u x file w :
  db_ok (v_db (view w)) →
  runs (UploadVideo (Some c) (mkCtx (Some u) x) file) w
    (upload_outcome c file "videos" (200 * 2 ^ 20) [".mp4"%string] (dated_dirs u) uv_PlayURL (λ _ d, d) w) ∧
  runs (UploadCover (Some c) (mkCtx (Some u) x) file) w
    (upload_outcome c file "covers" (10 * 2 ^ 20) image_exts (dated_dirs u) uc_CoverURL (λ _ d, d) w) ∧
  runs (UploadAvatar (Some c) (mkCtx (Some u) x) file) w
    (upload_outcome c file "avatars" (10 * 2 ^ 20) image_exts (λ ds, ds = [dec u]) id
       (λ url, at_row TAccount u always (set_avatar url)) w).
Proof.
  intros Hd. split_and!; (eapply runs_mono; [|intros r w' Hr; by apply upload_result_outcome]).
  - apply (upload_runs _ _ _ _ _ _ _ _ _ _ _ (λ _, True));
      [by left|intros e; set_solver|apply dated_runs|apply dated_plain|intros; by apply finished_body|done].
  - apply (upload_runs _ _ _ _ _ _ _ _ _ _ _ (λ _, True));
      [by right; left|intros e; by right|apply dated_runs|apply dated_plain|intros; by apply finished_body|done].
  - apply (upload_runs _ _ _ _ _ _ _ _ _ _ _ (λ v, db_ok (v_db v)));
      [by right; right; left|intros e; by right|intros w1; by apply runs_ret| | |done].
    + intros ds ->. apply list.Forall_cons. split; [apply plain_dec|done].
    + intros url w1 Hd1. apply runs_bind. eapply runs_mono; [by apply UpdateAvatar_runs|].
      intros [[]|e] w2 [Hk Hr]; apply runs_ret; (split; [done|]).
      * left. by exists url.
      * right. split; [exists 500, e; by auto|by rewrite Hr].
Qed.
End facts.

(** ** A concrete disk and bucket

    A disk that is down makes directories and fails to write files, leaving an
    empty file behind, as a full one does. *)
Record Files := mkFiles {
  fl_disk : gmap string string; fl_bucket : gmap string string; fl_up : bool }.
(** next to the state [Y] of the services that this one does not touch *)
Abbreviation DiskW Y := (RefW * (Files * Y))%type.


Definition on_disk f (x : Files) : Files := mkFiles (f (fl_disk x)) (fl_bucket x) (fl_up x).
Definition in_bucket f (x : Files) : Files := mkFiles (fl_disk x) (f (fl_bucket x)) (fl_up x).

#[export] Instance disk_storage {Y} : Storage (DiskW Y) := {|
  disk w := fl_disk w.2.1; bucket w := fl_bucket w.2.1; disk_up w := fl_up w.2.1; zone := 8 * Hour;
  mkdir_all _ := aside_l (λ x, (Ok tt, x));
  save_file f p := aside_l (λ x,
    if fl_up x then (Ok tt, on_disk <[p := ff_Content f]> x)
    else (Err (ErrIO 28), on_disk <[p := ""%string]> x));
  remove_file p := aside_l (λ x,
    if fl_up x then (Ok tt, on_disk (delete p) x) else (Err (ErrIO 5), x));
  cos_put k p := aside_l (λ x,
    match fl_disk x !! p with
    | Some content => (Ok tt, in_bucket <[k := content]> x)
    | None => (Err (ErrIO 2), x)
    end);
  cos_delete k := aside_l (λ x, (Ok tt, in_bucket (delete k) x)) |}.

#[export] Instance disk_storage_laws {Y} : StorageLaws (DiskW Y).
Proof.
  assert (∀ w w' : DiskW Y, w'.2 = w.2 → kept w w') as Hkept by (intros w w' E; unfold kept; simpl; by rewrite E).
  split.
  - intros A f w r w' [_ E]%beside_inv. by apply Hkept.
  - intros w r w' [_ E]%beside_inv. by apply Hkept.
  - intros n w r w' [_ E]%beside_inv. by apply Hkept.
  - intros p w r w' [= <- <-]. split; [done|]. split; [done|]. split; [done|by left].
  - intros f p w r w'. simpl. unfold aside_l.
    destruct (fl_up w.2.1) eqn:Hu; intros [= <- <-]; simpl; (do 4 (split; [done|])); [by left|right].
    split; [done|]. split; [by eexists|right; by eexists].
  - intros p w r w'. simpl. unfold aside_l.
    destruct (fl_up w.2.1) eqn:Hu; intros [= <- <-]; simpl; (do 4 (split; [done|])); [by left|by right].
  - intros k p w r w'. simpl. unfold aside_l.
    destruct (fl_disk w.2.1 !! p) as [x|] eqn:E; intros [= <- <-]; simpl; (do 4 (split; [done|]));
      [left; by eexists|right]. split; [by eexists|by left].
  - intros k w r w' [= <- <-]. simpl. do 4 (split; [done|]). by left.
Qed.

(** ** The theorem at a concrete input *)
Definition a_bucket : CosClient := mkCosClient "https://b.cos.r.myqcloud.com" "https://cdn.example.com".
Definition a_picture : FormFile := mkFormFile "me.PNG" 3 "png".
Definition upload_start (up : bool) : DiskW unit :=
  (ref_start (tset TAccount {[1 := mkAccount 1 "ann" "h:pw" "tok" "rt" "" ""]} empty_db) 0, (mkFiles ∅ ∅ up, tt)).

Definition avatar_run (up : bool) : Resp string * DiskW unit :=
  UploadAvatar (Some a_bucket) (mkCtx (Some 1) None) (Some a_picture) (upload_start up).

Lemma upload_lifecycle_witness :
  resp_status (avatar_run true).1 = 200 ∧ disk (avatar_run true).2 = ∅ ∧
  size (bucket (avatar_run true).2) = 1%nat ∧
  upload_outcome a_bucket (Some a_picture) "avatars" (10 * 2 ^ 20) image_exts (λ ds, ds = [dec 1]) id
    (λ url, at_row TAccount 1 always (set_avatar url)) (upload_start true)
    (avatar_run true).1 (avatar_run true).2.
Proof.
  split; [by vm_compute|]. split; [by vm_compute|]. split; [by vm_compute|].
  exact (proj2 (proj2 (@upload_lifecycle (DiskW unit) beside_world beside_world_laws ref_engine ref_sql_laws
    disk_storage disk_storage_laws a_bucket 1 None (Some a_picture) (upload_start true)
    (one_account_ok (mkAccount 1 "ann" "h:pw" "tok" "rt" "" "") eq_refl)))).
Defined.

(** A disk that fails while the file is written keeps what was written: the
    removal is only arranged after the file has been saved. *)
Example failed_save_leaves_file :
  resp_status (avatar_run false).1 = 500 ∧ size (disk (avatar_run false).2) = 1%nat.
Proof. by vm_compute. Qed.
