(* ===== verification/Comment.v ===== *)
(** [internal/api/comment] and [internal/worker/comment_worker.go]: comments on
    videos, written by the request's transaction or through the queue. *)
From S2P Require Import Prelude GoStd Query Entities Json Services RedisFacts RedisClient Mq.
From S2P Require Import DbFacts Http Video Like.
Local Open Scope Z_scope.
Local Open Scope go_scope.

(** ** repo.go *)
Section repo.
Context {W : Type} `{World W} `{SqlEngine}.

(** [First] with a missing row turned into nil *)
Definition CommentRepo_FindByID (commentID : Z) : ST W (result (option Comment)) :=
  r <- query (λ d, sel_first (where_id TComment commentID always) [Asc c_ID] (rows TComment d)) ;;
  st_ret (match r with
          | Ok c => Ok (Some c)
          | Err ErrRecordNotFound => Ok None
          | Err e => Err e
          end).
Definition GetByID (id : Z) : ST W (result (option Comment)) := CommentRepo_FindByID id.

(** gorm refuses a DELETE without a condition, which a zero id would give *)
Definition CommentRepo_DeleteComment (c : Comment) : ST W (result unit) :=
  if c_ID c =? 0 then st_ret (Err (ErrMsg "WHERE conditions required"))
  else sql (λ _ d, exec (eng_delete TComment (where_id TComment (c_ID c) always) d)).

Definition CommentRepo_ListAllComments (videoID : Z) : ST W (result (list Comment)) :=
  query (λ d, Ok (eng_select (λ c, c_VideoID c =? videoID) [Desc c_CreatedAt] (Some 200%nat)
                    (rows TComment d))).

Definition CreateComment (c : Comment) : ST W (result unit) :=
  sql (λ t d, exec (eng_create TComment c t d)).

Definition CreateCommentIgnoreDuplicate (c : Comment) : ST W (result bool) :=
  if String.eqb (c_EventID c) "" then st_ret (Ok false)
  else
    r <- sql (eng_create TComment c) ;;
    st_ret (match r with
            | Ok _ => Ok true
            | Err ErrDuplicate => Ok false
            | Err e => Err e
            end).
End repo.

(** ** service.go *)
Record CommentService := mkCommentService {
  cs_cache : option Client; cs_commentMQ : bool; cs_popularityMQ : bool }.

Definition trimmed_comment (c : Comment) : Comment :=
  mkComment (c_ID c) (c_EventID c) (TrimSpace (c_Username c)) (c_VideoID c) (c_AuthorID c)
    (TrimSpace (c_Content c)) (c_CreatedAt c).
Definition with_event_id (e : string) (c : Comment) : Comment :=
  mkComment (c_ID c) e (c_Username c) (c_VideoID c) (c_AuthorID c) (c_Content c) (c_CreatedAt c).

Section service.
Context {W : Type} `{World W} `{SqlEngine} `{RedisServer}.

Definition comment_tx (c : Comment) (t : Z) : ST Db (result unit) :=
  r <- (λ d, (sel_first (where_id TVideo (c_VideoID c) always) [Asc v_ID] (rows TVideo d), d)) ;;
  match r with
  | Err ErrRecordNotFound => st_ret (Err (ErrMsg "video not found"))
  | Err e => st_ret (Err e)
  | Ok _ =>
      _ <-? eng_create TComment c t ;;
      (λ d, exec (eng_update TVideo (where_id TVideo (c_VideoID c) always) (popularity_plus 1) d))
  end.

(** the fallback that writes the comment itself *)
Definition comment_directly (c : Comment) : ST W (result unit) :=
  eventID <-? RandHex 16 ;;
  sql (λ t, eng_tx (comment_tx (with_event_id ("mock:" +:+ eventID) c) t)).

Definition CommentService_Publish (s : CommentService) (c : Comment) : ST W (result unit) :=
  let c := trimmed_comment c in
  if (c_VideoID c =? 0) || (c_AuthorID c =? 0)
  then st_ret (Err (ErrMsg "video_id and author_id are required"))
  else if String.eqb (c_Content c) "" then st_ret (Err (ErrMsg "content is required"))
  else
    exists_ <-? IsExist (c_VideoID c) ;;
    if negb exists_ then st_ret (Err (ErrMsg "video not found"))
    else
      mysqlEnqueued <- enqueue (cs_commentMQ s)
        (CommentMQ_Publish true (c_Username c) (c_VideoID c) (c_AuthorID c) (c_Content c)) ;;
      redisEnqueued <- enqueue (cs_popularityMQ s) (PopularityMQ_Update true (c_VideoID c) 1) ;;
      if mysqlEnqueued && redisEnqueued then st_ret (Ok tt)
      else
        _ <-? (if negb mysqlEnqueued then comment_directly c else st_ret (Ok tt)) ;;
        (if negb redisEnqueued then UpdatePopularityCache (cs_cache s) (c_VideoID c) 1
         else st_ret tt) ;;;
        st_ret (Ok tt).

Definition CommentService_Delete (s : CommentService) (commentID accountID : Z) :
    ST W (result unit) :=
  r <-? CommentRepo_FindByID commentID ;;
  match r with
  | None => st_ret (Err (ErrMsg "comment not found"))
  | Some c =>
      if negb (c_AuthorID c =? accountID) then st_ret (Err ErrUnauthorized)
      else
        enqueued <- enqueue (cs_commentMQ s) (CommentMQ_Delete true commentID) ;;
        if enqueued then st_ret (Ok tt) else CommentRepo_DeleteComment c
  end.

Definition CommentService_ListAll (videoID : Z) : ST W (result (list Comment)) :=
  exists_ <-? IsExist videoID ;;
  if negb exists_ then st_ret (Err (ErrMsg "video not found"))
  else CommentRepo_ListAllComments videoID.
End service.

(** ** worker/comment_worker.go *)
Section worker.
Context {W : Type} `{World W} `{SqlEngine}.

Definition comment_of_event (evt : CommentEvent) : Comment :=
  mkComment 0 (ce_EventID evt) (TrimSpace (ce_Username evt)) (ce_VideoID evt) (ce_AuthorID evt)
    (TrimSpace (ce_Content evt)) zero_time.

Definition applyPublish (evt : CommentEvent) : ST W (result unit) :=
  if String.eqb (ce_EventID evt) "" || (ce_VideoID evt =? 0) || (ce_AuthorID evt =? 0)
     || String.eqb (TrimSpace (ce_Content evt)) ""
  then st_ret (Ok tt)
  else
    ok <-? IsExist (ce_VideoID evt) ;;
    if negb ok then st_ret (Ok tt)
    else
      created <-? CreateCommentIgnoreDuplicate (comment_of_event evt) ;;
      if negb created then st_ret (Ok tt) else ChangePopularity (ce_VideoID evt) 1.

Definition applyDelete (evt : CommentEvent) : ST W (result unit) :=
  if ce_CommentID evt =? 0 then st_ret (Ok tt)
  else
    c <-? GetByID (ce_CommentID evt) ;;
    match c with
    | None => st_ret (Ok tt)
    | Some c => CommentRepo_DeleteComment c
    end.

Definition CommentWorker_process (body : bytes) : ST W (result unit) :=
  match unmarshal_comment body with
  | Err _ => st_ret (Ok tt)
  | Ok evt =>
      if String.eqb (ce_Action evt) "publish" then applyPublish evt
      else if String.eqb (ce_Action evt) "delete" then applyDelete evt
      else st_ret (Ok tt)
  end.
End worker.

(** ** handler.go *)
Section handler.
Context {W : Type} `{World W} `{SqlEngine} `{RedisServer}.

Record PublishCommentRequest := mkPublishCommentRequest { pc_VideoID : Z; pc_Content : string }.

Definition PublishComment (s : CommentService) (c : Ctx) (req : result PublishCommentRequest) :
    ST W (Resp string) :=
  or_fail fail_with req (λ req,
    if String.eqb (pc_Content req) "" then st_ret (RespErr 400 (ErrMsg "content is required"))
    else if pc_VideoID req <=? 0 then st_ret (RespErr 400 (ErrMsg "video_id is required"))
    else
      or_fail fail_with (GetAccountID c) (λ authorID,
      or_fail fail_with (GetUsername c) (λ username,
        r <- CommentService_Publish s
               (mkComment 0 "" username (pc_VideoID req) authorID (pc_Content req) zero_time) ;;
        or_fail fail_with r (λ _, st_ret (RespOk 200 "comment published successfully"))))).

Definition CommentHandler_DeleteComment (s : CommentService) (c : Ctx) (req : result Z) :
    ST W (Resp string) :=
  or_fail fail_with req (λ commentID,
    or_fail fail_with (GetAccountID c) (λ accountID,
      if commentID <=? 0 then st_ret (RespErr 400 (ErrMsg "comment_id is required"))
      else
        r <- CommentService_Delete s commentID accountID ;;
        or_fail fail_with r (λ _, st_ret (RespOk 200 "comment deleted successfully")))).

Definition CommentHandler_ListAllComments (req : result Z) : ST W (Resp (list Comment)) :=
  or_fail fail_with req (λ videoID,
    if videoID =? 0 then st_ret (RespErr 400 (ErrMsg "video_id is required"))
    else
      r <- CommentService_ListAll videoID ;;
      or_fail fail_with r (λ comments, st_ret (RespOk 200 comments))).
End handler.
