(* ===== verification/CommentFacts.v ===== *)
(** Theorems on comments: the queued path ends where the direct path ends, the
    worker is idempotent, and only its author deletes a comment. *)
From S2P Require Import Prelude GoStd TextFacts Query Entities Json Services RedisFacts RedisClient.
From S2P Require Import Mq DbFacts Http Video VideoCaches Like LikeFacts Comment Reference.
Local Open Scope Z_scope.

(** What a reader sees of a comment, beside its id and time. *)
Definition content_of (c : Comment) : string * Z * Z * string :=
  (c_Username c, c_VideoID c, c_AuthorID c, c_Content c).
Definition contents (d : Db) : list (string * Z * Z * string) := content_of <$> rows TComment d.

(** A comment has the event id, in MySQL's collation. *)
Definition event_taken `{Collation} (e : string) (d : Db) : Prop :=
  ∃ k x, tget TComment d !! k = Some x ∧ collate (c_EventID x) = collate e.

Definition popularity_ok (d : Db) : Prop :=
  ∀ k r, tget TVideo d !! k = Some r → 0 ≤ v_Popularity r.

(** The comment has been added and the video's popularity raised. *)
Definition comment_written `{Collation} (c : Comment) (d d' : Db) : Prop :=
  ∃ id x, tget TComment d !! id = None ∧ content_of x = content_of c ∧
    c_EventID x = c_EventID c ∧ tget TComment d' = <[id := x]> (tget TComment d) ∧
    tget TVideo d' = alter (popularity_plus 1) (c_VideoID c) (tget TVideo d) ∧ db_ok d' ∧
    (∀ R (T : table R), table_eqb T TVideo = false → table_eqb T TComment = false →
       tget T d' = tget T d).

Lemma contents_written `{Collation} c d d' : comment_written c d d' → contents d' ≡ₚ content_of c :: contents d.
Proof.
  intros (id & x & Hn & <- & _ & E & _). unfold contents, rows. rewrite E.
  rewrite (fmap_Permutation snd _ _ (map_to_list_insert _ _ _ Hn)). done.
Qed.

(** Deleting by primary key removes the one row. *)
Lemma delete_by_id {R} (T : table R) id d : keyed T d →
  filter (λ kr : Z * R, where_id T id always kr.2 = false) (tget T d) = delete id (tget T d).
Proof.
  intros Hd. apply map_eq. intros k. apply option_eq. intros x.
  rewrite map_lookup_filter_Some, lookup_delete_Some. cbn [snd]. unfold where_id, always.
  rewrite andb_true_r, Z.eqb_neq. split.
  - intros [Ex Hn]. split; [|done]. intros <-. by rewrite (Hd _ _ Ex) in Hn.
  - intros [Hn Ex]. split; [done|]. by rewrite (Hd _ _ Ex).
Qed.

Section statements.
Context `{SqlLaws}.

Lemma create_comment c t d :
  db_ok d → c_ID c = 0 →
  (¬ event_taken (c_EventID c) d ∧ ∃ id x, tget TComment d !! id = None ∧
     content_of x = content_of c ∧ c_EventID x = c_EventID c ∧
     let d0 := tset TComment (<[id := x]> (tget TComment d)) d in
     eng_create TComment c t d = (Ok x, d0) ∧ db_ok d0) ∨
  (event_taken (c_EventID c) d ∧ eng_create TComment c t d = (Err ErrDuplicate, d)) ∨
  (eng_fits TComment (row_texts TComment c) = false ∧
     ∃ code, eng_create TComment c t d = (Err (ErrIO code), d)).
Proof.
  intros Hd Hid.
  destruct (create_cases TComment c t d Hid) as [(id & Hp & Hf & Hc & E)|[((k & r & Er & _ & [= Ek]) & E)|?]].
  - left. split; [intros (k & x & Ex & He); apply (Hc k x Ex); split; [by eexists|simpl; congruence]|].
    exists id, (row_stored TComment id t c). do 3 (split; [done|]). split; [done|].
    apply db_ok_tset; [done|]. by apply table_ok_create; [| |apply Hc|apply Hd].
  - right; left. split; [|done]. by exists k, r.
  - by right; right.
Qed.

(** The row and the counter, as one change. *)
Lemma written_by c id x d f :
  (∀ r, tget TVideo d !! c_VideoID c = Some r → f r = popularity_plus 1 r) →
  (∀ r, v_ID (f r) = v_ID r) → (∀ r, row_texts TVideo (f r) = row_texts TVideo r) →
  tget TComment d !! id = None → content_of x = content_of c → c_EventID x = c_EventID c →
  let d0 := tset TComment (<[id := x]> (tget TComment d)) d in
  db_ok d0 →
  ∃ d', exec (eng_update TVideo (where_id TVideo (c_VideoID c) always) f d0) = (Ok tt, d') ∧
    comment_written c d d'.
Proof.
  intros Hf Hi Ht Hn Hcx Hex d0 Hd0.
  destruct (update_video (c_VideoID c) always f d0 Hd0 Hi Ht) as [E Hd'].
  eexists. split; [exact E|]. exists id, x. split_and!; try done.
  - rewrite tget_at_row_ne by done. unfold d0. by rewrite tget_tset.
  - rewrite tget_at_row_alter by done. unfold d0. rewrite tget_tset_ne by done.
    apply map_eq. intros k. destruct (decide (k = c_VideoID c)) as [->|Hne].
    + rewrite !lookup_alter_eq. destruct (tget TVideo d !! c_VideoID c) as [r|] eqn:Er; [|done].
      simpl. by rewrite Hf.
    + by rewrite !lookup_alter_ne.
  - intros R T Hv Hc. rewrite tget_at_row_ne by (by destruct T). unfold d0.
    by rewrite tget_tset_ne by (by destruct T).
Qed.

Lemma comment_tx_spec c t d :
  db_ok d → c_ID c = 0 →
  match eng_tx (comment_tx c t) d with
  | (Ok _, d') => comment_written c d d'
  | (Err _, d') => d' = d
  end.
Proof.
  intros Hd Hid. rewrite law_tx. unfold comment_tx, st_try, st_bind.
  rewrite sel_first_id by apply Hd.
  destruct (tget TVideo d !! c_VideoID c) as [v|]; [|done]. cbn beta iota.
  destruct (create_comment c t d Hd Hid) as [(_ & id & x & Hn & Hc & He & -> & Hd0)|[[_ ->]|[_ [code ->]]]];
    [|done|done]. cbn beta iota.
  destruct (written_by c id x d (popularity_plus 1)) as (d' & -> & Hw); done.
Qed.
End statements.

Section facts.
Context {W : Type} `{WorldLaws W} `{SqlLaws}.
Implicit Types w : W.

(** *** The worker *)
Definition event_valid (evt : CommentEvent) : bool :=
  negb (String.eqb (ce_EventID evt) "" || (ce_VideoID evt =? 0) || (ce_AuthorID evt =? 0)
        || String.eqb (TrimSpace (ce_Content evt)) "").

Definition publish_effect (evt : CommentEvent) (d d' : Db) : Prop :=
  (event_valid evt = true ∧ is_Some (tget TVideo d !! ce_VideoID evt) ∧
     ¬ event_taken (ce_EventID evt) d ∧ comment_written (comment_of_event evt) d d') ∨
  (¬ (event_valid evt = true ∧ is_Some (tget TVideo d !! ce_VideoID evt) ∧
      ¬ event_taken (ce_EventID evt) d) ∧ d' = d).

Definition event_fits (evt : CommentEvent) : Prop :=
  eng_fits TComment (row_texts TComment (comment_of_event evt)) = true.

Lemma applyPublish_up evt w :
  up_db (v_up (view w)) = true → db_ok (v_db (view w)) → popularity_ok (v_db (view w)) →
  event_fits evt →
  runs (applyPublish evt) w (λ r w', r = Ok tt ∧
    ∃ d', view w' = set_db d' (view w) ∧ publish_effect evt (v_db (view w)) d').
Proof.
  intros Hup Hd Hpop Hfit. set (d := v_db (view w)) in *.
  assert (∀ w', view w' = view w →
    ¬ (event_valid evt = true ∧ is_Some (tget TVideo d !! ce_VideoID evt) ∧
       ¬ event_taken (ce_EventID evt) d) →
    Ok tt = Ok tt ∧ ∃ d', view w' = set_db d' (view w) ∧ publish_effect evt d d') as Hskip.
  { intros w' E Hn. split; [done|]. exists d. split; [|by right]. rewrite E. unfold d. by destruct (view w). }
  unfold applyPublish. unfold event_valid in Hskip.
  destruct (String.eqb (ce_EventID evt) "" || _ || _ || _) eqn:Ev; [apply runs_ret, Hskip; [done|naive_solver]|].
  apply runs_try. apply IsExist_runs; [apply Hd| |congruence]. intros w1 E1. fold d.
  destruct (bool_decide_reflect (is_Some (tget TVideo d !! ce_VideoID evt))) as [Hex|Hex]; cbn [negb].
  2:{ apply runs_ret, Hskip; [done|tauto]. }
  unfold CreateCommentIgnoreDuplicate. cbn [c_EventID comment_of_event].
  destruct (String.eqb (ce_EventID evt) "") eqn:Ee; [done|].
  call; rewrite E1 in *; [|congruence]. fold d in Hv |- *.
  destruct (create_comment (comment_of_event evt) (clk w') d Hd eq_refl)
    as [(Hn & id & x & Hfr & Hcx & He & E & Hd0)|[[Hin E]|[Hm _]]];
    [| |unfold event_fits in Hfit; congruence]; rewrite E in *; cbn [fst snd] in *; glue; cbn [negb].
  - unfold ChangePopularity.
    destruct (written_by (comment_of_event evt) id x d (add_popularity 1)) as (d' & Ed & Hw); try done.
    { intros r Er. apply Hpop in Er. unfold add_popularity, popularity_plus. f_equal. lia. }
    eapply exec_runs; [by rewrite Hv|intros t; rewrite Hv; exact Ed|].
    intros w2 E2. split; [done|]. exists d'. split; [rewrite E2, Hv; by destruct (view w)|].
    left. split_and!; [unfold event_valid; by rewrite Ee, Ev|done|done|done].
  - apply runs_ret, Hskip; [rewrite Hv; unfold d; by destruct (view w)|]. intros (_ & _ & Hn). by apply Hn.
Qed.

Lemma publish_effect_inv evt d d' :
  publish_effect evt d d' → db_ok d → popularity_ok d → db_ok d' ∧ popularity_ok d'.
Proof.
  intros [(_ & _ & _ & id & x & _ & _ & _ & _ & Ev & Hd' & _)|[_ ->]] Hd Hp; [|done].
  split; [done|]. intros k r. rewrite Ev.
  intros [(_ & r0 & E & ->)|[_ E]]%lookup_alter_Some; apply Hp in E; simpl; lia.
Qed.

(** Once applied, an event is taken, or could not be applied at all. *)
Lemma publish_effect_again evt d d1 d2 :
  publish_effect evt d d1 → publish_effect evt d1 d2 → d2 = d1.
Proof.
  intros Hp1 [(Hv & Hex & Hn & _)|[_ ->]]; [|done]. exfalso.
  destruct Hp1 as [(_ & _ & _ & id & x & _ & _ & He & E & _)|[Hskip ->]]; [|tauto].
  apply Hn. exists id, x. rewrite E, lookup_insert_eq. split; [done|]. by rewrite He.
Qed.

(** *** The service *)
Context `{RedisServer}.

Definition comment_checks (c : Comment) (d : Db) : Prop :=
  c_VideoID c ≠ 0 ∧ c_AuthorID c ≠ 0 ∧ TrimSpace (c_Content c) ≠ "" ∧
  is_Some (tget TVideo d !! c_VideoID c).

Definition comment_pub (c : Comment) (p : Pub) (evt : CommentEvent) : Prop :=
  p_Exchange p = CommentExchange ∧ p_RoutingKey p = CommentRoutingKeyPublish ∧
  p_Body p = marshal_comment evt ∧ String.length (ce_EventID evt) = 32%nat ∧
  ∃ id t, evt = mkCommentEvent id "publish" 0 (TrimSpace (c_Username c)) (c_VideoID c)
                  (c_AuthorID c) (TrimSpace (c_Content c)) t.

(** the popularity message may have been published before the comment failed *)
Lemma cache_step cache v c (b : bool) w (Q : result unit → W → Prop) :
  (∀ w', redis_only w w' → Q (Ok tt) w') →
  runs (st_bind (if negb b then UpdatePopularityCache cache v c else st_ret tt)
          (λ _, st_ret (Ok tt))) w Q.
Proof.
  intros HQ. apply runs_bind. destruct b; cbn [negb].
  - apply runs_ret, runs_ret, HQ, redis_only_refl.
  - eapply runs_mono; [apply UpdatePopularityCache_only|]. intros. by apply runs_ret, HQ.
Qed.

Lemma publish_checks (k : ST W (result unit)) c w (Q : result unit → W → Prop) :
  keyed TVideo (v_db (view w)) →
  (∀ e w', view w' = view w → Q (Err e) w') →
  (∀ w', view w' = view w → comment_checks c (v_db (view w)) → runs k w' Q) →
  let c' := trimmed_comment c in
  runs (if (c_VideoID c' =? 0) || (c_AuthorID c' =? 0)
        then st_ret (Err (ErrMsg "video_id and author_id are required"))
        else if String.eqb (c_Content c') "" then st_ret (Err (ErrMsg "content is required"))
        else st_try (IsExist (c_VideoID c')) (λ ex,
          if negb ex then st_ret (Err (ErrMsg "video not found")) else k)) w Q.
Proof.
  intros Hk Herr Hok. unfold comment_checks in Hok.
  cbn [c_VideoID c_AuthorID c_Content trimmed_comment].
  destruct (Z.eqb_spec (c_VideoID c) 0); [by apply runs_ret, Herr|].
  destruct (Z.eqb_spec (c_AuthorID c) 0); [by apply runs_ret, Herr|]. cbn [orb].
  destruct (String.eqb_spec (TrimSpace (c_Content c)) ""); [by apply runs_ret, Herr|].
  apply runs_try. apply IsExist_runs; [done| |by intros; apply Herr]. intros w1 E1.
  case_bool_decide as Hex; cbn [negb]; [|by apply runs_ret, Herr]. by apply Hok.
Qed.

(** Without the queue: written in one transaction, or nothing. *)
Lemma Publish_direct cache pm c w :
  db_ok (v_db (view w)) → c_ID c = 0 →
  runs (CommentService_Publish (mkCommentService cache false pm) c) w (λ r w',
    match r with
    | Err _ => v_db (view w') = v_db (view w)
    | Ok _ => comment_checks c (v_db (view w)) ∧ ∃ e, (String.length e ≤ 64)%nat ∧
        comment_written (with_event_id e (trimmed_comment c)) (v_db (view w)) (v_db (view w'))
    end).
Proof.
  intros Hd Hid. unfold CommentService_Publish. apply publish_checks; [apply Hd|by intros e w' ->|].
  intros w1 E1 Hck. cbn [cs_commentMQ cs_popularityMQ cs_cache]. apply runs_bind.
  eapply runs_mono; [apply enqueue_none|]. intros b w2 [-> E2]. apply runs_bind.
  eapply runs_mono; [apply enqueue_popularity; [apply Hck|done]|]. intros b w3 [sfx E3].
  unfold mq_only in *. cbn [andb negb]. apply runs_try. unfold comment_directly.
  call; [|rewrite Hv, E3, E2, E1; done]. rename id into e.
  call; rewrite Hv, E3, E2, E1 in Hv0; [|by rewrite Hv0].
  rewrite Hv, E3, E2, E1. cbn [v_db set_mq] in *.
  pose proof (comment_tx_spec (with_event_id ("mock:" +:+ e) (trimmed_comment c)) (clk w'0)
    (v_db (view w)) Hd Hid) as Htx.
  destruct (eng_tx _ _) as [[[]|err] d']; cbn [fst snd] in *; [|rewrite Hv0; done].
  apply (cache_step cache (c_VideoID c) 1 b). intros w4 Ho. split; [done|].
  exists ("mock:" +:+ e). split; [rewrite string_length_app, Hlen; simpl; lia|].
  by rewrite (redis_only_db _ _ Ho), Hv0.
Qed.

(** With the queue and every service up: the event is in the broker. *)
Lemma Publish_queued cache pm c w :
  v_up (view w) = all_up → db_ok (v_db (view w)) → comment_checks c (v_db (view w)) →
  runs (CommentService_Publish (mkCommentService cache true pm) c) w (λ r w',
    r = Ok tt ∧ v_db (view w') = v_db (view w) ∧ v_up (view w') = all_up ∧
    ∃ l1 p l2 evt, v_mq (view w') = v_mq (view w) ++ l1 ++ p :: l2 ∧ comment_pub c p evt).
Proof.
  intros Hup Hd (Hv & Ha & Ht & Hex). unfold CommentService_Publish.
  cbn [c_VideoID c_AuthorID c_Content c_Username trimmed_comment cs_commentMQ cs_popularityMQ cs_cache].
  destruct (Z.eqb_spec (c_VideoID c) 0), (Z.eqb_spec (c_AuthorID c) 0); try done. cbn [orb].
  destruct (String.eqb_spec (TrimSpace (c_Content c)) ""); [done|].
  apply runs_try. apply IsExist_runs; [apply Hd| |intros code w' _ Hu; by rewrite Hup in Hu].
  intros w1 E1. rewrite bool_decide_eq_true_2 by done. cbn [negb]. apply runs_bind.
  eapply runs_mono; [apply enqueue_published, CommentMQ_publish_spec; done|].
  intros b w2 (sfx & E2 & Hb & Hnb). unfold mq_only in E2. rewrite E1 in E2.
  destruct b; [|destruct (Hnb eq_refl eq_refl) as [Hu|Hu]; rewrite E1, Hup in Hu; done].
  destruct (Hb eq_refl) as (_ & t & body & (id & t' & Hlen & ->) & ->). apply runs_bind.
  eapply runs_mono; [by apply enqueue_popularity|]. intros b w3 [sfx3 E3]. unfold mq_only in E3.
  rewrite E2 in E3.
  assert (∀ w', redis_only w3 w' → Ok tt = Ok tt ∧ v_db (view w') = v_db (view w) ∧
    v_up (view w') = all_up ∧ ∃ l1 p l2 evt,
      v_mq (view w') = v_mq (view w) ++ l1 ++ p :: l2 ∧ comment_pub c p evt) as Hfin.
  { intros w' Ho. split; [done|].
    rewrite (redis_only_db _ _ Ho), (redis_only_up _ _ Ho), (redis_only_mq _ _ Ho), E3. simpl.
    split; [done|]. split; [done|]. eexists [], _, sfx3, _. split; [by rewrite <-app_assoc|].
    split; [done|]. split; [done|]. split; [done|]. split; [done|]. by exists id, t'. }
  destruct b; cbn [andb negb]; [apply runs_ret, Hfin, redis_only_refl|].
  apply runs_try, runs_ret. by apply (cache_step cache (c_VideoID c) 1 false).
Qed.

(** With every service up, a comment that goes through the queue and the
    worker ends with the same comments and the same videos as one that the
    request writes itself, unless the event's id is already taken. *)
Theorem queued_comment_equals_direct cache pm1 pm2 c w w1 r2 w2 :
  v_up (view w) = all_up → db_ok (v_db (view w)) → popularity_ok (v_db (view w)) →
  c_ID c = 0 → is_uint (c_VideoID c) && is_uint (c_AuthorID c) = true →
  (∀ e, (String.length e ≤ 64)%nat →
     eng_fits TComment [e; TrimSpace (c_Username c); TrimSpace (c_Content c)] = true) →
  CommentService_Publish (mkCommentService cache false pm1) c w = (Ok tt, w1) →
  CommentService_Publish (mkCommentService cache true pm2) c w = (r2, w2) →
  r2 = Ok tt ∧ ∃ l1 p l2 evt, v_mq (view w2) = v_mq (view w) ++ l1 ++ p :: l2 ∧
    comment_pub c p evt ∧
    (¬ event_taken (ce_EventID evt) (v_db (view w)) →
     runs (CommentWorker_process (p_Body p)) w2 (λ r3 w3, r3 = Ok tt ∧
       contents (v_db (view w3)) ≡ₚ contents (v_db (view w1)) ∧
       tget TVideo (v_db (view w3)) = tget TVideo (v_db (view w1)))).
Proof.
  intros Hup Hd Hpop Hid [Hvu Hau]%andb_true_iff Hfit Hrun1 Hrun2.
  eapply runs_elim in Hrun1; [|by eapply (Publish_direct cache pm1)].
  destruct Hrun1 as (Hck & e1 & Hl1 & Hw1).
  eapply runs_elim in Hrun2; [|by eapply (Publish_queued cache pm2)].
  destruct Hrun2 as (-> & Edb & Hup2 & l1 & p & l2 & evt & Emq & Hp).
  split; [done|]. exists l1, p, l2, evt. split; [done|]. split; [done|]. intros Hfresh.
  destruct Hp as (_ & _ & -> & Hlen & id & t & ->). cbn [ce_EventID] in *.
  unfold CommentWorker_process. rewrite unmarshal_marshal_comment by (simpl; by rewrite Hvu, Hau).
  cbn [ce_Action String.eqb Ascii.eqb Bool.eqb].
  eapply runs_mono; [apply applyPublish_up; rewrite ?Edb, ?Hup2; try done|].
  { unfold event_fits. cbn. rewrite !TrimSpace_idem. apply Hfit. simpl in Hlen. lia. }
  intros r3 w3 (-> & d' & E3 & Heff). split; [done|]. rewrite E3. cbn [v_db set_db]. rewrite Edb in Heff.
  destruct Heff as [(_ & _ & _ & Hw3)|[Hskip _]].
  - rewrite (contents_written _ _ _ Hw3), (contents_written _ _ _ Hw1).
    destruct Hw3 as (? & ? & _ & _ & _ & _ & -> & _), Hw1 as (? & ? & _ & _ & _ & _ & -> & _).
    unfold content_of. cbn. by rewrite !TrimSpace_idem.
  - exfalso. apply Hskip. split; [|split; [apply Hck|done]].
    unfold event_valid. cbn. rewrite TrimSpace_idem. destruct Hck as (Hv & Ha & Ht & _).
    apply Z.eqb_neq in Hv, Ha. apply String.eqb_neq in Ht. rewrite Hv, Ha, Ht.
    destruct id; [discriminate Hlen|done].
Qed.

(** C25: only its author removes a comment. A deletion leaves every other
    comment and every other table as they were; it succeeds only for the
    author, and for anybody else it does nothing at all. *)
Theorem Delete_only_by_author s id accountID w :
  db_ok (v_db (view w)) →
  runs (CommentService_Delete s id accountID) w (λ r w',
    (is_ok r = true → ∃ c, tget TComment (v_db (view w)) !! id = Some c ∧ c_AuthorID c = accountID) ∧
    (∀ c, tget TComment (v_db (view w)) !! id = Some c → c_AuthorID c ≠ accountID →
       is_ok r = false ∧ view w' = view w) ∧
    (tget TComment (v_db (view w')) = tget TComment (v_db (view w)) ∨
     tget TComment (v_db (view w')) = delete id (tget TComment (v_db (view w)))) ∧
    (∀ R (T : table R), table_eqb T TComment = false →
       tget T (v_db (view w')) = tget T (v_db (view w)))).
Proof.
  intros Hd. set (d := v_db (view w)) in *.
  unfold CommentService_Delete, CommentRepo_FindByID, enqueue.
  assert (∀ e w', view w' = view w →
    (is_ok (Err (A := unit) e) = true → ∃ c, tget TComment d !! id = Some c ∧ c_AuthorID c = accountID) ∧
    (∀ c, tget TComment d !! id = Some c → c_AuthorID c ≠ accountID →
       is_ok (Err (A := unit) e) = false ∧ view w' = view w) ∧
    (tget TComment (v_db (view w')) = tget TComment d ∨
     tget TComment (v_db (view w')) = delete id (tget TComment d)) ∧
    (∀ R (T : table R), table_eqb T TComment = false → tget T (v_db (view w')) = tget T d)) as Herr.
  { intros e w' ->. split; [done|]. split; [done|]. split; [by left|done]. }
  apply runs_try, runs_bind. apply runs_query.
  2:{ intros code w1 E1 _. by apply runs_ret, Herr. }
  intros w1 E1. rewrite sel_first_id by apply Hd. apply runs_ret. fold d.
  destruct (tget TComment d !! id) as [c|] eqn:Ec; [|by apply runs_ret, Herr].
  destruct (Z.eqb_spec (c_AuthorID c) accountID) as [Hau|Hau]; cbn [negb];
    [|apply runs_ret; rewrite E1; split; [done|]; split; [done|]; split; [by left|done]].
  assert (∀ (r : result unit) w', v_db (view w') = d →
    (is_ok r = true → ∃ c0, Some c = Some c0 ∧ c_AuthorID c0 = accountID) ∧
    (∀ c0, Some c = Some c0 → c_AuthorID c0 ≠ accountID → is_ok r = false ∧ view w' = view w) ∧
    (tget TComment (v_db (view w')) = tget TComment d ∨
     tget TComment (v_db (view w')) = delete id (tget TComment d)) ∧
    (∀ R (T : table R), table_eqb T TComment = false → tget T (v_db (view w')) = tget T d)) as Hkeep.
  { intros r w' ->. split; [intros _; by exists c|]. split; [by intros c0 [= <-]|]. split; [by left|done]. }
  apply runs_bind. eapply (runs_mono _ _ (λ _ w', v_db (view w') = d)).
  { destruct (cs_commentMQ s); [|by apply runs_ret; rewrite E1].
    apply runs_bind. eapply runs_mono; [by apply CommentMQ_publish_spec|].
    intros r w2 (_ & [(_ & t & b & _ & E2)|(_ & _ & [E2|(t & b & _ & E2)])]);
      apply runs_ret; rewrite E2, E1; done. }
  intros [|] w2 E2; [apply runs_ret; by apply Hkeep|].
  unfold CommentRepo_DeleteComment. destruct (c_ID c =? 0); [apply runs_ret; by apply Hkeep|].
  call; [|apply Hkeep; by rewrite Hv]. rewrite law_delete in *. rewrite E2 in Hv. cbn [exec res_map fst snd] in *.
  assert (c_ID c = id) as Hid by (exact (proj1 (Hd _ TComment) id c Ec)).
  destruct (Hkeep (Ok tt) w2 E2) as (Hok & Hbad & _ & _). split; [exact Hok|].
  split; [intros c0 [= <-]; done|]. rewrite Hv. cbn [v_db set_db]. split.
  - right. rewrite tget_tset, Hid. by apply delete_by_id, Hd.
  - intros R T HT. apply tget_tset_ne. by destruct T.
Qed.
End facts.

(** ** Witnesses *)
Definition a_comment : Comment := mkComment 1 "e1" "ann" 1 7 "hello" 3.
Definition comment_db : Db := tset TComment {[ 1 := a_comment ]} like_db.
Definition new_comment : Comment := mkComment 0 "" "bob" 1 9 "nice" zero_time.

Lemma comment_db_inv k r : tget TComment comment_db !! k = Some r → k = 1 ∧ r = a_comment.
Proof. unfold comment_db. rewrite tget_tset. by intros [<- <-]%lookup_singleton_Some. Qed.

Lemma comment_db_ok : db_ok comment_db.
Proof.
  apply db_ok_tset; [apply like_db_ok|]. split_and!.
  - by intros k r [-> ->]%comment_db_inv.
  - by intros k1 k2 r1 r2 [-> ->]%comment_db_inv [-> ->]%comment_db_inv.
  - intros k r [-> ->]%comment_db_inv. lia.
Qed.

Lemma comment_db_popularity : popularity_ok comment_db.
Proof.
  intros k r. unfold comment_db. rewrite tget_tset_ne by done. by intros [-> ->]%like_db_inv.
Qed.

Lemma Delete_only_by_author_witness :
  let w := ref_start comment_db 5 in
  runs (CommentService_Delete (mkCommentService None false false) 1 9) w (λ r w',
    (is_ok r = true → ∃ c, tget TComment (v_db (view w)) !! 1 = Some c ∧ c_AuthorID c = 9) ∧
    (∀ c, tget TComment (v_db (view w)) !! 1 = Some c → c_AuthorID c ≠ 9 →
       is_ok r = false ∧ view w' = view w) ∧
    (tget TComment (v_db (view w')) = tget TComment (v_db (view w)) ∨
     tget TComment (v_db (view w')) = delete 1 (tget TComment (v_db (view w)))) ∧
    (∀ R (T : table R), table_eqb T TComment = false →
       tget T (v_db (view w')) = tget T (v_db (view w)))).
Proof.
  intros w. exact (Delete_only_by_author (mkCommentService None false false) 1 9 w comment_db_ok).
Defined.

Lemma queued_comment_equals_direct_witness :
  let w := ref_start comment_db 5 in
  let w1 := (CommentService_Publish (mkCommentService None false false) new_comment w).2 in
  let '(r2, w2) := CommentService_Publish (mkCommentService None true false) new_comment w in
  r2 = Ok tt ∧ ∃ l1 p l2 evt, v_mq (view w2) = v_mq (view w) ++ l1 ++ p :: l2 ∧
    comment_pub new_comment p evt ∧
    (¬ event_taken (ce_EventID evt) (v_db (view w)) →
     runs (CommentWorker_process (p_Body p)) w2 (λ r3 w3, r3 = Ok tt ∧
       contents (v_db (view w3)) ≡ₚ contents (v_db (view w1)) ∧
       tget TVideo (v_db (view w3)) = tget TVideo (v_db (view w1)))).
Proof.
  intros w w1.
  destruct (CommentService_Publish (mkCommentService None true false) new_comment w) as [r2 w2] eqn:E2.
  exact (@queued_comment_equals_direct RefW ref_world ref_world_laws ref_engine ref_sql_laws
           ref_redis None false false new_comment w w1 r2 w2
           eq_refl comment_db_ok comment_db_popularity eq_refl eq_refl (λ _ _, eq_refl)
           ltac:(vm_compute; reflexivity) E2).
Defined.
