(* ===== verification/Social.v ===== *)
(** [internal/api/social] and [internal/worker/social_worker.go]: who follows
    whom. *)
From S2P Require Import Prelude GoStd Query Entities Json Services RedisFacts RedisClient Mq.
From S2P Require Import DbFacts Http Video Like Account.
Local Open Scope Z_scope.
Local Open Scope go_scope.

(** ** repo.go *)
Definition is_follow (followerID vloggerID : Z) (s : Social) : bool :=
  (s_FollowerID s =? followerID) && (s_VloggerID s =? vloggerID).

Section repo.
Context {W : Type} `{World W} `{SqlEngine}.

Definition IsFollowed (s : Social) : ST W (result bool) :=
  query (λ d, Ok (0 <? sel_count (is_follow (s_FollowerID s) (s_VloggerID s)) (rows TSocial d))).

Definition SocialRepo_Follow (s : Social) : ST W (result unit) :=
  sql (λ t d, exec (eng_create TSocial s t d)).

Definition SocialRepo_Unfollow (s : Social) : ST W (result unit) :=
  sql (λ _ d, exec (eng_delete TSocial (is_follow (s_FollowerID s) (s_VloggerID s)) d)).

(** the accounts at the far end of the follows that [wh] selects *)
Definition accounts_of (wh : Social → bool) (far : Social → Z) : ST W (result (list Account)) :=
  socials <-? query (λ d, Ok (eng_select wh [] (Some 200%nat) (rows TSocial d))) ;;
  let ids := far <$> socials in
  if bool_decide (ids = []) then st_ret (Ok [])
  else query (λ d, Ok (eng_select (λ a, bool_decide (ac_ID a ∈ ids)) [] None (rows TAccount d))).

Definition count_of (wh : Social → bool) : ST W (result Z) :=
  query (λ d, Ok (sel_count wh (rows TSocial d))).

Definition GetAllFollowers (vloggerID : Z) : ST W (result (list Account)) :=
  accounts_of (λ s, s_VloggerID s =? vloggerID) s_FollowerID.
Definition SocialRepo_CountFollowers (vloggerID : Z) : ST W (result Z) :=
  count_of (λ s, s_VloggerID s =? vloggerID).
Definition GetAllVloggers (followerID : Z) : ST W (result (list Account)) :=
  accounts_of (λ s, s_FollowerID s =? followerID) s_VloggerID.
Definition SocialRepo_CountVloggers (followerID : Z) : ST W (result Z) :=
  count_of (λ s, s_FollowerID s =? followerID).
End repo.

(** ** service.go: a service is whether it has a publisher *)
Section service.
Context {W : Type} `{World W} `{SqlEngine}.

Definition SocialService_Follow (socialMQ : bool) (s : Social) : ST W (result unit) :=
  _ <-? AccountRepo_FindByID (s_FollowerID s) ;;
  _ <-? AccountRepo_FindByID (s_VloggerID s) ;;
  if s_FollowerID s =? s_VloggerID s
  then st_ret (Err (ErrMsg "can not follow yourself"))
  else
    isFollowed <-? IsFollowed s ;;
    if isFollowed then st_ret (Err (ErrMsg "already followed"))
    else
      sent <- enqueue socialMQ (SocialMQ_Follow true (s_FollowerID s) (s_VloggerID s)) ;;
      if sent then st_ret (Ok tt) else SocialRepo_Follow s.

Definition SocialService_Unfollow (socialMQ : bool) (s : Social) : ST W (result unit) :=
  _ <-? AccountRepo_FindByID (s_FollowerID s) ;;
  _ <-? AccountRepo_FindByID (s_VloggerID s) ;;
  isFollowed <-? IsFollowed s ;;
  if negb isFollowed then st_ret (Err (ErrMsg "not followed"))
  else
    sent <- enqueue socialMQ (SocialMQ_Unfollow true (s_FollowerID s) (s_VloggerID s)) ;;
    if sent then st_ret (Ok tt) else SocialRepo_Unfollow s.

Definition SocialService_ListAllFollowers (vloggerID : Z) : ST W (result (list Account)) :=
  _ <-? AccountRepo_FindByID vloggerID ;; GetAllFollowers vloggerID.
Definition SocialService_CountFollowers (vloggerID : Z) : ST W (result Z) :=
  SocialRepo_CountFollowers vloggerID.
Definition SocialService_ListAllVloggers (followerID : Z) : ST W (result (list Account)) :=
  _ <-? AccountRepo_FindByID followerID ;; GetAllVloggers followerID.
Definition SocialService_CountVloggers (followerID : Z) : ST W (result Z) :=
  SocialRepo_CountVloggers followerID.
End service.

(** ** worker/social_worker.go *)
Section worker.
Context {W : Type} `{World W} `{SqlEngine}.

Definition applyFollow (evt : SocialEvent) : ST W (result unit) :=
  r <- SocialRepo_Follow (mkSocial 0 (se_FollowerID evt) (se_VloggerID evt)) ;;
  st_ret (match r with
          | Ok _ => Ok tt
          | Err ErrDuplicate => Ok tt
          | Err e => Err e
          end).

Definition applyUnfollow (evt : SocialEvent) : ST W (result unit) :=
  SocialRepo_Unfollow (mkSocial 0 (se_FollowerID evt) (se_VloggerID evt)).

Definition SocialWorker_process (body : bytes) : ST W (result unit) :=
  match unmarshal_social body with
  | Err _ => st_ret (Ok tt)
  | Ok evt =>
      if (se_FollowerID evt =? 0) || (se_VloggerID evt =? 0) then st_ret (Ok tt)
      else if String.eqb (se_Action evt) "follow" then applyFollow evt
      else if String.eqb (se_Action evt) "unfollow" then applyUnfollow evt
      else st_ret (Ok tt)
  end.
End worker.

(** ** handler.go *)
Record ListAllFollowersResponse := mkListAllFollowersResponse {
  lf_Followers : list Account; lf_FollowerCount : Z }.
Record ListAllVloggersResponse := mkListAllVloggersResponse {
  lv_Vloggers : list Account; lv_VloggerCount : Z }.
Record GetCountsResponse := mkGetCountsResponse {
  gc_FollowerCount : Z; gc_VloggerCount : Z }.

(** [n, _ := count(...)] *)
Definition or_zero (r : result Z) : Z := match r with Ok n => n | Err _ => 0 end.

Section handler.
Context {W : Type} `{World W} `{SqlEngine}.

Definition unauthorized_resp {A} (e : err) : Resp A := RespErr 401 e.

(** the shape that Follow and Unfollow share *)
Definition with_vlogger (c : Ctx) (req : result Z) (call : Social → ST W (result unit))
    (msg : string) : ST W (Resp string) :=
  or_fail fail_with req (λ vloggerID,
    if vloggerID <=? 0 then st_ret (RespErr 400 (ErrMsg "vlogger_id is required"))
    else
      or_fail unauthorized_resp (GetAccountID c) (λ followerID,
        r <- call (mkSocial 0 followerID vloggerID) ;;
        or_fail fail_with r (λ _, st_ret (RespOk 200 msg)))).

Definition SocialHandler_Follow (socialMQ : bool) (c : Ctx) (req : result Z) : ST W (Resp string) :=
  with_vlogger c req (SocialService_Follow socialMQ) "followed successfully".
Definition SocialHandler_Unfollow (socialMQ : bool) (c : Ctx) (req : result Z) :
    ST W (Resp string) :=
  with_vlogger c req (SocialService_Unfollow socialMQ) "unfollowed successfully".

(** the id of the request, or the caller's where it is zero *)
Definition id_or_own (c : Ctx) (id : Z) : result Z := if id =? 0 then GetAccountID c else Ok id.

Definition SocialHandler_ListAllFollowers (c : Ctx) (req : result Z) :
    ST W (Resp ListAllFollowersResponse) :=
  or_fail fail_with req (λ id,
    or_fail unauthorized_resp (id_or_own c id) (λ vloggerID,
      r <- SocialService_ListAllFollowers vloggerID ;;
      or_fail fail_with r (λ followers,
        n <- SocialService_CountFollowers vloggerID ;;
        st_ret (RespOk 200 (mkListAllFollowersResponse followers (or_zero n)))))).

Definition SocialHandler_ListAllVloggers (c : Ctx) (req : result Z) :
    ST W (Resp ListAllVloggersResponse) :=
  or_fail fail_with req (λ id,
    or_fail unauthorized_resp (id_or_own c id) (λ followerID,
      r <- SocialService_ListAllVloggers followerID ;;
      or_fail fail_with r (λ vloggers,
        n <- SocialService_CountVloggers followerID ;;
        st_ret (RespOk 200 (mkListAllVloggersResponse vloggers (or_zero n)))))).

Definition GetCounts (c : Ctx) : ST W (Resp GetCountsResponse) :=
  or_fail unauthorized_resp (GetAccountID c) (λ accountID,
    f <- SocialService_CountFollowers accountID ;;
    v <- SocialService_CountVloggers accountID ;;
    st_ret (RespOk 200 (mkGetCountsResponse (or_zero f) (or_zero v)))).
End handler.
