(* ===== verification/SocialFacts.v ===== *)
(** Theorems on follows: the worker keeps the follow relation as a set, and the
    lists and counts of followers describe that set. *)
From S2P Require Import Prelude GoStd Query Entities Json Services RedisFacts RedisClient Mq.
From S2P Require Import DbFacts Http Video Like LikeFacts Account Social Reference.
Local Open Scope Z_scope.

(** ** The abstract state: pairs (follower, vlogger) *)
Definition edge_of (s : Social) : Z * Z := (s_FollowerID s, s_VloggerID s).
Definition edges (d : Db) : gset (Z * Z) := list_to_set (edge_of <$> rows TSocial d).

(** What an event asks of the relation. *)
Definition social_step (E : gset (Z * Z)) (evt : SocialEvent) : gset (Z * Z) :=
  let p := (se_FollowerID evt, se_VloggerID evt) in
  if (p.1 =? 0) || (p.2 =? 0) then E
  else if String.eqb (se_Action evt) "follow" then {[p]} ∪ E
  else if String.eqb (se_Action evt) "unfollow" then E ∖ {[p]}
  else E.

Definition event_ids_ok (evt : SocialEvent) : Prop :=
  is_uint (se_FollowerID evt) && is_uint (se_VloggerID evt) = true.

(** Only the follows have changed, and nothing outside the database. *)
Definition only_social `{Collation} {W} `{World W} (w w' : W) : Prop :=
  ∃ d', view w' = set_db d' (view w) ∧ db_ok d' ∧
    ∀ R (T : table R), table_eqb T TSocial = false → tget T d' = tget T (v_db (view w)).

Lemma elem_of_edges d p : p ∈ edges d ↔ ∃ s, s ∈ rows TSocial d ∧ edge_of s = p.
Proof. unfold edges. rewrite elem_of_list_to_set, list_elem_of_fmap. naive_solver. Qed.

Lemma is_follow_edge u v s : is_follow u v s = true ↔ edge_of s = (u, v).
Proof.
  unfold is_follow, edge_of. rewrite andb_true_iff, !Z.eqb_eq. split; [by intros [-> ->]|].
  by intros [= -> ->].
Qed.

Section statements.
Context `{SqlLaws}.

Lemma social_clash d s :
  (∃ k r', tget TSocial d !! k = Some r' ∧ row_clash TSocial s r') ↔ edge_of s ∈ edges d.
Proof.
  rewrite elem_of_edges. unfold row_clash. simpl. split.
  - intros (k & r' & E & _ & [= Hv Hu]). exists r'. split; [apply elem_of_rows; eauto|].
    unfold edge_of. congruence.
  - intros (r' & [k E]%elem_of_rows & [= Hv Hu]). exists k, r'. split_and!; [done|by eexists|].
    congruence.
Qed.

Lemma create_social s t d :
  db_ok d → s_ID s = 0 → eng_fits TSocial [] = true →
  ((edge_of s ∉ edges d) ∧ ∃ s' d', eng_create TSocial s t d = (Ok s', d') ∧
     db_ok d' ∧ edges d' = ({[edge_of s]} ∪ edges d) ∧
     (∀ R (T : table R), table_eqb T TSocial = false → tget T d' = tget T d)) ∨
  (edge_of s ∈ edges d ∧ eng_create TSocial s t d = (Err ErrDuplicate, d)).
Proof.
  intros Hd Hid Hfit.
  destruct (create_cases TSocial s t d Hid) as [(id & Hp & Hf & Hc & ->)|[(Hc & ->)|[Hm _]]].
  - left. split.
    { intros Hin%social_clash. destruct Hin as (k & r' & E & Hcl). by apply (Hc k r'). }
    do 2 eexists. split; [done|]. split_and!.
    + apply db_ok_tset; [done|]. apply table_ok_create; [done..|apply Hd].
    + apply set_eq. intros p. rewrite elem_of_union, elem_of_singleton, !elem_of_edges.
      setoid_rewrite (rows_perm_insert TSocial d id _ Hf). setoid_rewrite elem_of_cons.
      split; [intros (l' & [->|?] & <-)|intros [->|(l' & ? & <-)]]; eauto.
    + intros R T Hn. rewrite tget_tset_ne; [done|]. by destruct T.
  - right. split; [by apply social_clash|done].
  - simpl in Hm. congruence.
Qed.

Lemma delete_social u v d :
  db_ok d →
  ∃ d', exec (eng_delete TSocial (is_follow u v) d) = (Ok tt, d') ∧ db_ok d' ∧
    edges d' = edges d ∖ {[(u, v)]} ∧
    (∀ R (T : table R), table_eqb T TSocial = false → tget T d' = tget T d).
Proof.
  intros Hd. rewrite law_delete. unfold exec. cbn [fst snd res_map]. eexists. split; [done|].
  split_and!.
  - apply db_ok_tset; [done|]. apply table_ok_delete, Hd.
  - apply set_eq. intros p. rewrite elem_of_difference, elem_of_singleton, !elem_of_edges.
    setoid_rewrite elem_of_rows. rewrite tget_tset. split.
    + intros (l & [k [E Hw]%map_lookup_filter_Some] & <-). simpl in Hw. split; [eauto|].
      intros Hp%is_follow_edge. congruence.
    + intros [(l & [k E] & <-) Hne]. exists l. split; [|done]. exists k.
      apply map_lookup_filter_Some. split; [done|]. simpl.
      destruct (is_follow u v l) eqn:E'; [|done]. by apply is_follow_edge in E'.
  - intros R T Hn. rewrite tget_tset_ne; [done|]. by destruct T.
Qed.
End statements.

Section facts.
Context {W : Type} `{WorldLaws W} `{SqlLaws}.
Implicit Types w : W.

Lemma only_social_refl w : db_ok (v_db (view w)) → ∀ w', view w' = view w → only_social w w'.
Proof. intros Hd w' E. exists (v_db (view w)). rewrite E. split; [by destruct (view w)|done]. Qed.

Lemma only_social_trans w w1 w2 : only_social w w1 → only_social w1 w2 → only_social w w2.
Proof.
  intros (d1 & E1 & _ & Ht1) (d2 & E2 & Hd2 & Ht2). exists d2.
  rewrite E2, E1. split; [by destruct (view w)|]. split; [done|].
  intros R T Hn. rewrite Ht2 by done. rewrite E1. by apply Ht1.
Qed.

(** One event. *)
Lemma social_process evt w :
  eng_fits TSocial [] = true → up_db (v_up (view w)) = true → db_ok (v_db (view w)) →
  event_ids_ok evt →
  runs (SocialWorker_process (marshal_social evt)) w (λ r w',
    r = Ok tt ∧ only_social w w' ∧
    edges (v_db (view w')) = social_step (edges (v_db (view w))) evt).
Proof.
  intros Hfit Hup Hd Hids. set (d := v_db (view w)) in *.
  unfold SocialWorker_process. rewrite unmarshal_marshal_social by done.
  unfold social_step. cbn [fst snd].
  assert (only_social w w) as Hrefl by by apply only_social_refl.
  destruct (_ || _); [by apply runs_ret|].
  destruct (String.eqb (se_Action evt) "follow"); [|destruct (String.eqb (se_Action evt) "unfollow")].
  - unfold applyFollow, SocialRepo_Follow. call; [|congruence].
    destruct (create_social (mkSocial 0 (se_FollowerID evt) (se_VloggerID evt)) (clk w') d Hd eq_refl Hfit)
      as [(Hn & s' & d' & E & Hd' & He & Ht)|[Hin E]]; fold d in Hv |- *;
      rewrite E in *; cbn [exec fst snd res_map] in *; glue; (split; [done|]).
    + split; [exists d'; rewrite Hv; done|]. by rewrite Hv.
    + split; [apply only_social_refl; [done|]; rewrite Hv; unfold d; by destruct (view w)|].
      rewrite Hv. cbn [v_db set_db]. unfold edge_of in Hin. simpl in Hin. set_solver.
  - unfold applyUnfollow, SocialRepo_Unfollow.
    destruct (delete_social (se_FollowerID evt) (se_VloggerID evt) d Hd) as (d' & E & Hd' & He & Ht).
    eapply exec_runs; [done|intros t; exact E|]. intros w' Hv. split; [done|].
    split; [by exists d'|]. by rewrite Hv.
  - by apply runs_ret.
Qed.


(** *** Followers *)

(** The accounts that follow [v]. *)
Definition followers_of (v : Z) (d : Db) : gset Z :=
  list_to_set (s_FollowerID <$> List.filter (λ s, s_VloggerID s =? v) (rows TSocial d)).

Lemma elem_of_followers_of v u d : u ∈ followers_of v d ↔ (u, v) ∈ edges d.
Proof.
  unfold followers_of. rewrite elem_of_list_to_set, list_elem_of_fmap, elem_of_edges.
  setoid_rewrite elem_of_lfilter. setoid_rewrite Z.eqb_eq. unfold edge_of. split.
  - intros (s & -> & <- & ?). eauto.
  - intros (s & ? & [= <- <-]). eauto.
Qed.

Lemma rows_NoDup {R} (T : table R) d : keyed T d → NoDup (row_id T <$> rows T d).
Proof.
  intros Hk. unfold rows. rewrite <-list_fmap_compose.
  replace ((row_id T ∘ snd) <$> map_to_list (tget T d)) with (map_to_list (tget T d)).*1.
  - apply NoDup_fst_map_to_list.
  - apply list_fmap_ext. intros i [k r] E%list_elem_of_lookup_2%elem_of_map_to_list. simpl.
    by rewrite (Hk _ _ E).
Qed.

Lemma NoDup_fmap_lfilter {A} (g : A → Z) (f : A → bool) l :
  NoDup (g <$> l) → NoDup (g <$> List.filter f l).
Proof.
  induction l as [|x l IH]; simpl; [done|]. rewrite list.NoDup_cons. intros [Hx Hl].
  destruct (f x); [|by apply IH]. simpl. constructor; [|by apply IH].
  intros (y & E & [_ Hy]%elem_of_lfilter)%list_elem_of_fmap. apply Hx, list_elem_of_fmap. eauto.
Qed.

Lemma follower_ids_NoDup v d :
  table_ok TSocial d →
  NoDup (s_FollowerID <$> List.filter (λ s, s_VloggerID s =? v) (rows TSocial d)).
Proof.
  intros (Hk & Hu & _). pose proof (NoDup_fmap_1 _ _ (rows_NoDup TSocial d Hk)) as Hn.
  apply NoDup_fmap_2_strong; [|by apply lfilter_NoDup].
  intros x y [Hx Hxr]%elem_of_lfilter [Hy Hyr]%elem_of_lfilter E. bool_to_prop.
  apply elem_of_rows in Hxr as [i Hi]. apply elem_of_rows in Hyr as [j Hj].
  assert (i = j) as -> by (apply (Hu i j x y Hi Hj); split; [by eexists|simpl; congruence]).
  congruence.
Qed.
(** What a list of accounts at the far end holds. *)
Lemma accounts_of_spec wh far w :
  up_db (v_up (view w)) = true → db_ok (v_db (view w)) →
  runs (accounts_of wh far) w (λ r w', view w' = view w ∧ ∃ l, r = Ok l ∧
    let sel := List.filter wh (rows TSocial (v_db (view w))) in
    NoDup (ac_ID <$> l) ∧
    (∀ a, a ∈ l → a ∈ rows TAccount (v_db (view w)) ∧ ∃ s, s ∈ sel ∧ far s = ac_ID a) ∧
    ((length sel ≤ 200)%nat → ∀ a s, a ∈ rows TAccount (v_db (view w)) → s ∈ sel →
       far s = ac_ID a → a ∈ l)).
Proof.
  intros Hup Hd. set (d := v_db (view w)) in *. unfold accounts_of.
  apply runs_try, runs_query; [|congruence]. intros w1 E1. fold d. rewrite <-E1 in Hup.
  pose proof (law_select _ wh [] (Some 200%nat) (rows TSocial d)) as Hsel.
  set (socials := eng_select wh [] (Some 200%nat) (rows TSocial d)) in *.
  assert ((length (List.filter wh (rows TSocial d)) ≤ 200)%nat →
    ∀ s, s ∈ List.filter wh (rows TSocial d) → s ∈ socials) as Hall.
  { intros Hl s Hs. destruct Hsel as (srt & Hp & _ & E). rewrite E. simpl.
    rewrite take_ge by (by rewrite Hp). by rewrite Hp. }
  case_bool_decide as Hn.
  - apply runs_ret. split; [done|]. exists []. split; [done|].
    split; [constructor|]. split; [by intros a ?%elem_of_nil|].
    intros Hl a s _ Hs. apply Hall in Hs; [|done].
    apply fmap_nil_inv in Hn. rewrite Hn in Hs. by apply elem_of_nil in Hs.
  - apply runs_query; [|intros; congruence]. intros w2 E2. rewrite E2, E1. fold d.
    split; [done|]. eexists. split; [done|].
    pose proof (law_select _ (λ a, bool_decide (ac_ID a ∈ far <$> socials)) [] None
      (rows TAccount d)) as (srt & Hp & _ & E). simpl in E. rewrite E. split.
    { rewrite Hp. apply NoDup_fmap_lfilter, (rows_NoDup TAccount d), Hd. }
    assert (∀ a, a ∈ srt ↔ (∃ s, s ∈ socials ∧ far s = ac_ID a) ∧ a ∈ rows TAccount d) as Hin.
    { intros a. rewrite Hp, elem_of_lfilter, bool_decide_eq_true, list_elem_of_fmap. naive_solver. }
    split.
    + intros a [(s & Hs & Hf) Ha]%Hin. split; [done|]. exists s. split; [|done].
      apply elem_of_lfilter. by eapply is_select_elem.
    + intros Hl a s Ha Hs Hf. apply Hin. eauto 6.
Qed.

(** A user's followers page. For an account that exists it answers with
    accounts that follow it, each once, and with the number of followers; the
    list is complete as long as there are at most 200 of them. *)
Theorem ListAllFollowers_complete c v w :
  v ≠ 0 → up_db (v_up (view w)) = true → db_ok (v_db (view w)) →
  runs (SocialHandler_ListAllFollowers c (Ok v)) w (λ r w', view w' = view w ∧
    let d := v_db (view w) in
    match tget TAccount d !! v with
    | None => r = RespErr 404 ErrRecordNotFound
    | Some _ => ∃ l, r = RespOk 200 (mkListAllFollowersResponse l (Z.of_nat (size (followers_of v d)))) ∧
        NoDup (ac_ID <$> l) ∧
        (∀ a, a ∈ l → tget TAccount d !! ac_ID a = Some a ∧ (ac_ID a, v) ∈ edges d) ∧
        ((size (followers_of v d) ≤ 200)%nat →
         ∀ u a, (u, v) ∈ edges d → tget TAccount d !! u = Some a → a ∈ l)
    end).
Proof.
  intros Hv Hup Hd. set (d := v_db (view w)) in *.
  assert (length (List.filter (λ s, s_VloggerID s =? v) (rows TSocial d)) =
          size (followers_of v d)) as Hsize.
  { unfold followers_of. rewrite size_list_to_set by (apply follower_ids_NoDup, Hd).
    by rewrite length_fmap. }
  unfold SocialHandler_ListAllFollowers, or_fail, id_or_own. rewrite (proj2 (Z.eqb_neq _ _) Hv).
  unfold SocialService_ListAllFollowers, SocialService_CountFollowers, AccountRepo_FindByID.
  apply runs_bind, runs_try, runs_query; [|congruence]. intros w1 E1. fold d.
  rewrite sel_first_id by apply Hd. destruct (tget TAccount d !! v) as [me|]; [|by apply runs_ret].
  eapply runs_mono; [apply accounts_of_spec; by rewrite E1|].
  intros r w2 (E2 & l & -> & Hn & Hs & Ha). rewrite E1 in *. fold d in Hs, Ha.
  apply runs_bind. unfold SocialRepo_CountFollowers, count_of.
  apply runs_query; rewrite E2; [|congruence]. intros w3 E3. apply runs_ret. fold d.
  split; [congruence|]. exists l. split.
  { rewrite sel_count_eq, Hsize. done. }
  split; [done|]. split.
  - intros a (Ha1 & s & [Hsv Hsr]%elem_of_lfilter & Hf)%Hs. split.
    + apply elem_of_rows_keyed in Ha1; [done|apply Hd].
    + apply elem_of_edges. exists s. split; [done|]. bool_to_prop. unfold edge_of. congruence.
  - intros Hl u a (s & Hsr & [= Hu Hvv])%elem_of_edges Ea.
    apply (Ha ltac:(lia) a s); [apply elem_of_rows; eauto|apply elem_of_lfilter; split; [by apply Z.eqb_eq|done]|].
    rewrite Hu. symmetry. by apply (proj1 (Hd _ TAccount)).
Qed.
End facts.

(** ** Witnesses *)
Definition social_db : Db :=
  tset TAccount {[ 7 := mkAccount 7 "ann" "" "" "" "" ""; 9 := mkAccount 9 "bob" "" "" "" "" "" ]}
    (tset TSocial {[ 1 := mkSocial 1 9 7 ]} empty_db).

Lemma social_db_account k r : tget TAccount social_db !! k = Some r →
  (k = 7 ∧ r = mkAccount 7 "ann" "" "" "" "" "") ∨ (k = 9 ∧ r = mkAccount 9 "bob" "" "" "" "" "").
Proof.
  unfold social_db. rewrite tget_tset.
  intros [[<- <-]|[_ [<- <-]%lookup_singleton_Some]]%lookup_insert_Some; auto.
Qed.

Lemma social_db_social k r : tget TSocial social_db !! k = Some r → k = 1 ∧ r = mkSocial 1 9 7.
Proof.
  unfold social_db. rewrite tget_tset_ne, tget_tset by done.
  by intros [<- <-]%lookup_singleton_Some.
Qed.

Lemma social_db_ok : db_ok social_db.
Proof.
  apply db_ok_tset; [apply db_ok_tset; [apply db_ok_empty|]|].
  - change (tset TSocial _ empty_db) with (tset TSocial {[1 := mkSocial 1 9 7]} empty_db).
    split_and!.
    + intros k r. rewrite tget_tset. by intros [<- <-]%lookup_singleton_Some.
    + intros k1 k2 r1 r2. rewrite tget_tset.
      by intros [<- <-]%lookup_singleton_Some [<- <-]%lookup_singleton_Some.
    + intros k r. rewrite tget_tset. intros [<- <-]%lookup_singleton_Some. lia.
  - split_and!.
    + by intros k r [[-> ->]|[-> ->]]%social_db_account.
    + by intros k1 k2 r1 r2 [[-> ->]|[-> ->]]%social_db_account
        [[-> ->]|[-> ->]]%social_db_account [_ E].
    + intros k r [[-> _]|[-> _]]%social_db_account; lia.
Qed.

Definition follow_evt : SocialEvent := mkSocialEvent "e" "follow" 7 9 5.


Lemma ListAllFollowers_complete_witness :
  let w := ref_start social_db 5 in
  runs (SocialHandler_ListAllFollowers (mkCtx None None) (Ok 7)) w (λ r w', view w' = view w ∧
    let d := v_db (view w) in
    match tget TAccount d !! 7 with
    | None => r = RespErr 404 ErrRecordNotFound
    | Some _ => ∃ l, r = RespOk 200 (mkListAllFollowersResponse l (Z.of_nat (size (followers_of 7 d)))) ∧
        NoDup (ac_ID <$> l) ∧
        (∀ a, a ∈ l → tget TAccount d !! ac_ID a = Some a ∧ (ac_ID a, 7) ∈ edges d) ∧
        ((size (followers_of 7 d) ≤ 200)%nat →
         ∀ u a, (u, 7) ∈ edges d → tget TAccount d !! u = Some a → a ∈ l)
    end).
Proof.
  intros w.
  exact (ListAllFollowers_complete (mkCtx None None) 7 w ltac:(discriminate) eq_refl social_db_ok).
Defined.
