(* ===== verification/Notification.v ===== *)
(** [internal/api/notification], [internal/worker/notification_worker.go] and
    [notification_subscriber.go]: notifications are made from events, stored
    once per event, and pushed to the recipient's open connections, through
    Redis Pub/Sub or directly.  The hub behind the connections is [Hub.v]. *)
From S2P Require Import Prelude GoStd Query Entities Json Services RedisFacts RedisClient Mq Retry.
From S2P Require Import DbFacts Http Video Like Account.
Local Open Scope Z_scope.
Local Open Scope go_scope.

Definition PushChannel : string := "notification:push".

Record PushMessage := mkPushMessage { pm_RecipientID : Z; pm_Notification : Notification }.

(** ** Encoding *)
Definition notification_fields (n : Notification) : list (string * json) :=
  [("id", JNum (n_ID n)); ("event_id", JStr (n_EventID n));
   ("recipient_id", JNum (n_RecipientID n)); ("sender_id", JNum (n_SenderID n));
   ("type", JStr (n_Type n)); ("target_id", JNum (n_TargetID n));
   ("content", JStr (n_Content n)); ("is_read", JBool (n_IsRead n));
   ("created_at", JTime (n_CreatedAt n))].
Definition notification_of_fields (fs : list (string * json)) : option Notification :=
  i ← get_uint "id" fs; e ← get_str "event_id" fs; r ← get_uint "recipient_id" fs;
  s ← get_uint "sender_id" fs; t ← get_str "type" fs; g ← get_uint "target_id" fs;
  c ← get_str "content" fs; b ← get_bool "is_read" fs; a ← get_time "created_at" fs;
  Some (mkNotification i e r s t g c b a).

(** the nested object of a field *)
Definition get_obj (name : string) (fs : list (string * json)) : option (list (string * json)) :=
  match field name fs with
  | None | Some JNull => Some []
  | Some (JObj l) => Some l
  | Some _ => None
  end.

Definition marshal_push (m : PushMessage) : bytes :=
  Doc (JObj [("recipient_id", JNum (pm_RecipientID m));
             ("notification", JObj (notification_fields (pm_Notification m)))]).
Definition push_of_fields (fs : list (string * json)) : option PushMessage :=
  r ← get_uint "recipient_id" fs; l ← get_obj "notification" fs;
  n ← notification_of_fields l; Some (mkPushMessage r n).
Definition unmarshal_push (b : bytes) : result PushMessage := unmarshal push_of_fields b.

Definition notification_in_range (n : Notification) : bool :=
  is_uint (n_ID n) && is_uint (n_RecipientID n) && is_uint (n_SenderID n) && is_uint (n_TargetID n).

Lemma unmarshal_marshal_push m :
  is_uint (pm_RecipientID m) && notification_in_range (pm_Notification m) = true →
  unmarshal_push (marshal_push m) = Ok m.
Proof.
  destruct m as [r n]. destruct n. unfold notification_in_range. simpl.
  intros. bool_to_prop.
  unfold unmarshal_push, unmarshal, marshal_push, push_of_fields, notification_of_fields,
    notification_fields, get_obj, get_uint, get_str, get_bool, get_time; simpl.
  repeat match goal with H : _ = true |- _ => rewrite H; clear H; simpl end. done.
Qed.

(** ** What a worker talks to beside the services

    [Hub] is the interface [NotificationHub]; [PubSub] the PUBLISH command of
    Redis.  [channel] and [pushes] are what has been accepted by either. *)
Class PubSub (W : Type) := {
  channel : W → list (string * bytes);
  rdb_publish : string → bytes → ST W (result unit) }.
Class NotificationHub (W : Type) := {
  pushes : W → list (Z * Notification);
  Push : Z → Notification → ST W unit }.

Class NotifyLaws (W : Type) `{World W, PubSub W, NotificationHub W} : Prop := {
  law_sql_aside : ∀ A (f : Z → Db → result A * Db) w r w', sql f w = (r, w') →
    channel w' = channel w ∧ pushes w' = pushes w;
  law_now_aside : ∀ w r w', now w = (r, w') → channel w' = channel w ∧ pushes w' = pushes w;
  law_rdb_publish : ∀ ch b w r w', rdb_publish ch b w = (r, w') →
    clk w ≤ clk w' ∧ view w' = view w ∧ pushes w' = pushes w ∧
    ((r = Ok tt ∧ channel w' = channel w ++ [(ch, b)]) ∨
     (up_rd (v_up (view w)) = false ∧ (∃ code, r = Err (ErrIO code)) ∧
      (channel w' = channel w ∨ channel w' = channel w ++ [(ch, b)])));
  law_push : ∀ u n w r w', Push u n w = (r, w') →
    clk w ≤ clk w' ∧ view w' = view w ∧ channel w' = channel w ∧
    pushes w' = pushes w ++ [(u, n)] }.

(** [Client.PublishJSON] of internal/middleware/redis/pubsub.go *)
Definition Redis_PublishJSON {W} `{PubSub W} (c : option Client) (ch : string) (payload : bytes) :
    ST W (result unit) :=
  match c with
  | None => st_ret (Err (ErrMsg "redis client is not initialized"))
  | Some _ =>
      if String.eqb ch "" then st_ret (Err (ErrMsg "redis pubsub channel is required"))
      else rdb_publish ch payload
  end.

(** [Client.Subscribe]; the subscription itself is the client library's *)
Definition Redis_Subscribe (c : option Client) (chs : list string) : result unit :=
  match c with
  | None => Err (ErrMsg "redis client is not initialized")
  | Some _ => if bool_decide (chs = []) then Err (ErrMsg "redis pubsub channel is required") else Ok tt
  end.

(** ** worker/notification_worker.go *)
Definition LikeText : string := "点赞了你的视频".
Definition CommentText : string := "评论了你的视频".
Definition FollowText : string := "关注了你".

Section worker.
Context {W : Type} `{World W} `{SqlEngine} `{PubSub W} `{NotificationHub W}.

(** [Scan] into an integer: the last row's value, 0 where there is no row *)
Definition getVideoAuthorID (videoID : Z) : ST W (result Z) :=
  query (λ d, Ok (foldl (λ _ v, v_AuthorID v) 0
                    (eng_select (where_id TVideo videoID always) [] None (rows TVideo d)))).

Definition buildLikeNotification (body : bytes) : ST W (result (option Notification)) :=
  match unmarshal_like body with
  | Err _ => st_ret (Ok None)
  | Ok evt =>
      if String.eqb (le_EventID evt) "" || (le_UserID evt =? 0) || (le_VideoID evt =? 0)
      then st_ret (Ok None)
      else
        authorID <-? getVideoAuthorID (le_VideoID evt) ;;
        st_ret (Ok (if (authorID =? 0) || (authorID =? le_UserID evt) then None
                    else Some (mkNotification 0 (le_EventID evt) authorID (le_UserID evt) "like"
                                 (le_VideoID evt) LikeText false zero_time)))
  end.

Definition buildCommentNotification (body : bytes) : ST W (result (option Notification)) :=
  match unmarshal_comment body with
  | Err _ => st_ret (Ok None)
  | Ok evt =>
      if String.eqb (ce_EventID evt) "" || (ce_AuthorID evt =? 0) || (ce_VideoID evt =? 0)
      then st_ret (Ok None)
      else
        authorID <-? getVideoAuthorID (ce_VideoID evt) ;;
        st_ret (Ok (if (authorID =? 0) || (authorID =? ce_AuthorID evt) then None
                    else Some (mkNotification 0 (ce_EventID evt) authorID (ce_AuthorID evt) "comment"
                                 (ce_VideoID evt) CommentText false zero_time)))
  end.

Definition buildFollowNotification (body : bytes) : result (option Notification) :=
  match unmarshal_social body with
  | Err _ => Ok None
  | Ok evt =>
      if String.eqb (se_EventID evt) "" || (se_FollowerID evt =? 0) || (se_VloggerID evt =? 0)
      then Ok None
      else Ok (Some (mkNotification 0 (se_EventID evt) (se_VloggerID evt) (se_FollowerID evt) "follow"
                       (se_FollowerID evt) FollowText false zero_time))
  end.

Definition buildNotification (d : Delivery) : ST W (result (option Notification)) :=
  if bool_decide (bytes_text (p_Body d) = Some "") then st_ret (Ok None)
  else if String.eqb (p_RoutingKey d) LikeRoutingKeyLike then buildLikeNotification (p_Body d)
  else if String.eqb (p_RoutingKey d) CommentRoutingKeyPublish
  then buildCommentNotification (p_Body d)
  else if String.eqb (p_RoutingKey d) SocialRoutingKeyFollow
  then st_ret (buildFollowNotification (p_Body d))
  else st_ret (Ok None).

(** a worker is the client it publishes with and whether it has a hub *)
Record NotificationWorker := mkNotificationWorker { nw_cache : option Client; nw_hub : bool }.

Definition publishNotification (nw : NotificationWorker) (n : Notification) :
    ST W (result unit) :=
  let to_hub := if nw_hub nw then Push (n_RecipientID n) n else st_ret tt in
  match nw_cache nw with
  | Some _ =>
      r <- Redis_PublishJSON (nw_cache nw) PushChannel
             (marshal_push (mkPushMessage (n_RecipientID n) n)) ;;
      match r with
      | Ok _ => st_ret (Ok tt)
      | Err e => to_hub ;;; st_ret (Err e)
      end
  | None => to_hub ;;; st_ret (Ok tt)
  end.

Definition NotificationWorker_process (nw : NotificationWorker) (d : Delivery) :
    ST W (result unit) :=
  notif <-? buildNotification d ;;
  match notif with
  | None => st_ret (Ok tt)
  | Some notif =>
      r <- sql (eng_create TNotification notif) ;;
      match r with
      | Err ErrDuplicate => st_ret (Ok tt)
      | Err e => st_ret (Err e)
      | Ok notif =>
          (** a failure to publish is only logged *)
          publishNotification nw notif ;;; st_ret (Ok tt)
      end
  end.

(** ** worker/notification_subscriber.go *)

(** one message of the channel *)
Definition on_message (payload : bytes) : ST W unit :=
  match unmarshal_push payload with
  | Err _ => st_ret tt
  | Ok m => if pm_RecipientID m =? 0 then st_ret tt
            else Push (pm_RecipientID m) (pm_Notification m)
  end.

(** The payloads are those that arrive until the context or the channel is
    closed; [hub]: the hub is not nil. *)
Definition StartNotificationSubscriber (cache : option Client) (hub : bool) (payloads : list bytes) :
    ST W unit :=
  match cache with
  | None => st_ret tt
  | Some _ =>
      if negb hub then st_ret tt
      else
        match Redis_Subscribe cache [PushChannel] with
        | Err _ => st_ret tt
        | Ok _ => st_iter on_message payloads
        end
  end.
End worker.

(** ** handler.go: the handlers that use the database

    [accountID.(uint)] panics where the middleware has not set the value; the
    recovery middleware of [gin.Default] answers 500. *)
Section handler.
Context {W : Type} `{World W} `{SqlEngine}.

Definition with_user {A} (c : Ctx) (k : Z → ST W (Resp A)) : ST W (Resp A) :=
  match cx_accountID c with
  | Some userID => k userID
  | None => st_ret (RespErr 500 (ErrMsg "interface conversion"))
  end.

Definition ListHandler (c : Ctx) : ST W (Resp (list Notification)) :=
  with_user c (λ userID,
    r <- query (λ d, Ok (eng_select (λ n, n_RecipientID n =? userID) [Desc n_CreatedAt] (Some 50%nat)
                           (rows TNotification d))) ;;
    or_fail (RespErr 500) r (λ l, st_ret (RespOk 200 l))).

Definition set_read (n : Notification) : Notification :=
  mkNotification (n_ID n) (n_EventID n) (n_RecipientID n) (n_SenderID n) (n_Type n) (n_TargetID n)
    (n_Content n) true (n_CreatedAt n).

(** [req_ID] is the id after a bind whose error is ignored; so are the errors
    of the statements *)
Definition MarkReadHandler (c : Ctx) (req_ID : option Z) : ST W (Resp string) :=
  with_user c (λ userID,
    (match req_ID with
     | Some id => sql (λ _, eng_update TNotification
                              (where_id TNotification id (λ n, n_RecipientID n =? userID)) set_read)
     | None => sql (λ _, eng_update TNotification (λ n, n_RecipientID n =? userID) set_read)
     end) ;;;
    st_ret (RespOk 200 "ok")).

Definition UnreadCountHandler (c : Ctx) : ST W (Resp Z) :=
  with_user c (λ userID,
    r <- query (λ d, Ok (sel_count (λ n, (n_RecipientID n =? userID) && Bool.eqb (n_IsRead n) false)
                           (rows TNotification d))) ;;
    st_ret (RespOk 200 (match r with Ok n => n | Err _ => 0 end))).
End handler.

(** The middleware of the event stream: the token is checked, and that is all. *)
Section auth.
Context {W : Type} `{World W} `{JwtLib}.

Definition bearer (h : string) : string :=
  if (7 <? String.length h)%nat && String.eqb (String.substring 0 7 h) "Bearer "
  then String.substring 7 (String.length h - 7) h else h.

Definition SSERequireAuth (secret query_token : string) (r : Req) : ST W Mid :=
  let token := if String.eqb query_token "" then bearer (rq_Authorization r) else query_token in
  if String.eqb token "" then st_ret (unauthorized "missing token")
  else
    p <- ParseToken secret token ;;
    st_ret (match p with
            | Err _ => unauthorized "invalid token"
            | Ok claims => Next (mkCtx (Some (cl_AccountID claims)) (cx_username (rq_ctx r)))
            end).
End auth.
