(* ===== verification/NotificationFacts.v ===== *)
(** Theorems on notifications: one row and one push per event whatever the
    number of deliveries, and only the recipient marks a notification. *)
From S2P Require Import Prelude GoStd Query Entities Json Services RedisFacts RedisClient Mq Retry.
From S2P Require Import DbFacts Http Video Like LikeFacts Account Notification Reference.
Local Open Scope Z_scope.

(** ** What an event is worth

    The notification an event asks for: its recipient is the author of the
    video or the account that is followed, and never the sender of a like or
    of a comment. *)
Definition author_of (v : Z) (d : Db) : Z :=
  match tget TVideo d !! v with Some r => v_AuthorID r | None => 0 end.

Definition to_author (e : string) (sender video : Z) (type text : string) (d : Db) :
    option Notification :=
  if String.eqb e "" || (sender =? 0) || (video =? 0) then None
  else if (author_of video d =? 0) || (author_of video d =? sender) then None
  else Some (mkNotification 0 e (author_of video d) sender type video text false zero_time).

Definition expected (dv : Delivery) (d : Db) : option Notification :=
  if bool_decide (bytes_text (p_Body dv) = Some "") then None
  else if String.eqb (p_RoutingKey dv) LikeRoutingKeyLike then
    match unmarshal_like (p_Body dv) with
    | Ok e => to_author (le_EventID e) (le_UserID e) (le_VideoID e) "like" LikeText d
    | Err _ => None
    end
  else if String.eqb (p_RoutingKey dv) CommentRoutingKeyPublish then
    match unmarshal_comment (p_Body dv) with
    | Ok e => to_author (ce_EventID e) (ce_AuthorID e) (ce_VideoID e) "comment" CommentText d
    | Err _ => None
    end
  else if String.eqb (p_RoutingKey dv) SocialRoutingKeyFollow then
    match unmarshal_social (p_Body dv) with
    | Ok e => if String.eqb (se_EventID e) "" || (se_FollowerID e =? 0) || (se_VloggerID e =? 0)
              then None
              else Some (mkNotification 0 (se_EventID e) (se_VloggerID e) (se_FollowerID e) "follow"
                           (se_FollowerID e) FollowText false zero_time)
    | Err _ => None
    end
  else None.

Lemma to_author_spec e s v ty tx d n :
  to_author e s v ty tx d = Some n → n_ID n = 0 ∧ n_RecipientID n ≠ 0 ∧ n_RecipientID n ≠ n_SenderID n.
Proof. unfold to_author. intros. repeat case_match; simplify_eq. simpl. bool_to_prop. done. Qed.

Lemma expected_spec dv d n : expected dv d = Some n → n_ID n = 0 ∧ n_RecipientID n ≠ 0.
Proof.
  unfold expected. intros. repeat case_match; simplify_eq;
    try (by edestruct to_author_spec as (? & ? & _)). simpl. by bool_to_prop.
Qed.

Lemma expected_videos dv d d' : tget TVideo d' = tget TVideo d → expected dv d' = expected dv d.
Proof. intros E. unfold expected, to_author, author_of. by rewrite E. Qed.

(** A notification has the event id, in MySQL's collation. *)
Definition event_stored `{Collation} (e : string) (d : Db) : Prop :=
  ∃ k r, tget TNotification d !! k = Some r ∧ collate (n_EventID r) = collate e.

Section facts.
Context {W : Type} `{WorldLaws W} `{SqlLaws} `{PubSub W} `{NotificationHub W} `{!NotifyLaws W}.
Implicit Types w : W.

Definition unchanged w w' : Prop :=
  view w' = view w ∧ channel w' = channel w ∧ pushes w' = pushes w.

Lemma unchanged_trans w w1 w2 : unchanged w w1 → unchanged w1 w2 → unchanged w w2.
Proof. unfold unchanged. intros (-> & -> & ->) (-> & -> & ->). done. Qed.

(** A statement where the database is up, with what it leaves alone. *)
Lemma runs_sql_up {A} (f : Z → Db → result A * Db) w (Q : result A → W → Prop) :
  up_db (v_up (view w)) = true →
  (∀ t w', view w' = set_db (f t (v_db (view w))).2 (view w) → channel w' = channel w →
     pushes w' = pushes w → Q (f t (v_db (view w))).1 w') →
  runs (sql f) w Q.
Proof.
  intros Hup HQ. apply runs_intro. intros r w' E.
  pose proof (law_sql_aside _ _ _ _ _ E) as [? ?].
  apply law_sql in E as (_ & [[-> Hv]|(Hu & _)]); [by eapply HQ|congruence].
Qed.

Lemma getVideoAuthorID_up v w (Q : result Z → W → Prop) :
  up_db (v_up (view w)) = true → db_ok (v_db (view w)) →
  (∀ w', unchanged w w' → Q (Ok (author_of v (v_db (view w)))) w') →
  runs (getVideoAuthorID v) w Q.
Proof.
  intros Hup Hd HQ. unfold getVideoAuthorID, query. apply runs_sql_up; [done|].
  intros t w' E Hc Hp. cbn [fst snd] in *. unfold author_of in HQ.
  pose proof (law_select _ (where_id TVideo v always) [] None (rows TVideo (v_db (view w))))
    as (srt & Hs & _ & Es). simpl in Es. rewrite Es.
  unfold where_id in Hs. rewrite (lfilter_id_rows TVideo) in Hs by apply (Hd _ TVideo).
  assert (unchanged w w') as Hun by (split; [rewrite E; by destruct (view w)|done]).
  destruct (tget TVideo (v_db (view w)) !! v) as [r|]; simpl in Hs.
  - apply Permutation_singleton_r in Hs as ->. by apply HQ.
  - apply Permutation_nil_r in Hs as ->. by apply HQ.
Qed.

Lemma buildNotification_up dv w (Q : result (option Notification) → W → Prop) :
  up_db (v_up (view w)) = true → db_ok (v_db (view w)) →
  (∀ w', unchanged w w' → Q (Ok (expected dv (v_db (view w)))) w') →
  runs (buildNotification dv) w Q.
Proof.
  intros Hup Hd HQ. unfold buildNotification.
  unfold expected, buildLikeNotification, buildCommentNotification, buildFollowNotification, to_author
    in *.
  repeat case_match; try (by apply runs_ret, HQ);
    (apply runs_try, getVideoAuthorID_up; [done..|]; intros w' Hw; apply runs_ret;
     repeat match goal with E : orb _ _ = _ |- _ => rewrite ?E; clear E end; by apply HQ).
Qed.

(** The stored notification has been handed over, once: to Redis, from where a
    subscriber pushes it to its recipient, or to the local hub. *)
Definition handed_over (nw : NotificationWorker) (n : Notification) w w' : Prop :=
  let hub := if nw_hub nw then [(n_RecipientID n, n)] else [] in
  match nw_cache nw with
  | None => channel w' = channel w ∧ pushes w' = pushes w ++ hub
  | Some _ => ∃ b,
      (notification_in_range n = true → on_message b = Push (n_RecipientID n) n) ∧
      ((channel w' = channel w ++ [(PushChannel, b)] ∧ pushes w' = pushes w) ∨
       (up_rd (v_up (view w)) = false ∧ pushes w' = pushes w ++ hub ∧
        (channel w' = channel w ∨ channel w' = channel w ++ [(PushChannel, b)])))
  end.

Lemma on_message_pushes n :
  notification_in_range n = true → n_RecipientID n ≠ 0 →
  on_message (W := W) (marshal_push (mkPushMessage (n_RecipientID n) n)) = Push (n_RecipientID n) n.
Proof.
  intros Hr Hn. unfold on_message. rewrite unmarshal_marshal_push.
  2:{ cbn [pm_RecipientID pm_Notification]. rewrite Hr, andb_true_r.
      unfold notification_in_range in Hr. by bool_to_prop. }
  cbn [pm_RecipientID pm_Notification]. by destruct (Z.eqb_spec (n_RecipientID n) 0).
Qed.

Lemma publishNotification_hands_over nw n w :
  n_RecipientID n ≠ 0 →
  runs (publishNotification nw n) w (λ _ w', view w' = view w ∧ handed_over nw n w w').
Proof.
  intros Hn. unfold publishNotification, handed_over, Redis_PublishJSON.
  assert (∀ w0 (Q : unit → W → Prop),
    (∀ w', view w' = view w0 → channel w' = channel w0 →
       pushes w' = pushes w0 ++ (if nw_hub nw then [(n_RecipientID n, n)] else []) → Q tt w') →
    runs (if nw_hub nw then Push (n_RecipientID n) n else st_ret tt) w0 Q) as Hhub.
  { intros w0 Q HQ. destruct (nw_hub nw).
    - apply runs_intro. intros [] w' E. apply law_push in E as (_ & ? & ? & ?). by apply HQ.
    - apply runs_ret, HQ; [done..|]. by rewrite app_nil_r. }
  destruct (nw_cache nw) as [c|]; apply runs_bind.
  - cbn [String.eqb PushChannel]. apply runs_intro. intros r w1 E.
    apply law_rdb_publish in E as (_ & Ev & Ep & Hcase).
    destruct Hcase as [[-> Ec]|(Hu & [code ->] & Ec)].
    + apply runs_ret. split; [done|]. eexists. split; [intros ?; by apply on_message_pushes|]. by left.
    + apply runs_bind, Hhub. intros w2 Ev2 Ec2 Ep2. apply runs_ret.
      split; [congruence|]. eexists. split; [intros ?; by apply on_message_pushes|]. right.
      rewrite Ec2, Ep2, Ep. done.
  - apply Hhub. intros w2 Ev2 Ec2 Ep2. by apply runs_ret.
Qed.

(** The subscriber pushes what it hears, in order, and nothing else. *)
Definition heard_of (b : bytes) : option (Z * Notification) :=
  match unmarshal_push b with
  | Ok m => if pm_RecipientID m =? 0 then None else Some (pm_RecipientID m, pm_Notification m)
  | Err _ => None
  end.

Lemma subscriber_pushes c payloads w :
  runs (StartNotificationSubscriber (Some c) true payloads) w (λ _ w',
    view w' = view w ∧ channel w' = channel w ∧ pushes w' = pushes w ++ omap heard_of payloads).
Proof.
  cbn [StartNotificationSubscriber negb Redis_Subscribe]. rewrite bool_decide_eq_false_2 by done.
  revert w. induction payloads as [|b bs IH]; intros w; simpl; [apply runs_ret; by rewrite app_nil_r|].
  apply runs_bind. unfold on_message, heard_of.
  destruct (unmarshal_push b) as [m|e]; [destruct (Z.eqb_spec (pm_RecipientID m) 0)|];
    [by apply runs_ret, IH| |by apply runs_ret, IH].
  apply runs_intro. intros [] w1 E. apply law_push in E as (_ & E1 & E2 & E3).
  eapply runs_mono; [apply IH|]. intros _ w2 (-> & -> & ->). by rewrite E1, E2, E3, <-app_assoc.
Qed.

(** One delivery. *)
Definition notified nw dv w w' : Prop :=
  match expected dv (v_db (view w)) with
  | None => unchanged w w'
  | Some n =>
      (event_stored (n_EventID n) (v_db (view w)) ∧ unchanged w w') ∨
      (¬ event_stored (n_EventID n) (v_db (view w)) ∧ ∃ id t,
         let n' := row_stored TNotification id t n in
         tget TNotification (v_db (view w)) !! id = None ∧
         view w' = set_db (tset TNotification (<[id := n']> (tget TNotification (v_db (view w))))
                             (v_db (view w))) (view w) ∧
         handed_over nw n' w w')
  end.

Definition accepted dv w : Prop :=
  ∀ n, expected dv (v_db (view w)) = Some n → eng_fits TNotification (row_texts TNotification n) = true.

Lemma process_once nw dv w :
  up_db (v_up (view w)) = true → db_ok (v_db (view w)) → accepted dv w →
  runs (NotificationWorker_process nw dv) w (λ r w', r = Ok tt ∧ db_ok (v_db (view w')) ∧
    notified nw dv w w').
Proof.
  intros Hup Hd Hfit. unfold NotificationWorker_process, accepted, notified in *.
  apply runs_try, buildNotification_up; [done..|]. intros w1 (E1 & C1 & P1).
  destruct (expected dv (v_db (view w))) as [n|] eqn:En; [|apply runs_ret; by rewrite E1].
  apply runs_bind, runs_sql_up; [by rewrite E1|]. intros t w2 E2 C2 P2. rewrite E1 in E2 |- *.
  set (d := v_db (view w)) in *. destruct (expected_spec _ _ _ En) as [Hid Hr].
  destruct (create_cases TNotification n t d Hid) as [(id & Hp & Hf & Hcl & E)|[(Hcl & E)|[Hm _]]];
    [| |by rewrite Hfit in Hm]; rewrite E in *; cbn [fst snd] in *.
  - apply runs_bind. eapply runs_mono; [by apply publishNotification_hands_over|].
    intros _ w3 [E3 Hh]. apply runs_ret. split; [done|]. split.
    { rewrite E3, E2. apply db_ok_tset; [done|]. apply table_ok_create; [done..|apply Hd]. }
    right. split; [intros (k & r & Ek & He); apply (Hcl k r Ek); split; [by eexists|simpl; congruence]|].
    exists id, t. split; [done|]. split; [by rewrite E3, E2|].
    unfold handed_over in *. rewrite E2, C2, P2, C1, P1 in Hh. done.
  - apply runs_ret. assert (view w2 = view w) as Ev by (rewrite E2; unfold d; by destruct (view w)).
    split; [done|]. split; [by rewrite Ev|]. left. split; [|split; [done|]; split; congruence].
    destruct Hcl as (k & r & Ek & _ & [= Hk]). exists k, r. by split.
Qed.

(** *** Marking as read *)
Definition mark_test (u : Z) (req : option Z) (n : Notification) : bool :=
  (n_RecipientID n =? u) && match req with Some id => n_ID n =? id | None => true end.

(** The rows that [req] means have been marked. *)
Definition marked (u : Z) (req : option Z) (d d' : Db) : Prop :=
  d' = tset TNotification (upd_rows (mark_test u req) set_read (tget TNotification d)) d.

Lemma MarkRead_statement u x req w :
  runs (MarkReadHandler (mkCtx (Some u) x) req) w (λ r w', r = RespOk 200 "ok" ∧
    v_up (view w') = v_up (view w) ∧
    (marked u req (v_db (view w)) (v_db (view w')) ∨
     (up_db (v_up (view w)) = false ∧ v_db (view w') = v_db (view w)))).
Proof.
  assert (∀ wh, (∀ n, wh n = mark_test u req n) →
    runs (st_bind (sql (λ _, eng_update TNotification wh set_read))
            (λ _, st_ret (RespOk (A := string) 200 "ok"))) w
      (λ r w', r = RespOk 200 "ok" ∧ v_up (view w') = v_up (view w) ∧
        (marked u req (v_db (view w)) (v_db (view w')) ∨
         (up_db (v_up (view w)) = false ∧ v_db (view w') = v_db (view w))))) as Hall.
  { intros wh Hwh. call; glue.
    - rewrite Hv. split; [done|]. split; [done|]. left. unfold marked.
      rewrite update_ok by (done || by apply texts_fit_same). cbn [fst snd v_db set_db].
      f_equal. apply map_eq. intros k. rewrite !lookup_upd_rows.
      by destruct (_ !! k) as [n|]; simpl; rewrite ?Hwh.
    - rewrite Hv. split; [done|]. split; [done|]. by right. }
  unfold MarkReadHandler, with_user. cbn [cx_accountID].
  destruct req as [id|]; apply Hall; intros n; unfold mark_test, where_id; simpl.
  - by rewrite andb_comm.
  - by rewrite andb_true_r.
Qed.

(** C28: a notification is marked as read by its recipient only. Marking one
    or all of them changes no notification of another account and no other
    table; after marking all of them none is left unread. Where the database
    fails nothing changes, although the answer is still 200. *)
Theorem MarkRead_only_own u x req w :
  db_ok (v_db (view w)) →
  runs (MarkReadHandler (mkCtx (Some u) x) req) w (λ r w', r = RespOk 200 "ok" ∧
    (∀ R (T : table R), table_eqb TNotification T = false →
       tget T (v_db (view w')) = tget T (v_db (view w))) ∧
    (∀ k n, tget TNotification (v_db (view w)) !! k = Some n →
       n_RecipientID n ≠ u ∨ (∃ id, req = Some id ∧ id ≠ k) →
       tget TNotification (v_db (view w')) !! k = Some n) ∧
    (up_db (v_up (view w)) = true →
       (∀ k n, tget TNotification (v_db (view w)) !! k = Some n →
          n_RecipientID n = u → req = None ∨ req = Some k →
          tget TNotification (v_db (view w')) !! k = Some (set_read n)) ∧
       (req = None → runs (UnreadCountHandler (mkCtx (Some u) x)) w' (λ r2 _, r2 = RespOk 200 0)))).
Proof.
  intros Hd. eapply runs_mono; [apply MarkRead_statement|].
  intros r w' (-> & Hup & Hm). split; [done|].
  destruct Hm as [Hm|[Hdown Hm]]; unfold marked in Hm; rewrite Hm.
  2:{ do 2 (split; [done|]). congruence. }
  split; [intros; by apply tget_tset_ne|]. rewrite tget_tset.
  setoid_rewrite lookup_upd_rows. split; [|intros Hu; split].
  - intros k n E Hn. rewrite E. simpl. cut (mark_test u req n = false); [by intros ->|].
    unfold mark_test. destruct Hn as [Hn|(id & -> & Hn)].
    + apply Z.eqb_neq in Hn. by rewrite Hn.
    + pose proof (proj1 (Hd _ TNotification) _ _ E) as Hk. simpl in Hk.
      rewrite Hk. apply not_eq_sym, Z.eqb_neq in Hn. rewrite Hn. apply andb_false_r.
  - intros k n E Hn Hr. rewrite E. simpl. cut (mark_test u req n = true); [by intros ->|].
    unfold mark_test. rewrite Hn, Z.eqb_refl.
    pose proof (proj1 (Hd _ TNotification) _ _ E) as Hk. simpl in Hk.
    destruct Hr as [->| ->]; [done|]. by rewrite Hk, Z.eqb_refl.
  - intros ->. unfold UnreadCountHandler, with_user. cbn [cx_accountID].
    apply runs_bind, runs_query; [|intros ? ? _ Hf; rewrite Hup in Hf; congruence]. intros w2 _. apply runs_ret.
    rewrite sel_count_eq, lfilter_none; [done|]. rewrite Hm.
    intros n [k E]%elem_of_rows. rewrite tget_tset, lookup_upd_rows in E.
    apply fmap_Some in E as (n0 & _ & ->). unfold mark_test. rewrite andb_true_r.
    destruct (n_RecipientID n0 =? u) eqn:Eu; simpl; by rewrite Eu.
Qed.
End facts.

(** ** A concrete world with a channel and a hub that record what they get *)
Record Heard := mkHeard { hd_channel : list (string * bytes); hd_pushes : list (Z * Notification) }.
Abbreviation NotifyW Y := (RefW * (Y * Heard))%type.

#[export] Instance notify_pubsub {Y} : PubSub (NotifyW Y) := {|
  channel w := hd_channel w.2.2;
  rdb_publish ch b w :=
    if fails (up_rd (v_up (rw_view w.1))) w.1
    then (Err (ErrIO 0), (tick (rw_view w.1) w.1, w.2))
    else (Ok tt, (tick (rw_view w.1) w.1, (w.2.1, mkHeard (hd_channel w.2.2 ++ [(ch, b)]) (hd_pushes w.2.2)))) |}.

#[export] Instance notify_hub {Y} : NotificationHub (NotifyW Y) := {|
  pushes w := hd_pushes w.2.2;
  Push u n := aside_r (λ h, (tt, mkHeard (hd_channel h) (hd_pushes h ++ [(u, n)]))) |}.

#[export] Instance notify_laws {Y} : NotifyLaws (NotifyW Y).
Proof.
  split.
  - intros A f w r w' [_ E]%beside_inv. simpl. by rewrite E.
  - intros w r w' [_ E]%beside_inv. simpl. by rewrite E.
  - intros ch b w r w'. simpl. destruct (fails _ _) eqn:Hu; intros [= <- <-]; simpl.
    + apply fails_down in Hu. split_and!; [lia|done|done|right]. eauto 6.
    + split_and!; [lia|done|done|by left].
  - intros u n w r w'. simpl. intros [= <- <-]. simpl. split_and!; [lia|done..].
Qed.

Definition notify_start : NotifyW unit := (ref_start like_db 5, (tt, mkHeard [] [])).
Definition like_delivery : Delivery :=
  mkPub LikeExchange LikeRoutingKeyLike ∅ (json_props 5) (marshal_like like_evt).


(** the event is worth a notification of the video's author *)
Lemma like_delivery_expected :
  expected like_delivery like_db =
    Some (mkNotification 0 "e" 7 9 "like" 1 LikeText false zero_time).
Proof. reflexivity. Qed.

Definition unread_db : Db :=
  tset TNotification {[ 1 := mkNotification 1 "e" 7 9 "like" 1 LikeText false 5 ]} empty_db.

Lemma unread_db_ok : db_ok unread_db.
Proof.
  apply db_ok_tset; [apply db_ok_empty|]. split_and!.
  - intros k r. rewrite tget_tset. by intros [<- <-]%lookup_singleton_Some.
  - intros k1 k2 r1 r2. rewrite tget_tset.
    by intros [<- <-]%lookup_singleton_Some [<- <-]%lookup_singleton_Some.
  - intros k r. rewrite tget_tset. intros [<- <-]%lookup_singleton_Some. lia.
Qed.

Lemma MarkRead_only_own_witness :
  let w := ref_start unread_db 5 in let req : option Z := None in
  runs (MarkReadHandler (mkCtx (Some 7) None) req) w (λ r w', r = RespOk 200 "ok" ∧
    (∀ R (T : table R), table_eqb TNotification T = false →
       tget T (v_db (view w')) = tget T (v_db (view w))) ∧
    (∀ k n, tget TNotification (v_db (view w)) !! k = Some n →
       n_RecipientID n ≠ 7 ∨ (∃ id, req = Some id ∧ id ≠ k) →
       tget TNotification (v_db (view w')) !! k = Some n) ∧
    (up_db (v_up (view w)) = true →
       (∀ k n, tget TNotification (v_db (view w)) !! k = Some n →
          n_RecipientID n = 7 → req = None ∨ req = Some k →
          tget TNotification (v_db (view w')) !! k = Some (set_read n)) ∧
       (req = None → runs (UnreadCountHandler (mkCtx (Some 7) None)) w' (λ r2 _, r2 = RespOk 200 0)))).
Proof. intros w req. exact (MarkRead_only_own 7 None None w unread_db_ok). Defined.
