(* ===== verification/Hub.v ===== *)
(** [SSEHub] of [internal/api/notification/handler.go]: the connections of each
    user, as the Go code keeps them: a map of slices of channels.  Slices share
    backing arrays, so the arrays and the channels live in a heap; a [Push]
    reads its slice header under the lock and sends after releasing it, so its
    sends interleave with the other operations. *)
From S2P Require Import Prelude GoStd Entities.
Local Open Scope nat_scope.
Local Open Scope go_scope.

(** ** State *)
Record Chan := mkChan { ch_buf : list Notification; ch_closed : bool }.
(** a slice that starts at the first element of its array; the capacity is the
    length of the array *)
Record Slice := mkSlice { sl_arr : nat; sl_len : nat }.
Record SSEHub := mkSSEHub {
  h_clients : gmap Z Slice;
  h_arrays : gmap nat (list nat);
  h_chans : gmap nat Chan;
  h_next_arr : nat; h_next_chan : nat }.

Definition NewSSEHub : SSEHub := mkSSEHub ∅ ∅ ∅ 1 1.
Definition ChanCap : nat := 20.

(** How [append] sizes a new array: larger than what is full. *)
Class Growth := { grow : nat → nat; grow_gt : ∀ n, n < grow n }.
(** [nextslicecap] of the Go runtime for one more element *)
#[export, refine] Instance go_growth : Growth :=
  {| grow n := if n =? 0 then 1 else if n <? 256 then 2 * n else n + (n + 768) / 4 |}.
Proof.
  intros n. destruct (Nat.eqb_spec n 0); [lia|]. destruct (Nat.ltb_spec n 256); [lia|].
  pose proof (Nat.div_str_pos (n + 768) 4 ltac:(lia)). lia.
Defined.

Definition array_of (h : SSEHub) (a : nat) : list nat := default [] (h_arrays h !! a).
Definition elems (h : SSEHub) (s : Slice) : list nat := take (sl_len s) (array_of h (sl_arr s)).
(** the channels registered for a user *)
Definition chans_of (h : SSEHub) (u : Z) : list nat :=
  match h_clients h !! u with Some s => elems h s | None => [] end.

Definition set_clients f (h : SSEHub) : SSEHub :=
  mkSSEHub (f (h_clients h)) (h_arrays h) (h_chans h) (h_next_arr h) (h_next_chan h).
Definition set_arrays f (h : SSEHub) : SSEHub :=
  mkSSEHub (h_clients h) (f (h_arrays h)) (h_chans h) (h_next_arr h) (h_next_chan h).
Definition set_chans f (h : SSEHub) : SSEHub :=
  mkSSEHub (h_clients h) (h_arrays h) (f (h_chans h)) (h_next_arr h) (h_next_chan h).

Definition panic {A} (msg : string) : ST SSEHub (result A) := st_ret (Err (ErrMsg msg)).

(** ** Operations *)

(** [make(chan *Notification, 20)] *)
Definition make_chan : ST SSEHub nat := λ h,
  (h_next_chan h,
   mkSSEHub (h_clients h) (h_arrays h) (<[h_next_chan h := mkChan [] false]> (h_chans h))
     (h_next_arr h) (S (h_next_chan h))).

Section hub.
Context `{Growth}.

(** [append(s, x)] *)
Definition append1 (s : Slice) (x : nat) : ST SSEHub Slice := λ h,
  let l := array_of h (sl_arr s) in
  if sl_len s <? length l then
    (mkSlice (sl_arr s) (S (sl_len s)), set_arrays (<[sl_arr s := <[sl_len s := x]> l]>) h)
  else
    let l' := take (sl_len s) l ++ [x] ++ replicate (grow (length l) - sl_len s - 1) 0 in
    (mkSlice (h_next_arr h) (S (sl_len s)),
     mkSSEHub (h_clients h) (<[h_next_arr h := l']> (h_arrays h)) (h_chans h)
       (S (h_next_arr h)) (h_next_chan h)).

Definition Subscribe (userID : Z) : ST SSEHub nat :=
  ch <- make_chan ;;
  s <- (λ h, (default (mkSlice 0 0) (h_clients h !! userID), h)) ;;
  s' <- append1 s ch ;;
  (λ h, (ch, set_clients (<[userID := s']>) h)).

(** [append(s[:i], s[i+1:]...)]: the tail moves down in the same array, and
    the last element stays behind the new length *)
Definition shift_out (i : nat) (s : Slice) : ST SSEHub Slice := λ h,
  let l := array_of h (sl_arr s) in
  (mkSlice (sl_arr s) (sl_len s - 1),
   set_arrays (<[sl_arr s := take i l ++ drop (S i) (take (sl_len s) l) ++ drop (sl_len s - 1) l]>) h).

Definition close (c : nat) : ST SSEHub (result unit) := λ h,
  match h_chans h !! c with
  | Some (mkChan b false) => (Ok tt, set_chans (<[c := mkChan b true]>) h)
  | Some _ => (Err (ErrMsg "close of closed channel"), h)
  | None => (Err (ErrMsg "close of nil channel"), h)
  end.

(** the position of [c], as the loop finds it *)
Definition index_of (c : nat) (l : list nat) : option nat := fst <$> list_find (c =.) l.

Definition Unsubscribe (userID : Z) (c : nat) : ST SSEHub (result unit) := λ h,
  match h_clients h !! userID with
  | None => (Ok tt, h)
  | Some s =>
      match index_of c (elems h s) with
      | None => (Ok tt, h)
      | Some i =>
          (s' <- shift_out i s ;;
           (λ h, (tt, set_clients (<[userID := s']>) h)) ;;;
           close c) h
      end
  end.

(** [select { case ch <- n: default: }] *)
Definition try_send (c : nat) (n : Notification) : ST SSEHub (result unit) := λ h,
  match h_chans h !! c with
  | Some (mkChan _ true) => (Err (ErrMsg "send on closed channel"), h)
  | Some (mkChan b false) =>
      (Ok tt, if length b <? ChanCap then set_chans (<[c := mkChan (b ++ [n]) false]>) h else h)
  | None => (Ok tt, h)
  end.

(** one iteration of the loop of [Push]: the array is read when the loop gets
    there *)
Definition push_one (s : Slice) (i : nat) (n : Notification) : ST SSEHub (result unit) := λ h,
  try_send (default 0 (array_of h (sl_arr s) !! i)) n h.

Fixpoint push_from (s : Slice) (i k : nat) (n : Notification) : ST SSEHub (result unit) :=
  match k with
  | 0 => st_ret (Ok tt)
  | S k => _ <-? push_one s i n ;; push_from s (S i) k n
  end.

(** the whole of [Push], when nothing else runs *)
Definition Push (userID : Z) (n : Notification) : ST SSEHub (result unit) := λ h,
  match h_clients h !! userID with
  | None => (Ok tt, h)
  | Some s => push_from s 0 (sl_len s) n h
  end.

(** [n, ok := <-ch]: a value; or the channel is closed and empty; or there is
    nothing to receive yet *)
Inductive Received :=
| Got (n : Notification)
| NotOk
| Blocked.
Definition receive (c : nat) : ST SSEHub Received := λ h,
  match h_chans h !! c with
  | Some (mkChan (n :: b) cl) => (Got n, set_chans (<[c := mkChan b cl]>) h)
  | Some (mkChan [] true) => (NotOk, h)
  | _ => (Blocked, h)
  end.

(** ** Concurrency

    The lock makes Subscribe, Unsubscribe and the lookup of Push atomic.  A
    Push in progress is its slice header, its position and its notification. *)
Record Pushing := mkPushing { pg_slice : Slice; pg_at : nat; pg_n : Notification }.
Inductive Prog := Running (h : SSEHub) (ps : list Pushing) | Crashed (msg : string).

Inductive Op :=
| OSubscribe (u : Z)
| OUnsubscribe (u : Z) (c : nat)
| OPush (u : Z) (n : Notification)
| OSend (i : nat)
| OReceive (c : nat).

Definition after (ps : list Pushing) (r : result unit * SSEHub) : Prog :=
  match r with
  | (Ok _, h) => Running h ps
  | (Err (ErrMsg m), _) => Crashed m
  | (Err _, _) => Crashed ""
  end.

Definition step_op (o : Op) (h : SSEHub) (ps : list Pushing) : Prog :=
  match o with
  | OSubscribe u => Running (Subscribe u h).2 ps
  | OUnsubscribe u c => after ps (Unsubscribe u c h)
  | OPush u n =>
      match h_clients h !! u with
      | Some s => Running h (ps ++ [mkPushing s 0 n])
      | None => Running h ps
      end
  | OSend i =>
      match ps !! i with
      | Some p =>
          if pg_at p <? sl_len (pg_slice p)
          then after (<[i := mkPushing (pg_slice p) (S (pg_at p)) (pg_n p)]> ps)
                 (push_one (pg_slice p) (pg_at p) (pg_n p) h)
          else Running h ps
      | None => Running h ps
      end
  | OReceive c => Running (receive c h).2 ps
  end.

Inductive hstep : Prog → Prog → Prop :=
| hstep_op o h ps : hstep (Running h ps) (step_op o h ps).

Definition hub_reachable (p : Prog) : Prop := rtc hstep (Running NewSSEHub []) p.

(** a schedule, run *)
Definition run_ops (os : list Op) : Prog :=
  foldl (λ p o, match p with Running h ps => step_op o h ps | Crashed _ => p end)
    (Running NewSSEHub []) os.
End hub.
