(* ===== verification/HubFacts.v ===== *)
(** Theorems on the hub: in every reachable state the slices are a registry of
    open channels; an undisturbed push reaches each of them once; a push that
    an Unsubscribe overtakes may panic, or skip a client and serve another
    twice. *)
From S2P Require Import Prelude GoStd Entities Hub.
Local Open Scope nat_scope.

Definition is_open (h : SSEHub) (c : nat) : Prop := ∃ b, h_chans h !! c = Some (mkChan b false).

Record hub_ok (h : SSEHub) : Prop := {
  ho_len : ∀ u s, h_clients h !! u = Some s →
    sl_len s ≤ length (array_of h (sl_arr s)) ∧ 0 < sl_arr s < h_next_arr h;
  ho_zero : array_of h 0 = [] ∧ 0 < h_next_arr h;
  ho_arr : ∀ u v s s', h_clients h !! u = Some s → h_clients h !! v = Some s' →
    sl_arr s = sl_arr s' → u = v;
  ho_nodup : ∀ u, NoDup (chans_of h u);
  ho_open : ∀ u c, c ∈ chans_of h u → is_open h c;
  ho_own : ∀ u v c, c ∈ chans_of h u → c ∈ chans_of h v → u = v;
  ho_fresh : ∀ c, h_next_chan h ≤ c → h_chans h !! c = None;
  ho_cap : ∀ c ch, h_chans h !! c = Some ch → length (ch_buf ch) ≤ ChanCap }.

Lemma hub_ok_new : hub_ok NewSSEHub.
Proof.
  assert (∀ u, chans_of NewSSEHub u = []) as Hn by done.
  split; intros *; rewrite ?Hn; try done.
  - split; [done|]. simpl. lia.
  - apply base.NoDup_nil_2.
  - by intros ?%elem_of_nil.
  - by intros ?%elem_of_nil.
Qed.

(** ** Building blocks *)
Lemma array_of_insert h a l b f :
  array_of (set_clients f (set_arrays (<[a := l]>) h)) b = if decide (b = a) then l else array_of h b.
Proof.
  unfold array_of. simpl. case_decide as E; [subst; by rewrite lookup_insert_eq|].
  by rewrite lookup_insert_ne.
Qed.

Lemma array_of_fresh_ne h u s : hub_ok h → h_clients h !! u = Some s → sl_arr s ≠ h_next_arr h.
Proof. intros Hok E. apply (ho_len _ Hok) in E. lia. Qed.

(** Rewriting one user's slice in an array of its own keeps the others. *)
Lemma chans_of_clients h h' u s' :
  hub_ok h → h_clients h' = <[u := s']> (h_clients h) →
  (∀ v s, v ≠ u → h_clients h !! v = Some s → array_of h' (sl_arr s) = array_of h (sl_arr s)) →
  chans_of h' u = elems h' s' ∧ ∀ v, v ≠ u → chans_of h' v = chans_of h v.
Proof.
  intros Hok Hc Ha. unfold chans_of. rewrite Hc. split; [by rewrite lookup_insert_eq|].
  intros v Hv. rewrite lookup_insert_ne by done.
  destruct (h_clients h !! v) as [s|] eqn:E; [|done]. unfold elems. by rewrite (Ha v s).
Qed.

(** Preservation of the invariant, from what a step does to one user. *)
Lemma hub_ok_update h h' u s' :
  hub_ok h → h_clients h' = <[u := s']> (h_clients h) →
  (∀ v s, v ≠ u → h_clients h !! v = Some s → array_of h' (sl_arr s) = array_of h (sl_arr s)) →
  sl_len s' ≤ length (array_of h' (sl_arr s')) → 0 < sl_arr s' < h_next_arr h' →
  h_next_arr h ≤ h_next_arr h' → array_of h' 0 = [] →
  (∀ v s, v ≠ u → h_clients h !! v = Some s → sl_arr s ≠ sl_arr s') →
  NoDup (elems h' s') →
  (∀ c, c ∈ elems h' s' → is_open h' c ∧ ∀ v, v ≠ u → c ∉ chans_of h v) →
  (∀ v c, v ≠ u → c ∈ chans_of h v → is_open h' c) →
  (∀ c, h_next_chan h' ≤ c → h_chans h' !! c = None) →
  (∀ c ch, h_chans h' !! c = Some ch → length (ch_buf ch) ≤ ChanCap) →
  hub_ok h'.
Proof.
  intros Hok Hc Ha Hl Hn Hnn Hz Hne Hnd Hop Hop' Hfr Hcap.
  destruct (chans_of_clients h h' u s' Hok Hc Ha) as [Hu Hv].
  split; [| | | | | |done|done].
  - intros v s. rewrite Hc. intros [[-> ->]|[Hvu E]]%lookup_insert_Some; [done|].
    rewrite (Ha v s) by done. pose proof (ho_len _ Hok v s E). lia.
  - split; [done|lia].
  - intros v1 v2 s1 s2. rewrite Hc.
    intros [[<- <-]|[H1 E1]]%lookup_insert_Some [[<- <-]|[H2 E2]]%lookup_insert_Some Earr; [done| | |].
    + exfalso. by apply (Hne v2 s2).
    + exfalso. by apply (Hne v1 s1).
    + by eapply (ho_arr _ Hok).
  - intros v. destruct (decide (v = u)) as [->|Hvu]; [by rewrite Hu|]. rewrite Hv by done.
    apply (ho_nodup _ Hok).
  - intros v c. destruct (decide (v = u)) as [->|Hvu]; [rewrite Hu; by intros [? _]%Hop|].
    rewrite Hv by done. by apply Hop'.
  - intros v1 v2 c. destruct (decide (v1 = u)) as [->|H1], (decide (v2 = u)) as [->|H2];
      rewrite ?Hu, ?Hv by done; [done| | |by apply (ho_own _ Hok)].
    + intros [_ Hno]%Hop Hin. by destruct (Hno v2 H2).
    + intros Hin [_ Hno]%Hop. by destruct (Hno v1 H1).
Qed.

(** A change of the channels' buffers only. *)
Lemma hub_ok_chans h h' :
  hub_ok h → h_clients h' = h_clients h → h_arrays h' = h_arrays h →
  h_next_arr h' = h_next_arr h →
  (∀ c, is_open h c → is_open h' c) →
  (∀ c, h_next_chan h' ≤ c → h_chans h' !! c = None) →
  (∀ c ch, h_chans h' !! c = Some ch → length (ch_buf ch) ≤ ChanCap) →
  hub_ok h' ∧ ∀ u, chans_of h' u = chans_of h u.
Proof.
  intros Hok Hc Ha Hn Ho Hf Hcap.
  assert (∀ u, chans_of h' u = chans_of h u) as Hch.
  { intros u. unfold chans_of, elems, array_of. by rewrite Hc, Ha. }
  split; [|done]. destruct Hok. split; try done.
  - intros u s. unfold array_of. rewrite Hc, Ha, Hn. apply ho_len0.
  - unfold array_of. by rewrite Ha, Hn.
  - intros u v s s'. rewrite Hc. eauto.
  - intros u. rewrite Hch. auto.
  - intros u c. rewrite Hch. eauto.
  - intros u v c. rewrite !Hch. eauto.
Qed.

(** ** The operations *)
Section operations.
Context `{Growth}.

(** [append] of one element, on a slice within its array. *)
Lemma append1_spec s x h :
  sl_len s ≤ length (array_of h (sl_arr s)) →
  let '(s', h') := append1 s x h in
  elems h' s' = elems h s ++ [x] ∧ sl_len s' ≤ length (array_of h' (sl_arr s')) ∧
  h_clients h' = h_clients h ∧ h_chans h' = h_chans h ∧ h_next_chan h' = h_next_chan h ∧
  h_next_arr h ≤ h_next_arr h' ∧
  (∀ a, a ≠ sl_arr s ∨ array_of h a = [] → a ≠ h_next_arr h → array_of h' a = array_of h a) ∧
  ((sl_arr s' = sl_arr s ∧ sl_len s < length (array_of h (sl_arr s))) ∨
   (sl_arr s' = h_next_arr h ∧ h_next_arr h' = S (h_next_arr h))).
Proof.
  intros Hl. unfold append1. set (l := array_of h (sl_arr s)) in *.
  destruct (Nat.ltb_spec (sl_len s) (length l)) as [Hlt|Hge].
  - assert (∀ a, array_of (set_arrays <[sl_arr s:=<[sl_len s:=x]> l]> h) a =
      if decide (a = sl_arr s) then <[sl_len s:=x]> l else array_of h a) as Ea
      by (intros a; exact (array_of_insert h _ _ a id)).
    unfold elems. simpl. rewrite !Ea, !decide_True by done. fold l.
    rewrite (take_S_r _ _ x) by (apply list_lookup_insert_eq; lia).
    rewrite take_insert_ge by lia. rewrite length_insert.
    split_and!; try done; [|by left].
    intros a Ha _. rewrite Ea. case_decide as E; [|done]. subst a.
    destruct Ha as [?|Ha]; [done|]. fold l in Ha. rewrite Ha in Hlt. simpl in Hlt. lia.
  - set (l' := take _ _ ++ _). set (h' := mkSSEHub _ _ _ _ _).
    assert (∀ a, array_of h' a = if decide (a = h_next_arr h) then l' else array_of h a) as Ea
      by (intros a; exact (array_of_insert h _ _ a id)).
    unfold elems. simpl. rewrite !Ea, !decide_True by done. fold l. subst l'.
    assert (sl_len s = length l) as E by lia. rewrite E, !firstn_all.
    pose proof (grow_gt (length l)). split_and!; try done; [| |lia| |by right].
    + rewrite app_assoc, take_app_length' by (rewrite length_app; simpl; lia). done.
    + rewrite !length_app, length_replicate. simpl. lia.
    + intros a _ Hn. by rewrite Ea, decide_False.
Qed.

Lemma Subscribe_spec u h :
  hub_ok h →
  let '(c, h') := Subscribe u h in
  hub_ok h' ∧ h_chans h !! c = None ∧ h_chans h' = <[c := mkChan [] false]> (h_chans h) ∧
  chans_of h' u = chans_of h u ++ [c] ∧ ∀ v, v ≠ u → chans_of h' v = chans_of h v.
Proof.
  intros Hok. unfold Subscribe, st_bind, make_chan. cbn [fst snd]. set (c := h_next_chan h).
  set (h1 := mkSSEHub _ _ _ _ _). set (s := default _ _).
  destruct (ho_zero _ Hok) as [Hz Hz1].
  assert (sl_len s ≤ length (array_of h1 (sl_arr s)) ∧ elems h1 s = chans_of h u ∧
    ∀ v s0, v ≠ u → h_clients h !! v = Some s0 → sl_arr s0 ≠ sl_arr s) as (Hl & Es & Hne).
  { subst s h1. unfold chans_of. simpl. destruct (h_clients h !! u) as [s|] eqn:E; simpl.
    - split; [by apply (ho_len _ Hok u)|]. split; [done|].
      intros v s0 Hv E0 Earr. apply Hv. by eapply (ho_arr _ Hok).
    - split; [lia|]. split; [done|]. intros v s0 _ E0. apply (ho_len _ Hok) in E0. lia. }
  pose proof (append1_spec s c h1 Hl) as Ha. destruct (append1 s c h1) as [s' h2].
  destruct Ha as (Ee & Hl2 & Hc2 & Hch2 & Hn2 & Hna & Harr & Hcase).
  pose proof (ho_fresh _ Hok c ltac:(done)) as Hfresh.
  set (h3 := set_clients _ h2).
  assert (h_clients h3 = <[u := s']> (h_clients h)) as E3 by (subst h3; simpl; by rewrite Hc2).
  assert (h_chans h3 = <[c := mkChan [] false]> (h_chans h)) as Ech by exact Hch2.
  assert (∀ v s0, v ≠ u → h_clients h !! v = Some s0 →
    array_of h3 (sl_arr s0) = array_of h (sl_arr s0)) as Hold.
  { intros v s0 Hv E0. apply Harr; [left; by eapply Hne|]. exact (array_of_fresh_ne h v s0 Hok E0). }
  destruct (chans_of_clients h h3 u s' Hok E3 Hold) as [Hu Hv].
  change (elems h3 s') with (elems h2 s') in Hu. rewrite Ee, Es in Hu.
  assert (∀ v x, x ∈ chans_of h v → x ≠ c) as Hnc.
  { intros v x [b Hx]%(ho_open _ Hok) ->. congruence. }
  split; [|done].
  eapply (hub_ok_update h h3 u s'); [done..| | | | | | | | |].
  - change (h_next_arr h3) with (h_next_arr h2). simpl in *.
    destruct Hcase as [[-> Hlt]|[-> ->]]; [|lia]. split; [|].
    + destruct (sl_arr s) as [|a] eqn:Ez; [|lia]. exfalso.
      change (array_of h1 0) with (array_of h 0) in Hlt. rewrite Hz in Hlt. simpl in Hlt. lia.
    + subst s. destruct (h_clients h !! u) as [su|] eqn:Eu; simpl in *; [|lia].
      apply (ho_len _ Hok) in Eu. lia.
  - done.
  - change (array_of h3 0) with (array_of h2 0). rewrite Harr; [done|by right|]. simpl. lia.
  - intros v s0 Hvu E0. destruct Hcase as [[-> _]|[-> _]]; [by eapply Hne|exact (array_of_fresh_ne h v s0 Hok E0)].
  - change (elems h3 s') with (elems h2 s'). rewrite Ee, Es. apply list.NoDup_app.
    split; [apply (ho_nodup _ Hok)|]. split; [|apply NoDup_singleton].
    intros x Hx ->%list_elem_of_singleton. by apply (Hnc u c).
  - intros x. change (elems h3 s') with (elems h2 s'). rewrite Ee, Es, elem_of_app, list_elem_of_singleton.
    intros [Hx| ->]; (split; [unfold is_open; rewrite Ech|intros v Hvu Hin]).
    + rewrite lookup_insert_ne by (apply not_eq_sym; by eapply Hnc). by apply (ho_open _ Hok u).
    + apply Hvu. by eapply (ho_own _ Hok).
    + rewrite lookup_insert_eq. eauto.
    + by apply (Hnc v c).
  - intros v x _ Hx. unfold is_open. rewrite Ech, lookup_insert_ne by (apply not_eq_sym; by eapply Hnc).
    by apply (ho_open _ Hok v).
  - intros x. change (h_next_chan h3) with (h_next_chan h2). rewrite Hn2, Ech. simpl. intros Hx.
    rewrite lookup_insert_ne by (subst c; lia). apply (ho_fresh _ Hok). lia.
  - intros x ch. rewrite Ech. intros [[<- <-]|[_ Hx]]%lookup_insert_Some; [simpl; lia|].
    by apply (ho_cap _ Hok x).
Qed.
Lemma filter_ne_all (c : nat) (l : list nat) : c ∉ l → filter (λ x, x ≠ c) l = l.
Proof.
  induction l as [|x l IH]; [done|]. rewrite not_elem_of_cons. intros [Hx Hl].
  rewrite filter_cons_True, IH by done. done.
Qed.

(** The element that is found is the one that is dropped. *)
Lemma index_of_Some c (l : list nat) i :
  NoDup l → index_of c l = Some i →
  i < length l ∧ c ∈ l ∧ take i l ++ drop (S i) l = filter (λ x, x ≠ c) l.
Proof.
  intros Hn. unfold index_of. intros ([i' x] & (Hl & <- & _)%list_find_Some & ->)%fmap_Some.
  simpl. split; [by eapply lookup_lt_Some|]. split; [by eapply list_elem_of_lookup_2|].
  rewrite <-(take_drop_middle _ _ _ Hl) in Hn |- * at 3. apply list.NoDup_app in Hn as (_ & Hd & Hn2).
  apply list.NoDup_cons in Hn2 as [Hc _].
  rewrite list.filter_app, filter_cons_False by auto. rewrite !filter_ne_all; [done|done|].
  intros Hin. apply (Hd c Hin). by left.
Qed.

Lemma index_of_None c (l : list nat) : index_of c l = None → c ∉ l.
Proof.
  unfold index_of. intros Hf%fmap_None%list_find_None Hin.
  rewrite list.Forall_forall in Hf. by apply (Hf c).
Qed.

Lemma shift_out_spec i s h :
  i < sl_len s → sl_len s ≤ length (array_of h (sl_arr s)) →
  let '(s', h') := shift_out i s h in
  sl_arr s' = sl_arr s ∧ elems h' s' = take i (elems h s) ++ drop (S i) (elems h s) ∧
  sl_len s' ≤ length (array_of h' (sl_arr s')) ∧
  (∀ a, a ≠ sl_arr s → array_of h' a = array_of h a) ∧
  h_clients h' = h_clients h ∧ h_chans h' = h_chans h ∧ h_next_chan h' = h_next_chan h ∧
  h_next_arr h' = h_next_arr h.
Proof.
  intros Hi Hl. unfold shift_out. set (l := array_of h (sl_arr s)) in *. set (l' := take i l ++ _).
  assert (∀ a, array_of (set_arrays <[sl_arr s:=l']> h) a =
    if decide (a = sl_arr s) then l' else array_of h a) as Ea
    by (intros a; exact (array_of_insert h _ _ a id)).
  unfold elems. simpl. rewrite !Ea, !decide_True by done. fold l. subst l'.
  assert (length (take i l ++ drop (S i) (take (sl_len s) l)) = sl_len s - 1) as Hlen.
  { rewrite length_app, length_take, length_drop, length_take. lia. }
  split_and!; try done.
  - rewrite app_assoc, take_app_length' by done. by rewrite take_take, Nat.min_l by lia.
  - rewrite app_assoc, length_app, Hlen. lia.
  - intros a Ha. by rewrite Ea, decide_False.
Qed.

Lemma Unsubscribe_spec u c h :
  hub_ok h →
  let '(r, h') := Unsubscribe u c h in
  r = Ok tt ∧ hub_ok h' ∧
  h_chans h' = (if decide (c ∈ chans_of h u)
                then alter (λ ch, mkChan (ch_buf ch) true) c (h_chans h) else h_chans h) ∧
  chans_of h' u = filter (λ x, x ≠ c) (chans_of h u) ∧
  ∀ v, v ≠ u → chans_of h' v = chans_of h v.
Proof.
  intros Hok. unfold Unsubscribe, st_bind.
  destruct (h_clients h !! u) as [s|] eqn:Es.
  2:{ assert (chans_of h u = []) as Eu by (unfold chans_of; by rewrite Es).
      rewrite decide_False by (rewrite Eu; by intros ?%elem_of_nil). by rewrite Eu. }
  assert (chans_of h u = elems h s) as Eu by (unfold chans_of; by rewrite Es).
  pose proof (ho_nodup _ Hok u) as Hnd. rewrite Eu in Hnd.
  destruct (index_of c (elems h s)) as [i|] eqn:Ei.
  2:{ apply index_of_None in Ei. rewrite decide_False by (by rewrite Eu). by rewrite Eu, filter_ne_all. }
  destruct (index_of_Some _ _ _ Hnd Ei) as (Hi & Hc & Ef).
  destruct (ho_len _ Hok u s Es) as [Hl Ha].
  assert (i < sl_len s) as Hi' by (unfold elems in Hi; rewrite length_take in Hi; lia).
  pose proof (shift_out_spec i s h Hi' Hl) as Hs. destruct (shift_out i s h) as [s' h2].
  destruct Hs as (Ea & Ee & Hl2 & Harr & Hc2 & Hch2 & Hn2 & Hna).
  destruct (ho_open _ Hok u c ltac:(by rewrite Eu)) as [b Hb].
  unfold close. cbn [h_chans set_clients]. rewrite Hch2, Hb, decide_True by (by rewrite Eu).
  set (h3 := set_chans _ _).
  assert (h_clients h3 = <[u := s']> (h_clients h)) as E3 by (subst h3; simpl; by rewrite Hc2).
  assert (h_chans h3 = <[c := mkChan b true]> (h_chans h)) as Ech by (subst h3; simpl; by rewrite Hch2).
  assert (∀ v s0, v ≠ u → h_clients h !! v = Some s0 → sl_arr s0 ≠ sl_arr s) as Hne.
  { intros v s0 Hv E0 Earr. apply Hv. by eapply (ho_arr _ Hok). }
  assert (∀ v s0, v ≠ u → h_clients h !! v = Some s0 →
    array_of h3 (sl_arr s0) = array_of h (sl_arr s0)) as Hold.
  { intros v s0 Hv E0. apply Harr. by eapply Hne. }
  destruct (chans_of_clients h h3 u s' Hok E3 Hold) as [Hu Hv].
  change (elems h3 s') with (elems h2 s') in Hu. rewrite Ee, Ef in Hu.
  assert (∀ v x, x ≠ c → x ∈ chans_of h v → is_open h3 x) as Hopen.
  { intros v x Hx Hin. unfold is_open. rewrite Ech, lookup_insert_ne by done.
    by apply (ho_open _ Hok v). }
  assert (∀ v, v ≠ u → c ∉ chans_of h v) as Hno.
  { intros v Hvu Hin. apply Hvu. apply (ho_own _ Hok v u c); [done|]. by rewrite Eu. }
  split; [done|]. split; [|split; [|split; [by rewrite Eu|done]]].
  - eapply (hub_ok_update h h3 u s'); [done..| | | | | | | | |].
    + rewrite Ea. change (h_next_arr h3) with (h_next_arr h2). by rewrite Hna.
    + change (h_next_arr h3) with (h_next_arr h2). by rewrite Hna.
    + change (array_of h3 0) with (array_of h2 0). rewrite Harr by lia. apply (ho_zero _ Hok).
    + intros v s0 Hvu E0. rewrite Ea. by eapply Hne.
    + change (elems h3 s') with (elems h2 s'). rewrite Ee, Ef. by apply list.NoDup_filter.
    + intros x. change (elems h3 s') with (elems h2 s'). rewrite Ee, Ef, list_elem_of_filter.
      intros [Hx Hin]. rewrite <-Eu in Hin. split; [by eapply Hopen|].
      intros v Hvu Hin2. apply Hvu. by eapply (ho_own _ Hok).
    + intros v x Hvu Hin. apply (Hopen v); [|done]. intros ->. by apply (Hno v).
    + intros x. change (h_next_chan h3) with (h_next_chan h2). rewrite Hn2, Ech. intros Hx.
      apply (ho_fresh _ Hok) in Hx as Hf. rewrite lookup_insert_ne; [done|]. intros <-. congruence.
    + intros x ch. rewrite Ech. intros [[<- <-]|[_ Hx]]%lookup_insert_Some; [|by apply (ho_cap _ Hok x)].
      simpl. by apply (ho_cap _ Hok c) in Hb.
  - rewrite Ech. apply map_eq. intros x. destruct (decide (x = c)) as [->|Hx].
    + by rewrite lookup_insert_eq, lookup_alter_eq, Hb.
    + by rewrite lookup_insert_ne, lookup_alter_ne.
Qed.

(** ** Sends and receives only change buffers *)
Definition delivered (n : Notification) (ch : Chan) : Chan :=
  if length (ch_buf ch) <? ChanCap then mkChan (ch_buf ch ++ [n]) (ch_closed ch) else ch.

Lemma try_send_open c n h :
  is_open h c →
  ∃ h', try_send c n h = (Ok tt, h') ∧ h_chans h' = alter (delivered n) c (h_chans h) ∧
    h_clients h' = h_clients h ∧ h_arrays h' = h_arrays h ∧ h_next_arr h' = h_next_arr h ∧
    h_next_chan h' = h_next_chan h.
Proof.
  intros [b Hb]. unfold try_send. rewrite Hb. eexists. split; [done|].
  assert (alter (delivered n) c (h_chans h) = <[c := delivered n (mkChan b false)]> (h_chans h)) as ->.
  { apply map_eq. intros x. destruct (decide (x = c)) as [->|].
    - by rewrite lookup_alter_eq, lookup_insert_eq, Hb.
    - by rewrite lookup_alter_ne, lookup_insert_ne. }
  unfold delivered. simpl. destruct (length b <? ChanCap); [done|]. by rewrite insert_id.
Qed.
Lemma alter_open n c c0 h h' :
  h_chans h' = alter (delivered n) c (h_chans h) → is_open h c0 → is_open h' c0.
Proof.
  intros E [b Hb]. unfold is_open. rewrite E. destruct (decide (c0 = c)) as [->|].
  - rewrite lookup_alter_eq, Hb. simpl. unfold delivered. simpl. case_match; eauto.
  - rewrite lookup_alter_ne by done. eauto.
Qed.

(** What is left of a push from position [i], with nothing in between. *)
Lemma push_from_spec s k n : ∀ i h,
  i + k = sl_len s → sl_len s ≤ length (array_of h (sl_arr s)) → NoDup (elems h s) →
  (∀ c, c ∈ elems h s → is_open h c) →
  ∃ h', push_from s i k n h = (Ok tt, h') ∧ h_clients h' = h_clients h ∧
    h_arrays h' = h_arrays h ∧
    ∀ c, h_chans h' !! c =
      (if decide (c ∈ drop i (elems h s)) then delivered n else id) <$> h_chans h !! c.
Proof.
  induction k as [|k IH]; intros i h Hik Hl Hnd Hop; simpl.
  { exists h. do 3 (split; [done|]). intros c.
    rewrite drop_ge by (unfold elems; rewrite length_take; lia).
    rewrite decide_False by (by intros ?%elem_of_nil). by destruct (h_chans h !! c). }
  destruct (lookup_lt_is_Some_2 (elems h s) i) as [c Hc].
  { unfold elems. rewrite length_take. lia. }
  pose proof (list_elem_of_lookup_2 _ _ _ Hc) as Hin.
  destruct (try_send_open c n h (Hop c Hin)) as (h1 & E1 & Ec1 & El1 & Ea1 & _ & _).
  assert (elems h1 s = elems h s) as Ee by (unfold elems, array_of; by rewrite Ea1).
  unfold st_try, st_bind, push_one.
  assert (array_of h (sl_arr s) !! i = Some c) as Hi.
  { unfold elems in Hc. rewrite lookup_take_lt in Hc by lia. done. }
  rewrite Hi. simpl. rewrite E1.
  destruct (IH (S i) h1) as (h' & E & El & Ea & Hch); rewrite ?Ee; [lia| |done| |].
  { unfold array_of. by rewrite Ea1. }
  { intros c0 H0. eapply alter_open; [done|by apply Hop]. }
  exists h'. split; [done|]. split; [congruence|]. split; [congruence|].
  intros c0. rewrite Hch, Ee, Ec1, (drop_S _ _ _ Hc).
  rewrite <-(take_drop_middle _ _ _ Hc) in Hnd. apply list.NoDup_app in Hnd as (_ & _ & Hnd).
  apply list.NoDup_cons in Hnd as [Hni _].
  destruct (decide (c0 = c)) as [->|Hne].
  - rewrite (decide_False _ _ Hni), decide_True by (by left). rewrite lookup_alter_eq.
    by destruct (h_chans h !! c).
  - rewrite lookup_alter_ne by done. f_equal.
    destruct (decide (c0 ∈ drop (S i) (elems h s))) as [H0|H0].
    + by rewrite decide_True by (by right).
    + rewrite decide_False; [done|]. by intros [?|?]%elem_of_cons.
Qed.

Lemma try_send_ok c n h r h' :
  hub_ok h → try_send c n h = (r, h') → hub_ok h' ∧ ∀ u, chans_of h' u = chans_of h u.
Proof.
  intros Hok. unfold try_send. destruct (h_chans h !! c) as [[b [|]]|] eqn:Hb; [by intros [= <- <-]| |by intros [= <- <-]].
  destruct (Nat.ltb_spec (length b) ChanCap) as [Hlt|Hge]; intros [= <- <-]; [|done].
  apply hub_ok_chans; [done..| | |].
  - intros c0 [b0 H0]. unfold is_open. simpl. destruct (decide (c0 = c)) as [->|].
    + rewrite lookup_insert_eq. eauto.
    + rewrite lookup_insert_ne by done. eauto.
  - intros c0 Hc0. simpl in *. rewrite lookup_insert_ne; [by apply (ho_fresh _ Hok)|].
    intros <-. rewrite (ho_fresh _ Hok) in Hb by done. done.
  - intros c0 ch. simpl. intros [[<- <-]|[_ H0]]%lookup_insert_Some; [|by apply (ho_cap _ Hok c0)].
    simpl. rewrite length_app. simpl. lia.
Qed.

Lemma receive_ok c h : hub_ok h →
  hub_ok (receive c h).2 ∧ ∀ u, chans_of (receive c h).2 u = chans_of h u.
Proof.
  intros Hok. unfold receive. destruct (h_chans h !! c) as [[[|n b] cl]|] eqn:Hb; simpl; try (by destruct cl); try done.
  apply hub_ok_chans; [done..| | |].
  - intros c0 [b0 H0]. unfold is_open. simpl. destruct (decide (c0 = c)) as [->|].
    + rewrite lookup_insert_eq. rewrite Hb in H0. injection H0 as _ ->. eauto.
    + rewrite lookup_insert_ne by done. eauto.
  - intros c0 Hc0. simpl in *. rewrite lookup_insert_ne; [by apply (ho_fresh _ Hok)|].
    intros <-. rewrite (ho_fresh _ Hok) in Hb by done. done.
  - intros c0 ch. simpl. intros [[<- <-]|[_ H0]]%lookup_insert_Some; [|by apply (ho_cap _ Hok c0)].
    apply (ho_cap _ Hok) in Hb. simpl in *. lia.
Qed.

(** *** Every reachable state is well formed *)
Definition prog_ok (p : Prog) : Prop :=
  match p with Running h _ => hub_ok h | Crashed m => m = "send on closed channel" end.

Lemma step_op_ok o h ps : hub_ok h → prog_ok (step_op o h ps).
Proof.
  intros Hok. destruct o as [u|u c|u n|i|c]; simpl.
  - pose proof (Subscribe_spec u h Hok) as Hs. destruct (Subscribe u h) as [c h']. apply Hs.
  - pose proof (Unsubscribe_spec u c h Hok) as Hs. destruct (Unsubscribe u c h) as [r h'].
    destruct Hs as (-> & Hok' & _). done.
  - by destruct (h_clients h !! u).
  - destruct (ps !! i) as [p|]; [|done]. destruct (_ <? _); [|done].
    destruct (push_one _ _ _ _) as [r h'] eqn:E. unfold push_one in E.
    destruct (try_send_ok _ _ _ _ _ Hok E) as [Hok' _]. unfold try_send in E.
    destruct (h_chans h !! _) as [[b [|]]|]; simplify_eq; done.
  - by apply receive_ok.
Qed.

Lemma reachable_ok p : hub_reachable p → prog_ok p.
Proof.
  intros Hr. revert Hr. apply (rtc_ind_r (R := hstep) prog_ok (Running NewSSEHub [])); [apply hub_ok_new|].
  intros p1 p2 _ Hs Hok. destruct Hs. by apply step_op_ok.
Qed.

(** C29: whatever the interleaving of subscriptions, disconnections, pushes
    and receives, the hub is a registry: each user's slice lists distinct open
    channels that no other user has, with at most 20 notifications waiting;
    Subscribe adds a new one at the end, Unsubscribe removes exactly the one
    it is given, closes it once and never panics, and neither changes what
    other users have. The program stops for one reason only. *)
Theorem hub_registry p :
  hub_reachable p →
  match p with
  | Crashed m => m = "send on closed channel"
  | Running h _ =>
      (∀ u, NoDup (chans_of h u) ∧ ∀ c, c ∈ chans_of h u →
         ∃ b, h_chans h !! c = Some (mkChan b false) ∧ length b ≤ 20 ∧
           ∀ v, v ≠ u → c ∉ chans_of h v) ∧
      (∀ u, let '(c, h') := Subscribe u h in
         h_chans h !! c = None ∧ h_chans h' = <[c := mkChan [] false]> (h_chans h) ∧
         ∀ v, chans_of h' v = if decide (v = u) then chans_of h v ++ [c] else chans_of h v) ∧
      (∀ u c, let '(r, h') := Unsubscribe u c h in
         r = Ok tt ∧
         h_chans h' = (if decide (c ∈ chans_of h u)
                       then alter (λ ch, mkChan (ch_buf ch) true) c (h_chans h) else h_chans h) ∧
         ∀ v, chans_of h' v =
           if decide (v = u) then filter (λ x, x ≠ c) (chans_of h v) else chans_of h v)
  end.
Proof.
  intros Hr%reachable_ok. destruct p as [h ps|m]; [|done]. simpl in Hr. split; [|split].
  - intros u. split; [apply (ho_nodup _ Hr)|]. intros c Hc.
    destruct (ho_open _ Hr u c Hc) as [b Hb]. exists b. split; [done|].
    split; [exact (ho_cap _ Hr _ _ Hb)|]. intros v Hv Hin. apply Hv. by eapply (ho_own _ Hr).
  - intros u. pose proof (Subscribe_spec u h Hr) as Hs. destruct (Subscribe u h) as [c h'].
    destruct Hs as (_ & ? & ? & Hu & Hv). split; [done|]. split; [done|].
    intros v. destruct (decide (v = u)) as [->|E]; [done|by apply Hv].
  - intros u c. pose proof (Unsubscribe_spec u c h Hr) as Hs. destruct (Unsubscribe u c h) as [r h'].
    destruct Hs as (? & _ & ? & Hu & Hv). split; [done|]. split; [done|].
    intros v. destruct (decide (v = u)) as [->|E]; [done|by apply Hv].
Qed.

(** A Push that nothing overtakes returns, and puts the notification exactly
    once into every channel of its user that has room for it, and into no
    other. *)
Lemma Push_once h u n :
  hub_ok h →
  ∃ h', Push u n h = (Ok tt, h') ∧ (∀ v, chans_of h' v = chans_of h v) ∧
    ∀ c, h_chans h' !! c =
      (if decide (c ∈ chans_of h u) then delivered n else id) <$> h_chans h !! c.
Proof.
  intros Hok. unfold Push.
  destruct (h_clients h !! u) as [s|] eqn:Es.
  - assert (chans_of h u = elems h s) as Eu by (unfold chans_of; by rewrite Es).
    destruct (push_from_spec s (sl_len s) n 0 h) as (h' & E & El & Ea & Hc); [lia| | | |].
    + by apply (ho_len _ Hok u).
    + rewrite <-Eu. apply (ho_nodup _ Hok).
    + intros c. rewrite <-Eu. apply (ho_open _ Hok).
    + exists h'. split; [done|]. split; [|intros c; rewrite Hc, Eu; done].
      intros v. unfold chans_of, elems, array_of. by rewrite El, Ea.
  - assert (chans_of h u = []) as Eu by (unfold chans_of; by rewrite Es).
    exists h. split; [done|]. split; [done|]. intros c. rewrite Eu, decide_False by (by intros ?%elem_of_nil).
    by destruct (h_chans h !! c).
Qed.
Lemma run_ops_reachable os : hub_reachable (run_ops os).
Proof.
  unfold run_ops, hub_reachable.
  assert (∀ p, rtc hstep p (foldl (λ p o, match p with
    Running h ps => step_op o h ps | Crashed _ => p end) p os)) as Hall; [|apply Hall].
  induction os as [|o os IH]; intros p; simpl; [done|].
  destruct p as [h ps|m]; [|apply IH]. eapply rtc_l; [apply hstep_op|apply IH].
Qed.
End operations.

(** ** What an Unsubscribe during a push can do *)
Definition a_notification : Notification :=
  mkNotification 1 "e" 7 9 "like" 1 "" false (5)%Z.

(** the clients of user 7 and what waits for each of them *)
Definition waiting (p : Prog) : list (nat * nat) :=
  match p with
  | Running h _ => (λ c, (c, length (default [] (ch_buf <$> h_chans h !! c)))) <$> chans_of h 7
  | Crashed _ => []
  end.
Definition crash (p : Prog) : option string :=
  match p with Crashed m => Some m | Running _ _ => None end.

(** one client leaves between the lookup and the send *)
Definition overtaken : list Op :=
  [OSubscribe 7; OPush 7 a_notification; OUnsubscribe 7 1; OSend 0].
(** the first of three clients leaves after its send *)
Definition shifted : list Op :=
  [OSubscribe 7; OSubscribe 7; OSubscribe 7; OPush 7 a_notification; OSend 0;
   OUnsubscribe 7 1; OSend 0; OSend 0].

(** The lock does not cover the sends of a push. Two schedules: in the
    first a client disconnects between the lookup and its send, and the
    program stops with a send on a closed channel; in the second the first of
    three clients disconnects after its send, the other two move down in the
    array that the push is still reading, and of the two clients that stayed
    connected throughout one never gets the notification and the other gets it
    twice. *)
Theorem Push_races :
  (hub_reachable (run_ops overtaken) ∧
     crash (run_ops overtaken) = Some "send on closed channel"%string) ∧
  (hub_reachable (run_ops shifted) ∧ waiting (run_ops shifted) = [(2, 0); (3, 2)]).
Proof. split; (split; [apply run_ops_reachable|by vm_compute]). Qed.

(** ** Witnesses *)
Lemma hub_registry_witness :
  let p := run_ops shifted in
  match p with
  | Crashed m => m = "send on closed channel"%string
  | Running h _ =>
      (∀ u, NoDup (chans_of h u) ∧ ∀ c, c ∈ chans_of h u →
         ∃ b, h_chans h !! c = Some (mkChan b false) ∧ length b ≤ 20 ∧
           ∀ v, v ≠ u → c ∉ chans_of h v) ∧
      (∀ u, let '(c, h') := Subscribe u h in
         h_chans h !! c = None ∧ h_chans h' = <[c := mkChan [] false]> (h_chans h) ∧
         ∀ v, chans_of h' v = if decide (v = u) then chans_of h v ++ [c] else chans_of h v) ∧
      (∀ u c, let '(r, h') := Unsubscribe u c h in
         r = Ok tt ∧
         h_chans h' = (if decide (c ∈ chans_of h u)
                       then alter (λ ch, mkChan (ch_buf ch) true) c (h_chans h) else h_chans h) ∧
         ∀ v, chans_of h' v =
           if decide (v = u) then filter (λ x, x ≠ c) (chans_of h v) else chans_of h v)
  end.
Proof. exact (hub_registry (run_ops shifted) (run_ops_reachable shifted)). Defined.
