(* ===== verification/Stream.v ===== *)
(** [SSEHandler] of [internal/api/notification/handler.go]: a connection
    subscribes to the hub, writes each notification it receives as a frame of
    the event stream, a keep-alive after 30 quiet seconds, and unsubscribes
    when the client goes away.  Any number of connections run beside the pushes
    of [Hub.v]. *)
From S2P Require Import Prelude GoStd Entities Json Services Http Notification Hub HubFacts.
Local Open Scope nat_scope.
Local Open Scope go_scope.

(** ** The handler *)

(** What is written to the response: ["data: %s\n\n"] with a document, or
    [": keepalive\n\n"]. *)
Inductive Frame := Data (b : bytes) | Keepalive.
Definition marshal_notification (n : Notification) : bytes := Doc (JObj (notification_fields n)).
Definition sse_header : list (string * string) :=
  [("Content-Type", "text/event-stream"); ("Cache-Control", "no-cache");
   ("Connection", "keep-alive")]%string.

(** A request in the handler: its user, its channel, what has been written so
    far (the header first), and whether it is still in the loop. *)
Record Conn := mkConn {
  cn_user : Z; cn_chan : nat; cn_header : Z * list (string * string);
  cn_body : list Frame; cn_open : bool }.
Definition write (f : Frame) (cn : Conn) : Conn :=
  mkConn (cn_user cn) (cn_chan cn) (cn_header cn) (cn_body cn ++ [f]) (cn_open cn).
Definition leave (cn : Conn) : Conn :=
  mkConn (cn_user cn) (cn_chan cn) (cn_header cn) (cn_body cn) false.

(** The cases of the [select] of the loop; the timer's 30 seconds are over. *)
Inductive Case := CtxDone | FromChan | Timer.

Section handler.
Context `{Growth}.

(** up to the loop; [None]: the assertion on the account panics *)
Definition SSE_start (c : Ctx) : ST SSEHub (option Conn) :=
  match cx_accountID c with
  | None => st_ret None
  | Some userID =>
      ch <- Subscribe userID ;; st_ret (Some (mkConn userID ch (200%Z, sse_header) [] true))
  end.

(** [return], with the deferred call *)
Definition SSE_return (cn : Conn) : ST SSEHub (result Conn) :=
  _ <-? Unsubscribe (cn_user cn) (cn_chan cn) ;; st_ret (Ok (leave cn)).

(** one turn of the loop, in which the [select] takes the case [k]; it does
    not take a receive that would block *)
Definition SSE_turn (k : Case) (cn : Conn) : ST SSEHub (result Conn) :=
  if negb (cn_open cn) then st_ret (Ok cn)
  else
    match k with
    | CtxDone => SSE_return cn
    | FromChan =>
        r <- receive (cn_chan cn) ;;
        match r with
        | NotOk => SSE_return cn
        | Got n => st_ret (Ok (write (Data (marshal_notification n)) cn))
        | Blocked => st_ret (Ok cn)
        end
    | Timer => st_ret (Ok (write Keepalive cn))
    end.

Fixpoint SSE_loop (ks : list Case) (cn : Conn) : ST SSEHub (result Conn) :=
  match ks with
  | [] => st_ret (Ok cn)
  | k :: ks => cn <-? SSE_turn k cn ;; SSE_loop ks cn
  end.

(** the handler alone, over the cases its loop takes *)
Definition SSEHandler (c : Ctx) (ks : list Case) : ST SSEHub (result (option Conn)) :=
  cn <- SSE_start c ;;
  match cn with
  | None => st_ret (Ok None)
  | Some cn => cn <-? SSE_loop ks cn ;; st_ret (Ok (Some cn))
  end.

(** ** Connections and pushes together *)
Inductive Server :=
| Live (h : SSEHub) (ps : list Pushing) (cs : list Conn)
| Down (msg : string).
Inductive Event :=
| EConnect (c : Ctx)
| ETurn (i : nat) (k : Case)
| EPush (u : Z) (n : Notification)
| ESend (i : nat).

Definition with_conns (cs : list Conn) (p : Prog) : Server :=
  match p with Running h ps => Live h ps cs | Crashed m => Down m end.

Definition estep (e : Event) (h : SSEHub) (ps : list Pushing) (cs : list Conn) : Server :=
  match e with
  | EConnect c =>
      let '(cn, h') := SSE_start c h in Live h' ps (cs ++ option_list cn)
  | ETurn i k =>
      match cs !! i with
      | None => Live h ps cs
      | Some cn =>
          match SSE_turn k cn h with
          | (Ok cn', h') => Live h' ps (<[i := cn']> cs)
          | (Err (ErrMsg m), _) => Down m
          | (Err _, _) => Down ""
          end
      end
  | EPush u n => with_conns cs (step_op (OPush u n) h ps)
  | ESend i => with_conns cs (step_op (OSend i) h ps)
  end.

(** whether a send to channel [c] finds room *)
Definition room (h : SSEHub) (c : nat) : bool :=
  match h_chans h !! c with
  | Some (mkChan b false) => length b <? ChanCap
  | _ => false
  end.
(** What an event puts into channel [c]: the notification of a push whose next
    client it is, where there is room. *)
Definition accepts (c : nat) (e : Event) (h : SSEHub) (ps : list Pushing) : list Notification :=
  match e with
  | ESend i =>
      match ps !! i with
      | Some p =>
          let target := default 0 (array_of h (sl_arr (pg_slice p)) !! pg_at p) in
          if (pg_at p <? sl_len (pg_slice p)) && (target =? c) && room h c then [pg_n p] else []
      | None => []
      end
  | _ => []
  end.

(** A schedule, run, with what [c] has accepted on the way. *)
Fixpoint run_from (c : nat) (es : list Event) (x : Server) (log : list Notification) :
    Server * list Notification :=
  match es, x with
  | e :: es, Live h ps cs => run_from c es (estep e h ps cs) (log ++ accepts c e h ps)
  | _, _ => (x, log)
  end.
Definition serve (es : list Event) : Server := (run_from 0 es (Live NewSSEHub [] []) []).1.
Definition accepted (c : nat) (es : list Event) : list Notification :=
  (run_from c es (Live NewSSEHub [] []) []).2.
End handler.

(** what waits in a channel *)
Definition waits (h : SSEHub) (c : nat) : list Notification :=
  default [] (ch_buf <$> h_chans h !! c).
(** the documents a connection has written *)
Definition written (cn : Conn) : list bytes :=
  omap (λ f, match f with Data b => Some b | Keepalive => None end) (cn_body cn).
(** the connections of a user, in the order in which they were made *)
Definition live (u : Z) (cs : list Conn) : list Conn :=
  filter (λ cn, cn_user cn = u ∧ cn_open cn = true) cs.
