(* ===== verification/StreamFacts.v ===== *)
(** Theorems on the event stream: the hub lists exactly the connections that
    are in their loop, each connection writes what its channel accepted, in
    order, and an undisturbed push reaches every connection of its user. *)
From S2P Require Import Prelude GoStd Entities Json Services Http Notification Hub HubFacts Stream.
Local Open Scope nat_scope.

Lemma live_app u cs cs' : live u (cs ++ cs') = live u cs ++ live u cs'.
Proof. apply list.filter_app. Qed.

(** the channel of a connection where it counts for a user *)
Definition chan_if (u : Z) (cn : Conn) : list nat :=
  if decide (cn_user cn = u ∧ cn_open cn = true) then [cn_chan cn] else [].
Definition chans_live (u : Z) (cs : list Conn) : list nat := cn_chan <$> live u cs.

Record streams_ok (h : SSEHub) (cs : list Conn) : Prop := {
  so_hub : hub_ok h;
  so_live : ∀ u, chans_of h u = chans_live u cs;
  so_chans : NoDup (cn_chan <$> cs);
  so_state : ∀ cn, cn ∈ cs → ∃ b, h_chans h !! cn_chan cn = Some (mkChan b (negb (cn_open cn))) }.

Lemma chans_live_app u cs cs' : chans_live u (cs ++ cs') = chans_live u cs ++ chans_live u cs'.
Proof. unfold chans_live. by rewrite live_app, list.fmap_app. Qed.

Lemma chans_live_cons u cn cs : chans_live u (cn :: cs) = chan_if u cn ++ chans_live u cs.
Proof. unfold chans_live, live, chan_if. rewrite filter_cons. by case_decide. Qed.

Lemma chans_live_elem u cs c : c ∈ chans_live u cs → c ∈ cn_chan <$> cs.
Proof. intros (cn & -> & [_ H]%list_elem_of_filter)%list_elem_of_fmap. apply list_elem_of_fmap. eauto. Qed.

Lemma insert_middle {A} (l : list A) i x y :
  l !! i = Some x → ∃ l1 l2, l = l1 ++ x :: l2 ∧ <[i := y]> l = l1 ++ y :: l2.
Proof.
  intros Hi. exists (take i l), (drop (S i) l). split; [by rewrite take_drop_middle|].
  apply insert_take_drop. by eapply lookup_lt_Some.
Qed.

(** A connection that writes stays in the list; one that leaves drops out. *)
Lemma chans_live_same u cs i cn cn' :
  cs !! i = Some cn → chan_if u cn' = chan_if u cn →
  chans_live u (<[i := cn']> cs) = chans_live u cs.
Proof.
  intros Hi E. destruct (insert_middle _ _ _ cn' Hi) as (l1 & l2 & -> & ->).
  by rewrite !chans_live_app, !chans_live_cons, E.
Qed.

Lemma chans_live_leave u cs i cn :
  cs !! i = Some cn → NoDup (cn_chan <$> cs) →
  chans_live u (<[i := leave cn]> cs) = filter (λ c, c ≠ cn_chan cn) (chans_live u cs).
Proof.
  intros Hi Hnd. destruct (insert_middle _ _ _ (leave cn) Hi) as (l1 & l2 & -> & ->).
  rewrite list.fmap_app, fmap_cons in Hnd. apply list.NoDup_app in Hnd as (_ & Hd & Hn2).
  apply list.NoDup_cons in Hn2 as [Hc _].
  rewrite !chans_live_app, !chans_live_cons, !list.filter_app.
  assert (chan_if u (leave cn) = []) as -> by (unfold chan_if; rewrite decide_False; [done|by intros [_ [=]]]).
  assert (filter (λ c, c ≠ cn_chan cn) (chan_if u cn) = []) as ->.
  { unfold chan_if. case_decide; [|done]. by rewrite filter_cons_False by auto. }
  rewrite !filter_ne_all; [done| |].
  - intros ?%chans_live_elem. done.
  - intros Hin%chans_live_elem. apply (Hd _ Hin). by left.
Qed.

Lemma map_chan_insert (cs : list Conn) i cn cn' :
  cs !! i = Some cn → cn_chan cn' = cn_chan cn → cn_chan <$> <[i := cn']> cs = cn_chan <$> cs.
Proof.
  intros Hi E. destruct (insert_middle _ _ _ cn' Hi) as (l1 & l2 & -> & ->).
  by rewrite !list.fmap_app, !fmap_cons, E.
Qed.

(** Two connections of the list have two channels. *)
Lemma same_conn (cs : list Conn) i j cn cn' :
  NoDup (cn_chan <$> cs) → cs !! i = Some cn → cs !! j = Some cn' → cn_chan cn' = cn_chan cn → j = i.
Proof.
  intros Hnd Hi Hj E. eapply (NoDup_lookup _ j i (cn_chan cn) Hnd).
  - rewrite list_lookup_fmap, Hj. simpl. by f_equal.
  - by rewrite list_lookup_fmap, Hi.
Qed.

(** A connection whose channel alone has changed. *)
Lemma streams_update h h' cs i cn cn' :
  streams_ok h cs → cs !! i = Some cn → hub_ok h' → cn_chan cn' = cn_chan cn →
  (∀ u, chans_of h' u = chans_live u (<[i := cn']> cs)) →
  (∀ c, c ≠ cn_chan cn → h_chans h' !! c = h_chans h !! c) →
  (∃ b, h_chans h' !! cn_chan cn = Some (mkChan b (negb (cn_open cn')))) →
  streams_ok h' (<[i := cn']> cs).
Proof.
  intros Hok Hi Hh Ec Hl Hne Hst. split; [done|done| |].
  - rewrite (map_chan_insert _ _ cn) by done. apply (so_chans _ _ Hok).
  - intros x [j Hj]%list_elem_of_lookup.
    destruct (decide (j = i)) as [->|Hji].
    + rewrite list_lookup_insert_eq in Hj by (by eapply lookup_lt_Some). injection Hj as <-. by rewrite Ec.
    + rewrite list_lookup_insert_ne in Hj by done. rewrite Hne.
      * apply (so_state _ _ Hok). by eapply list_elem_of_lookup_2.
      * intros E. apply Hji. by eapply same_conn; [apply (so_chans _ _ Hok)|..].
Qed.

Lemma written_data b cn : written (write (Data b) cn) = written cn ++ [b].
Proof. unfold written. simpl. by rewrite list.omap_app. Qed.
Lemma written_keepalive cn : written (write Keepalive cn) = written cn.
Proof. unfold written. simpl. by rewrite list.omap_app, app_nil_r. Qed.

Section turns.
Context `{Growth}.

Lemma SSE_return_ok h cs i cn :
  streams_ok h cs → cs !! i = Some cn → cn_open cn = true →
  ∃ h', SSE_return cn h = (Ok (leave cn), h') ∧ streams_ok h' (<[i := leave cn]> cs) ∧
    (∀ c, c ≠ cn_chan cn → h_chans h' !! c = h_chans h !! c) ∧
    waits h' (cn_chan cn) = waits h (cn_chan cn).
Proof.
  intros Hok Hi Ho. unfold SSE_return, st_try, st_bind.
  pose proof (Unsubscribe_spec (cn_user cn) (cn_chan cn) h (so_hub _ _ Hok)) as Hs.
  destruct (Unsubscribe (cn_user cn) (cn_chan cn) h) as [r h'].
  destruct Hs as (-> & Hh & Hch & Hu & Hv). exists h'. split; [done|].
  destruct (so_state _ _ Hok cn) as [b Hb]; [by eapply list_elem_of_lookup_2|]. rewrite Ho in Hb.
  assert (cn_chan cn ∈ chans_of h (cn_user cn)) as Hin.
  { rewrite (so_live _ _ Hok). apply list_elem_of_fmap. exists cn. split; [done|].
    apply list_elem_of_filter. split; [done|]. by eapply list_elem_of_lookup_2. }
  rewrite decide_True in Hch by done.
  assert (∀ c, c ≠ cn_chan cn → h_chans h' !! c = h_chans h !! c) as Hne
    by (intros c Hc; by rewrite Hch, lookup_alter_ne).
  assert (h_chans h' !! cn_chan cn = Some (mkChan b true)) as Hb'
    by (by rewrite Hch, lookup_alter_eq, Hb).
  split; [|split; [done|unfold waits; by rewrite Hb, Hb']].
  eapply streams_update; [done..| |done|simpl; eauto].
  intros u. rewrite (chans_live_leave u cs i cn) by (done || apply (so_chans _ _ Hok)).
  rewrite <-(so_live _ _ Hok). destruct (decide (u = cn_user cn)) as [->|Hne']; [done|].
  rewrite Hv by done. symmetry. apply filter_ne_all. intros Hin'. apply Hne'.
  by eapply (ho_own _ (so_hub _ _ Hok)).
Qed.

(** Any turn of the loop: no document is lost, made up or reordered. *)
Lemma SSE_turn_ok k h cs i cn :
  streams_ok h cs → cs !! i = Some cn →
  ∃ cn' h', SSE_turn k cn h = (Ok cn', h') ∧ streams_ok h' (<[i := cn']> cs) ∧
    cn_chan cn' = cn_chan cn ∧ cn_user cn' = cn_user cn ∧
    (∀ c, c ≠ cn_chan cn → h_chans h' !! c = h_chans h !! c) ∧
    written cn' ++ (marshal_notification <$> waits h' (cn_chan cn)) =
      written cn ++ (marshal_notification <$> waits h (cn_chan cn)).
Proof.
  intros Hok Hi. unfold SSE_turn.
  destruct (cn_open cn) eqn:Ho; cbn [negb].
  2:{ exists cn, h. by rewrite list_insert_id by done. }
  assert (∃ h', SSE_return cn h = (Ok (leave cn), h') ∧ streams_ok h' (<[i := leave cn]> cs) ∧
    (∀ c, c ≠ cn_chan cn → h_chans h' !! c = h_chans h !! c) ∧
    waits h' (cn_chan cn) = waits h (cn_chan cn)) as (h1 & E1 & Hok1 & Hne1 & Hw1)
    by (by apply SSE_return_ok).
  destruct k.
  - exists (leave cn), h1. by rewrite Hw1.
  - destruct (so_state _ _ Hok cn) as [b Hb]; [by eapply list_elem_of_lookup_2|]. rewrite Ho in Hb.
    pose proof (receive_ok (cn_chan cn) h (so_hub _ _ Hok)) as [Hh Hc].
    unfold st_bind. unfold receive in *. rewrite Hb in *. destruct b as [|n b]; cbn [negb fst snd] in *.
    + exists cn, h. by rewrite list_insert_id by done.
    + set (h2 := set_chans _ _) in *. exists (write (Data (marshal_notification n)) cn), h2.
      assert (h_chans h2 = <[cn_chan cn := mkChan b false]> (h_chans h)) as Ech by done.
      split; [done|]. split; [|split; [done|split; [done|split]]].
      * eapply streams_update; [done..| | |].
        -- intros u. rewrite Hc, (so_live _ _ Hok). symmetry. by apply (chans_live_same u cs i cn).
        -- intros c Hne. by rewrite Ech, lookup_insert_ne.
        -- exists b. simpl. by rewrite lookup_insert_eq, Ho.
      * intros c Hne. by rewrite Ech, lookup_insert_ne.
      * unfold waits. rewrite Ech, lookup_insert_eq, Hb. cbn [fmap option_fmap option_map default ch_buf].
        rewrite written_data. simpl. by rewrite <-app_assoc.
  - exists (write Keepalive cn), h. split_and!; try done.
    + eapply streams_update; [done|done|apply Hok|done| |done|].
      * intros u. rewrite (so_live _ _ Hok). symmetry. by apply (chans_live_same u cs i cn).
      * apply (so_state _ _ Hok cn). by eapply list_elem_of_lookup_2.
    + by rewrite written_keepalive.
Qed.

(** ** Every step *)

(** What a connection has written and what waits for it are, together, what
    its channel has accepted. *)
Definition flow_ok (h : SSEHub) (cs : list Conn) (c : nat) (log : list Notification) : Prop :=
  (h_chans h !! c = None → log = []) ∧
  ∀ cn, cn ∈ cs → cn_chan cn = c →
    written cn ++ (marshal_notification <$> waits h c) = marshal_notification <$> log.

Lemma connect_ok c0 h cs :
  streams_ok h cs →
  let '(cn, h') := SSE_start c0 h in
  streams_ok h' (cs ++ option_list cn) ∧
  ∀ c log, flow_ok h cs c log → flow_ok h' (cs ++ option_list cn) c log.
Proof.
  intros Hok. unfold SSE_start. destruct (cx_accountID c0) as [u|]; cbn [st_ret option_list];
    [|by rewrite app_nil_r].
  unfold st_bind. pose proof (Subscribe_spec u h (so_hub _ _ Hok)) as Hs.
  destruct (Subscribe u h) as [ch h']. cbn [st_ret option_list].
  destruct Hs as (Hh & Hnone & Hch & Hu & Hv). set (cn := mkConn _ _ _ _ _). change (option_list (Some cn)) with [cn].
  assert (∀ x, x ∈ cs → cn_chan x ≠ ch) as Hnew.
  { intros x Hx <-. destruct (so_state _ _ Hok x Hx) as [b Hb]. congruence. }
  split; [split; [done| | |]|].
  - intros v. rewrite chans_live_app, chans_live_cons, app_nil_r. unfold chan_if. simpl.
    rewrite <-(so_live _ _ Hok). destruct (decide (v = u)) as [->|Hne].
    + by rewrite decide_True, Hu.
    + rewrite decide_False, app_nil_r by (intros [? _]; congruence). by apply Hv.
  - rewrite list.fmap_app. apply list.NoDup_app. split; [apply (so_chans _ _ Hok)|].
    split; [|apply NoDup_singleton]. intros x (y & -> & Hy)%list_elem_of_fmap E%list_elem_of_singleton.
    by apply (Hnew y).
  - intros x [Hx|Hx]%elem_of_app.
    + destruct (so_state _ _ Hok x Hx) as [b Hb]. exists b. by rewrite Hch, lookup_insert_ne by (apply not_eq_sym; auto).
    + apply list_elem_of_singleton in Hx as ->. exists []. by rewrite Hch, lookup_insert_eq.
  - intros c log [Hn Hf]. split.
    + rewrite Hch. intros [Hc _]%lookup_insert_None. by apply Hn.
    + intros x [Hx|Hx]%elem_of_app <-.
      * unfold waits. rewrite Hch, lookup_insert_ne by (apply not_eq_sym; auto). by apply Hf.
      * apply list_elem_of_singleton in Hx as ->. unfold waits. rewrite Hch. simpl. rewrite lookup_insert_eq. simpl.
        rewrite Hn by done. done.
Qed.

Lemma turn_ok i k h ps cs :
  streams_ok h cs →
  match estep (ETurn i k) h ps cs with
  | Down m => False
  | Live h' ps' cs' => streams_ok h' cs' ∧ ∀ c log, flow_ok h cs c log → flow_ok h' cs' c log
  end.
Proof.
  intros Hok. simpl. destruct (cs !! i) as [cn|] eqn:Hi; [|done].
  destruct (SSE_turn_ok k h cs i cn Hok Hi) as (cn' & h' & -> & Hok' & Ec & _ & Hne & Hw).
  split; [done|]. intros c log [Hn Hf].
  destruct (so_state _ _ Hok cn) as [b Hb]; [by eapply list_elem_of_lookup_2|].
  destruct (so_state _ _ Hok' cn') as [b' Hb'].
  { apply list_elem_of_lookup. exists i. rewrite list_lookup_insert_eq; [done|by eapply lookup_lt_Some]. }
  split.
  - destruct (decide (c = cn_chan cn)) as [->|Hc]; [|by rewrite Hne].
    intros E. rewrite Ec in Hb'. congruence.
  - intros x [j Hj]%list_elem_of_lookup <-. destruct (decide (j = i)) as [->|Hji].
    + rewrite list_lookup_insert_eq in Hj by (by eapply lookup_lt_Some). injection Hj as <-.
      rewrite Ec in Hf |- *. rewrite Hw. apply Hf; [by eapply list_elem_of_lookup_2|done].
    + rewrite list_lookup_insert_ne in Hj by done.
      assert (cn_chan x ≠ cn_chan cn) as Hx.
      { intros E. apply Hji. by eapply same_conn; [apply (so_chans _ _ Hok)|..]. }
      unfold waits. rewrite Hne by done. apply Hf; [by eapply list_elem_of_lookup_2|done].
Qed.

(** A send to a channel that has room for it. *)
Lemma room_spec h c :
  if room h c then ∃ b, h_chans h !! c = Some (mkChan b false) ∧ length b < ChanCap
  else ∀ b, h_chans h !! c = Some (mkChan b false) → ChanCap ≤ length b.
Proof.
  unfold room. destruct (h_chans h !! c) as [[b [|]]|]; [done| |done].
  destruct (Nat.ltb_spec (length b) ChanCap); [by exists b|]. by intros ? [= <-].
Qed.

Lemma sent_ok h cs t b n :
  streams_ok h cs → h_chans h !! t = Some (mkChan b false) → length b < ChanCap →
  let h' := set_chans (<[t := mkChan (b ++ [n]) false]>) h in
  hub_ok h' → (∀ u, chans_of h' u = chans_of h u) →
  streams_ok h' cs ∧ ∀ c log, flow_ok h cs c log → flow_ok h' cs c (log ++ if t =? c then [n] else []).
Proof.
  intros Hok Ht Hlt h' Hh Hc.
  assert (h_chans h' = <[t := mkChan (b ++ [n]) false]> (h_chans h)) as Ech by done.
  split; [split; [done| |apply (so_chans _ _ Hok)|]|].
  - intros u. by rewrite Hc, (so_live _ _ Hok).
  - intros x Hx. rewrite Ech. destruct (so_state _ _ Hok x Hx) as [b0 Hb0].
    destruct (decide (cn_chan x = t)) as [Ex|Ex].
    + rewrite Ex in *. rewrite lookup_insert_eq. exists (b ++ [n]). congruence.
    + rewrite lookup_insert_ne by done. eauto.
  - intros c log [Hn Hf]. unfold flow_ok, waits. rewrite Ech.
    destruct (Nat.eqb_spec t c) as [<-|Hct].
    + rewrite lookup_insert_eq. split; [done|]. intros x Hx Ex. simpl.
      rewrite !list.fmap_app, app_assoc. f_equal. specialize (Hf x Hx Ex). unfold waits in Hf.
      by rewrite Ht in Hf.
    + rewrite lookup_insert_ne, app_nil_r by done. done.
Qed.

(** One send of a push. *)
Lemma send_ok i h ps cs :
  streams_ok h cs →
  match estep (ESend i) h ps cs with
  | Down m => m = "send on closed channel"%string
  | Live h' ps' cs' => streams_ok h' cs' ∧
      ∀ c log, flow_ok h cs c log → flow_ok h' cs' c (log ++ accepts c (ESend i) h ps)
  end.
Proof.
  intros Hok. simpl. destruct (ps !! i) as [p|]; simpl.
  2:{ split; [done|]. intros c log. by rewrite app_nil_r. }
  set (t := default 0 (array_of h (sl_arr (pg_slice p)) !! pg_at p)).
  destruct (pg_at p <? sl_len (pg_slice p)); simpl.
  2:{ split; [done|]. intros c log. by rewrite app_nil_r. }
  destruct (push_one (pg_slice p) (pg_at p) (pg_n p) h) as [r h'] eqn:E. unfold push_one in E. fold t in E.
  destruct (try_send_ok t (pg_n p) h r h' (so_hub _ _ Hok) E) as [Hh Hc].
  pose proof (room_spec h t) as Hr.
  destruct (room h t) eqn:Hroom.
  - destruct Hr as (b & Ht & Hlt). unfold try_send in E. rewrite Ht in E.
    rewrite (proj2 (Nat.ltb_lt _ _) Hlt) in E. injection E as <- <-.
    destruct (sent_ok h cs t b (pg_n p) Hok Ht Hlt Hh Hc) as [Hok' Hf]. split; [done|].
    intros c log Hfl. apply Hf in Hfl. destruct (Nat.eqb_spec t c) as [<-|]; [by rewrite Hroom|done].
  - assert (∀ c, ((t =? c) && room h c) = false) as Hno.
    { intros c. destruct (Nat.eqb_spec t c) as [<-|]; [by rewrite Hroom|done]. }
    unfold try_send in E. destruct (h_chans h !! t) as [[b [|]]|] eqn:Ht; simplify_eq; simpl; [done| |].
    + rewrite (proj2 (Nat.ltb_ge _ _) (Hr b eq_refl)). split; [done|]. intros c log. by rewrite Hno, app_nil_r.
    + split; [done|]. intros c log. by rewrite Hno, app_nil_r.
Qed.

Lemma estep_ok e h ps cs :
  streams_ok h cs →
  match estep e h ps cs with
  | Down m => m = "send on closed channel"%string
  | Live h' ps' cs' => streams_ok h' cs' ∧
      ∀ c log, flow_ok h cs c log → flow_ok h' cs' c (log ++ accepts c e h ps)
  end.
Proof.
  intros Hok. destruct e as [c0|i k|u n|i].
  - pose proof (connect_ok c0 h cs Hok) as Hs. simpl. destruct (SSE_start c0 h) as [cn h'].
    destruct Hs as [Hs Hf]. split; [done|]. intros c log ?. rewrite app_nil_r. by apply Hf.
  - pose proof (turn_ok i k h ps cs Hok) as Hs. destruct (estep (ETurn i k) h ps cs); [|done].
    destruct Hs as [Hs Hf]. split; [done|]. intros c log ?. rewrite app_nil_r. by apply Hf.
  - simpl. destruct (h_clients h !! u); simpl; (split; [done|]; intros c log; by rewrite app_nil_r).
  - pose proof (send_ok i h ps cs Hok) as Hs. destruct (estep (ESend i) h ps cs); [|done].
    done.
Qed.

Lemma streams_ok_new : streams_ok NewSSEHub [].
Proof.
  split; [apply hub_ok_new|done|apply base.NoDup_nil_2|]. by intros cn ?%elem_of_nil.
Qed.

Lemma run_from_ok c es x log :
  (∀ h ps cs, x = Live h ps cs → streams_ok h cs ∧ flow_ok h cs c log) →
  (∀ m, x = Down m → m = "send on closed channel"%string) →
  let '(x', log') := run_from c es x log in
  match x' with
  | Down m => m = "send on closed channel"%string
  | Live h ps cs => streams_ok h cs ∧ flow_ok h cs c log'
  end.
Proof.
  revert x log. induction es as [|e es IH]; intros x log Hl Hd; destruct x as [h ps cs|m]; simpl; auto.
  - by apply (Hl h ps cs).
  - destruct (Hl h ps cs eq_refl) as [Hok Hf]. pose proof (estep_ok e h ps cs Hok) as Hs.
    apply IH; intros *; intros E; rewrite E in Hs; [|done]. destruct Hs as [? Hs]. by auto.
Qed.

(** The state does not depend on the channel whose log is kept. *)
Lemma run_from_state c es x log c' log' : (run_from c es x log).1 = (run_from c' es x log').1.
Proof. revert x log log'. induction es as [|e es IH]; intros [h ps cs|m] *; simpl; auto. Qed.

Lemma serve_ok es :
  match serve es with
  | Down m => m = "send on closed channel"%string
  | Live h ps cs => streams_ok h cs ∧ ∀ c, flow_ok h cs c (accepted c es)
  end.
Proof.
  assert (∀ c, let '(x', log') := run_from c es (Live NewSSEHub [] []) [] in
    match x' with
    | Down m => m = "send on closed channel"%string
    | Live h ps cs => streams_ok h cs ∧ flow_ok h cs c log'
    end) as Hall.
  { intros c. apply run_from_ok; [|done]. intros h ps cs [= <- <- <-]. split; [apply streams_ok_new|].
    split; [done|]. by intros ? ?%elem_of_nil. }
  unfold serve, accepted. pose proof (Hall 0) as H0.
  destruct (run_from 0 es _ _) as [x0 l0] eqn:E0. simpl. destruct x0 as [h ps cs|m]; [|done].
  split; [apply H0|]. intros c. pose proof (Hall c) as Hc.
  pose proof (run_from_state c es (Live NewSSEHub [] []) [] 0 []) as Hst. rewrite E0 in Hst.
  destruct (run_from c es _ _) as [x l]. simpl in *. subst x. apply Hc.
Qed.

(** As many turns as there are documents waiting write them all. *)
Lemma SSE_loop_drains b : ∀ h cn,
  cn_open cn = true → h_chans h !! cn_chan cn = Some (mkChan b false) →
  ∃ cn' h', SSE_loop (replicate (length b) FromChan) cn h = (Ok cn', h') ∧
    written cn' = written cn ++ (marshal_notification <$> b).
Proof.
  induction b as [|n b IH]; intros h cn Ho Hb; simpl.
  - exists cn, h. by rewrite app_nil_r.
  - unfold st_try, st_bind, SSE_turn at 1. rewrite Ho. cbn [negb]. unfold st_bind, receive. rewrite Hb.
    destruct (IH (set_chans (<[cn_chan cn := mkChan b false]>) h)
      (write (Data (marshal_notification n)) cn)) as (cn' & h' & E & Ew); [done|by apply lookup_insert_eq|].
    exists cn', h'. split; [exact E|]. by rewrite Ew, written_data, <-app_assoc.
Qed.

(** C30: the hub serves exactly the connections that are open. Whatever the
    interleaving of connects, turns of the handlers and sends of pushes, until
    a send hits a closed channel: the channels listed for a user are those of
    his open connections in the order they were made; no two connections share
    a channel, which is open as long as its handler is in its loop; and every
    connection has written, in order, once and without gaps, what its channel
    has accepted, except for at most 20 notifications that still wait. *)
Theorem stream_registry es :
  match serve es with
  | Down m => m = "send on closed channel"%string
  | Live h ps cs =>
      (∀ u, chans_of h u = cn_chan <$> live u cs) ∧ NoDup (cn_chan <$> cs) ∧
      ∀ cn, cn ∈ cs → ∃ b, h_chans h !! cn_chan cn = Some (mkChan b (negb (cn_open cn))) ∧
        length b ≤ 20 ∧
        written cn ++ (marshal_notification <$> b) =
          marshal_notification <$> accepted (cn_chan cn) es
  end.
Proof.
  pose proof (serve_ok es) as Hs. destruct (serve es) as [h ps cs|m]; [|done]. destruct Hs as [Hok Hf].
  split; [apply (so_live _ _ Hok)|]. split; [apply (so_chans _ _ Hok)|]. intros cn Hin.
  destruct (so_state _ _ Hok cn Hin) as [b Hb]. exists b. split; [done|].
  split; [exact (ho_cap _ (so_hub _ _ Hok) _ _ Hb)|].
  destruct (Hf (cn_chan cn)) as [_ Hfl]. specialize (Hfl cn Hin eq_refl).
  unfold waits in Hfl. by rewrite Hb in Hfl.
Qed.

(** A notification that is pushed while nothing else runs reaches every open
    connection of its user that has fewer than 20 waiting: after as many turns
    as there are notifications before it, plus one, the connection has written
    those and then the new one. Nothing changes for a connection that is full,
    or of another user. *)
Definition streamed (u : Z) (n : Notification) (h h' : SSEHub) (cs : list Conn) : Prop :=
  ∀ cn, cn ∈ cs → cn_open cn = true →
    let w := waits h (cn_chan cn) in
    if decide (cn_user cn = u ∧ length w < 20) then
      ∃ cn' h'', SSE_loop (replicate (S (length w)) FromChan) cn h' = (Ok cn', h'') ∧
        written cn' = written cn ++ (marshal_notification <$> w ++ [n])
    else waits h' (cn_chan cn) = w.

Lemma push_streamed h cs u n :
  streams_ok h cs → ∃ h', Push u n h = (Ok tt, h') ∧ streamed u n h h' cs.
Proof.
  intros Hok. destruct (Push_once h u n (so_hub _ _ Hok)) as (h' & E & _ & Hch). exists h'. split; [done|].
  intros cn Hin Ho. destruct (so_state _ _ Hok cn Hin) as [b Hb]. rewrite Ho in Hb. cbn [negb] in Hb.
  specialize (Hch (cn_chan cn)). unfold waits. rewrite Hb in Hch |- *. cbn zeta.
  cbn [fmap option_fmap option_map default ch_buf] in Hch |- *. unfold id in Hch |- *.
  destruct (decide (cn_chan cn ∈ chans_of h u)) as [Hu|Hu]; rewrite (so_live _ _ Hok) in Hu.
  - assert (cn_user cn = u) as Eu.
    { apply list_elem_of_fmap in Hu as (x & Ex & [[<- _] Hx]%list_elem_of_filter).
      apply list_elem_of_lookup in Hx as [i Hi], Hin as [j Hj].
      assert (j = i) as -> by (eapply same_conn; [apply (so_chans _ _ Hok)|done..]). congruence. }
    unfold delivered in Hch. cbn [ch_buf ch_closed] in Hch.
    destruct (Nat.ltb_spec (length b) ChanCap) as [Hlt|Hge]; case_decide as Hd.
    + destruct (SSE_loop_drains (b ++ [n]) h' cn Ho Hch) as (cn' & h'' & El & Ew).
      exists cn', h''. rewrite length_app, Nat.add_comm in El. done.
    + by destruct Hd.
    + destruct Hd as [_ Hd]. unfold ChanCap in Hge. lia.
    + by rewrite Hch.
  - case_decide as Hd; [|by rewrite Hch]. destruct Hd as [<- _]. exfalso. apply Hu.
    apply list_elem_of_fmap. exists cn. split; [done|]. by apply list_elem_of_filter.
Qed.
End turns.
