(* ===== verification/Feed.v ===== *)
(** [internal/api/feed]: the lists of videos.  Videos are read by id through
    three levels (process cache, Redis, MySQL); the latest videos come from the
    timeline in Redis with the database behind it, the popular ones from the
    merged windows, the followed ones through a cache of whole pages. *)
From S2P Require Import Prelude GoStd Query Entities Json Services RedisFacts RedisClient Mq.
From S2P Require Import DbFacts Http Video Like.
Local Open Scope Z_scope.
Local Open Scope go_scope.

(** ** entity.go *)
Record FeedAuthor := mkFeedAuthor { fa_ID : Z; fa_Username : string }.
Record FeedVideoItem := mkFeedVideoItem {
  fv_ID : Z; fv_Author : FeedAuthor; fv_Title : string; fv_Description : string;
  fv_PlayURL : string; fv_CoverURL : string; fv_CreateTime : Z; fv_LikesCount : Z;
  fv_IsLiked : bool }.
Record LikesCountCursor := mkLikesCountCursor { lc_LikesCount : Z; lc_ID : Z }.
Record ListLatestResponse := mkListLatestResponse {
  ll_VideoList : list FeedVideoItem; ll_NextTime : Z; ll_HasMore : bool }.
Record ListLikesCountResponse := mkListLikesCountResponse {
  lk_VideoList : list FeedVideoItem; lk_NextLikesCountBefore : option Z;
  lk_NextIDBefore : option Z; lk_HasMore : bool }.
Record ListByPopularityResponse := mkListByPopularityResponse {
  lp_VideoList : list FeedVideoItem; lp_AsOf : Z; lp_NextOffset : Z; lp_HasMore : bool;
  lp_NextLatestPopularity : option Z; lp_NextLatestBefore : option time;
  lp_NextLatestIDBefore : option Z }.
Record ListByFollowingResponse := mkListByFollowingResponse {
  lb_VideoList : list FeedVideoItem; lb_NextTime : Z; lb_HasMore : bool }.

(** ** repo.go *)

(** the columns after [WHERE] of a cursor *)
Definition created_before (latestBefore : time) (v : Video) : bool :=
  IsZero latestBefore || (v_CreateTime v <? latestBefore).

Definition after_likes (cursor : option LikesCountCursor) (v : Video) : bool :=
  match cursor with
  | None => true
  | Some c => (v_LikesCount v <? lc_LikesCount c)
              || ((v_LikesCount v =? lc_LikesCount c) && (v_ID v <? lc_ID c))
  end.

Definition after_popularity (popularityBefore : Z) (timeBefore : time) (idBefore : Z)
    (v : Video) : bool :=
  if negb (IsZero timeBefore) && (0 <? idBefore) then
    (v_Popularity v <? popularityBefore)
    || ((v_Popularity v =? popularityBefore) && (v_CreateTime v <? timeBefore))
    || ((v_Popularity v =? popularityBefore) && (v_CreateTime v =? timeBefore) && (v_ID v <? idBefore))
  else true.

Definition likes_order : list (okey Video) := [Desc v_LikesCount; Desc v_ID].
Definition popularity_order : list (okey Video) := [Desc v_Popularity; Desc v_CreateTime; Desc v_ID].

Section repo.
Context {W : Type} `{World W} `{SqlEngine}.

Definition FeedRepo_ListLatest (limit : Z) (latestBefore : time) : ST W (result (list Video)) :=
  query (λ d, Ok (eng_select (created_before latestBefore) [Desc v_CreateTime] (sql_limit limit)
                    (rows TVideo d))).

Definition FeedRepo_GetByID (id : Z) : ST W (result Video) :=
  query (λ d, sel_first (where_id TVideo id always) [Asc v_ID] (rows TVideo d)).

Definition FeedRepo_ListLikesCount (limit : Z) (cursor : option LikesCountCursor) :
    ST W (result (list Video)) :=
  query (λ d, Ok (eng_select (after_likes cursor) likes_order (sql_limit limit) (rows TVideo d))).

Definition GetByIDs (ids : list Z) : ST W (result (list Video)) :=
  match ids with
  | [] => st_ret (Ok [])
  | _ => query (λ d, Ok (eng_select (λ v, bool_decide (v_ID v ∈ ids)) [] None (rows TVideo d)))
  end.

Definition FeedRepo_ListByPopularity (limit popularityBefore : Z) (timeBefore : time)
    (idBefore : Z) : ST W (result (list Video)) :=
  query (λ d, Ok (eng_select (after_popularity popularityBefore timeBefore idBefore)
                    popularity_order (sql_limit limit) (rows TVideo d))).

(** author_id in (select vlogger_id from socials where follower_id = ?) *)
Definition followed_by (d : Db) (accountID : Z) (v : Video) : bool :=
  if 0 <? accountID
  then existsb (λ s, (s_FollowerID s =? accountID) && (s_VloggerID s =? v_AuthorID v)) (rows TSocial d)
  else true.

Definition FeedRepo_ListByFollowing (limit accountID : Z) (latestBefore : time) :
    ST W (result (list Video)) :=
  query (λ d, Ok (eng_select (λ v, followed_by d accountID v && created_before latestBefore v)
                    [Desc v_CreateTime] (sql_limit limit) (rows TVideo d))).

(** videos join video_tags on ... join tags on ... *)
Definition tagged_join (d : Db) : list (Video * Tag) :=
  v ← rows TVideo d; x ← rows TVideoTag d; g ← rows TTag d;
  if (vt_VideoID x =? v_ID v) && (t_ID g =? vt_TagID x) then [(v, g)] else [].

Definition FeedRepo_ListByTag (tagName : string) (limit : Z) : ST W (result (list Video)) :=
  query (λ d, Ok (eng_select (λ vg, text_eq (t_Name vg.2) tagName)
                    [Desc (λ vg : Video * Tag, v_CreateTime vg.1)] (sql_limit limit)
                    (tagged_join d)).*1).
End repo.

(** ** service.go *)
Record FeedService := mkFeedService { fs_redisCache : option Client; fs_cacheTTL : Z }.
Definition NewFeedService (redisCache : option Client) : FeedService :=
  mkFeedService redisCache (24 * Hour).

Definition entity_key (cache : option Client) (id : Z) : string :=
  Key cache ("video:entity:" +:+ dec id).

Definition buildOrderedResult (orderedIDs : list Z) (dataMap : gmap Z Video) : list Video :=
  omap (λ id, dataMap !! id) orderedIDs.

Section entities.
Context {W : Type} `{World W} `{SqlEngine} `{RedisServer}.

(** L1: what the process cache has, and the ids it has not *)
Definition read_local (cache : option Client) (id : Z) (acc : gmap Z Video * list Z) :
    ST W (gmap Z Video * list Z) :=
  let '(videoMap, missed) := acc in
  r <- lc_get (entity_key cache id) ;;
  st_ret (match r with
          | Some v => (<[id := v]> videoMap, missed)
          | None => (videoMap, missed ++ [id])
          end).

(** one answer of MGET *)
Definition take_redis (cache : option Client) (idr : Z * option bytes)
    (acc : gmap Z Video * list Z) : ST W (gmap Z Video * list Z) :=
  let '(videoMap, missed) := acc in
  let '(id, res) := idr in
  match res with
  | Some b =>
      match unmarshal_video b with
      | Ok v => lc_set (entity_key cache id) v (5 * Second) ;;;
                st_ret (<[id := v]> videoMap, missed)
      | Err _ => st_ret (videoMap, missed ++ [id])
      end
  | None => st_ret (videoMap, missed ++ [id])
  end.

(** L2 *)
Definition read_redis (cache : option Client) (missedL1 : list Z) (videoMap : gmap Z Video) :
    ST W (gmap Z Video * list Z) :=
  match cache with
  | None => st_ret (videoMap, missedL1)
  | Some _ =>
      r <- MGet (entity_key cache <$> missedL1) ;;
      match r with
      | Ok results => st_fold (take_redis cache) (zip missedL1 results) (videoMap, [])
      | Err _ => st_ret (videoMap, missedL1)
      end
  end.

(** L3 of one id: the goroutines touch one id each; their writes of the shared
    map are under a mutex *)
Definition read_mysql (cache : option Client) (id : Z) (videoMap : gmap Z Video) :
    ST W (gmap Z Video) :=
  r <- sf_do (Key cache ("sf:entity:" +:+ dec id))
         (v <-? FeedRepo_GetByID id ;;
          match cache with
          | Some _ => SetBytes (entity_key cache (v_ID v)) (marshal_video v) Hour ;;; st_ret (Ok v)
          | None => st_ret (Ok v)
          end) ;;
  match r with
  | Ok v => lc_set (entity_key cache (v_ID v)) v (5 * Second) ;;; st_ret (<[id := v]> videoMap)
  | Err _ => st_ret videoMap
  end.

Definition GetVideosByIDs (s : FeedService) (videoIDs : list Z) : ST W (result (list Video)) :=
  let cache := fs_redisCache s in
  match videoIDs with
  | [] => st_ret (Ok [])
  | _ =>
      l1 <- st_fold (read_local cache) videoIDs (∅, []) ;;
      let '(videoMap, missedL1) := l1 in
      match missedL1 with
      | [] => st_ret (Ok (buildOrderedResult videoIDs videoMap))
      | _ =>
          l2 <- read_redis cache missedL1 videoMap ;;
          let '(videoMap, missedL2) := l2 in
          videoMap <- st_fold (read_mysql cache) missedL2 videoMap ;;
          st_ret (Ok (buildOrderedResult videoIDs videoMap))
      end
  end.
End entities.

Section service.
Context {W : Type} `{World W} `{SqlEngine} `{RedisServer}.

Definition feed_item (likedMap : gmap Z bool) (v : Video) : FeedVideoItem :=
  mkFeedVideoItem (v_ID v) (mkFeedAuthor (v_AuthorID v) (v_Username v)) (v_Title v)
    (v_Description v) (v_PlayURL v) (v_CoverURL v) (Unix (v_CreateTime v)) (v_LikesCount v)
    (default false (likedMap !! v_ID v)).

Definition buildFeedVideos (videos : list Video) (accountID : Z) :
    ST W (result (list FeedVideoItem)) :=
  likedMap <-? GetBatchLiked (v_ID <$> videos) accountID ;;
  st_ret (Ok (feed_item likedMap <$> videos)).

(** *** ListLatest *)
Definition next_milli (videos : list Video) : Z :=
  match last_elem videos with Some v => UnixMilli (v_CreateTime v) | None => 0 end.

Definition latest_response (limit : Z) (videos : list Video) (accountID : Z) :
    ST W (result ListLatestResponse) :=
  feedVideos <-? buildFeedVideos videos accountID ;;
  st_ret (Ok (mkListLatestResponse feedVideos (next_milli videos)
                (Z.of_nat (length videos) =? limit))).

(** the timeline is rebuilt from the newest 1000 videos; false: no videos *)
Definition rebuild_timeline (cache : option Client) : ST W (result bool) :=
  videos <-? FeedRepo_ListLatest 1000 zero_time ;;
  match videos with
  | [] => st_ret (Ok false)
  | _ =>
      ZAdd cache (timeline_key cache)
        ((λ v, (dec (v_ID v), UnixMilli (v_CreateTime v))) <$> videos) ;;;
      st_ret (Ok true)
  end.

(** the ids of a page of the timeline, as far as they are numbers *)
Definition parse_ids (members : list string) : list Z := omap ParseUint members.

Definition hot_videos (s : FeedService) (members : list string) : ST W (result (list Video)) :=
  match parse_ids members with
  | [] => st_ret (Ok [])
  | ids => GetVideosByIDs s ids
  end.

(** a page that the timeline does not fill is completed from the database *)
Definition stitch (s : FeedService) (limit : Z) (latestBefore : time) (base : list Video) :
    ST W (result (list Video)) :=
  if Z.of_nat (length base) <? limit then
    let remain := limit - Z.of_nat (length base) in
    let coldCursor := match last_elem base with Some v => v_CreateTime v | None => latestBefore end in
    r <- sf_do (Key (fs_redisCache s)
                  ("sf:stitch:listLatest:" +:+ dec remain +:+ ":" +:+ dec (UnixMilli coldCursor)))
           (FeedRepo_ListLatest remain coldCursor) ;;
    st_ret (Ok (match r with Ok cold => base ++ cold | Err _ => base end))
  else st_ret (Ok base).

Definition latest_page (s : FeedService) (limit : Z) (latestBefore : time) (waterMark : Z) :
    ST W (result (list Video)) :=
  t <- now ;;
  let reqTime := if IsZero latestBefore then UnixMilli t else UnixMilli latestBefore in
  if reqTime <=? waterMark then
    sf_do (Key (fs_redisCache s) ("sf:cold:listLatest:" +:+ dec limit +:+ ":" +:+ dec reqTime))
      (FeedRepo_ListLatest limit latestBefore)
  else
    let maxScore := if IsZero latestBefore then None else Some (reqTime - 1) in
    members <-? ZRevRangeByScore (fs_redisCache s) (timeline_key (fs_redisCache s)) maxScore None
                  0 limit ;;
    base <-? hot_videos s members ;;
    stitch s limit latestBefore base.

(** [None]: the recursion has not ended within [fuel] calls *)
Fixpoint ListLatest (fuel : nat) (s : FeedService) (limit : Z) (latestBefore : time)
    (accountID : Z) : ST W (option (result ListLatestResponse)) :=
  match fuel with
  | O => st_ret None
  | S fuel =>
      match fs_redisCache s with
      | None =>
          r <- (videos <-? FeedRepo_ListLatest limit latestBefore ;;
                latest_response limit videos accountID) ;;
          st_ret (Some r)
      | Some _ =>
          r <- ZRangeWithScores (fs_redisCache s) (timeline_key (fs_redisCache s)) 0 0 ;;
          match r with
          | Err e => st_ret (Some (Err e))
          | Ok [] =>
              r <- sf_do (Key (fs_redisCache s) "sf:fallback:global_timeline_rebuild")
                     (rebuild_timeline (fs_redisCache s)) ;;
              match r with
              | Err e => st_ret (Some (Err e))
              | Ok false => st_ret (Some (Ok (mkListLatestResponse [] 0 false)))
              | Ok true => ListLatest fuel s limit latestBefore accountID
              end
          | Ok ((_, waterMark) :: _) =>
              r <- (videos <-? latest_page s limit latestBefore waterMark ;;
                    latest_response limit videos accountID) ;;
              st_ret (Some r)
          end
      end
  end.

(** *** ListLikesCount *)
Definition FeedService_ListLikesCount (limit : Z) (cursor : option LikesCountCursor)
    (accountID : Z) : ST W (result ListLikesCountResponse) :=
  videos <-? FeedRepo_ListLikesCount limit cursor ;;
  items <-? buildFeedVideos videos accountID ;;
  let hasMore := Z.of_nat (length videos) =? limit in
  st_ret (Ok (match last_elem videos with
              | Some v => mkListLikesCountResponse items (Some (v_LikesCount v)) (Some (v_ID v)) hasMore
              | None => mkListLikesCountResponse items None None hasMore
              end)).
End service.

(** *** ListByPopularity *)
Section popularity.
Context {W : Type} `{World W} `{SqlEngine} `{RedisServer}.

Definition hot_key (cache : option Client) (t : time) : string :=
  Key cache ("hot:video:1m:" +:+ FormatMinute t).
Definition merge_key (cache : option Client) (t : time) : string :=
  Key cache ("hot:video:merge:1m:" +:+ FormatMinute t).

(** the windows of the last [win] minutes *)
Definition window_keys (cache : option Client) (asOf : time) : list string :=
  (λ i, hot_key cache (asOf - Z.of_nat i * Minute)) <$> seq 0 60.

Definition parse_pos_ids (members : list string) : list Z :=
  List.filter (λ id, 0 <? id) (omap ParseUint members).

(** [res] with the cursor of its last video *)
Definition popularity_response (items : list FeedVideoItem) (videos : list Video)
    (asOf nextOffset : Z) (hasMore : bool) : ListByPopularityResponse :=
  match last_elem videos with
  | Some v => mkListByPopularityResponse items asOf nextOffset hasMore (Some (v_Popularity v))
                (Some (v_CreateTime v)) (Some (v_ID v))
  | None => mkListByPopularityResponse items asOf nextOffset hasMore None None None
  end.

Definition popularity_from_db (limit accountID latestPopularity : Z) (latestBefore : time)
    (latestIDBefore : Z) : ST W (result ListByPopularityResponse) :=
  videos <-? FeedRepo_ListByPopularity limit latestPopularity latestBefore latestIDBefore ;;
  items <-? buildFeedVideos videos accountID ;;
  st_ret (Ok (popularity_response items videos 0 0 (Z.of_nat (length items) =? limit))).

(** the windows of the last hour, merged unless that has been done *)
Definition merge_windows (cache : option Client) (asOf : time) : ST W unit :=
  let dest := merge_key cache asOf in
  exists_ <- Exists_ cache dest ;;
  if negb exists_
  then ZUnionStore cache dest (window_keys cache asOf) ;;; Expire cache dest (2 * Minute) ;;; st_ret tt
  else st_ret tt.

(** a page of the merged windows; [None]: go on to the database *)
Definition popularity_page (cache : option Client) (limit : Z) (asOf : time) (offset : Z)
    (accountID : Z) : ST W (option (result ListByPopularityResponse)) :=
  let dest := merge_key cache asOf in
  r <- ZRevRange cache dest offset (offset + limit - 1) ;;
  match r with
  | Err _ => st_ret None
  | Ok [] =>
      st_ret (if 0 <? offset
              then Some (Ok (mkListByPopularityResponse [] (Unix asOf) offset false None None None))
              else None)
  | Ok members =>
      let ids := parse_pos_ids members in
      r <- GetByIDs ids ;;
      match r with
      | Err _ => st_ret None
      | Ok videos =>
          let vMap : gmap Z Video := foldl (λ m v, <[v_ID v := v]> m) ∅ videos in
          let ordered := buildOrderedResult ids vMap in
          items <- buildFeedVideos ordered accountID ;;
          st_ret (Some (match items with
                        | Err e => Err e
                        | Ok items =>
                            Ok (popularity_response items ordered (Unix asOf)
                                  (offset + Z.of_nat (length items))
                                  (Z.of_nat (length items) =? limit))
                        end))
      end
  end.

Definition popularity_from_redis (cache : option Client) (limit : Z) (asOf : time) (offset : Z)
    (accountID : Z) : ST W (option (result ListByPopularityResponse)) :=
  merge_windows cache asOf ;;; popularity_page cache limit asOf offset accountID.

Definition FeedService_ListByPopularity (s : FeedService) (limit reqAsOf offset accountID
    latestPopularity : Z) (latestBefore : time) (latestIDBefore : Z) :
    ST W (result ListByPopularityResponse) :=
  let from_db := popularity_from_db limit accountID latestPopularity latestBefore latestIDBefore in
  match fs_redisCache s with
  | None => from_db
  | Some _ =>
      t <- now ;;
      let asOf := TruncateMinute (if 0 <? reqAsOf then FromUnix reqAsOf else t) in
      r <- popularity_from_redis (fs_redisCache s) limit asOf offset accountID ;;
      match r with Some r => st_ret r | None => from_db end
  end.
End popularity.

(** *** ListByFollowing: whole pages are cached *)
Definition item_fields (i : FeedVideoItem) : list (string * json) :=
  [("id", JNum (fv_ID i));
   ("author", JObj [("id", JNum (fa_ID (fv_Author i))); ("username", JStr (fa_Username (fv_Author i)))]);
   ("title", JStr (fv_Title i))]
  ++ str_field_omitempty "description" (fv_Description i)
  ++ [("play_url", JStr (fv_PlayURL i)); ("cover_url", JStr (fv_CoverURL i));
      ("create_time", JNum (fv_CreateTime i)); ("likes_count", JNum (fv_LikesCount i));
      ("is_liked", JBool (fv_IsLiked i))].
Definition marshal_following (r : ListByFollowingResponse) : bytes :=
  Doc (JObj [("video_list", JArr ((λ i, JObj (item_fields i)) <$> lb_VideoList r));
             ("next_time", JNum (lb_NextTime r)); ("has_more", JBool (lb_HasMore r))]).

Definition sub_fields (name : string) (fs : list (string * json)) : option (list (string * json)) :=
  match field name fs with
  | None | Some JNull => Some []
  | Some (JObj l) => Some l
  | Some _ => None
  end.
Definition item_of_fields (fs : list (string * json)) : option FeedVideoItem :=
  i ← get_uint "id" fs; a ← sub_fields "author" fs; ai ← get_uint "id" a;
  au ← get_str "username" a; t ← get_str "title" fs; d ← get_str "description" fs;
  p ← get_str "play_url" fs; c ← get_str "cover_url" fs; ct ← get_int64 "create_time" fs;
  lc ← get_int64 "likes_count" fs; il ← get_bool "is_liked" fs;
  Some (mkFeedVideoItem i (mkFeedAuthor ai au) t d p c ct lc il).
Definition item_of_json (j : json) : option FeedVideoItem :=
  match j with
  | JObj fs => item_of_fields fs
  | JNull => item_of_fields []
  | _ => None
  end.
Definition items_of_fields (fs : list (string * json)) : option (list FeedVideoItem) :=
  match field "video_list" fs with
  | None | Some JNull => Some []
  | Some (JArr l) => mapM item_of_json l
  | Some _ => None
  end.
Definition following_of_fields (fs : list (string * json)) : option ListByFollowingResponse :=
  l ← items_of_fields fs; t ← get_int64 "next_time" fs; m ← get_bool "has_more" fs;
  Some (mkListByFollowingResponse l t m).
Definition unmarshal_following (b : bytes) : result ListByFollowingResponse :=
  unmarshal following_of_fields b.

Section following.
Context {W : Type} `{World W} `{SqlEngine} `{RedisServer}.

Definition doListByFollowingFromDB (limit : Z) (latestBefore : time) (accountID : Z) :
    ST W (result ListByFollowingResponse) :=
  videos <-? FeedRepo_ListByFollowing limit accountID latestBefore ;;
  let nextTime := match last_elem videos with Some v => Unix (v_CreateTime v) | None => 0 end in
  feedVideos <-? buildFeedVideos videos accountID ;;
  st_ret (Ok (mkListByFollowingResponse feedVideos nextTime (Z.of_nat (length videos) =? limit))).

Definition following_key (cache : option Client) (limit accountID before : Z) : string :=
  Key cache ("feed:listByFollowing:limit=" +:+ dec limit +:+ ":accountID=" +:+ dec accountID
             +:+ ":before=" +:+ dec before).

(** a page from the cache: the error of GET is kept *)
Definition cached_page (cacheKey : string) : ST W (result (option ListByFollowingResponse)) :=
  b <-? GetBytes cacheKey ;;
  st_ret (Ok (match unmarshal_following b with Ok r => Some r | Err _ => None end)).

Definition db_and_set (s : FeedService) (cacheKey : string) (limit : Z) (latestBefore : time)
    (accountID : Z) : ST W (result ListByFollowingResponse) :=
  resp <-? doListByFollowingFromDB limit latestBefore accountID ;;
  SetBytes cacheKey (marshal_following resp) (fs_cacheTTL s) ;;; st_ret (Ok resp).

(** up to [n] looks at the cache, 20 ms apart *)
Fixpoint await_page (n : nat) (cacheKey : string) (k : ST W (result ListByFollowingResponse)) :
    ST W (result ListByFollowingResponse) :=
  match n with
  | O => k
  | S n =>
      c <- cached_page cacheKey ;;
      match c with
      | Ok (Some r) => st_ret (Ok r)
      | _ => await_page n cacheKey k
      end
  end.

Definition FeedService_ListByFollowing (s : FeedService) (limit : Z) (latestBefore : time)
    (accountID : Z) : ST W (result ListByFollowingResponse) :=
  let cache := fs_redisCache s in
  if (accountID =? 0) || negb (match cache with Some _ => true | None => false end)
  then doListByFollowingFromDB limit latestBefore accountID
  else
    let before := if IsZero latestBefore then 0 else Unix latestBefore in
    let cacheKey := following_key cache limit accountID before in
    let fallback := db_and_set s cacheKey limit latestBefore accountID in
    c <- cached_page cacheKey ;;
    match c with
    | Ok (Some cached) => st_ret (Ok cached)
    | Ok None => fallback
    | Err e =>
        if IsMiss e then
          let lockKey := "lock:" +:+ cacheKey in
          l <- Lock cache lockKey (500 * Millisecond) ;;
          let '(token, locked, _) := l in
          if locked : bool then
            (** the second look; the lock is released on return *)
            c <- cached_page cacheKey ;;
            r <- match c with
                 | Ok (Some cached) => st_ret (Ok cached)
                 | Ok None | Err _ => fallback
                 end ;;
            Unlock cache lockKey token ;;; st_ret r
          else await_page 5 cacheKey fallback
        else fallback
    end.

Definition FeedService_ListByTag (tagName : string) (limit accountID : Z) :
    ST W (result (list FeedVideoItem)) :=
  videos <-? FeedRepo_ListByTag tagName limit ;;
  buildFeedVideos videos accountID.
End following.

(** ** handler.go *)
Definition page_limit (limit : Z) : Z := if (limit <=? 0) || (50 <? limit) then 10 else limit.

Record ListLatestRequest := mkListLatestRequest { ql_Limit : Z; ql_LatestTime : Z }.
Record ListLikesCountRequest := mkListLikesCountRequest {
  qk_Limit : Z; qk_LikesCountBefore : option Z; qk_IDBefore : option Z }.
Record ListByPopularityRequest := mkListByPopularityRequest {
  qp_Limit : Z; qp_AsOf : Z; qp_Offset : Z; qp_LatestIDBefore : option Z;
  qp_LatestPopularity : Z; qp_LatestBefore : time }.
Record ListByFollowingRequest := mkListByFollowingRequest { qf_Limit : Z; qf_LatestTime : Z }.
Record ListByTagRequest := mkListByTagRequest { qt_TagName : string; qt_Limit : Z }.

(** soft authentication: an anonymous viewer is account 0 *)
Definition viewer (c : Ctx) : Z := match GetAccountID c with Ok id => id | Err _ => 0 end.

Section handler.
Context {W : Type} `{World W} `{SqlEngine} `{RedisServer}.

Definition FeedHandler_ListLatest (fuel : nat) (s : FeedService) (c : Ctx)
    (req : result ListLatestRequest) : ST W (option (Resp ListLatestResponse)) :=
  match req with
  | Err e => st_ret (Some (fail_with e))
  | Ok req =>
      let latestTime := if 0 <? ql_LatestTime req then FromUnixMilli (ql_LatestTime req) else zero_time in
      r <- ListLatest fuel s (page_limit (ql_Limit req)) latestTime (viewer c) ;;
      st_ret (match r with
              | None => None
              | Some (Ok items) => Some (RespOk 200 items)
              | Some (Err e) => Some (RespErr 500 e)
              end)
  end.

(** the cursor of the request, or what is wrong with it *)
Definition likes_cursor (likesCountBefore idBefore : option Z) :
    option LikesCountCursor + string :=
  match likesCountBefore, idBefore with
  | None, None => inl None
  | Some l, Some i =>
      if l <? 0 then inr "invalid cursor: likes_count_before must be >= 0"
      else if i =? 0 then
        if negb (l =? 0) then inr "invalid cursor: id_before must be > 0" else inl None
      else inl (Some (mkLikesCountCursor l i))
  | _, _ => inr "likes_count_before and id_before must be provided together"
  end.

Definition FeedHandler_ListLikesCount (c : Ctx) (req : result ListLikesCountRequest) :
    ST W (Resp ListLikesCountResponse) :=
  or_fail fail_with req (λ req,
    match likes_cursor (qk_LikesCountBefore req) (qk_IDBefore req) with
    | inr msg => st_ret (RespErr 400 (ErrMsg msg))
    | inl cursor =>
        r <- FeedService_ListLikesCount (page_limit (qk_Limit req)) cursor (viewer c) ;;
        or_fail (RespErr 500) r (λ items, st_ret (RespOk 200 items))
    end).

Definition FeedHandler_ListByPopularity (s : FeedService) (c : Ctx)
    (req : result ListByPopularityRequest) : ST W (Resp ListByPopularityResponse) :=
  or_fail fail_with req (λ req,
    let run := λ pop before id,
      r <- FeedService_ListByPopularity s (page_limit (qp_Limit req)) (qp_AsOf req) (qp_Offset req)
             (viewer c) pop before id ;;
      or_fail (RespErr 500) r (λ resp, st_ret (RespOk 200 resp)) in
    if qp_LatestPopularity req <? 0
    then st_ret (RespErr 400 (ErrMsg "latest_popularity must be >= 0"))
    else
      match IsZero (qp_LatestBefore req), qp_LatestIDBefore req with
      | true, None => run 0 zero_time 0
      | false, Some id =>
          if id =? 0
          then st_ret (RespErr 400 (ErrMsg "latest_before and latest_id_before must be provided together"))
          else run (qp_LatestPopularity req) (qp_LatestBefore req) id
      | _, _ => st_ret (RespErr 400 (ErrMsg "latest_before and latest_id_before must be provided together"))
      end).

Definition FeedHandler_ListByFollowing (s : FeedService) (c : Ctx)
    (req : result ListByFollowingRequest) : ST W (Resp ListByFollowingResponse) :=
  or_fail fail_with req (λ req,
    or_fail (RespErr 401) (GetAccountID c) (λ accountID,
      let latestTime := if 0 <? qf_LatestTime req then FromUnix (qf_LatestTime req) else zero_time in
      r <- FeedService_ListByFollowing s (page_limit (qf_Limit req)) latestTime accountID ;;
      or_fail (RespErr 500) r (λ items, st_ret (RespOk 200 items)))).

Definition FeedHandler_ListByTag (c : Ctx) (req : result ListByTagRequest) :
    ST W (Resp (list FeedVideoItem)) :=
  or_fail (RespErr 400) req (λ req,
    if String.eqb (qt_TagName req) "" then st_ret (RespErr 400 (ErrMsg "tag_name is required"))
    else
      r <- FeedService_ListByTag (qt_TagName req) (page_limit (qt_Limit req)) (viewer c) ;;
      or_fail fail_with r (λ items, st_ret (RespOk 200 items))).
End handler.
