(* ===== verification/FeedFacts.v ===== *)
(** Theorems on the feed: reading by id through three levels is a lookup in the
    database; walking the pages by likes visits every video once; the latest
    list returns, and when it does not. *)
From S2P Require Import Prelude GoStd Query Entities Json Services RedisFacts RedisClient ClientFacts.
From S2P Require Import Mq DbFacts Http Video Like LikeFacts Feed Reference.
Local Open Scope Z_scope.

(** ** Reading videos by their ids *)
Section entities.
Context {W : Type} `{WorldLaws W} `{SqlLaws} `{RedisLaws}.
Variables (cache : option Client) (d : Db).
Hypothesis Hkeyed : keyed TVideo d.
Hypothesis Hrange : ∀ id v, tget TVideo d !! id = Some v → video_in_range v = true.
Abbreviation row id := (tget TVideo d !! id).
Abbreviation ekey := (entity_key cache).

Lemma ekey_inj i j : ekey i = ekey j → i = j.
Proof.
  unfold entity_key, Key. destruct cache as [c|].
  - intros E%string_app_inj_l%string_app_inj_l. by apply dec_inj'.
  - intros E%string_app_inj_l. by apply dec_inj'.
Qed.

(** Whatever is cached for an id is the row with that id. *)
Definition local_ok (m : gmap string Video) : Prop :=
  ∀ id v, m !! ekey id = Some v → row id = Some v.
Definition redis_ok (s : Rds) : Prop :=
  (∀ id, string_key s (ekey id)) ∧
  ∀ id b dl v, s !! ekey id = Some (RStr b, dl) → unmarshal_video b = Ok v → row id = Some v.

(** A world in which the database is up, holds [d], and the caches agree with it. *)
Definition fready (w : W) : Prop :=
  v_db (view w) = d ∧ up_db (v_up (view w)) = true ∧ local_ok (v_lc (view w)) ∧
  redis_ok (v_rd (view w)).

Lemma fready_same w w' : fready w → view w' = view w → fready w'.
Proof. unfold fready. by intros ? ->. Qed.

Lemma redis_ok_set s id v dl :
  row id = Some v → redis_ok s → redis_ok (<[ekey id := (RStr (marshal_video v), dl)]> s).
Proof.
  intros Hv [Hk Hs]. split; [intros; by apply string_key_insert_str|].
  intros id' b dl' v'. intros [[Ek [= <- _]]|[_ E]]%lookup_insert_Some; [|by eapply Hs].
  apply ekey_inj in Ek as <-. rewrite unmarshal_marshal_video by (by eapply Hrange). by intros [= <-].
Qed.

Lemma lc_set_spec id v ttl w (Q : unit → W → Prop) :
  fready w → row id = Some v → (∀ w', fready w' → Q tt w') → runs (lc_set (ekey id) v ttl) w Q.
Proof.
  intros (Hd & Hu & Hl & Hr) Hv HQ. call. apply HQ. unfold fready. rewrite Hv0. simpl.
  split_and!; try done. intros id' v' [[Ek <-]|[_ E]]%lookup_insert_Some; [|by apply Hl].
  by apply ekey_inj in Ek as <-.
Qed.

(** The state of the three loops: what is found is right, and every requested
    id is found, or has no row, or is still to be looked up. *)
Definition found (ids pending : list Z) (m : gmap Z Video) : Prop :=
  (∀ id v, m !! id = Some v → row id = Some v) ∧
  ∀ id, id ∈ ids → id ∈ pending ∨ m !! id = row id.

Lemma found_hit ids id rest m v :
  row id = Some v → found ids (id :: rest) m → found ids rest (<[id := v]> m).
Proof.
  intros Hv [Hm Hp]. split.
  - intros i x [[-> ->]|[_ E]]%lookup_insert_Some; [done|by apply Hm].
  - intros i Hi. destruct (decide (i = id)) as [->|Hne]; [right; by rewrite lookup_insert_eq|].
    rewrite lookup_insert_ne by done. destruct (Hp i Hi) as [[?|?]%elem_of_cons|?]; auto. done.
Qed.

Lemma found_skip ids id rest m : row id = None → found ids (id :: rest) m → found ids rest m.
Proof.
  intros Hv [Hm Hp]. split; [done|]. intros i Hi.
  destruct (Hp i Hi) as [[->|?]%elem_of_cons|?]; auto. right.
  destruct (m !! id) as [x|] eqn:E; [|done]. apply Hm in E. congruence.
Qed.

Lemma found_move ids pending pending' m :
  (∀ i, i ∈ pending → i ∈ pending') → found ids pending m → found ids pending' m.
Proof. intros Hs [Hm Hp]. split; [done|]. intros i Hi. destruct (Hp i Hi); auto. Qed.

Lemma found_result ids m : found ids [] m → buildOrderedResult ids m =@{list Video} omap (λ id, row id) ids.
Proof.
  intros [_ Hp]. unfold buildOrderedResult.
  assert (∀ l : list Z, (∀ i, i ∈ l → m !! i = row i) →
    omap (λ id, m !! id) l =@{list Video} omap (λ id, row id) l) as Hl.
  { induction l as [|i l IH]; intros Hi; [done|]. simpl. rewrite Hi by (by left).
    pose proof (IH ltac:(intros; apply Hi; by right)) as E. unfold omap in E. by rewrite E. }
  apply Hl. intros i Hi. destruct (Hp i Hi) as [Hn|]; [by apply elem_of_nil in Hn|done].
Qed.

(** The loops keep the world and the two halves of [found]. *)
Lemma read_local_spec ids w :
  fready w →
  runs (st_fold (read_local cache) ids (∅, [])) w (λ r w', fready w' ∧ found ids r.2 r.1).
Proof.
  intros Hw.
  eapply runs_mono; [apply (runs_fold _ (λ rest acc w', fready w' ∧ found ids (acc.2 ++ rest) acc.1))|].
  - split; [done|]. split; [by intros i v; simpl; rewrite lookup_empty|]. by left.
  - intros id rest [m missed] w1 [Hw1 Hf]. simpl in Hf. unfold read_local. call.
    pose proof (fready_same _ _ Hw1 Hv) as Hw2.
    assert (∀ v, r = Some v → row id = Some v) as Hrow.
    { intros v ->. destruct Hr as [?|E]; [done|]. by apply Hw1. }
    glue. destruct r as [v|]; apply runs_ret; (split; [done|]); simpl.
    + apply found_hit; [by apply Hrow|]. eapply found_move; [|done]. set_solver.
    + by rewrite <-app_assoc.
  - intros [m missed] w' [? Hf]. simpl in *. by rewrite app_nil_r in Hf.
Qed.

Lemma take_redis_spec ids (l : list (Z * option bytes)) m w :
  fready w → found ids l.*1 m →
  (∀ id b v, (id, Some b) ∈ l → unmarshal_video b = Ok v → row id = Some v) →
  runs (st_fold (take_redis cache) l (m, [])) w (λ r w', fready w' ∧ found ids r.2 r.1).
Proof.
  intros Hw Hf Hl.
  eapply runs_mono; [apply (runs_fold _ (λ rest acc w', fready w' ∧ found ids (acc.2 ++ rest.*1) acc.1 ∧
    ∀ x, x ∈ rest → x ∈ l))|].
  - done.
  - intros [id res] rest [m1 missed] w1 (Hw1 & Hf1 & Hsub). simpl in Hf1. unfold take_redis.
    assert (∀ x, x ∈ rest → x ∈ l) as Hsub' by (intros x Hx; apply Hsub; by right).
    assert (found ids ((missed ++ [id]) ++ rest.*1) m1) as Hmiss by (by rewrite <-app_assoc).
    destruct res as [b|]; [|by apply runs_ret].
    destruct (unmarshal_video b) as [v|e] eqn:Eb; [|by apply runs_ret].
    assert (row id = Some v) as Hv by (eapply Hl; [apply Hsub; by left|done]).
    apply runs_bind, lc_set_spec; [done..|]. intros w2 Hw2. apply runs_ret. split; [done|].
    split; [|done]. simpl. apply found_hit; [done|]. eapply found_move; [|done]. set_solver.
  - intros [m1 missed] w' (? & Hf1 & _). simpl in *. by rewrite app_nil_r in Hf1.
Qed.

Lemma read_redis_spec ids missed m w :
  fready w → found ids missed m →
  runs (read_redis cache missed m) w (λ r w', fready w' ∧ found ids r.2 r.1).
Proof.
  intros Hw Hf. unfold read_redis. destruct cache as [c|] eqn:Ec; [|by apply runs_ret].
  rewrite <-Ec in *. unfold MGet. pose proof Hw as (_ & _ & _ & Hk & Hs).
  call; rewrite law_mget in Hv; cbn [fst snd] in Hv; rewrite set_rd_same in Hv.
  - rewrite law_mget. cbn [fst]. set (f := str_of _ _).
    apply take_redis_spec; [by eapply fready_same| |].
    + rewrite fst_zip; [done|]. by rewrite !length_fmap.
    + intros id b v [i Hi]%list_elem_of_lookup Hb. apply lookup_zip_with_Some in Hi.
      destruct Hi as (id' & x & [= <- <-] & Hid & Hx). rewrite !list_lookup_fmap, Hid in Hx.
      injection Hx as Hx. apply str_of_Some in Hx as [dl Hx]. by eapply Hs.
  - glue. split; [|done]. eapply fready_same; [done|]. by destruct Hv.
Qed.

Lemma read_mysql_spec ids missed m w :
  fready w → found ids missed m →
  runs (st_fold (read_mysql cache) missed m) w (λ r w', fready w' ∧ found ids [] r).
Proof.
  intros Hw Hf.
  eapply runs_mono; [apply (runs_fold _ (λ rest m w', fready w' ∧ found ids rest m))|by auto].
  - done.
  - intros id rest m1 w1 [Hw1 Hf1]. unfold read_mysql.
    apply runs_bind, runs_sf, runs_try. unfold FeedRepo_GetByID.
    pose proof Hw1 as (Hd & Hu & _). apply runs_query; [|congruence].
    intros w2 E2. rewrite Hd, sel_first_id by done. pose proof (fready_same _ _ Hw1 E2) as Hw2.
    destruct (row id) as [v|] eqn:Ev; [|apply runs_ret; split; [done|]; by eapply found_skip].
    assert (v_ID v = id) as Hid by by apply Hkeyed in Ev.
    assert (∀ w3, fready w3 → runs (match Ok v with
      | Ok v0 => st_bind (lc_set (ekey (v_ID v0)) v0 (5 * Second)) (λ _, st_ret (<[id:=v0]> m1))
      | Err _ => st_ret m1 end) w3 (λ m2 w', fready w' ∧ found ids rest m2)) as Hk.
    { intros w3 Hw3. apply runs_bind. rewrite Hid. apply lc_set_spec; [done..|]. intros w4 Hw4.
      apply runs_ret. split; [done|]. by apply found_hit. }
    destruct cache as [c|] eqn:Ec; [|by apply runs_ret, Hk]. rewrite <-Ec in *.
    apply runs_bind, runs_SetBytes; [unfold Hour, Minute, Second; lia| |].
    + intros r w3 _ _ E3. apply runs_ret, Hk. destruct Hw2 as (? & ? & ? & Hr).
      unfold fready. rewrite E3. simpl. split_and!; try done. rewrite Hid. by apply redis_ok_set.
    + intros code w3 _ E3 _. apply runs_ret, Hk. by eapply fready_same.
Qed.

(** C32: reading videos by their ids is looking them up in the database.
    Whatever the three levels hold, as long as no cached entry disagrees with
    its row, and whether Redis answers or not, the answer lists the videos
    that exist, in the order asked for; the tables are left as they are and
    the caches still agree with them. *)
Theorem GetVideosByIDs_lookup ttl ids w :
  fready w →
  runs (GetVideosByIDs (mkFeedService cache ttl) ids) w (λ r w',
    r = Ok (omap (λ id, row id) ids) ∧ fready w').
Proof.
  intros Hw. unfold GetVideosByIDs. cbn [fs_redisCache].
  destruct ids as [|id0 ids0]; [by apply runs_ret|]. set (ids := id0 :: ids0).
  apply runs_bind. eapply runs_mono; [by apply (read_local_spec ids)|].
  intros [m missed] w1 [Hw1 Hf1]. simpl in Hf1.
  destruct missed as [|x l]; [apply runs_ret; split; [|done]; by rewrite (found_result ids)|].
  apply runs_bind. eapply runs_mono; [by apply (read_redis_spec ids)|].
  intros [m2 missed2] w2 [Hw2 Hf2]. simpl in Hf2.
  apply runs_bind. eapply runs_mono; [by apply (read_mysql_spec ids)|].
  intros m3 w3 [Hw3 Hf3]. apply runs_ret. split; [|done]. by rewrite (found_result ids).
Qed.
End entities.

(** ** Walking the pages of a keyset cursor *)
Section keyset.
Context `{SqlLaws} {A : Type}.
Variables (ks : list (okey A)) (after : A → A → bool) (l : list A).
Hypothesis Hdist : distinct_on ks l.
Hypothesis Hnd : NoDup l.
Hypothesis Hafter : ∀ x y, after x y = true ↔ ord_lt ks x y.

(** A page from the start. *)
Lemma select_start n : eng_select (λ _, true) ks (Some n) l = take n (order_by ks l).
Proof.
  assert (List.filter (λ _ : A, true) l = l) as Hf by by apply lfilter_all.
  rewrite (is_select_unique _ _ _ _ _ ltac:(by rewrite Hf) (law_select _ (λ _, true) ks (Some n) l)).
  simpl. by rewrite Hf.
Qed.

(** The page after [x] is what follows [x] in the order. *)
Lemma select_after n l1 x l2 :
  order_by ks l = l1 ++ x :: l2 → eng_select (after x) ks (Some n) l = take n l2.
Proof.
  intros E.
  assert (distinct_on ks (List.filter (after x) l)) as Hd.
  { eapply distinct_on_sub; [|done]. intros y [_ ?]%elem_of_lfilter. done. }
  rewrite (is_select_unique _ _ _ _ _ Hd (law_select _ (after x) ks (Some n) l)).
  simpl. f_equal. rewrite order_by_filter, E by done.
  assert (∀ y, y ∈ l1 ++ x :: l2 → y ∈ l) as Hin.
  { intros y Hy. by rewrite <-E, order_by_perm in Hy. }
  assert (StronglySorted (ord_le ks) (l1 ++ x :: l2)) as Hs by (rewrite <-E; apply order_by_sorted).
  apply (lfilter_after (ord_le ks)); [done| | |].
  - intros y Hy Hle. apply not_true_is_false. rewrite Hafter. intros Hlt. by apply ord_lt_asym in Hlt.
  - apply not_true_is_false. rewrite Hafter. apply ord_lt_irrefl.
  - intros y Hy Hle. apply Hafter. apply ord_le_lt_eq in Hle as [?|Heq]; [done|]. exfalso.
    assert (x = y) as <- by (apply Hdist; [apply Hin; set_solver..|done]).
    rewrite <-(order_by_perm ks l), E in Hnd. apply list.NoDup_app in Hnd as (_ & _ & Hn).
    by apply list.NoDup_cons in Hn as [? _].
Qed.
End keyset.

(** What a viewer is shown of a video. *)
Definition shown (d : Db) (accountID : Z) (v : Video) : FeedVideoItem :=
  mkFeedVideoItem (v_ID v) (mkFeedAuthor (v_AuthorID v) (v_Username v)) (v_Title v)
    (v_Description v) (v_PlayURL v) (v_CoverURL v) (Unix (v_CreateTime v)) (v_LikesCount v)
    (negb (accountID =? 0) && bool_decide ((v_ID v, accountID) ∈ pairs d)).

Section items.
Context {W : Type} `{WorldLaws W} `{SqlLaws}.
Implicit Types w : W.

Lemma liked_map_lookup (ls : list Like) (m : gmap Z bool) id :
  foldl (λ m l, <[l_VideoID l := true]> m) m ls !! id =
    if bool_decide (id ∈ l_VideoID <$> ls) then Some true else m !! id.
Proof.
  revert m. induction ls as [|l ls IH]; intros m; simpl; [done|]. rewrite IH.
  destruct (decide (l_VideoID l = id)) as [->|Hne].
  - rewrite lookup_insert_eq, (bool_decide_eq_true_2 (id ∈ id :: _)) by (by left).
    by case_bool_decide.
  - rewrite lookup_insert_ne by done. 
    assert (bool_decide (id ∈ l_VideoID l :: (l_VideoID <$> ls)) = bool_decide (id ∈ l_VideoID <$> ls))
      as E by (apply bool_decide_ext; rewrite elem_of_cons; naive_solver).
    change (list_fmap Like Z l_VideoID ls) with (l_VideoID <$> ls). by rewrite E.
Qed.

(** The items of a page say of every video whether the viewer likes it. *)
Lemma buildFeedVideos_up videos accountID w (Q : result (list FeedVideoItem) → W → Prop) :
  up_db (v_up (view w)) = true →
  (∀ w', view w' = view w → Q (Ok (shown (v_db (view w)) accountID <$> videos)) w') →
  runs (buildFeedVideos videos accountID) w Q.
Proof.
  intros Hup HQ. unfold buildFeedVideos, GetBatchLiked.
  destruct videos as [|v0 vs]; [by apply runs_try, runs_ret, HQ|]. set (videos := v0 :: vs).
  change (v_ID <$> videos) with (v_ID v0 :: (v_ID <$> vs)).
  destruct (Z.eqb_spec accountID 0) as [->|Ha].
  { apply runs_try, runs_ret. cbn beta iota. apply runs_ret.
    replace (feed_item ∅ <$> videos) with (shown (v_db (view w)) 0 <$> videos); [by apply HQ|].
    apply list_fmap_ext. intros i v _. unfold feed_item. by rewrite lookup_empty. }
  apply runs_try, runs_try, runs_query; [|congruence]. intros w1 E1. cbn beta iota. apply runs_ret.
  cbn beta iota. apply runs_ret. set (d := v_db (view w)) in *. set (ls := eng_select _ _ _ _).
  replace (feed_item _ <$> videos) with (shown d accountID <$> videos); [by apply HQ|].
  apply list_fmap_ext. intros i v Hv%list_elem_of_lookup_2. unfold feed_item, shown.
  rewrite liked_map_lookup, lookup_empty. f_equal.
  rewrite (proj2 (Z.eqb_neq _ _) Ha). cbn [negb andb].
  pose proof (law_select _ (λ l : Like, bool_decide (l_VideoID l ∈ v_ID v0 :: (v_ID <$> vs)) &&
    (l_AccountID l =? accountID)) [] None (rows TLike d)) as Hsel. fold ls in Hsel.
  replace (bool_decide ((v_ID v, accountID) ∈ pairs d))
    with (bool_decide (v_ID v ∈ l_VideoID <$> ls)); [by case_bool_decide|].
  apply bool_decide_ext. rewrite list_elem_of_fmap, elem_of_pairs. split.
  - intros (l & E & Hl). apply (is_select_elem _ _ _ _ _ _ Hsel) in Hl as [Hw Hl].
    bool_to_prop. exists l. split; [done|]. unfold pair_of. congruence.
  - intros (l & Hl & [= E1' E2]). exists l. split; [done|].
    apply (is_select_all _ _ _ _ _ Hsel); [|done].
    rewrite E2, Z.eqb_refl, andb_true_r. apply bool_decide_eq_true. rewrite E1'.
    change (v_ID v ∈ v_ID <$> videos). apply list_elem_of_fmap. eauto.
Qed.

(** *** ListLikesCount *)

(** A client that walks the list: it sends back the cursor of the page it got,
    as long as the page says that there is more. *)
Fixpoint walk_likes (fuel : nat) (c : Ctx) (limit : Z) (likes id : option Z) :
    ST W (option (list FeedVideoItem)) :=
  match fuel with
  | O => st_ret None
  | S fuel =>
      st_bind (FeedHandler_ListLikesCount c (Ok (mkListLikesCountRequest limit likes id))) (λ r,
      match r with
      | RespOk 200 page =>
          if lk_HasMore page then
            st_bind (walk_likes fuel c limit (lk_NextLikesCountBefore page) (lk_NextIDBefore page))
              (λ rest, st_ret (app (lk_VideoList page) <$> rest))
          else st_ret (Some (lk_VideoList page))
      | _ => st_ret None
      end)
  end.

Lemma likes_distinct d : keyed TVideo d → distinct_on likes_order (rows TVideo d).
Proof.
  intros Hk x y Hx Hy. unfold likes_order. cbn [ord_cmp okey_val].
  destruct (Z.compare_spec (- v_LikesCount x) (- v_LikesCount y)); [|done|done].
  destruct (Z.compare_spec (- v_ID x) (- v_ID y)); [|done|done]. intros _.
  apply (keyed_inj TVideo d); [done..|]. simpl. lia.
Qed.

Lemma rows_nodup {R} (T : table R) d : keyed T d → NoDup (rows T d).
Proof.
  intros Hk. unfold rows. apply NoDup_fmap_2_strong; [|apply NoDup_map_to_list].
  intros [k1 r1] [k2 r2] E1%elem_of_map_to_list E2%elem_of_map_to_list. simpl. intros ->.
  f_equal. by rewrite <-(Hk _ _ E1), <-(Hk _ _ E2).
Qed.

Lemma after_likes_lt x y :
  after_likes (Some (mkLikesCountCursor (v_LikesCount x) (v_ID x))) y = true ↔ ord_lt likes_order x y.
Proof.
  unfold after_likes, ord_lt, likes_order. cbn [ord_cmp okey_val lc_LikesCount lc_ID].
  rewrite orb_true_iff, andb_true_iff, !Z.ltb_lt, Z.eqb_eq.
  destruct (Z.compare_spec (- v_LikesCount x) (- v_LikesCount y)),
    (Z.compare_spec (- v_ID x) (- v_ID y)); split; try done; lia.
Qed.

(** One page: the videos that the cursor leaves, and the cursor after them. *)
Definition likes_page (d : Db) (acc limit : Z) (rest : list Video) : ListLikesCountResponse :=
  let videos := take (Z.to_nat limit) rest in
  let more := Z.of_nat (length videos) =? limit in
  mkListLikesCountResponse (shown d acc <$> videos) (v_LikesCount <$> last_elem videos)
    (v_ID <$> last_elem videos) more.

Lemma likes_handler_page c limit likes id cursor rest w :
  up_db (v_up (view w)) = true → 0 < limit ≤ 50 → likes_cursor likes id = inl cursor →
  eng_select (after_likes cursor) likes_order (sql_limit limit) (rows TVideo (v_db (view w))) =
    take (Z.to_nat limit) rest →
  runs (FeedHandler_ListLikesCount c (Ok (mkListLikesCountRequest limit likes id))) w (λ r w',
    view w' = view w ∧ r = RespOk 200 (likes_page (v_db (view w)) (viewer c) limit rest)).
Proof.
  intros Hup Hlim Hc Hsel. unfold FeedHandler_ListLikesCount, or_fail.
  cbn [qk_LikesCountBefore qk_IDBefore qk_Limit]. rewrite Hc.
  assert (page_limit limit = limit) as ->.
  { unfold page_limit. destruct (Z.leb_spec limit 0), (Z.ltb_spec 50 limit); try lia. done. }
  unfold FeedService_ListLikesCount, FeedRepo_ListLikesCount.
  apply runs_bind, runs_try, runs_query; [|congruence]. intros w1 E1. rewrite Hsel. cbn beta iota.
  apply runs_try, buildFeedVideos_up; [by rewrite E1|]. intros w2 E2. cbn beta iota.
  apply runs_ret. rewrite E1. unfold likes_page.
  destruct (last_elem (take (Z.to_nat limit) rest)) as [v|]; apply runs_ret; (split; [congruence|done]).
Qed.

Lemma likes_walk_from c limit likes id cursor fuel : ∀ rest w pre,
  up_db (v_up (view w)) = true → keyed TVideo (v_db (view w)) →
  (∀ v, v ∈ rows TVideo (v_db (view w)) → 0 ≤ v_LikesCount v ∧ v_ID v ≠ 0) →
  0 < limit ≤ 50 → (length rest < fuel)%nat →
  likes_cursor likes id = inl cursor →
  order_by likes_order (rows TVideo (v_db (view w))) = pre ++ rest →
  eng_select (after_likes cursor) likes_order (sql_limit limit) (rows TVideo (v_db (view w))) =
    take (Z.to_nat limit) rest →
  runs (walk_likes fuel c limit likes id) w (λ r w', view w' = view w ∧
    r = Some (shown (v_db (view w)) (viewer c) <$> rest)).
Proof.
  revert likes id cursor. induction fuel as [|fuel IH];
    intros likes id cursor rest w pre Hup Hk Hpos Hlim Hfuel Hc Hord Hsel; [lia|].
  cbn [walk_likes]. apply runs_bind. eapply runs_mono; [by eapply likes_handler_page|].
  intros r w1 [E1 ->]. unfold likes_page. cbn [lk_HasMore lk_VideoList lk_NextLikesCountBefore lk_NextIDBefore].
  set (n := Z.to_nat limit) in *. set (d := v_db (view w)) in *.
  destruct (Z.eqb_spec (Z.of_nat (length (take n rest))) limit) as [Hfull|Hpart].
  - assert (n ≤ length rest)%nat as Hn by (rewrite length_take in Hfull; lia).
    destruct (last_elem (take n rest)) as [x|] eqn:Ex.
    2:{ apply last_elem_None in Ex. rewrite Ex in Hfull. simpl in Hfull. lia. }
    apply last_elem_inv in Ex as [l' El']. cbn [fmap option_fmap option_map].
    assert (order_by likes_order (rows TVideo d) = (pre ++ l') ++ x :: drop n rest) as Hord'.
    { rewrite Hord, <-(take_drop n rest) at 1. by rewrite El', <-!app_assoc. }
    assert (x ∈ rows TVideo d) as Hx by (rewrite <-(order_by_perm likes_order), Hord'; set_solver).
    destruct (Hpos x Hx) as [Hx1 Hx2]. apply runs_bind.
    eapply runs_mono.
    { apply (IH _ _ (Some (mkLikesCountCursor (v_LikesCount x) (v_ID x))) (drop n rest) w1 (pre ++ l' ++ [x]));
        rewrite ?E1; try done.
      - rewrite length_drop. lia.
      - unfold likes_cursor. destruct (Z.ltb_spec (v_LikesCount x) 0), (Z.eqb_spec (v_ID x) 0); try lia; done.
      - fold d. rewrite Hord'. by rewrite <-!app_assoc.
      - unfold sql_limit. destruct (Z.ltb_spec limit 0); [lia|].
        exact (select_after likes_order
                 (λ x, after_likes (Some (mkLikesCountCursor (v_LikesCount x) (v_ID x)))) (rows TVideo d)
                 (likes_distinct _ Hk) (rows_nodup TVideo d Hk) after_likes_lt n _ x _ Hord'). }
    intros r2 w2 [E2 ->]. apply runs_ret. rewrite E1 in *. split; [congruence|]. cbn [fmap option_fmap option_map].
    fold d. by rewrite <-fmap_app, take_drop.
  - apply runs_ret. split; [done|]. rewrite take_ge; [done|]. rewrite length_take in Hpart. lia.
Qed.

(** C33: walking the list by likes, page after page with the cursor of the
    last page, shows every video exactly once, in the order of (likes, id)
    descending, each with whether the viewer likes it; one page per video
    bounds the walk. *)
Theorem ListLikesCount_walk c limit fuel w :
  up_db (v_up (view w)) = true → db_ok (v_db (view w)) → counts_inv (v_db (view w)) →
  0 < limit ≤ 50 → (length (rows TVideo (v_db (view w))) < fuel)%nat →
  runs (walk_likes fuel c limit None None) w (λ r w', view w' = view w ∧
    r = Some (shown (v_db (view w)) (viewer c) <$>
              order_by likes_order (rows TVideo (v_db (view w))))).
Proof.
  intros Hup Hd Hc Hlim Hfuel. destruct (Hd _ TVideo) as (Hk & _ & Hp).
  eapply (likes_walk_from c limit None None None fuel _ w []); try done.
  - intros v [k E]%elem_of_rows. pose proof (Hk _ _ E) as Hid. pose proof (Hp _ _ E). simpl in Hid.
    destruct (Hc _ _ E) as [-> _]. unfold likes_of. lia.
  - by rewrite order_by_perm.
  - unfold sql_limit. destruct (Z.ltb_spec limit 0); [lia|].
    exact (select_start likes_order (rows TVideo (v_db (view w))) (likes_distinct _ Hk) (Z.to_nat limit)).
Qed.
End items.

(** ** The recursion of ListLatest *)
Section latest.
Context {W : Type} `{WorldLaws W} `{SqlLaws} `{RedisLaws}.
Implicit Types w : W.

Lemma zlisting_nil (z : gmap string Z) : zlisting z [] → z = ∅.
Proof. intros [Hp _]. apply Permutation_nil_l in Hp. by apply map_to_list_empty_iff. Qed.

(** The head of a sorted set that is not empty. *)
Lemma first_of_zset (z : gmap string Z) l : zlisting z l → z ≠ ∅ → rank_slice 0 0 l ≠ [].
Proof.
  intros Hl Hz. destruct l as [|x l]; [by apply zlisting_nil in Hl|].
  unfold rank_slice. cbn [length]. replace (Z.min 0 (Z.of_nat (S (length l)) - 1)) with 0 by lia. done.
Qed.

Lemma zadd_all_nonempty ms (z : gmap string Z) : ms ≠ [] ∨ z ≠ ∅ → zadd_all ms z ≠ ∅.
Proof.
  revert z. induction ms as [|m ms IH]; intros z Hz; simpl; [by destruct Hz|].
  apply IH. right. apply insert_non_empty.
Qed.

Lemma some_result {A} (m : ST W A) w : runs (st_bind m (λ r, st_ret (Some r))) w (λ r _, is_Some r).
Proof. apply runs_bind, runs_intro. intros a w' _. apply runs_ret. eauto. Qed.

(** With a timeline, one call is enough. *)
Lemma ListLatest_hot fuel c ttl limit latestBefore acc z w :
  up_rd (v_up (view w)) = true → holds_zset (v_rd (view w)) (timeline_key (Some c)) z → z ≠ ∅ →
  runs (ListLatest (S fuel) (mkFeedService (Some c) ttl) limit latestBefore acc) w (λ r _, is_Some r).
Proof.
  intros Hup Hz Hne. cbn [ListLatest fs_redisCache]. unfold ZRangeWithScores, when_client.
  call; [|congruence].
  destruct (law_zrange_withscores (timeline_key (Some c)) 0 0 (clk w') (v_rd (view w))) as (l & Hl & ->).
  { by eapply holds_zset_is_str. }
  cbn [fst]. rewrite (holds_zset_of _ _ _ _ Hz) in Hl.
  pose proof (first_of_zset z l Hl Hne) as Hf.
  destruct (rank_slice 0 0 l) as [|[m x] l']; [done|]. apply some_result.
Qed.

(** C34: with the database and Redis up, [ListLatest] returns: an empty
    timeline is rebuilt and then found, so the function calls itself at most
    once. *)
Theorem ListLatest_returns s limit latestBefore acc z w :
  v_up (view w) = all_up → holds_zset (v_rd (view w)) (timeline_key (fs_redisCache s)) z →
  runs (ListLatest 2 s limit latestBefore acc) w (λ r _, is_Some r).
Proof.
  intros Hup Hz. remember 1%nat as one eqn:Hone. destruct s as [[c|] ttl]; [|apply some_result].
  cbn [fs_redisCache] in Hz.
  destruct (decide (z = ∅)) as [->|Hne]; [|eapply ListLatest_hot; [by rewrite Hup|done..]].
  cbn [ListLatest fs_redisCache].
  apply runs_bind. unfold ZRangeWithScores, when_client. call; [|outage].
  destruct (law_zrange_withscores (timeline_key (Some c)) 0 0 (clk w') (v_rd (view w))) as (l & Hl & E).
  { by eapply holds_zset_is_str. }
  rewrite E in Hv |- *. cbn [fst snd] in *. rewrite set_rd_same in Hv.
  destruct (rank_slice 0 0 l) as [|[m x] l']; [|apply some_result].
  apply runs_bind, runs_sf. unfold rebuild_timeline, FeedRepo_ListLatest.
  apply runs_try, runs_query; [|intros code w1 _ Hu; rewrite Hv, Hup in Hu; done].
  intros w1 E1. rewrite Hv in E1 |- *. set (videos := eng_select _ _ _ _).
  destruct videos as [|v vs]; [apply runs_ret, runs_ret; eauto|].
  unfold ZAdd, when_client. call; [|outage].
  set (ms := _ <$> v :: vs) in *.
  rewrite law_zadd in Hv0 by (done || rewrite E1; by eapply holds_zset_is_str). cbn [snd] in Hv0. glue.
  rewrite Hone. eapply (ListLatest_hot 0); [by rewrite Hv0, E1; cbn; rewrite Hup| |].
  - rewrite Hv0. cbn [v_rd set_rd]. rewrite E1, (holds_zset_deadline _ _ _ _ Hz).
    apply holds_zset_insert.
  - apply zadd_all_nonempty. by left.
Qed.
End latest.

(** ** Concrete runs *)

(** two videos of the same second by account 7, whom account 9 follows *)
Definition early_video : Video := mkVideo 1 7 "ann" "a" "" "p" "c" 1200 0 0.
Definition late_video : Video := mkVideo 2 7 "ann" "b" "" "p" "c" 1500 0 0.
Definition following_db : Db :=
  tset TVideo {[ 1 := early_video; 2 := late_video ]}
    (tset TSocial {[ 1 := mkSocial 1 9 7 ]} empty_db).

(** the ids of a page, its cursor and whether it says there is more *)
Definition page_of (r : Resp ListByFollowingResponse) : option (list Z * Z * bool) :=
  match r with
  | RespOk _ p => Some (fv_ID <$> lb_VideoList p, lb_NextTime p, lb_HasMore p)
  | RespErr _ _ => None
  end.

Definition two_following_pages (w : RefW) : option (list Z * Z * bool) * option (list Z * Z * bool) :=
  let s := NewFeedService None in
  let c := mkCtx (Some 9) (Some "bob"%string) in
  let '(r1, w1) := FeedHandler_ListByFollowing s c (Ok (mkListByFollowingRequest 1 0)) w in
  let next := match page_of r1 with Some (_, t, _) => t | None => 0 end in
  let '(r2, _) := FeedHandler_ListByFollowing s c (Ok (mkListByFollowingRequest 1 next)) w1 in
  (page_of r1, page_of r2).

(** The cursor of the followed list is cut to the second while the
    database compares milliseconds: of two videos of one second the first
    page shows the later, says that there is more, and the page after it is
    empty, so the earlier one is never shown. *)
Theorem ListByFollowing_skips :
  two_following_pages (ref_start following_db 5000) = (Some ([2], 1, true), Some ([], 0, false)).
Proof. by vm_compute. Qed.

(** reads of Redis answer, writes to it are refused, [n] times over *)
Fixpoint refusing (n : nat) : list bool :=
  match n with O => [] | S n => false :: false :: true :: refusing n end.
Definition refusing_view : View :=
  mkView following_db ∅ [] ∅ (mkUp true false true true).

Lemma ListLatest_again n c ttl limit t acc clk seq rest :
  ListLatest (S n) (mkFeedService (Some c) ttl) limit t acc
    (mkRefW refusing_view clk seq (false :: false :: true :: rest)) =
  ListLatest n (mkFeedService (Some c) ttl) limit t acc
    (mkRefW refusing_view (clk + 1 + 1 + 1) seq rest).
Proof. reflexivity. Qed.

(** The result of the write that rebuilds the timeline is ignored: while
    Redis refuses writes and answers reads (out of memory, a read-only
    replica), [ListLatest] calls itself without end, whatever the number of
    calls allowed. *)
Theorem ListLatest_spins fuel c ttl limit t acc :
  (ListLatest fuel (mkFeedService (Some c) ttl) limit t acc
     (mkRefW refusing_view 0 0 (refusing fuel))).1 = None.
Proof.
  generalize 0 at 1 as k. induction fuel as [|fuel IH]; intros k; [done|].
  cbn [refusing]. by rewrite ListLatest_again.
Qed.

(** ** Witnesses *)
Lemma following_video k v : tget TVideo following_db !! k = Some v →
  (k = 1 ∧ v = early_video) ∨ (k = 2 ∧ v = late_video).
Proof.
  unfold following_db. rewrite tget_tset.
  intros [[<- <-]|[_ [<- <-]%lookup_singleton_Some]]%lookup_insert_Some; auto.
Qed.

Lemma following_social k s : tget TSocial following_db !! k = Some s → k = 1 ∧ s = mkSocial 1 9 7.
Proof.
  unfold following_db. rewrite tget_tset_ne, tget_tset by done.
  by intros [<- <-]%lookup_singleton_Some.
Qed.

Lemma following_db_ok : db_ok following_db.
Proof.
  apply db_ok_tset; [apply db_ok_tset; [apply db_ok_empty|]|].
  - split_and!.
    + intros k r. rewrite tget_tset. by intros [<- <-]%lookup_singleton_Some.
    + intros k1 k2 r1 r2. rewrite tget_tset.
      by intros [<- <-]%lookup_singleton_Some [<- <-]%lookup_singleton_Some.
    + intros k r. rewrite tget_tset. intros [<- <-]%lookup_singleton_Some. lia.
  - split_and!.
    + by intros k r [[-> ->]|[-> ->]]%following_video.
    + by intros k1 k2 r1 r2 [[-> ->]|[-> ->]]%following_video [[-> ->]|[-> ->]]%following_video [[? ?] _].
    + intros k r [[-> _]|[-> _]]%following_video; lia.
Qed.

Lemma following_counts : counts_inv following_db.
Proof. by intros k r [[-> ->]|[-> ->]]%following_video. Qed.

Lemma following_range id v : tget TVideo following_db !! id = Some v → video_in_range v = true.
Proof. by intros [[-> ->]|[-> ->]]%following_video. Qed.

Lemma fready_start cache : fready cache following_db (ref_start following_db 5).
Proof.
  unfold fready, local_ok, redis_ok, string_key. simpl. setoid_rewrite lookup_empty. by split_and!.
Qed.

Lemma GetVideosByIDs_lookup_witness :
  let w := ref_start following_db 5 in let cache := Some (mkClient "v1:") in
  runs (GetVideosByIDs (mkFeedService cache 0) [2; 5; 1]) w (λ r w',
    r = Ok (omap (λ id, tget TVideo following_db !! id) [2; 5; 1]) ∧ fready cache following_db w').
Proof.
  intros w cache.
  exact (GetVideosByIDs_lookup cache following_db (proj1 (following_db_ok _ TVideo)) following_range
           0 [2; 5; 1] w (fready_start cache)).
Defined.

Lemma ListLikesCount_walk_witness :
  let w := ref_start following_db 5 in let c := mkCtx (Some 9) None in
  runs (walk_likes 3 c 1 None None) w (λ r w', view w' = view w ∧
    r = Some (shown (v_db (view w)) (viewer c) <$>
              order_by likes_order (rows TVideo (v_db (view w))))).
Proof.
  intros w c. apply (@ListLikesCount_walk RefW ref_world ref_world_laws ref_engine ref_sql_laws c 1 3 w);
    [reflexivity|exact following_db_ok|exact following_counts|lia|vm_compute; lia].
Defined.

Lemma ListLatest_returns_witness :
  let w := ref_start following_db 5 in let s := NewFeedService (Some (mkClient "v1:")) in
  runs (ListLatest 2 s 10 zero_time 0) w (λ r _, is_Some r).
Proof.
  intros w s. exact (@ListLatest_returns RefW ref_world ref_world_laws ref_engine
    ref_redis ref_redis_laws s 10 zero_time 0 ∅ w eq_refl (or_introl (conj eq_refl eq_refl))).
Defined.

(** ** A video listed twice under one tag

    [extractTags] keeps texts of different bytes apart, the table of tags does
    not: a description with two spellings of a tag links its video to the one
    tag twice, and the list of the tag joins both links. *)
#[local] Instance spellings : TagRegex := {| tag_matches _ := ["Go"; "go"] |}.
Definition tagged_world : RefW :=
  (Publish (mkVideo 0 7 "ann" "t" "#Go #go" "p" "c" 1000 0 0)
     (ref_start empty_db 5)).2.

Example ListByTag_twice :
  res_map (map v_ID) (FeedRepo_ListByTag "GO" 10 tagged_world).1 = Ok [1; 1].
Proof. by vm_compute. Qed.
