(* ===== verification/HotList.v ===== *)
(** Theorems on the hot list ([ListByPopularity] of internal/api/feed): the
    windows of the last hour are merged once, and the pages of a reader follow
    that ranking as long as it is kept. *)
From S2P Require Import Prelude GoStd Query Entities Json Services RedisFacts RedisClient Mq DbFacts.
From S2P Require Import ClientFacts Frames Http Video VideoCaches Like LikeFacts Feed FeedFacts.
Local Open Scope Z_scope.
Local Open Scope go_scope.

(** ** The ranking

    The score of a video is the sum of its changes in the windows of the sixty
    minutes up to [asOf]; a video is ranked when one of them has it. *)
Definition window (s : Rds) (k : string) : gmap string Z :=
  match s !! k with Some (RZset z, _) => z | _ => ∅ end.
Definition score (s : Rds) (ks : list string) (m : string) : Z :=
  foldr Z.add 0 ((λ k, default 0 (window s k !! m)) <$> ks).
Definition ranked (s : Rds) (ks : list string) : gset string := ⋃ ((λ k, dom (window s k)) <$> ks).
Definition scores (s : Rds) (ks : list string) : gmap string Z :=
  set_to_map (λ m, (m, score s ks m)) (ranked s ks).

Lemma ranked_elem s ks m : m ∈ ranked s ks ↔ ∃ k, k ∈ ks ∧ is_Some (window s k !! m).
Proof.
  unfold ranked. rewrite elem_of_union_list. setoid_rewrite list_elem_of_fmap. split.
  - intros (X & (k & -> & Hk) & Hm). exists k. split; [done|]. by apply elem_of_dom.
  - intros (k & Hk & Hm). eexists. split; [by exists k|]. by apply elem_of_dom.
Qed.

Lemma scores_lookup s ks m x : scores s ks !! m = Some x ↔ m ∈ ranked s ks ∧ x = score s ks m.
Proof.
  unfold scores. rewrite lookup_set_to_map by (intros ? ? _ _ E; exact E). split.
  - intros (y & Hy & [= -> <-]). done.
  - intros [Hm ->]. by exists m.
Qed.

(** ZUNIONSTORE with SUM computes it. *)
Lemma union_sum (w : string → option Z) ks o x :
  foldl (λ o k, union_with (λ x y, Some (x + y)) o (w k)) o ks = Some x ↔
    (is_Some o ∨ ∃ k, k ∈ ks ∧ is_Some (w k)) ∧
    x = default 0 o + foldr Z.add 0 ((λ k, default 0 (w k)) <$> ks).
Proof.
  revert o. induction ks as [|k ks IH]; intros o.
  - simpl. destruct o as [y|]; simpl.
    + split; [intros [= ->]; split; [left; by eexists|lia]|intros [_ ->]; f_equal; lia].
    + split; [done|]. by intros [[[? [=]]|(k & ?%elem_of_nil & _)] _].
  - cbn [foldl fmap list_fmap foldr]. rewrite IH. clear IH. setoid_rewrite elem_of_cons.
    destruct o as [y|], (w k) as [u|] eqn:Ek; simpl; split; intros [Hex ->];
      (split; [|lia]); try (by left; eexists); try (by right; exists k; rewrite Ek; eauto).
    + destruct Hex as [[? [=]]|(k' & ? & ?)]. right. exists k'. by split; [right|].
    + right. destruct Hex as [[? [=]]|(k' & [->|?] & Hk')]; [|by exists k'].
      rewrite Ek in Hk'. by destruct Hk'.
Qed.

Lemma union_lookup (f : string → gmap string Z) ks z m :
  foldl (λ z k, union_with (λ x y, Some (x + y)) z (f k)) z ks !! m =
    foldl (λ o k, union_with (λ x y, Some (x + y)) o (f k !! m)) (z !! m) ks.
Proof. revert z. induction ks as [|k ks IH]; intros z; [done|]. simpl. by rewrite IH, lookup_union_with. Qed.

Lemma union_agree (f g : string → gmap string Z) ks z :
  (∀ k, k ∈ ks → f k = g k) →
  foldl (λ z k, union_with (λ x y, Some (x + y)) z (f k)) z ks =
    foldl (λ z k, union_with (λ x y, Some (x + y)) z (g k)) z ks.
Proof.
  revert z. induction ks as [|k ks IH]; intros z Hfg; [done|]. simpl. rewrite Hfg by (by left).
  apply IH. intros k' Hk'. apply Hfg. by right.
Qed.

Lemma union_scores s ks :
  foldl (λ z k, union_with (λ x y, Some (x + y)) z (window s k)) ∅ ks = scores s ks.
Proof.
  apply map_eq. intros m. apply option_eq. intros x.
  rewrite union_lookup, union_sum, lookup_empty, scores_lookup, ranked_elem. simpl.
  split; intros [Hex ->]; (split; [|done]); [|by right]. by destruct Hex as [[? [=]]|?].
Qed.

(** ** Ranks and pages *)
Lemma rank_page {A} (i n : Z) (l : list A) :
  0 ≤ i → 0 < n → rank_slice i (i + n - 1) l = take (Z.to_nat n) (drop (Z.to_nat i) l).
Proof.
  intros Hi Hn. unfold rank_slice.
  destruct (Z.ltb_spec i 0), (Z.ltb_spec (i + n - 1) 0); try lia.
  destruct (Z.ltb_spec (Z.min (i + n - 1) (Z.of_nat (length l) - 1)) i).
  - rewrite drop_ge by lia. by rewrite take_nil.
  - destruct (Z.le_gt_cases (i + n - 1) (Z.of_nat (length l) - 1)).
    + rewrite Z.min_l by lia. f_equal. lia.
    + rewrite Z.min_r by lia. rewrite !take_ge; [done|rewrite length_drop; lia..].
Qed.

(** Videos that are ranked: the members of the sorted set, highest first. *)
Definition ranking (d : Db) (z : gmap string Z) (vs : list Video) : Prop :=
  ∃ l, zlisting z l ∧ (λ v, dec (v_ID v)) <$> vs = (reverse l).*1 ∧
    ∀ v, v ∈ vs → tget TVideo d !! v_ID v = Some v ∧ is_uint (v_ID v) = true.

(** Every member is the id of a video, as the program writes it. *)
Definition members_ok (d : Db) (z : gmap string Z) : Prop :=
  ∀ m, is_Some (z !! m) → ∃ v, m = dec (v_ID v) ∧ tget TVideo d !! v_ID v = Some v ∧
    is_uint (v_ID v) = true.

Lemma ranking_exists d z l : members_ok d z → zlisting z l → ∃ vs, ranking d z vs.
Proof.
  intros Hm Hl.
  assert (∀ ms : list string, (∀ m, m ∈ ms → is_Some (z !! m)) → ∃ vs : list Video, (λ v, dec (v_ID v)) <$> vs = ms ∧
    ∀ v, v ∈ vs → tget TVideo d !! v_ID v = Some v ∧ is_uint (v_ID v) = true) as Hvs.
  { induction ms as [|m ms IH]; intros Hms; [exists []; split; [done|]; by intros v ?%elem_of_nil|].
    destruct IH as (vs & <- & Hvs); [intros; apply Hms; by right|].
    destruct (Hm m) as (v & -> & Hv & Hu); [apply Hms; by left|]. exists (v :: vs). split; [done|].
    intros v' [->|Hv']%elem_of_cons; [done|by apply Hvs]. }
  destruct (Hvs (reverse l).*1) as (vs & Hv & Hall).
  - intros m ([m' x] & -> & Hx)%list_elem_of_fmap. rewrite elem_of_reverse in Hx.
    apply (zlisting_elem _ _ _ _ Hl) in Hx. by eexists.
  - exists vs, l. done.
Qed.

(** ** One page *)
Section page.
Context {W : Type} `{WorldLaws W} `{SqlLaws} `{RedisLaws}.
Variables (c : Client) (ttl : Z).
Abbreviation svc := (mkFeedService (Some c) ttl).
Implicit Types w : W.

(** What is shown when the run is over before [T]. *)
Definition before {A} (T : Z) (m : ST W A) w (Q : A → W → Prop) : Prop :=
  runs m w (λ r w', clk w' < T → Q r w').

(** the clock does not go back *)
Definition later : relation W := λ w w', clk w ≤ clk w'.
#[local] Instance later_preorder : PreOrder later.
Proof. split; unfold later; [by intros w|]. intros w1 w2 w3 ? ?. lia. Qed.

Lemma still_later {A} (m : ST W A) : within (on_view untouched) m → within later m.
Proof. intros Hm w. by destruct (Hm w). Qed.
Ltac clock := intros; apply still_later; frame.

Lemma before_bind {A B} T (m : ST W A) (k : A → ST W B) w Q :
  (∀ a, within later (k a)) → before T m w (λ a w1, before T (k a) w1 Q) → before T (st_bind m k) w Q.
Proof.
  intros Hk Hm. unfold before, runs, st_bind in *. destruct (m w) as [a w1]. cbn [fst snd] in *.
  pose proof (Hk a w1) as Hc. unfold later in Hc. intros Ht. apply Hm; [lia|done].
Qed.

Lemma before_intro {A} T (m : ST W A) w Q : runs m w Q → before T m w Q.
Proof. unfold before, runs. auto. Qed.

Lemma before_mono {A} T T' (m : ST W A) w (Q Q' : A → W → Prop) :
  before T' m w Q → T ≤ T' → (∀ r w', Q r w' → Q' r w') → before T m w Q'.
Proof. unfold before, runs. intros Hm HT HQ Ht. apply HQ, Hm. lia. Qed.

Lemma before_clk {A} T (m : ST W A) w Q :
  within later m → before T m w Q → before T m w (λ r w', clk w ≤ clk w' ∧ Q r w').
Proof. intros Hm. unfold before, runs. pose proof (Hm w). auto. Qed.

(** The rows behind the ids, in the order of the ids. *)
Lemma collect_rows (vs : list Video) (m : gmap Z Video) id :
  (∀ v v', v ∈ vs → v' ∈ vs → v_ID v = v_ID v' → v = v') →
  foldl (λ m v, <[v_ID v := v]> m) m vs !! id =
    match List.filter (λ v, v_ID v =? id) vs with v :: _ => Some v | [] => m !! id end.
Proof.
  revert m. induction vs as [|v vs IH]; intros m Hinj; [done|]. cbn [foldl List.filter].
  rewrite IH by (intros; apply Hinj; set_solver).
  destruct (Z.eqb_spec (v_ID v) id) as [<-|Hne].
  - destruct (List.filter _ vs) as [|v' l] eqn:E; [by rewrite lookup_insert_eq|]. f_equal.
    assert (v' ∈ List.filter (λ v', v_ID v' =? v_ID v) vs) as [Hid Hv']%elem_of_lfilter by (rewrite E; by left).
    apply Hinj; [by right|by left|lia].
  - destruct (List.filter _ vs); [by rewrite lookup_insert_ne|done].
Qed.

Lemma ordered_rows d (vs : list Video) :
  keyed TVideo d → (∀ v, v ∈ vs → tget TVideo d !! v_ID v = Some v) →
  buildOrderedResult (v_ID <$> vs) (foldl (λ m v, <[v_ID v := v]> m) ∅
    (eng_select (λ v, bool_decide (v_ID v ∈ v_ID <$> vs)) [] None (rows TVideo d))) = vs.
Proof.
  intros Hk Hvs. pose proof (law_select _ (λ v, bool_decide (v_ID v ∈ v_ID <$> vs)) [] None (rows TVideo d)) as Hs.
  set (sel := eng_select _ _ _ _) in *.
  assert (∀ v, v ∈ vs → foldl (λ m v, <[v_ID v := v]> m) (∅ : gmap Z Video) sel !! v_ID v = Some v) as Hrow.
  { intros v Hv. rewrite collect_rows.
    - assert (v ∈ List.filter (λ v', v_ID v' =? v_ID v) sel) as Hin.
      { apply elem_of_lfilter. split; [by apply Z.eqb_refl|].
        apply (is_select_all _ _ _ _ _ Hs); [|apply elem_of_rows; eauto].
        apply bool_decide_eq_true, list_elem_of_fmap. eauto. }
      destruct (List.filter _ sel) as [|v' l] eqn:E; [by apply elem_of_nil in Hin|]. f_equal.
      assert (v' ∈ List.filter (λ v', v_ID v' =? v_ID v) sel) as [Hid Hv']%elem_of_lfilter by (rewrite E; by left).
      apply (is_select_elem _ _ _ _ _ _ Hs) in Hv' as [_ Hv'].
      apply (keyed_inj TVideo d); [done|done|apply elem_of_rows; eauto|simpl; lia].
    - intros v1 v2 [_ Hv1]%(is_select_elem _ _ _ _ _ _ Hs) [_ Hv2]%(is_select_elem _ _ _ _ _ _ Hs) E.
      by apply (keyed_inj TVideo d). }
  clearbody sel. clear -Hrow. set (m := foldl _ _ sel) in *. clearbody m. unfold buildOrderedResult.
  induction vs as [|v vs IH]; [done|]. cbn [fmap list_fmap]. simpl. rewrite Hrow by (by left). f_equal.
  apply IH. intros v' Hv'. apply Hrow. by right.
Qed.

Lemma parse_ids (vs : list Video) :
  (∀ v, v ∈ vs → 0 < v_ID v ∧ is_uint (v_ID v) = true) →
  parse_pos_ids ((λ v, dec (v_ID v)) <$> vs) = v_ID <$> vs.
Proof.
  unfold parse_pos_ids. induction vs as [|v vs IH]; intros Hv; [done|]. cbn [fmap list_fmap].
  destruct (Hv v) as [Hp Hu]; [by left|]. simpl. rewrite ParseUint_dec by done. cbn [List.filter].
  destruct (Z.ltb_spec 0 (v_ID v)); [|lia]. f_equal. apply IH. intros v' Hv'. apply Hv. by right.
Qed.

Definition hot_page (d : Db) (acc limit asOf offset : Z) (rest : list Video) : ListByPopularityResponse :=
  let videos := take (Z.to_nat limit) rest in
  popularity_response (shown d acc <$> videos) videos asOf (offset + Z.of_nat (length videos))
    (Z.of_nat (length videos) =? limit).

(** The ranking is kept in Redis until [dl]. *)
Definition kept (asOf : time) (z : gmap string Z) (dl : Z) w : Prop :=
  v_rd (view w) !! merge_key (Some c) asOf = Some (RZset z, Some dl).
Lemma listing_exists (z : gmap string Z) : ∃ l, zlisting z l.
Proof.
  pose proof (holds_zset_insert ∅ "" z) as Hz.
  destruct (law_zrange_withscores "" 0 0 0 _ (holds_zset_is_str 0 _ _ _ Hz)) as (l & Hl & _).
  rewrite (holds_zset_of _ _ _ _ Hz) in Hl. by exists l.
Qed.

Lemma ranking_page d z vs t s k limit offset :
  ranking d z vs → zset_of t s k = z → is_str t s k = false → 0 ≤ offset → 0 < limit →
  c_zrevrange k offset (offset + limit - 1) t s =
    ((λ v, dec (v_ID v)) <$> take (Z.to_nat limit) (drop (Z.to_nat offset) vs), s).
Proof.
  intros (l & Hl & Hvs & _) Hz Hk Ho Hn.
  destruct (law_zrevrange k offset (offset + limit - 1) t s Hk) as (l' & Hl' & ->).
  rewrite Hz in Hl'. rewrite (zlisting_unique _ _ _ Hl' Hl), rank_page, <-Hvs by done.
  by rewrite fmap_take, fmap_drop.
Qed.

Lemma popularity_page_kept acc asOf limit offset d z vs dl w :
  up_db (v_up (view w)) = true → up_rd (v_up (view w)) = true → v_db (view w) = d → db_ok d →
  kept asOf z dl w → ranking d z vs → 0 ≤ offset → 0 < limit →
  drop (Z.to_nat offset) vs ≠ [] ∨ 0 < offset →
  before dl (popularity_page (Some c) limit asOf offset acc) w (λ r w', view w' = view w ∧
    r = Some (Ok (hot_page d acc limit (Unix asOf) offset (drop (Z.to_nat offset) vs)))).
Proof.
  intros Hud Hur Ed Hd Hk Hr Ho Hn Hne. destruct (Hd _ TVideo) as (Hkey & _ & Hpos).
  unfold popularity_page, ZRevRange, when_client. apply before_bind; [clock|]. unfold before at 1.
  call; [|congruence]. intros Ht. set (k := merge_key (Some c) asOf) in *.
  assert (live_entry (clk w') (v_rd (view w)) k = Some (RZset z, Some dl)) as Hl by (by apply live_here).
  rewrite (ranking_page d z vs) in Hv |- * by (done || by eapply zset_of_live || by eapply is_str_zset).
  cbn [fst snd] in Hv |- *. rewrite set_rd_same in Hv. destruct Hr as (l & _ & _ & Hrow).
  set (rest := drop _ vs) in *. set (page := take _ rest).
  assert (∀ v, v ∈ page → tget TVideo d !! v_ID v = Some v ∧ is_uint (v_ID v) = true) as Hpage.
  { intros v Hin. apply Hrow. apply (subseteq_drop (Z.to_nat offset)). by apply (subseteq_take (Z.to_nat limit)). }
  destruct (decide (page = [])) as [Ep|Ep].
  - assert (rest = []) as Er.
    { unfold page in Ep. destruct rest; [done|]. destruct (Z.to_nat limit) eqn:En; [lia|done]. }
    rewrite Ep. cbn [fmap list_fmap]. destruct Hne as [?|Hoff]; [done|].
    destruct (Z.ltb_spec 0 offset); [|lia]. unfold before. apply runs_ret. intros _. split; [done|].
    rewrite Er. unfold hot_page, popularity_response. rewrite take_nil.
    cbn [last_elem list.last fmap list_fmap length].
    destruct (Z.eqb_spec (Z.of_nat 0) limit); [lia|]. by rewrite Z.add_0_r.
  - destruct ((λ v, dec (v_ID v)) <$> page) as [|m ms] eqn:Em; [by apply fmap_nil_inv in Em|].
    rewrite <-Em, parse_ids.
    2:{ intros v Hin. destruct (Hpage v Hin) as [E ?]. split; [|done]. by apply Hpos in E. }
    destruct page as [|v0 vs0] eqn:Epage; [done|]. rewrite <-Epage in *.
    assert (v_ID <$> page = v_ID v0 :: (v_ID <$> vs0)) as Eids by (by rewrite Epage).
    unfold GetByIDs. rewrite Eids. cbn beta iota. rewrite <-Eids.
    unfold before. apply runs_bind, runs_query; [|congruence]. intros w1 E1. cbn beta iota zeta.
    rewrite Hv, Ed, (ordered_rows d page) by (done || by apply Hpage).
    apply runs_bind, buildFeedVideos_up; [by rewrite E1, Hv|]. intros w2 E2. apply runs_ret. intros _.
    split; [congruence|]. rewrite E1, Hv, Ed, length_fmap. done.
Qed.
Lemma scores_members d s ks :
  (∀ k, k ∈ ks → members_ok d (window s k)) → members_ok d (scores s ks).
Proof.
  intros Hks m [x [Hx _]%scores_lookup]. apply ranked_elem in Hx as (k & Hk & Hm). by apply (Hks k).
Qed.

(** *** Merging the windows *)
Lemma merge_kept asOf z dl w :
  up_rd (v_up (view w)) = true → kept asOf z dl w →
  before dl (merge_windows (Some c) asOf) w (λ _ w', view w' = view w).
Proof.
  intros Hur Hk. unfold merge_windows, Exists_. apply before_bind; [clock|]. unfold before at 1.
  call; [|congruence]. glue. intros Ht. rewrite law_exists in Hv |- *.
  rewrite (live_here _ _ _ _ _ Hk Ht) in Hv |- *. cbn [fst snd Z.ltb negb] in Hv |- *.
  rewrite set_rd_same in Hv. by apply runs_ret.
Qed.

Lemma window_zset h s t ti : windows_ok c h s → ti < h → zset_of ti s (window_key (Some c) t) = window s (window_key (Some c) t).
Proof.
  intros Hw Ht. unfold zset_of, window, live_entry.
  destruct (s !! _) as [e|] eqn:E; [|done]. destruct (Hw _ _ E) as (z & dl & -> & Hdl).
  by destruct (Z.ltb_spec ti dl); [|lia].
Qed.

Lemma merge_fresh asOf h w :
  let s := v_rd (view w) in let z := scores s (window_keys (Some c) asOf) in
  up_rd (v_up (view w)) = true → windows_ok c h s → s !! merge_key (Some c) asOf = None → z ≠ ∅ →
  before h (merge_windows (Some c) asOf) w (λ _ w', v_db (view w') = v_db (view w) ∧
    v_up (view w') = v_up (view w) ∧ (∀ t, zset_key (v_rd (view w')) (window_key (Some c) t)) ∧
    ∃ dl, clk w + 2 * Minute ≤ dl ∧ kept asOf z dl w').
Proof.
  intros s z Hur Hw Hnone Hz. unfold merge_windows, Exists_, ZUnionStore, Expire, when_client.
  apply before_bind; [clock|]. unfold before at 1. call; [|congruence]. glue. intros Ht.
  rewrite law_exists, live_None in Hv |- * by done. cbn [fst snd Z.ltb negb] in Hv |- *.
  cbn [Z.ltb Z.compare negb]. rewrite set_rd_same in Hv.
  apply before_bind; [clock|]. unfold before at 1. call; [|congruence]. intros Ht0. rewrite Hv in Hv0.
  assert (∀ k, k ∈ window_keys (Some c) asOf → ∃ t, k = window_key (Some c) t) as Hkeys.
  { intros k (i & -> & _)%list_elem_of_fmap. by eexists. }
  rewrite law_zunionstore in Hv0.
  2:{ intros k (t & ->)%Hkeys. eapply zset_key_is_str, windows_zset, Hw. }
  cbn [snd] in Hv0.
  rewrite (union_agree _ (window s)), union_scores in Hv0.
  2:{ intros k (t & ->)%Hkeys. by eapply window_zset. }
  fold z in Hv0. unfold put_zset in Hv0. rewrite decide_False in Hv0 by done.
  unfold before. call; [|rewrite Hv0 in Hu; simpl in Hu; congruence].
  rewrite Hv0 in Hv1. cbn [v_rd set_rd] in Hv1. rewrite law_pexpire, live_insert_eq in Hv1 by done.
  cbn [snd] in Hv1. apply runs_ret. intros _. rewrite Hv1. split; [done|]. split; [done|].
  split; [intros t; cbn [v_rd set_rd]; do 2 apply zset_key_insert_zset; eapply windows_zset, Hw|].
  eexists. split; [|unfold kept; rewrite Hv1; apply lookup_insert_eq]. lia.
Qed.
(** *** The handler *)
Definition hot_request (limit asOf offset : Z) : result ListByPopularityRequest :=
  Ok (mkListByPopularityRequest limit asOf offset None 0 zero_time).

Lemma handler_answers ctx limit asOf offset T w (Q : result ListByPopularityResponse → W → Prop) :
  0 < limit ≤ 50 →
  before T (FeedService_ListByPopularity svc limit asOf offset (viewer ctx) 0 zero_time 0) w Q →
  before T (FeedHandler_ListByPopularity svc ctx (hot_request limit asOf offset)) w
    (λ r w', ∃ a, Q a w' ∧ ∀ page, a = Ok page → r = RespOk 200 page).
Proof.
  intros Hlim Hs. unfold FeedHandler_ListByPopularity, hot_request, or_fail.
  cbn [qp_LatestPopularity qp_LatestBefore qp_LatestIDBefore qp_Limit qp_AsOf qp_Offset Z.ltb Z.compare].
  change (IsZero zero_time) with true. cbn beta iota zeta.
  assert (page_limit limit = limit) as ->.
  { unfold page_limit. by destruct (Z.leb_spec limit 0), (Z.ltb_spec 50 limit); try lia. }
  unfold before in *. apply runs_bind. eapply runs_mono; [exact Hs|]. intros r w' Hr.
  destruct r as [page|er]; apply runs_ret; intros Ht; eexists; (split; [by apply Hr|]);
    by intros ? [= <-].
Qed.

Lemma truncated_again t : TruncateMinute (FromUnix (Unix (TruncateMinute t))) = TruncateMinute t.
Proof.
  unfold TruncateMinute, FromUnix, Unix.
  pose proof (Z.div_mod t 60000 ltac:(lia)). set (q := t / 60000) in *.
  replace (t - t mod 60000) with (q * 60 * 1000) by lia. rewrite Z.div_mul by lia.
  replace (q * 60 * 1000) with (q * 60000) by lia. rewrite Z.mod_mul by lia. lia.
Qed.

Lemma truncated_positive t : 60000 ≤ t → 0 < Unix (TruncateMinute t).
Proof.
  intros Ht. unfold TruncateMinute, Unix. pose proof (Z.div_mod t 60000 ltac:(lia)).
  assert (1 ≤ t / 60000) by (apply Z.div_le_lower_bound; lia).
  replace (t - t mod 60000) with (t / 60000 * 60 * 1000) by lia. rewrite Z.div_mul by lia. lia.
Qed.

(** A page of a ranking that is kept. *)
Lemma handler_kept ctx limit t offset d z vs dl w :
  let asOf := TruncateMinute t in
  up_db (v_up (view w)) = true → up_rd (v_up (view w)) = true → v_db (view w) = d → db_ok d →
  kept asOf z dl w → ranking d z vs → 0 ≤ offset → 0 < limit ≤ 50 → 60000 ≤ t →
  drop (Z.to_nat offset) vs ≠ [] ∨ 0 < offset →
  before dl (FeedHandler_ListByPopularity svc ctx (hot_request limit (Unix asOf) offset)) w (λ r w',
    view w' = view w ∧
    r = RespOk 200 (hot_page d (viewer ctx) limit (Unix asOf) offset (drop (Z.to_nat offset) vs))).
Proof.
  intros asOf Hud Hur Ed Hd Hk Hr Ho Hlim Ht Hne.
  eapply before_mono; [apply (handler_answers ctx limit (Unix asOf) offset dl w (λ a w', view w' = view w ∧
    a = Ok (hot_page d (viewer ctx) limit (Unix asOf) offset (drop (Z.to_nat offset) vs))));
    [done|]|done|intros r w' (a & [? ->] & Hr'); by auto].
  unfold FeedService_ListByPopularity. cbn [fs_redisCache]. apply before_bind; [clock|].
  unfold before at 1. call. intros _. pose proof (truncated_positive t Ht) as Hpos. fold asOf in Hpos.
  destruct (Z.ltb_spec 0 (Unix asOf)); [|lia].
  unfold asOf at 1. rewrite truncated_again. fold asOf.
  apply before_bind; [clock|]. unfold popularity_from_redis. apply before_bind; [clock|].
  assert (kept asOf z dl w') as Hk' by (unfold kept; by rewrite Hv).
  eapply before_mono; [apply (merge_kept asOf z dl); [by rewrite Hv|done]|done|]. intros ? w1 E1. cbn beta in E1.
  assert (kept asOf z dl w1) as Hk1 by (unfold kept; by rewrite E1).
  eapply before_mono; [by apply (popularity_page_kept (viewer ctx) asOf limit offset d z vs dl w1);
    rewrite ?E1, ?Hv; try done; lia|done|].
  intros r2 w2 [E2 ->]. apply before_intro, runs_ret. split; [congruence|done].
Qed.
(** The first page, for which the handler takes the present minute. *)
Lemma handler_fresh ctx limit h d w :
  let s := v_rd (view w) in let T := Z.min h (clk w + 2 * Minute) in
  up_db (v_up (view w)) = true → up_rd (v_up (view w)) = true → v_db (view w) = d → db_ok d →
  windows_ok c h s → (∀ t, s !! merge_key (Some c) t = None) →
  (∀ t, members_ok d (window s (window_key (Some c) t))) → 0 < limit ≤ 50 →
  before T (FeedHandler_ListByPopularity svc ctx (hot_request limit 0 0)) w (λ r w', ∃ t, clk w ≤ t ≤ clk w' ∧
    let asOf := TruncateMinute t in let z := scores s (window_keys (Some c) asOf) in
    z ≠ ∅ → ∃ vs page dl, ranking d z vs ∧ r = RespOk 200 page ∧ T ≤ dl ∧ kept asOf z dl w' ∧
      v_up (view w') = v_up (view w) ∧ v_db (view w') = d ∧
      (∀ t, zset_key (v_rd (view w')) (window_key (Some c) t)) ∧
      page = hot_page d (viewer ctx) limit (Unix asOf) 0 vs).
Proof.
  intros s T Hud Hur Ed Hd Hw Hnone Hmem Hlim.
  set (Q t dl vs (a : result ListByPopularityResponse) (w' : W) :=
    let asOf := TruncateMinute t in let z := scores s (window_keys (Some c) asOf) in
    ranking d z vs ∧ a = Ok (hot_page d (viewer ctx) limit (Unix asOf) 0 vs) ∧ T ≤ dl ∧ kept asOf z dl w' ∧
    v_up (view w') = v_up (view w) ∧ v_db (view w') = d ∧
    (∀ t, zset_key (v_rd (view w')) (window_key (Some c) t))).
  eapply before_mono; [apply (handler_answers ctx limit 0 0 T w (λ a w', ∃ t, clk w ≤ t ≤ clk w' ∧
    (scores s (window_keys (Some c) (TruncateMinute t)) ≠ ∅ → ∃ dl vs, Q t dl vs a w'))); [done|]|done|].
  2:{ intros r w' (a & (t & Ht & Hex) & Hr). exists t. split; [done|]. intros asOf z Hz.
      destruct (Hex Hz) as (dl & vs & Hrk & Ea & ? & ? & ? & ? & ?).
      exists vs, (hot_page d (viewer ctx) limit (Unix asOf) 0 vs), dl. by split_and!; [|apply Hr|..]. }
  unfold FeedService_ListByPopularity. cbn [fs_redisCache]. apply before_bind; [clock|].
  unfold before at 1. call. intros _. set (t := clk w') in *. set (asOf := TruncateMinute t).
  change (0 <? 0) with false. cbn beta iota. fold asOf.
  destruct (decide (scores s (window_keys (Some c) asOf) = ∅)) as [Hz|Hz].
  { apply before_intro. eapply runs_mono; [apply (within_runs (on_view untouched)); frame|].
    intros a w1 [Hc1 _]. exists t. split; [lia|]. fold asOf. by intros []. }
  eapply before_mono; [apply before_clk; [clock|]|done|].
  2:{ intros a w1 [Hc1 Ha]. exists t. split; [lia|]. intros _. exact Ha. }
  apply before_bind; [clock|]. unfold popularity_from_redis. apply before_bind; [clock|].
  assert (members_ok d (scores s (window_keys (Some c) asOf))) as Hm.
  { apply scores_members. intros k (i & -> & _)%list_elem_of_fmap. apply Hmem. }
  destruct (listing_exists (scores s (window_keys (Some c) asOf))) as [l Hl].
  destruct (ranking_exists _ _ l Hm Hl) as [vs Hvs].
  eapply (before_mono _ h); [apply (merge_fresh asOf h w'); rewrite ?Hv; done|lia|].
  rewrite Hv. fold s. intros ? w1 (Ed1 & Eu1 & Hw1 & dl & Hdl & Hk).
  eapply (before_mono _ dl); [eapply (popularity_page_kept (viewer ctx) asOf limit 0 d _ vs dl w1);
    rewrite ?Eu1, ?Ed1; try done; try lia|lia|].
  { left. cbn [Z.to_nat]. rewrite drop_0. intros ->. destruct Hvs as (l' & Hl' & Hnil & _).
    apply Hz. apply zlisting_nil. destruct l'; [done|]. rewrite reverse_cons, fmap_app in Hnil.
    by destruct ((reverse l').*1). }
  intros r2 w2 [E2 ->]. cbn [Z.to_nat]. rewrite drop_0. apply before_intro.
  apply runs_ret. exists dl, vs. unfold Q. fold asOf. rewrite E2, Eu1, Ed1.
  split; [done|]. split; [done|]. split; [lia|]. split; [unfold kept; by rewrite E2|done].
Qed.
(** ** Walking the pages

    A reader sends back the minute and the offset of the page it got, as long
    as the page says that there is more; [between fuel] is what others do
    between two of its requests. *)
Fixpoint walk_hot (between : nat → ST W unit) (fuel : nat) (ctx : Ctx) (limit asOf offset : Z) :
    ST W (option (list FeedVideoItem)) :=
  match fuel with
  | O => st_ret None
  | S fuel =>
      r <- FeedHandler_ListByPopularity svc ctx (hot_request limit asOf offset) ;;
      match r with
      | RespOk 200 page =>
          if lp_HasMore page then
            between fuel ;;;
            rest <- walk_hot between fuel ctx limit (lp_AsOf page) (lp_NextOffset page) ;;
            st_ret (app (lp_VideoList page) <$> rest)
          else st_ret (Some (lp_VideoList page))
      | _ => st_ret None
      end
  end.

(** Both stores up, the tables well formed, the windows sorted sets. *)
Definition calm w : Prop :=
  up_db (v_up (view w)) = true ∧ up_rd (v_up (view w)) = true ∧ db_ok (v_db (view w)) ∧
  ∀ t, zset_key (v_rd (view w)) (window_key (Some c) t).

(** What others may do: anything that leaves the merged windows alone and
    removes no video. *)
Definition keeps_hot w w' : Prop :=
  calm w' ∧ (∀ t, v_rd (view w') !! merge_key (Some c) t = v_rd (view w) !! merge_key (Some c) t) ∧
  ∀ id, is_Some (tget TVideo (v_db (view w)) !! id) → is_Some (tget TVideo (v_db (view w')) !! id).
Definition harmless (m : ST W unit) : Prop :=
  within later m ∧ ∀ w, calm w → runs m w (λ _ w', keeps_hot w w').

(** The likes and comments of others, for instance: they change the windows of
    their minute and the cached detail. *)
Lemma window_ne_merge t t' : window_key (Some c) t ≠ merge_key (Some c) t'.
Proof. by intros [=]%string_app_inj_l. Qed.
Lemma detail_ne_merge id t : detail_key (Some c) id ≠ merge_key (Some c) t.
Proof. by intros [=]%string_app_inj_l. Qed.

Lemma popularity_update_harmless id change : harmless (UpdatePopularityCache (Some c) id change).
Proof.
  split; [clock|]. intros w (Hud & Hur & Hd & Hw). unfold UpdatePopularityCache.
  destruct (_ || _); [by apply runs_ret|]. unfold Delete, ZIncrBy, Expire, when_client.
  call; [|congruence]. rewrite law_del in Hv. cbn [snd] in Hv. call. glue.
  set (key := window_key (Some c) (TruncateMinute (clk w'0))).
  call; [|rewrite Hv0, Hv in Hu; simpl in Hu; congruence]. rewrite Hv0, Hv in Hv1.
  cbn [v_rd set_rd] in Hv1. set (s1 := delete _ (v_rd (view w))) in Hv1.
  rewrite law_zincrby in Hv1 by (apply zset_key_is_str, zset_key_delete, Hw). cbn [snd] in Hv1.
  call; [|rewrite Hv1 in Hu; simpl in Hu; congruence]. glue. rewrite Hv1 in Hv2.
  cbn [v_rd set_rd] in Hv2. set (s2 := <[key := _]> s1) in Hv2.
  rewrite law_pexpire in Hv2 by (unfold Hour, Minute, Second; lia). cbn [snd] in Hv2.
  assert (∀ t, zset_key s2 (window_key (Some c) t)) as Hs2
    by (intros t; apply zset_key_insert_zset, zset_key_delete, Hw).
  assert (∀ t, s2 !! merge_key (Some c) t = v_rd (view w) !! merge_key (Some c) t) as Hm2.
  { intros t. unfold s2, s1. rewrite lookup_insert_ne by apply window_ne_merge.
    by rewrite lookup_delete_ne by apply detail_ne_merge. }
  unfold keeps_hot, calm. rewrite Hv2. cbn [v_rd v_db v_up set_rd].
  destruct (live_entry (clk w'2) s2 key) as [[v dl]|] eqn:E; [|by auto].
  apply live_alive in E as [_ E]. unfold s2 in E. rewrite lookup_insert_eq in E. injection E as <- _.
  split_and!; try done.
  - intros t. by apply zset_key_insert_zset.
  - intros t. rewrite lookup_insert_ne by apply window_ne_merge. apply Hm2.
Qed.

(** The ids of the members, highest first. *)
Definition ranked_ids (z : gmap string Z) (ids : list Z) : Prop :=
  ∃ l, zlisting z l ∧ dec <$> ids = (reverse l).*1.

Lemma ranking_ids d z vs ids : ranking d z vs → ranked_ids z ids → v_ID <$> vs = ids.
Proof.
  intros (l1 & H1l & E1 & _) (l2 & H2l & E2). rewrite (zlisting_unique _ _ _ H1l H2l), <-E2 in E1.
  rewrite (list_fmap_compose v_ID dec) in E1. by apply (inj (fmap dec)) in E1.
Qed.

Lemma ranked_NoDup z ids : ranked_ids z ids → NoDup ids.
Proof.
  intros (l & Hl & E). apply (NoDup_fmap_1 dec). rewrite E, fmap_reverse, reverse_Permutation.
  by apply (zlisting_NoDup_fst z).
Qed.

Lemma members_stay d d' z :
  keyed TVideo d → keyed TVideo d' →
  (∀ id, is_Some (tget TVideo d !! id) → is_Some (tget TVideo d' !! id)) →
  members_ok d z → members_ok d' z.
Proof.
  intros Hk Hk' Hs Hm m Hx. destruct (Hm m Hx) as (v & -> & Hv & Hu).
  destruct (Hs (v_ID v)) as [v' Hv']; [by eexists|]. exists v'.
  pose proof (Hk' _ _ Hv') as E. simpl in E. by rewrite E.
Qed.

Lemma walk_later between fuel ctx limit asOf offset :
  (∀ n, within later (between n)) → within later (walk_hot between fuel ctx limit asOf offset).
Proof.
  intros Hb. revert asOf offset. induction fuel as [|fuel IH]; intros asOf offset; cbn [walk_hot]; [clock|].
  apply within_bind; [apply _|clock|]. intros [st page|st e]; [|clock].
  repeat case_match; try (apply within_ret; apply _).
  apply within_bind; [apply _|apply Hb|]. intros _.
  apply within_bind; [apply _|apply IH|intros; apply within_ret, _].
Qed.

Lemma response_fields (P : ListByPopularityResponse → Prop) items videos a o m :
  (∀ x y u, P (mkListByPopularityResponse items a o m x y u)) → P (popularity_response items videos a o m).
Proof. intros HP. unfold popularity_response. destruct (last_elem videos); apply HP. Qed.

Section walk.
Variables (between : nat → ST W unit) (ctx : Ctx) (limit : Z).
Hypothesis Hbetween : ∀ n, harmless (between n).
Hypothesis Hlimit : 0 < limit ≤ 50.

Lemma after_page_later fuel r :
  within later (match r with
    | RespOk 200 page =>
        if lp_HasMore page then
          between fuel ;;;
          rest <- walk_hot between fuel ctx limit (lp_AsOf page) (lp_NextOffset page) ;;
          st_ret (app (lp_VideoList page) <$> rest)
        else st_ret (Some (lp_VideoList page))
    | _ => st_ret None
    end).
Proof.
  destruct r as [st page|st e]; repeat case_match; try (apply within_ret; apply _).
  apply within_bind; [apply _|apply Hbetween|]. intros _.
  apply within_bind; [apply _|apply walk_later; apply Hbetween|intros; apply within_ret, _].
Qed.

(** What the walk shows after a page of the videos [vs] at [offset]. *)
Definition shows (ids : list Z) (r : option (list FeedVideoItem)) : Prop :=
  ∃ items, r = Some items ∧ fv_ID <$> items = ids.

Lemma walk_rest fuel t z ids dl d acc vs offset w (page := take (Z.to_nat limit) (drop offset vs)) :
  let asOf := TruncateMinute t in
  (∀ w, calm w → members_ok (v_db (view w)) z → kept asOf z dl w →
     Z.of_nat (length page) = limit →
     before dl (walk_hot between fuel ctx limit (Unix asOf) (Z.of_nat (offset + length page))) w
       (λ r _, shows (drop (offset + length page) ids) r)) →
  calm w → members_ok (v_db (view w)) z → kept asOf z dl w → v_ID <$> vs = ids →
  before dl
    (match RespOk 200 (hot_page d acc limit (Unix asOf) (Z.of_nat offset) (drop offset vs)) with
     | RespOk 200 page =>
         if lp_HasMore page then
           between fuel ;;;
           rest <- walk_hot between fuel ctx limit (lp_AsOf page) (lp_NextOffset page) ;;
           st_ret (app (lp_VideoList page) <$> rest)
         else st_ret (Some (lp_VideoList page))
     | _ => st_ret None
     end) w (λ r _, shows (drop offset ids) r).
Proof.
  intros asOf IH Hcalm Hm Hk Hids. unfold hot_page. fold page.
  apply response_fields. intros x y u. cbn [lp_HasMore lp_VideoList lp_AsOf lp_NextOffset].
  assert (fv_ID <$> (shown d acc <$> page) = take (Z.to_nat limit) (drop offset ids)) as Hpage.
  { rewrite <-list_fmap_compose, <-Hids. unfold page. by rewrite fmap_take, fmap_drop. }
  destruct (Z.eqb_spec (Z.of_nat (length page)) limit) as [Hfull|Hpart].
  - apply before_bind.
    { intros _. apply within_bind; [apply _|apply walk_later; apply Hbetween|intros; apply within_ret, _]. }
    apply before_intro. eapply runs_mono; [by apply Hbetween|]. intros _ w1 (Hc1 & Hmk & Hst).
    apply before_bind; [intros; apply within_ret, _|]. rewrite <-Nat2Z.inj_add.
    eapply before_mono; [apply (IH w1)|done|]; [done| |by unfold kept; rewrite Hmk|done|].
    { eapply members_stay; [apply Hcalm|apply Hc1|done|done]. }
    intros r2 w2 (items & -> & Hi). apply before_intro, runs_ret. eexists. split; [done|].
    rewrite fmap_app, Hpage, Hi, <-drop_drop. replace (length page) with (Z.to_nat limit) by lia.
    apply take_drop.
  - apply before_intro, runs_ret. eexists. split; [done|]. rewrite Hpage. apply take_ge.
    unfold page in Hpart. rewrite length_take, length_drop in Hpart.
    rewrite length_drop, <-Hids, length_fmap. lia.
Qed.
Lemma ranking_of d z ids :
  members_ok d z → ranked_ids z ids → ∃ vs, ranking d z vs ∧ v_ID <$> vs = ids.
Proof.
  intros Hm Hi. pose proof Hi as (l & Hl & _). destruct (ranking_exists d z l Hm Hl) as [vs Hvs].
  exists vs. split; [done|]. by eapply ranking_ids.
Qed.

(** From a later page on, while the merged windows are kept. *)
Lemma walk_kept fuel t z ids dl : ∀ offset w,
  let asOf := TruncateMinute t in
  calm w → members_ok (v_db (view w)) z → kept asOf z dl w → ranked_ids z ids →
  (0 < offset ≤ length ids)%nat → (length ids - offset < fuel)%nat → 60000 ≤ t →
  before dl (walk_hot between fuel ctx limit (Unix asOf) (Z.of_nat offset)) w
    (λ r _, shows (drop offset ids) r).
Proof.
  induction fuel as [|fuel IH]; intros offset w asOf Hcalm Hm Hk Hids Ho Hf Ht; [lia|]. cbn [walk_hot].
  destruct (ranking_of _ _ _ Hm Hids) as (vs & Hvs & Ev). pose proof Hcalm as (Hud & Hur & Hd & _).
  apply before_bind; [apply after_page_later|].
  eapply before_mono; [by apply (handler_kept ctx limit t (Z.of_nat offset) (v_db (view w)) z vs dl w); auto; lia|done|].
  intros r w1 [E1 ->]. rewrite Nat2Z.id.
  assert (calm w1) as Hcalm1 by (unfold calm; by rewrite E1).
  eapply (walk_rest fuel t z ids); [|done|by rewrite E1|by unfold kept; rewrite E1|done].
  intros w2 Hcalm2 Hm2 Hk2 Hfull. rewrite length_take, length_drop, <-(length_fmap v_ID vs), Ev in *.
  apply IH; auto; lia.
Qed.

Lemma ids_length d z ids :
  members_ok d z → ranked_ids z ids → (length ids ≤ length (rows TVideo d))%nat.
Proof.
  intros Hm Hi. destruct (ranking_of d z ids Hm Hi) as (vs & (l & Hl & E & Hrow) & <-).
  rewrite length_fmap. apply submseteq_length, NoDup_submseteq.
  - apply (NoDup_fmap_1 v_ID). by eapply ranked_NoDup.
  - intros v Hv. apply elem_of_rows. exists (v_ID v). by apply Hrow.
Qed.

End walk.
End page.

(** ** A reader while others like *)
From S2P Require Import Reference.

Definition hot_now : Z := 660005.
Definition hot_client : Client := mkClient DefaultKeyPrefix.
Definition hot_window : gmap string Z := {[ "1" := 2; "2" := 5 ]}.
Definition hot_key_then : string := window_key (Some hot_client) 600000.
Definition hot_rd : Rds := {[ hot_key_then := (RZset hot_window, Some 9000000) ]}.
Definition hot_start : RefW := mkRefW (mkView following_db hot_rd [] ∅ all_up) hot_now 0 [].
Definition others_like (n : nat) : ST RefW unit := UpdatePopularityCache (Some hot_client) 1 10.

Example walk_hot_demo :
  option_map (map fv_ID) (walk_hot hot_client 0 others_like 4 (mkCtx None None) 1 0 0 hot_start).1 =
    Some [2; 1].
Proof. by vm_compute. Qed.

Lemma hot_only t e :
  hot_rd !! window_key (Some hot_client) t = Some e →
  window_key (Some hot_client) t = hot_key_then ∧ e = (RZset hot_window, Some 9000000).
Proof. unfold hot_rd. by intros [<- <-]%lookup_singleton_Some. Qed.

Lemma hot_calm : calm hot_client hot_start.
Proof.
  split; [done|]. split; [done|]. split; [exact following_db_ok|]. intros t b dl E.
  by apply hot_only in E as [_ [=]].
Qed.

Lemma hot_windows : windows_ok hot_client 9000000 (hot_rd).
Proof. intros t e [_ ->]%hot_only. eexists _, _. split; [done|lia]. Qed.

Lemma hot_no_merge t : hot_rd !! merge_key (Some hot_client) t = None.
Proof. unfold hot_rd. apply lookup_singleton_ne, window_ne_merge. Qed.

Lemma hot_members t :
  members_ok following_db (window (hot_rd) (window_key (Some hot_client) t)).
Proof.
  intros m [x Hx]. unfold window in Hx.
  destruct (hot_rd !! window_key (Some hot_client) t) as [e|] eqn:E;
    [|by rewrite lookup_empty in Hx].
  apply hot_only in E as [_ ->]. unfold hot_window in Hx.
  apply lookup_insert_Some in Hx as [[<- _]|[_ [<- _]%lookup_singleton_Some]].
  - by exists early_video.
  - by exists late_video.
Qed.

