(* ===== verification/Following.v ===== *)
(** The following feed behind its cache: a page survives its encoding, and a
    read through the cache gives the page the database gave. *)
From S2P Require Import Prelude GoStd Query Entities Json Services RedisFacts RedisClient DbFacts.
From S2P Require Import CachedValue Mq Http Video Like LikeFacts Notification Feed Reference.
Local Open Scope Z_scope.

(** ** The encoding of a page *)

(** The integers of an item, and of a page, are within their Go types. *)
Definition item_in_range (i : FeedVideoItem) : bool :=
  is_uint (fv_ID i) && is_uint (fa_ID (fv_Author i)) && is_int64 (fv_CreateTime i)
  && is_int64 (fv_LikesCount i).
Definition page_in_range (r : ListByFollowingResponse) : bool :=
  forallb item_in_range (lb_VideoList r) && is_int64 (lb_NextTime r).

Lemma item_roundtrip i : item_in_range i = true → item_of_fields (item_fields i) = Some i.
Proof.
  destruct i as [i [ai au] t d p c ct lc il]. unfold item_in_range. simpl. intros H. bool_to_prop.
  unfold item_of_fields, item_fields, sub_fields, str_field_omitempty, get_uint, get_int64, get_str, get_bool.
  cbn [fv_ID fv_Author fa_ID fa_Username fv_Title fv_Description fv_PlayURL fv_CoverURL fv_CreateTime fv_LikesCount fv_IsLiked].
  destruct (String.eqb_spec d "") as [->|Hd]; simpl;
    repeat match goal with H : _ = true |- _ => rewrite H; clear H; simpl end; done.
Qed.

Lemma items_roundtrip l :
  forallb item_in_range l = true →
  mapM item_of_json ((λ i, JObj (item_fields i)) <$> l) = Some l.
Proof.
  induction l as [|i l IH]; [done|]. cbn [forallb]. intros [Hi Hl]%andb_true_iff.
  rewrite fmap_cons. cbn [mapM item_of_json]. by rewrite item_roundtrip, IH.
Qed.

Lemma unmarshal_marshal_following r :
  page_in_range r = true → unmarshal_following (marshal_following r) = Ok r.
Proof.
  destruct r as [l t m]. unfold page_in_range. simpl. intros [Hl Ht]%andb_true_iff.
  unfold unmarshal_following, marshal_following, unmarshal, following_of_fields, items_of_fields, get_int64, get_bool.
  simpl. rewrite items_roundtrip by done. simpl. by rewrite Ht.
Qed.

(** C37: every document that travels through RabbitMQ, Redis or the channel of
    notifications decodes to the value it encodes, whatever its optional
    fields, as long as its integers are within their Go types. *)
Theorem wire_roundtrips :
  (∀ e, is_uint (le_UserID e) && is_uint (le_VideoID e) = true → unmarshal_like (marshal_like e) = Ok e) ∧
  (∀ e, is_uint (ce_CommentID e) && is_uint (ce_VideoID e) && is_uint (ce_AuthorID e) = true →
     unmarshal_comment (marshal_comment e) = Ok e) ∧
  (∀ e, is_uint (se_FollowerID e) && is_uint (se_VloggerID e) = true →
     unmarshal_social (marshal_social e) = Ok e) ∧
  (∀ e, is_uint (pe_VideoID e) && is_int64 (pe_Change e) = true →
     unmarshal_popularity (marshal_popularity e) = Ok e) ∧
  (∀ e, is_uint (te_VideoID e) && is_int64 (te_CreateTime e) = true →
     unmarshal_timeline (marshal_timeline e) = Ok e) ∧
  (∀ v, video_in_range v = true → unmarshal_video (marshal_video v) = Ok v) ∧
  (∀ m, is_uint (pm_RecipientID m) && notification_in_range (pm_Notification m) = true →
     unmarshal_push (marshal_push m) = Ok m) ∧
  (∀ r, page_in_range r = true → unmarshal_following (marshal_following r) = Ok r).
Proof.
  split_and!; intros.
  - by apply unmarshal_marshal_like.
  - by apply unmarshal_marshal_comment.
  - by apply unmarshal_marshal_social.
  - by apply unmarshal_marshal_popularity.
  - by apply unmarshal_marshal_timeline.
  - by apply unmarshal_marshal_video.
  - by apply unmarshal_marshal_push.
  - by apply unmarshal_marshal_following.
Qed.

(** ** A page through the cache *)
Section following.
Context {W : Type} `{WorldLaws W} `{SqlLaws} `{RedisLaws}.
Variables (c : Client) (ttl limit : Z) (before : time) (a : Z) (d : Db) (pg : ListByFollowingResponse).
Hypothesis (Httl : 0 < ttl).

(** the page of the following feed, from the tables *)
Definition following_videos : list Video :=
  eng_select (λ v, followed_by d a v && created_before before v) [Desc v_CreateTime] (sql_limit limit)
    (rows TVideo d).
Definition liked_of (ids : list Z) : gmap Z bool :=
  match ids with
  | [] => ∅
  | _ => if a =? 0 then ∅
         else foldl (λ m l, <[l_VideoID l := true]> m) ∅
                (eng_select (λ l, bool_decide (l_VideoID l ∈ ids) && (l_AccountID l =? a)) [] None
                   (rows TLike d))
  end.
Definition following_page : ListByFollowingResponse :=
  mkListByFollowingResponse (feed_item (liked_of (v_ID <$> following_videos)) <$> following_videos)
    (match last_elem following_videos with Some v => Unix (v_CreateTime v) | None => 0 end)
    (Z.of_nat (length following_videos) =? limit).

Abbreviation before_key := (if IsZero before then 0 else Unix before).
Abbreviation pkey := (following_key (Some c) limit a before_key).
Abbreviation plock := ("lock:" +:+ pkey)%go.
Abbreviation pready := (ready pkey plock unmarshal_following (Some pg) d).
Abbreviation svc := (mkFeedService (Some c) ttl).
Hypothesis (Hpg : pg = following_page) (Hrange : page_in_range pg = true).

Lemma page_ne_lock : pkey ≠ plock.
Proof. intros E%(f_equal String.length). rewrite string_length_app in E. simpl in E. lia. Qed.

Lemma doListByFollowing_ready w (Q : result ListByFollowingResponse → W → Prop) :
  pready w → (∀ w', pready w' → Q (Ok pg) w') → runs (doListByFollowingFromDB limit before a) w Q.
Proof.
  intros Hr HQ. unfold doListByFollowingFromDB, FeedRepo_ListByFollowing, buildFeedVideos, GetBatchLiked.
  apply runs_try, (query_ready pkey plock unmarshal_following (Some pg) d); [done|].
  intros w1 Hr1. fold following_videos. apply runs_try, runs_try.
  assert (Hdone : ∀ w' m, pready w' → m = liked_of (v_ID <$> following_videos) →
    runs (st_ret (Ok (feed_item m <$> following_videos))) w' (λ r w', match r with
      | Ok items => runs (st_ret (Ok (mkListByFollowingResponse items
          (match last_elem following_videos with Some v => Unix (v_CreateTime v) | None => 0 end)
          (Z.of_nat (length following_videos) =? limit)))) w' Q
      | Err e => Q (Err e) w'
      end)).
  { intros w' m Hr' ->. do 2 apply runs_ret. fold following_page. rewrite <-Hpg. by apply HQ. }
  unfold liked_of in Hdone. destruct (v_ID <$> following_videos) as [|i ids]; [by apply runs_ret, Hdone|].
  destruct (a =? 0); [by apply runs_ret, Hdone|].
  apply runs_try, (query_ready pkey plock unmarshal_following (Some pg) d); [done|].
  intros w2 Hr2. by apply runs_ret, Hdone.
Qed.

Lemma db_and_set_ready w (Q : result ListByFollowingResponse → W → Prop) :
  pready w → (∀ w', pready w' → Q (Ok pg) w') → runs (db_and_set svc pkey limit before a) w Q.
Proof.
  intros Hr HQ. unfold db_and_set. apply runs_try, doListByFollowing_ready; [done|]. intros w1 Hr1.
  apply runs_bind, (SetBytes_ready pkey plock unmarshal_following (Some pg) d); [done| |done|].
  - intros r. rewrite unmarshal_marshal_following by done. by intros [= <-].
  - intros r w2 Hr2. by apply runs_ret, HQ.
Qed.

Lemma cached_page_ready w (Q : result (option ListByFollowingResponse) → W → Prop) :
  pready w → (∀ w', pready w' → Q (Ok (Some pg)) w') → (∀ w', pready w' → Q (Ok None) w') →
  (∀ e w', pready w' → Q (Err e) w') → runs (cached_page pkey) w Q.
Proof.
  intros Hr Hhit Hmiss Herr. unfold cached_page.
  apply runs_try, (GetBytes_ready pkey plock unmarshal_following (Some pg) d); [done| |by auto].
  intros b w1 Hr1 Hb. apply runs_ret. destruct (unmarshal_following b) as [r|] eqn:E; [|by auto].
  specialize (Hb r eq_refl). injection Hb as <-. by auto.
Qed.

Lemma await_page_ready n w (Q : result ListByFollowingResponse → W → Prop) :
  pready w → (∀ w', pready w' → Q (Ok pg) w') →
  runs (await_page n pkey (db_and_set svc pkey limit before a)) w Q.
Proof.
  revert w. induction n as [|n IH]; intros w Hr HQ; cbn [await_page]; [by apply db_and_set_ready|].
  apply runs_bind, cached_page_ready; [done|..]; intros;
    [by apply runs_ret, HQ|by apply IH..].
Qed.

Lemma ListByFollowing_ready w :
  pready w →
  runs (FeedService_ListByFollowing svc limit before a) w (λ r w', r = Ok pg ∧ pready w').
Proof.
  intros Hr. unfold FeedService_ListByFollowing. cbn [fs_redisCache negb].
  destruct (a =? 0); cbn [orb]; [by apply doListByFollowing_ready|].
  apply runs_bind, cached_page_ready; [done|by intros; apply runs_ret|by intros; apply db_and_set_ready|].
  intros e w1 Hr1. destruct (IsMiss e); [|by apply db_and_set_ready].
  apply runs_bind, (Lock_ready c pkey plock unmarshal_following (Some pg) d);
    [apply page_ne_lock|unfold Millisecond; lia|done|].
  intros [[token [|]] ?] w2 Hr2; [|by apply await_page_ready].
  assert (Hun : ∀ w3, pready w3 →
    runs (st_bind (Unlock (Some c) plock token) (λ _, st_ret (Ok pg))) w3 (λ r w', r = Ok pg ∧ pready w')).
  { intros w3 Hr3. apply runs_bind, (Unlock_ready c pkey plock unmarshal_following (Some pg) d);
      [apply page_ne_lock|done|]. intros r w4 Hr4. by apply runs_ret. }
  apply runs_bind, cached_page_ready; [done|..]; intros; apply runs_bind;
    [by apply runs_ret, Hun|by apply db_and_set_ready..].
Qed.
End following.

(** Redis caches the first read of a page coherently with the tables. *)
Definition coherent_page (c : Client) (limit : Z) (before : time) (a : Z) (pg : ListByFollowingResponse)
    (s : Rds) : Prop :=
  let key := following_key (Some c) limit a (if IsZero before then 0 else Unix before) in
  coherent key ("lock:" +:+ key)%go unmarshal_following (Some pg) s.


(** ** The theorem at a concrete input, and what a page does not show *)
Definition following_db : Db :=
  tset TVideo {[3 := mkVideo 3 7 "ann" "t" "" "p" "c" 1000 4 9]}
    (tset TSocial {[1 := mkSocial 1 9 7]} empty_db).
Definition feed_client : Client := mkClient DefaultKeyPrefix.
Definition following_start : RefW := ref_start following_db 5000.

Lemma following_start_page :
  page_in_range (following_page 10 zero_time 9 (v_db (view following_start))) = true.
Proof. by vm_compute. Qed.

Lemma following_start_coherent pg :
  coherent_page feed_client 10 zero_time 9 pg (v_rd (view following_start)).
Proof.
  split_and!; [intros z dl He; discriminate He..|]. intros b dl v He. discriminate He.
Qed.


(** Nothing forgets a cached page when a followed account publishes: an hour
    later the first page is still the one without the new video. *)
Definition stale_page : option (list Z * list Z) :=
  let list_ w := FeedService_ListByFollowing (NewFeedService (Some feed_client)) 10 zero_time 9 w in
  let '(_, w1) := list_ following_start in
  let '(_, w2) := sql (eng_create TVideo (mkVideo 0 7 "ann" "new" "" "p" "c" 2000 0 0)) w1 in
  match list_ (mkRefW (rw_view w2) (rw_clk w2 + Hour) (rw_seq w2) (rw_fails w2)) with
  | (Ok r, _) => Some (fv_ID <$> lb_VideoList r,
                       fv_ID <$> lb_VideoList (following_page 10 zero_time 9 (v_db (view w2))))
  | _ => None
  end.

Example ListByFollowing_stale : stale_page = Some ([3], [4; 3]).
Proof. by vm_compute. Qed.

Lemma wire_roundtrips_witness :
  let r := following_page 10 zero_time 9 (v_db (view following_start)) in
  unmarshal_following (marshal_following r) = Ok r.
Proof.
  intros r. destruct wire_roundtrips as (_ & _ & _ & _ & _ & _ & _ & H). exact (H r following_start_page).
Defined.
