(* ===== verification/Message.v ===== *)
(** [internal/api/message]: private messages. *)
From S2P Require Import Prelude GoStd Query Entities Json Services DbFacts Http.
Local Open Scope Z_scope.
Local Open Scope go_scope.

Definition between (userID peerID : Z) (m : Message) : bool :=
  ((m_FromID m =? userID) && (m_ToID m =? peerID))
  || ((m_FromID m =? peerID) && (m_ToID m =? userID)).

Definition with_content (content : string) (m : Message) : Message :=
  mkMessage (m_ID m) (m_FromID m) (m_ToID m) content (m_IsRead m) (m_CreatedAt m).
Definition with_time (t : time) (m : Message) : Message :=
  mkMessage (m_ID m) (m_FromID m) (m_ToID m) (m_Content m) (m_IsRead m) t.

Record SendRequest := mkSendRequest { sr_ToID : Z; sr_Content : string }.

Section message.
Context {W : Type} `{World W} `{SqlEngine}.

(** repo.go *)
Definition CreateMessage (m : Message) : ST W (result Message) := sql (eng_create TMessage m).

Definition ListMessages (userID peerID limit : Z) : ST W (result (list Message)) :=
  query (λ d, Ok (eng_select (between userID peerID) [Desc m_CreatedAt] (sql_limit limit)
                    (rows TMessage d))).

(** service.go *)
Definition MessageService_Send (m : Message) : ST W (result Message) :=
  let m := with_content (TrimSpace (m_Content m)) m in
  if String.eqb (m_Content m) "" then st_ret (Err (ErrMsg "content is required"))
  else t <- now ;; CreateMessage (with_time t m).

Definition MessageService_List (userID peerID : Z) : ST W (result (list Message)) :=
  ListMessages userID peerID 50.

(** handler.go *)
Definition MessageHandler_Send (c : Ctx) (req : result SendRequest) : ST W (Resp Message) :=
  or_fail (RespErr 401) (GetAccountID c) (λ fromID,
  or_fail (RespErr 400) req (λ req,
    if (sr_ToID req =? 0) || String.eqb (TrimSpace (sr_Content req)) ""
    then st_ret (RespErr 400 (ErrMsg "to_id and content are required"))
    else
      r <- MessageService_Send (mkMessage 0 fromID (sr_ToID req) (sr_Content req) false zero_time) ;;
      or_fail fail_with r (λ m, st_ret (RespOk 200 m)))).

Definition MessageHandler_List (c : Ctx) (req : result Z) : ST W (Resp (list Message)) :=
  or_fail (RespErr 401) (GetAccountID c) (λ userID,
  or_fail (RespErr 400) req (λ peerID,
    if peerID =? 0 then st_ret (RespErr 400 (ErrMsg "peer_id is required"))
    else
      r <- MessageService_List userID peerID ;;
      or_fail fail_with r (λ msgs, st_ret (RespOk 200 msgs)))).
End message.
