(* ===== verification/Profile.v ===== *)
(** [internal/api/profile]: an account with its counters, and what the
    counters count. *)
From S2P Require Import Prelude GoStd Query Entities Json Services DbFacts Http Video Like LikeFacts.
From S2P Require Import Account Social SocialFacts Reference.
Local Open Scope Z_scope.
Local Open Scope go_scope.

Record GetAccountProfileResponse := mkGetAccountProfileResponse {
  pr_Account : FindByIDResponse; pr_VideoCount : Z; pr_TotalLikes : Z;
  pr_FollowerCount : Z; pr_VloggerCount : Z }.

Section profile.
Context {W : Type} `{World W} `{SqlEngine}.

(** the errors of the four counts are ignored *)
Definition ProfileService_GetAccountProfile (accountID : Z) :
    ST W (result GetAccountProfileResponse) :=
  acc <-? AccountRepo_FindByID accountID ;;
  videoCount <- CountByAuthorID accountID ;;
  totalLikes <- TotalLikesByAuthorID accountID ;;
  followerCount <- SocialRepo_CountFollowers accountID ;;
  vloggerCount <- SocialRepo_CountVloggers accountID ;;
  st_ret (Ok (mkGetAccountProfileResponse
    (mkFindByIDResponse (ac_ID acc) (ac_Username acc) (ac_AvatarURL acc) (ac_Bio acc))
    (or_zero videoCount) (or_zero totalLikes) (or_zero followerCount) (or_zero vloggerCount))).

Definition GetAccountProfile (req : result Z) : ST W (Resp GetAccountProfileResponse) :=
  or_fail (RespErr 400) req (λ accountID,
    if accountID =? 0 then st_ret (RespErr 400 (ErrMsg "account_id is required"))
    else
      r <- ProfileService_GetAccountProfile accountID ;;
      or_fail (RespErr 500) r (λ resp, st_ret (RespOk 200 resp))).
End profile.

(** ** What the counters count *)
Section facts.
Context {W : Type} `{WorldLaws W} `{SqlLaws}.

(** the likes on the videos of an author *)
Definition likes_received (a : Z) (d : Db) : Z :=
  Z.of_nat (size (filter (λ p : Z * Z, (λ v, v_AuthorID v) <$> tget TVideo d !! p.1 = Some a) (pairs d))).

Lemma sum_perm (l1 l2 : list Z) : l1 ≡ₚ l2 → foldr Z.add 0 l1 = foldr Z.add 0 l2.
Proof. induction 1; simpl; lia. Qed.

(** Counting pairs video by video. *)
Lemma sum_likes_of (P : gset (Z * Z)) (ks : list Z) :
  NoDup ks →
  foldr Z.add 0 ((λ k, Z.of_nat (size (filter (λ p : Z * Z, p.1 = k) P))) <$> ks) =
    Z.of_nat (size (filter (λ p : Z * Z, p.1 ∈ ks) P)).
Proof.
  induction ks as [|k ks IH]; intros Hn.
  { assert (filter (λ p : Z * Z, p.1 ∈ []) P = ∅) as ->; [|done].
    apply set_eq. intros p. rewrite elem_of_filter, elem_of_nil. set_solver. }
  apply list.NoDup_cons in Hn as [Hk Hn]. rewrite fmap_cons. cbn [foldr]. rewrite IH by done.
  assert (filter (λ p : Z * Z, p.1 ∈ k :: ks) P =
    filter (λ p : Z * Z, p.1 = k) P ∪ filter (λ p : Z * Z, p.1 ∈ ks) P) as ->.
  { apply set_eq. intros p. rewrite elem_of_union, !elem_of_filter, elem_of_cons. tauto. }
  rewrite size_union; [lia|]. intros p. rewrite !elem_of_filter. intros [<- _] [? _]. done.
Qed.

Lemma total_likes a d wh :
  db_ok d → counts_inv d → (∀ v, wh v = (v_AuthorID v =? a)) →
  foldr Z.add 0 (v_LikesCount <$> List.filter wh (rows TVideo d)) = likes_received a d.
Proof.
  intros Hd Hc Hwh. destruct (Hd _ TVideo) as (Hk & _).
  set (vs := List.filter wh (rows TVideo d)).
  assert (v_LikesCount <$> vs = (λ k, Z.of_nat (size (filter (λ p : Z * Z, p.1 = k) (pairs d)))) <$> (v_ID <$> vs))
    as ->.
  { rewrite <-list_fmap_compose. apply list_fmap_ext. intros i v Hv%list_elem_of_lookup_2.
    apply elem_of_lfilter in Hv as [_ Hv]. apply elem_of_rows_keyed in Hv; [|done].
    by destruct (Hc _ _ Hv) as [-> _]. }
  rewrite sum_likes_of by (apply NoDup_fmap_lfilter, (rows_NoDup TVideo d), Hk).
  unfold likes_received. do 2 f_equal. apply set_eq. intros [k u]. rewrite !elem_of_filter. simpl.
  apply and_iff_compat_r. rewrite list_elem_of_fmap. split.
  - intros (v & -> & [Hw Hv]%elem_of_lfilter). apply elem_of_rows_keyed in Hv; [|done].
    simpl in Hv. rewrite Hv. simpl. f_equal. rewrite Hwh in Hw. by apply Z.eqb_eq.
  - intros (v & Ev & Ea)%fmap_Some. exists v. split; [symmetry; by apply Hk in Ev|].
    apply elem_of_lfilter. split; [rewrite Hwh, Ea; by apply Z.eqb_refl|]. apply elem_of_rows. eauto.
Qed.

(** What an account follows. *)
Definition followed_of (u : Z) (d : Db) : gset Z :=
  list_to_set (s_VloggerID <$> List.filter (λ s, s_FollowerID s =? u) (rows TSocial d)).

Lemma followed_NoDup u d :
  table_ok TSocial d →
  NoDup (s_VloggerID <$> List.filter (λ s, s_FollowerID s =? u) (rows TSocial d)).
Proof.
  intros (Hk & Hu & _). pose proof (NoDup_fmap_1 _ _ (rows_NoDup TSocial d Hk)) as Hn.
  apply NoDup_fmap_2_strong; [|by apply lfilter_NoDup].
  intros x y [Hx Hxr]%elem_of_lfilter [Hy Hyr]%elem_of_lfilter E. bool_to_prop.
  apply elem_of_rows in Hxr as [i Hi]. apply elem_of_rows in Hyr as [j Hj].
  assert (i = j) as -> by (apply (Hu i j x y Hi Hj); split; [by eexists|simpl; congruence]).
  congruence.
Qed.

End facts.

(** ** Witness *)
Definition profile_db : Db := tset TVideo (tget TVideo like_db) social_db.

Lemma profile_video k v : tget TVideo profile_db !! k = Some v →
  k = 1 ∧ v = mkVideo 1 7 "ann" "t" "" "p" "c" 1000 0 0.
Proof. unfold profile_db. rewrite tget_tset. apply like_db_inv. Qed.

Lemma profile_db_ok : db_ok profile_db.
Proof.
  apply db_ok_tset; [apply social_db_ok|]. split_and!.
  - by intros k r [-> ->]%profile_video.
  - by intros k1 k2 r1 r2 [-> ->]%profile_video [-> ->]%profile_video.
  - intros k r [-> ->]%profile_video. lia.
Qed.

Lemma profile_counts : counts_inv profile_db.
Proof. by intros k r [-> ->]%profile_video. Qed.

