(* ===== verification/Router.v ===== *)
(** [internal/http/router.go]: the routes of the API with their middlewares,
    and a request from its middlewares to its handler. *)
From S2P Require Import Prelude GoStd Query Entities Json Services RedisFacts RedisClient Mq Topology.
From S2P Require Import DbFacts Http Video Like RateLimit Account Upload Comment Social Notification.
From S2P Require Import Feed Message Profile.
Local Open Scope Z_scope.
Local Open Scope go_scope.

(** What [SetRouter] is given, and the publishers it has made. *)
Record Env := mkEnv {
  ev_cache : option Client; ev_secret : string; ev_mqs : MQs; ev_cos : option CosClient }.

Definition accountService (e : Env) : AccountService := mkAccountService (ev_cache e) (ev_secret e).
Definition videoService (e : Env) : VideoService := NewVideoService (ev_cache e).
Definition likeService (e : Env) : LikeService :=
  mkLikeService (ev_cache e) (mq_like (ev_mqs e)) (mq_popularity (ev_mqs e)).
Definition commentService (e : Env) : CommentService :=
  mkCommentService (ev_cache e) (mq_comment (ev_mqs e)) (mq_popularity (ev_mqs e)).
Definition socialMQ (e : Env) : bool := mq_social (ev_mqs e).
Definition feedService (e : Env) : FeedService := NewFeedService (ev_cache e).

(** The routes, each with what its handler reads from the request: the
    outcome of [c.ShouldBindJSON], or the file of the form. *)
Inductive Call : Type :=
| PostRegister (req : result CreateAccountRequest)
| PostLogin (req : result LoginRequest)
| PostRefresh (req : result string)
| PostChangePassword (req : result ChangePasswordRequest)
| PostFindByID (req : result Z)
| PostFindByUsername (req : result string)
| PostRename (req : result string)
| PostLogout
| PostUploadAvatar (file : option FormFile)
| PostUpdateProfile (req : result UpdateProfileRequest)
| PostListByAuthorID (req : result Z)
| PostGetDetail (req : result Z)
| PostUploadVideo (file : option FormFile)
| PostUploadCover (file : option FormFile)
| PostPublishVideo (req : result PublishVideoRequest)
| PostLike (req : result Z)
| PostUnlike (req : result Z)
| PostIsLiked (req : result Z)
| PostListMyLikedVideos
| PostListAllComments (req : result Z)
| PostPublishComment (req : result PublishCommentRequest)
| PostDeleteComment (req : result Z)
| PostFollow (req : result Z)
| PostUnfollow (req : result Z)
| PostListAllFollowers (req : result Z)
| PostListAllVloggers (req : result Z)
| PostGetCounts
| PostListByFollowing (req : result ListByFollowingRequest)
| PostListLatest (req : result ListLatestRequest)
| PostListLikesCount (req : result ListLikesCountRequest)
| PostListByPopularity (req : result ListByPopularityRequest)
| PostListByTag (req : result ListByTagRequest)
| PostSendMessage (req : result SendRequest)
| PostListMessages (req : result Z)
| PostGetAccountProfile (req : result Z)
| PostListNotifications
| PostMarkRead (req_ID : option Z)
| PostUnreadCount.

Definition path (c : Call) : string :=
  match c with
  | PostRegister _ => "/account/register"
  | PostLogin _ => "/account/login"
  | PostRefresh _ => "/account/refresh"
  | PostChangePassword _ => "/account/changePassword"
  | PostFindByID _ => "/account/findByID"
  | PostFindByUsername _ => "/account/findByUsername"
  | PostRename _ => "/account/rename"
  | PostLogout => "/account/logout"
  | PostUploadAvatar _ => "/account/uploadAvatar"
  | PostUpdateProfile _ => "/account/updateProfile"
  | PostListByAuthorID _ => "/video/listByAuthorID"
  | PostGetDetail _ => "/video/getDetail"
  | PostUploadVideo _ => "/video/uploadVideo"
  | PostUploadCover _ => "/video/uploadCover"
  | PostPublishVideo _ => "/video/publish"
  | PostLike _ => "/like/like"
  | PostUnlike _ => "/like/unlike"
  | PostIsLiked _ => "/like/isLiked"
  | PostListMyLikedVideos => "/like/listMyLikedVideos"
  | PostListAllComments _ => "/comment/listAll"
  | PostPublishComment _ => "/comment/publish"
  | PostDeleteComment _ => "/comment/delete"
  | PostFollow _ => "/social/follow"
  | PostUnfollow _ => "/social/unfollow"
  | PostListAllFollowers _ => "/social/listAllFollowers"
  | PostListAllVloggers _ => "/social/listAllVloggers"
  | PostGetCounts => "/social/getCounts"
  | PostListByFollowing _ => "/feed/listByFollowing"
  | PostListLatest _ => "/feed/listLatest"
  | PostListLikesCount _ => "/feed/listLikesCount"
  | PostListByPopularity _ => "/feed/listByPopularity"
  | PostListByTag _ => "/feed/listByTag"
  | PostSendMessage _ => "/message/send"
  | PostListMessages _ => "/message/list"
  | PostGetAccountProfile _ => "/profile/getAccountProfile"
  | PostListNotifications => "/notification/list"
  | PostMarkRead _ => "/notification/markRead"
  | PostUnreadCount => "/notification/unreadCount"
  end.

(** The middleware of a route's group. *)
Inductive Guard : Type := Public | Protected | Soft | Sse.

Definition guard (c : Call) : Guard :=
  match c with
  | PostRegister _ | PostLogin _ | PostRefresh _ | PostChangePassword _ | PostFindByID _
  | PostFindByUsername _ | PostListByAuthorID _ | PostGetDetail _ | PostListAllComments _
  | PostGetAccountProfile _ => Public
  | PostListLatest _ | PostListLikesCount _ | PostListByPopularity _ | PostListByTag _ => Soft
  | PostListNotifications | PostMarkRead _ | PostUnreadCount => Sse
  | _ => Protected
  end.

(** A request: the headers the middlewares read, the query token of the event
    stream's middleware, and the call. *)
Record Request := mkRequest {
  hr_Authorization : string; hr_ClientIP : string; hr_token : string; hr_call : Call }.

(** An answer with the body of its route. *)
Inductive Reply : Type :=
| Answer {A : Type} (r : Resp A).
Definition status (a : Reply) : Z := match a with Answer r => resp_status r end.

Section router.
Context {W : Type} `{World W} `{SqlEngine} `{RedisServer} `{JwtLib} `{!Bcrypt W}.
Context `{TagRegex} `{Storage W}.

Definition authentication (e : Env) (token : string) (g : Guard) (r : Req) : ST W Mid :=
  match g with
  | Public => st_ret (Next (rq_ctx r))
  | Protected => JWTAuth (ev_secret e) (ev_cache e) r
  | Soft => SoftJWTAuth (ev_secret e) (ev_cache e) r
  | Sse => SSERequireAuth (ev_secret e) token r
  end.

(** the limiter of a route, which runs after the middleware of its group *)
Definition limiter (e : Env) (c : Call) (r : Req) : ST W Mid :=
  match c with
  | PostLogin _ => Limit (ev_cache e) "account_login" 10 Minute (Some KeyByIP) r
  | PostRegister _ => Limit (ev_cache e) "account_register" 5 Hour (Some KeyByIP) r
  | PostLike _ | PostUnlike _ => Limit (ev_cache e) "like_write" 30 Minute (Some KeyByAccount) r
  | PostPublishComment _ | PostDeleteComment _ =>
      Limit (ev_cache e) "comment_write" 10 Minute (Some KeyByAccount) r
  | PostFollow _ | PostUnfollow _ =>
      Limit (ev_cache e) "social_write" 20 Minute (Some KeyByAccount) r
  | _ => st_ret (Next (rq_ctx r))
  end.

(** [fuel] bounds the recursion of the feed's ListLatest. *)
Definition handle (fuel : nat) (e : Env) (c : Ctx) (call : Call) : ST W (option Reply) :=
  let reply {A} (m : ST W (Resp A)) : ST W (option Reply) := r <- m ;; st_ret (Some (Answer r)) in
  match call with
  | PostRegister req => reply (AccountHandler_CreateAccount req)
  | PostLogin req => reply (AccountHandler_Login (accountService e) req)
  | PostRefresh req => reply (Refresh (accountService e) req)
  | PostChangePassword req => reply (AccountHandler_ChangePassword req)
  | PostFindByID req => reply (AccountHandler_FindByID req)
  | PostFindByUsername req => reply (AccountHandler_FindByUsername req)
  | PostRename req => reply (AccountHandler_Rename (accountService e) c req)
  | PostLogout => reply (AccountHandler_Logout (accountService e) c)
  | PostUploadAvatar file => reply (UploadAvatar (ev_cos e) c file)
  | PostUpdateProfile req => reply (AccountHandler_UpdateProfile c req)
  | PostListByAuthorID req => reply (VideoHandler_ListByAuthorID req)
  | PostGetDetail req => reply (VideoHandler_GetDetail (videoService e) req)
  | PostUploadVideo file => reply (UploadVideo (ev_cos e) c file)
  | PostUploadCover file => reply (UploadCover (ev_cos e) c file)
  | PostPublishVideo req => reply (PublishVideo c req)
  | PostLike req => reply (LikeHandler_Like (likeService e) c req)
  | PostUnlike req => reply (LikeHandler_Unlike (likeService e) c req)
  | PostIsLiked req => reply (LikeHandler_IsLiked c req)
  | PostListMyLikedVideos => reply (ListMyLikedVideos c)
  | PostListAllComments req => reply (CommentHandler_ListAllComments req)
  | PostPublishComment req => reply (PublishComment (commentService e) c req)
  | PostDeleteComment req => reply (CommentHandler_DeleteComment (commentService e) c req)
  | PostFollow req => reply (SocialHandler_Follow (socialMQ e) c req)
  | PostUnfollow req => reply (SocialHandler_Unfollow (socialMQ e) c req)
  | PostListAllFollowers req => reply (SocialHandler_ListAllFollowers c req)
  | PostListAllVloggers req => reply (SocialHandler_ListAllVloggers c req)
  | PostGetCounts => reply (GetCounts c)
  | PostListByFollowing req => reply (FeedHandler_ListByFollowing (feedService e) c req)
  | PostListLatest req =>
      r <- FeedHandler_ListLatest fuel (feedService e) c req ;;
      st_ret ((λ r, Answer r) <$> r)
  | PostListLikesCount req => reply (FeedHandler_ListLikesCount c req)
  | PostListByPopularity req => reply (FeedHandler_ListByPopularity (feedService e) c req)
  | PostListByTag req => reply (FeedHandler_ListByTag c req)
  | PostSendMessage req => reply (MessageHandler_Send c req)
  | PostListMessages req => reply (MessageHandler_List c req)
  | PostGetAccountProfile req => reply (GetAccountProfile req)
  | PostListNotifications => reply (ListHandler c)
  | PostMarkRead req_ID => reply (MarkReadHandler c req_ID)
  | PostUnreadCount => reply (UnreadCountHandler c)
  end.

(** [c.Next()] and [c.AbortWithStatusJSON] *)
Definition proceed (m : Mid) (k : Ctx → ST W (option Reply)) : ST W (option Reply) :=
  match m with
  | Abort s e => st_ret (Some (Answer (RespErr (A := unit) s e)))
  | Next c => k c
  end.

(** From the limiter on, for the context the group's middleware has set. *)
Definition limited_call (fuel : nat) (e : Env) (rq : Request) (c : Ctx) : ST W (option Reply) :=
  m <- limiter e (hr_call rq) (mkReq (hr_Authorization rq) (hr_ClientIP rq) c) ;;
  proceed m (λ c, handle fuel e c (hr_call rq)).

Definition SetRouter (fuel : nat) (e : Env) (rq : Request) : ST W (option Reply) :=
  m <- authentication e (hr_token rq) (guard (hr_call rq))
         (mkReq (hr_Authorization rq) (hr_ClientIP rq) (mkCtx None None)) ;;
  proceed m (limited_call fuel e rq).
End router.
