(* ===== verification/Boot.v ===== *)
(** Start-up of the two programs: [main] of cmd/main.go and of
    cmd/worker/main.go, with the constructors of the clients they make
    (internal/db, internal/middleware/redis, rabbitmq and cos) and the server
    for profiling (internal/observability). *)
From S2P Require Import Prelude GoStd TextFacts Config Entities Json Services RedisClient Mq Topology TopologyFacts.
From S2P Require Import Http Account Upload Router Reference.
Local Open Scope Z_scope.
Local Open Scope go_scope.

(** ** What the program starts on

    Opening the database and migrating its schema, which keeps the rows there
    are; the PING of Redis; dialing the broker; listening on an address; waiting;
    the graceful shutdown of an HTTP server within a time; the parser of URLs,
    followed by [String]. *)
Class Host (W : Type) := {
  db_open : string → ST W (result unit);
  db_migrate : ST W (result unit);
  redis_ping : string → string → Z → ST W (result unit);
  amqp_dial : string → ST W (result unit);
  tcp_listen : string → ST W (result unit);
  http_shutdown : Z → ST W (result unit);
  sleep : Z → ST W unit;
  (** closing: the pool of the database, which [DB()] of gorm hands out, the
      client of Redis, a channel and the connection to the broker *)
  sql_handle : ST W (result unit);
  sql_close : ST W (result unit);
  redis_close : ST W (result unit);
  ch_close : ST W (result unit);
  conn_close : ST W (result unit);
  url_parse : string → result string }.

Class HostLaws (W : Type) `{World W, Host W} : Prop := {
  law_db_open : ∀ dsn w r w', db_open dsn w = (r, w') →
    v_up (view w') = v_up (view w) ∧ (r = Ok tt ∨ is_ok r = false ∧ up_db (v_up (view w)) = false);
  law_db_migrate : ∀ w r w', db_migrate w = (r, w') →
    v_up (view w') = v_up (view w) ∧ (r = Ok tt ∨ is_ok r = false ∧ up_db (v_up (view w)) = false) }.

(** ** pprof.go *)

(** the routes, with their handlers of net/http/pprof *)
Definition NewPprofMux : list (string * string) :=
  [("/debug/pprof/", "Index"); ("/debug/pprof/cmdline", "Cmdline"); ("/debug/pprof/profile", "Profile");
   ("/debug/pprof/symbol", "Symbol"); ("/debug/pprof/trace", "Trace")].

Record PprofServer := mkPprofServer {
  ps_name : string; ps_addr : string; ps_handler : list (string * string);
  ps_ReadHeaderTimeout : Z; ps_shutdownTimeout : Z }.

Section pprof.
Context {W : Type} `{Host W}.

(** no error and no server where it is disabled; the server then runs beside
    the program *)
Definition NewPprofServer (name : string) (enabled : bool) (addr : string) :
    ST W (result (option PprofServer)) :=
  if negb enabled || String.eqb addr "" then st_ret (Ok None)
  else
    _ <-? tcp_listen addr ;;
    st_ret (Ok (Some (mkPprofServer name addr NewPprofMux (5 * Second) (3 * Second)))).

(** a server that could not be started is only logged *)
Definition server_of (r : result (option PprofServer)) : option PprofServer :=
  match r with Ok s => s | Err _ => None end.

(** [server]: it is not nil; the context ends after [timeout] *)
Definition Shutdown (timeout : Z) (server : bool) : ST W (result unit) :=
  if server then http_shutdown timeout else st_ret (Ok tt).

Definition PprofServer_Close (s : option PprofServer) : ST W (result unit) :=
  match s with
  | None => st_ret (Ok tt)
  | Some s => Shutdown (ps_shutdownTimeout s) true
  end.
End pprof.

(** ** connectWithRetry *)

(** [time.Duration(1<<i) * time.Second], at most 30 seconds; in nanoseconds *)
Definition backoff (i : nat) : Z := Z.min (wrap64 (2 ^ Z.of_nat i * 1000000000)) (30 * 1000000000).

(** false: [log.Fatalf] ends the process *)
Fixpoint connectWithRetry {W} `{Host W} (i maxRetries : nat) (fn : ST W (result unit)) : ST W bool :=
  match maxRetries with
  | O => st_ret false
  | S n =>
      r <- fn ;;
      if is_ok r then st_ret true
      else sleep (backoff i) ;;; connectWithRetry (S i) n fn
  end.

(** ** The constructors *)
Definition db_dsn (c : DatabaseConfig) : string :=
  db_User c +:+ ":" +:+ db_Password c +:+ "@tcp(" +:+ db_Host c +:+ ":" +:+ dec (db_Port c) +:+ ")/"
  +:+ db_DBName c +:+ "?charset=utf8mb4&parseTime=True&loc=Local".

(** the address, the password and the database of the options *)
Definition redis_options (c : RedisConfig) : string * string * Z :=
  (rc_Host c +:+ ":" +:+ dec (rc_Port c), rc_Password c, rc_DB c).
Definition NewRedisClient (c : RedisConfig) : Client := mkClient DefaultKeyPrefix.

Definition amqp_url (c : RabbitMQConfig) : string :=
  "amqp://" +:+ mc_Username c +:+ ":" +:+ mc_Password c +:+ "@" +:+ mc_Host c +:+ ":" +:+ dec (mc_Port c).

Definition defaultTimeout : Z := 300 * Second.

(** the client, and the timeout of its HTTP client *)
Definition NewCosClient (parse : string → result string) (cfg : option COSConfig) :
    result (CosClient * Z) :=
  match cfg with
  | None => Err (ErrMsg "cos config is nil")
  | Some cfg =>
      if String.eqb (cc_Bucket cfg) "" || String.eqb (cc_Region cfg) ""
      then Err (ErrMsg "cos bucket and region are required")
      else if String.eqb (cc_SecretID cfg) "" || String.eqb (cc_SecretKey cfg) ""
      then Err (ErrMsg "cos secret id and secret key are required")
      else
        match parse ("https://" +:+ cc_Bucket cfg +:+ ".cos." +:+ cc_Region cfg +:+ ".myqcloud.com") with
        | Err e => Err e
        | Ok bucketURL =>
            let timeout := if 0 <? cc_TimeoutSeconds cfg then cc_TimeoutSeconds cfg * Second
                           else defaultTimeout in
            Ok (mkCosClient bucketURL (public_base (cc_PublicBaseURL cfg)), timeout)
        end
  end.

Section boot.
Context {W : Type} `{World W} `{Amqp W} `{Host W}.
Variables (Getenv : string → string) (ReadFile : string → result string).
Variables (yaml_Unmarshal : string → result Config).

Definition NewRabbitMQ (cfg : option RabbitMQConfig) : ST W (result unit) :=
  match cfg with
  | None => st_ret (Err (ErrMsg "rabbitmq config is nil"))
  | Some cfg => _ <-? amqp_dial (amqp_url cfg) ;; open_channel
  end.

(** a client with the options it connects with *)
Definition Redis_Ping (c : option (Client * (string * string * Z))) : ST W (result unit) :=
  match c with
  | None => st_ret (Ok tt)
  | Some (_, (addr, password, db)) => redis_ping addr password db
  end.

Definition Redis_Close (c : option Client) : ST W (result unit) :=
  match c with None => st_ret (Ok tt) | Some _ => redis_close end.

(** Redis is used when it answers a PING. *)
Definition connect_redis (cfg : RedisConfig) : ST W (option Client) :=
  let cache := NewRedisClient cfg in
  r <- Redis_Ping (Some (cache, redis_options cfg)) ;;
  if is_ok r then st_ret (Some cache)
  else Redis_Close (Some cache) ;;; st_ret None.

Definition config_path : string :=
  if String.eqb (Getenv "CONFIG_PATH") "" then "configs/config-dev.yaml" else Getenv "CONFIG_PATH".

(** What the server runs with, the address it listens on and the queues of the
    notification workers it started, with the server for profiling; an error
    ends the process. *)
Definition api_main : ST W (result (Env * string * list string * option PprofServer)) :=
  match Load Getenv ReadFile yaml_Unmarshal config_path with
  | Err _ => st_ret (Err (ErrMsg "load config failed! please set correct CONFIG_PATH"))
  | Ok cfg =>
      match SetJWTSecret (jc_JWTSecret (cf_JWT cfg)) with
      | Err e => st_ret (Err e)
      | Ok secret =>
          _ <-? db_open (db_dsn (cf_Database cfg)) ;;
          _ <-? db_migrate ;;
          cache <- connect_redis (cf_Redis cfg) ;;
          rmq <- NewRabbitMQ (Some (cf_RabbitMQ cfg)) ;;
          let cosClient := match NewCosClient url_parse (Some (cf_COS cfg)) with
                           | Ok (c, _) => Some c
                           | Err _ => None
                           end in
          pprof <- NewPprofServer "API" (pp_Enabled (ob_Pprof (cf_Observability cfg)))
                     (pp_ApiAddr (ob_Pprof (cf_Observability cfg))) ;;
          started <- api_startup (is_ok rmq) ;;
          st_ret (Ok (mkEnv cache secret started.1 cosClient,
                      ":" +:+ dec (sv_Port (cf_Server cfg)), started.2,
                      server_of pprof))
      end
  end.

(** The client of Redis, the workers that were started and the server for
    profiling; the process then waits for the first of them to end. *)
Definition worker_main : ST W (result (option Client * list (string * option string) * option PprofServer)) :=
  match Load Getenv ReadFile yaml_Unmarshal config_path with
  | Err _ => st_ret (Err (ErrMsg "Failed to load config"))
  | Ok cfg =>
      ok <- connectWithRetry 0 10 (db_open (db_dsn (cf_Database cfg))) ;;
      if negb ok then st_ret (Err (ErrMsg "MySQL"))
      else
        cache <- connect_redis (cf_Redis cfg) ;;
        ok <- connectWithRetry 0 10 (NewRabbitMQ (Some (cf_RabbitMQ cfg))) ;;
        if negb ok then st_ret (Err (ErrMsg "RabbitMQ"))
        else
          started <-? worker_startup (bool_decide (cache ≠ None)) ;;
          pprof <- NewPprofServer "Worker" (pp_Enabled (ob_Pprof (cf_Observability cfg)))
                     (pp_WorkerAddr (ob_Pprof (cf_Observability cfg))) ;;
          st_ret (Ok (cache, started, server_of pprof))
  end.
End boot.

(** ** What a server that has started runs with *)
Section facts.
Context {W : Type} `{WorldLaws W} `{Amqp W} `{HostLaws W}.
Variables (Getenv : string → string) (ReadFile : string → result string).
Variables (yaml_Unmarshal : string → result Config).
Abbreviation loaded := (Load Getenv ReadFile yaml_Unmarshal (config_path Getenv)).

Definition secret_of (cfg : Config) : string := TrimSpace (jc_JWTSecret (cf_JWT cfg)).

(** the object store is set up: its four settings are there, and its URL parses *)
Definition cos_ready (cfg : Config) : Prop :=
  let k := cf_COS cfg in
  cc_Bucket k ≠ "" ∧ cc_Region k ≠ "" ∧ cc_SecretID k ≠ "" ∧ cc_SecretKey k ≠ "" ∧
  is_ok (url_parse ("https://" +:+ cc_Bucket k +:+ ".cos." +:+ cc_Region k +:+ ".myqcloud.com")) = true.

Lemma NewCosClient_ready cfg :
  is_ok (NewCosClient url_parse (Some (cf_COS cfg))) = true ↔ cos_ready cfg.
Proof.
  unfold NewCosClient, cos_ready. destruct (cf_COS cfg) as [b r i k u t].
  cbn [cc_Bucket cc_Region cc_SecretID cc_SecretKey].
  destruct (String.eqb_spec b ""), (String.eqb_spec r ""); cbn [orb]; try by intuition.
  destruct (String.eqb_spec i ""), (String.eqb_spec k ""); cbn [orb]; try by intuition.
  destruct (url_parse _); simpl; by intuition.
Qed.

Lemma connect_redis_prefix cfg w :
  runs (connect_redis cfg) w (λ cache _, ∀ c, cache = Some c → c = mkClient DefaultKeyPrefix).
Proof.
  unfold connect_redis. apply runs_bind, runs_intro. intros r w1 _.
  destruct (is_ok r); [apply runs_ret; by intros c [= <-]|].
  apply runs_bind, runs_intro. intros r2 w2 _. by apply runs_ret.
Qed.

(** The server starts when its configuration loads, the secret is not
    blank and the database opens and migrates, and only then; Redis, the
    broker and the object store decide what it starts with, never whether.
    The secret it signs with is the configured one without its blanks and not
    empty, its Redis client has the default prefix, uploads are enabled exactly
    when the object store is set up, and it listens on the configured port. *)
Theorem api_main_starts w :
  runs (api_main Getenv ReadFile yaml_Unmarshal) w (λ r _,
    match r with
    | Ok (env, addr, _, _) => ∃ cfg, loaded = Ok cfg ∧
        ev_secret env = secret_of cfg ∧ secret_of cfg ≠ "" ∧
        (∀ c, ev_cache env = Some c → c = mkClient DefaultKeyPrefix) ∧
        (ev_cos env ≠ None ↔ cos_ready cfg) ∧ addr = ":" +:+ dec (sv_Port (cf_Server cfg))
    | Err _ => ∀ cfg, loaded = Ok cfg → secret_of cfg = "" ∨ up_db (v_up (view w)) = false
    end).
Proof.
  unfold api_main. destruct loaded as [cfg|e]; [|by apply runs_ret].
  unfold SetJWTSecret. fold (secret_of cfg).
  destruct (String.eqb_spec (secret_of cfg) "") as [Hs|Hs]; [apply runs_ret; intros ? [= <-]; by left|].
  apply runs_try, runs_intro. intros r1 w1 [Hu1 [-> | [Hr1 Hdown]]]%law_db_open.
  2:{ destruct r1; [done|]. intros ? [= <-]. by right. }
  apply runs_try, runs_intro. intros r2 w2 [Hu2 [-> | [Hr2 Hdown]]]%law_db_migrate.
  2:{ destruct r2; [done|]. intros ? [= <-]. right. congruence. }
  apply runs_bind. eapply runs_mono; [apply connect_redis_prefix|]. intros cache w3 Hcache.
  apply runs_bind, runs_intro. intros rmq w4 _.
  apply runs_bind, runs_intro. intros pprof w5 _.
  apply runs_bind, runs_intro. intros [mqs started] w6 _. apply runs_ret.
  exists cfg. split; [done|]. cbn [ev_secret ev_cache ev_cos fst snd]. split; [done|]. split; [done|].
  split; [done|]. split; [|done].
  rewrite <-NewCosClient_ready.
  by destruct (NewCosClient url_parse (Some (cf_COS cfg))) as [[? ?]|?].
Qed.
End facts.

(** ** How long connectWithRetry tries

    A world in which the calls have the results [at_results] in order, and the
    waits are added up. *)
Record Attempts := mkAttempts { at_results : nat → bool; at_calls : nat; at_waited : Z }.
Definition attempt : ST Attempts (result unit) := λ w,
  (if at_results w (at_calls w) then Ok tt else Err (ErrIO 0),
   mkAttempts (at_results w) (S (at_calls w)) (at_waited w)).
#[local] Instance attempts_host : Host Attempts := {|
  db_open _ := attempt; db_migrate := attempt; redis_ping _ _ _ := attempt; amqp_dial _ := attempt;
  tcp_listen _ := attempt; http_shutdown _ := attempt; sql_handle := attempt; sql_close := attempt;
  redis_close := attempt; ch_close := attempt; conn_close := attempt;
  sleep d := λ w, (tt, mkAttempts (at_results w) (at_calls w) (at_waited w + Z.max 0 d));
  url_parse s := Ok s |}.

(** It gives up after ten failures and 181 seconds at most, and goes on as
    soon as a call succeeds. *)
Lemma connect_ten results dsn :
  let '(ok, w) := connectWithRetry 0 10 (db_open dsn) (mkAttempts results 0 0) in
  0 ≤ at_waited w ≤ 181 * 1000000000 ∧
  if ok then results (at_calls w - 1)%nat = true else ∀ i, (i < 10)%nat → results i = false.
Proof.
  cbn [connectWithRetry db_open attempts_host]. unfold st_bind, attempt. cbn [at_results at_calls at_waited].
  repeat (match goal with |- context [if results ?i then _ else _] => destruct (results i) eqn:? end;
    cbn [is_ok sleep attempts_host fst snd at_results at_calls at_waited]).
  all: cbv [st_ret]; cbn [at_waited at_calls Nat.sub].
  all: split; [split; by vm_compute|]; try done.
  intros i Hi. do 10 (destruct i as [|i]; [done|]). lia.
Qed.

(** ** On a machine where everything answers *)
#[export] Instance demo_host : Host BrokerW := {|
  db_open _ := st_ret (Ok tt); db_migrate := st_ret (Ok tt); redis_ping _ _ _ := st_ret (Ok tt);
  amqp_dial _ := st_ret (Ok tt); tcp_listen _ := st_ret (Ok tt); http_shutdown _ := st_ret (Ok tt);
  sql_handle := st_ret (Ok tt); sql_close := st_ret (Ok tt); redis_close := st_ret (Ok tt);
  ch_close := st_ret (Ok tt); conn_close := st_ret (Ok tt);
  sleep d := λ w, (tt, (mkRefW (rw_view w.1) (rw_clk w.1 + d / 1000000) (rw_seq w.1) (rw_fails w.1), w.2));
  url_parse s := Ok s |}.
#[export] Instance demo_host_laws : HostLaws BrokerW.
Proof. split; [intros dsn|]; intros w r w' [= <- <-]; by auto. Qed.

Definition demo_config : Config :=
  mkConfig (mkServerConfig 8080) (mkDatabaseConfig "localhost" 3306 "root" "password" "go_video")
    (mkRedisConfig "localhost" 6379 "" 0) (mkRabbitMQConfig "localhost" 5672 "guest" "guest")
    (mkJWTConfig " file-secret ") (mkCOSConfig "b-1" "ap-beijing" "sid" "skey" "" 300)
    (mkObservabilityConfig (mkPprofConfig false "" "")).
Definition demo_getenv (name : string) : string := if String.eqb name "SERVER_PORT" then "9090" else "".

Example api_main_demo :
  match (api_main demo_getenv (λ _, Ok "yaml") (λ _, Ok demo_config) new_broker).1 with
  | Ok (env, addr, started, pprof) =>
      ev_secret env = "file-secret" ∧ addr = ":9090" ∧ ev_mqs env = mkMQs true true true true ∧
      co_bucketURL <$> ev_cos env = Some "https://b-1.cos.ap-beijing.myqcloud.com" ∧
      started = notification_queues ∧ pprof = None
  | Err _ => False
  end.
Proof. by vm_compute. Qed.

Example worker_main_demo :
  match (worker_main demo_getenv (λ _, Ok "yaml") (λ _, Ok demo_config) new_broker).1 with
  | Ok (cache, ws, pprof) =>
      cache = Some (mkClient DefaultKeyPrefix) ∧ pprof = None ∧
      ws.*1 = ["social_worker"; "like_worker"; "comment_worker"; "outbox_worker"; "popularity_worker";
               "timeline_worker"]
  | Err _ => False
  end.
Proof. by vm_compute. Qed.

Lemma api_main_starts_witness :
  runs (api_main demo_getenv (λ _, Ok "yaml") (λ _, Ok demo_config)) new_broker (λ r _,
    match r with
    | Ok (env, addr, _, _) => ∃ cfg,
        Load demo_getenv (λ _, Ok "yaml") (λ _, Ok demo_config) (config_path demo_getenv) = Ok cfg ∧
        ev_secret env = secret_of cfg ∧ secret_of cfg ≠ "" ∧
        (∀ c, ev_cache env = Some c → c = mkClient DefaultKeyPrefix) ∧
        (ev_cos env ≠ None ↔ cos_ready (W := BrokerW) cfg) ∧ addr = ":" +:+ dec (sv_Port (cf_Server cfg))
    | Err _ => ∀ cfg,
        Load demo_getenv (λ _, Ok "yaml") (λ _, Ok demo_config) (config_path demo_getenv) = Ok cfg →
        secret_of cfg = "" ∨ up_db (v_up (view new_broker)) = false
    end).
Proof. exact (api_main_starts demo_getenv (λ _, Ok "yaml") (λ _, Ok demo_config) new_broker). Defined.
