(* ===== verification/RouterFacts.v ===== *)
(** What holds of every route, and of every message a worker handles. *)
From S2P Require Import Prelude GoStd Query Entities Json Services RedisFacts RedisClient Mq Topology.
From S2P Require Import DbFacts Frames Http Video VideoPublish Like RateLimit Account Upload Comment Social Notification.
From S2P Require Import Outbox Sessions UploadFacts Feed Message Profile Router Reference.
Local Open Scope Z_scope.
Local Open Scope go_scope.

Section frames.
Context {W : Type} `{WorldLaws W} `{SqlLaws} `{RedisServer} (R : relation View) `{!Frame R}.
Abbreviation keeps := (within (S := W) (on_view R)).

Lemma keeps_wait_cache `{TagRegex} n key k : keeps k → keeps (wait_cache n key k).
Proof. intros Hk. induction n as [|n IH]; simpl; [done|]. frame. Qed.

Lemma keeps_await_page n key k : keeps k → keeps (await_page n key k).
Proof. intros Hk. induction n as [|n IH]; simpl; [done|]. frame. all: exact IH. Qed.

Lemma keeps_ListLatest fuel s limit before a : keeps (ListLatest fuel s limit before a).
Proof. induction fuel as [|n IH]; simpl; frame. Qed.

Context `{Storage W} `{!StorageLaws W}.
Lemma keeps_mkdir p : keeps (mkdir_all p).
Proof. apply keeps_same; [apply _|]. by intros w r w' (? & E & _)%law_mkdir. Qed.
Lemma keeps_save f p : keeps (save_file f p).
Proof. apply keeps_same; [apply _|]. by intros w r w' (? & E & _)%law_save. Qed.
Lemma keeps_remove p : keeps (remove_file p).
Proof. apply keeps_same; [apply _|]. by intros w r w' (? & E & _)%law_remove. Qed.
Lemma keeps_cos_put k p : keeps (cos_put k p).
Proof. apply keeps_same; [apply _|]. by intros w r w' (? & E & _)%law_cos_put. Qed.
Context `{!Bcrypt W, !BcryptLaws W}.
Lemma keeps_generate p : keeps (GenerateFromPassword p).
Proof.
  apply keeps_same; [apply _|]. intros w r w' E. apply (runs_elim _ _ _ _ _ (law_generate p w)) in E. by destruct E as (? & ? & _).
Qed.
End frames.
#[export] Hint Extern 1 (within _ (wait_cache _ _ _)) => apply keeps_wait_cache; [apply _|] : frames.
#[export] Hint Extern 1 (within _ (await_page _ _ _)) => apply keeps_await_page; [apply _|] : frames.
#[export] Hint Extern 1 (within _ (ListLatest _ _ _ _ _)) => apply keeps_ListLatest; apply _ : frames.
#[export] Hint Extern 1 (within _ (mkdir_all _)) => apply keeps_mkdir; apply _ : frames.
#[export] Hint Extern 1 (within _ (save_file _ _)) => apply keeps_save; apply _ : frames.
#[export] Hint Extern 1 (within _ (remove_file _)) => apply keeps_remove; apply _ : frames.
#[export] Hint Extern 1 (within _ (cos_put _ _)) => apply keeps_cos_put; apply _ : frames.
#[export] Hint Extern 1 (within _ (GenerateFromPassword _)) => apply keeps_generate; apply _ : frames.

Section routes.
Context {W : Type} `{WorldLaws W} `{SqlLaws} `{RedisServer} `{JwtLib} `{!Bcrypt W, !BcryptLaws W}.
Context `{TagRegex} `{Storage W} `{!StorageLaws W}.

Definition read_only (c : Call) : bool :=
  match c with
  | PostFindByID _ | PostFindByUsername _ | PostListByAuthorID _ | PostGetDetail _ | PostUploadVideo _
  | PostUploadCover _ | PostIsLiked _ | PostListMyLikedVideos | PostListAllComments _
  | PostListAllFollowers _ | PostListAllVloggers _ | PostGetCounts | PostListByFollowing _
  | PostListLatest _ | PostListLikesCount _ | PostListByPopularity _ | PostListByTag _
  | PostListMessages _ | PostGetAccountProfile _ | PostListNotifications | PostUnreadCount => true
  | _ => false
  end.

Lemma handle_read_only fuel e c call :
  read_only call = true → within (S := W) (on_view untouched) (handle fuel e c call).
Proof.
  destruct call; intros [=]; unfold handle; cbv zeta.
  all: frame.
Qed.

Lemma schema_publish_tags t v tags : within schema_db (publish_tags t v tags).
Proof. induction tags as [|g tags IH]; simpl; keep_schema. Qed.
#[local] Hint Resolve schema_publish_tags : frames.

Lemma handle_schema fuel e c call : within (S := W) (on_view schema) (handle fuel e c call).
Proof.
  destruct call; unfold handle; cbv zeta.
  all: keep_schema.
Qed.

(** The middlewares write to Redis at most. *)
Lemma authentication_frame R `{!Frame R} e token g r :
  within (S := W) (on_view R) (authentication e token g r).
Proof. destruct g; unfold authentication; frame. Qed.

Lemma limiter_frame R `{!Frame R} e c r : within (S := W) (on_view R) (limiter e c r).
Proof. destruct c; unfold limiter; frame. Qed.

(** ** Who gets through *)

(** What the middleware of a route's group decides at the instant [t], from
    the accounts table and the token alone. *)
Definition admission (e : Env) (d : Db) (t : Z) (rq : Request) : Mid :=
  let header := hr_Authorization rq in
  match guard (hr_call rq) with
  | Public => Next (mkCtx None None)
  | Protected =>
      if String.eqb header "" then unauthorized "missing authorization header"
      else session_decision (ev_secret e) d t header
  | Soft =>
      if String.eqb header "" then Next (mkCtx None None)
      else session_decision (ev_secret e) d t header
  | Sse =>
      let token := if String.eqb (hr_token rq) "" then Notification.bearer header else hr_token rq in
      if String.eqb token "" then unauthorized "missing token"
      else match ParseWithClaims (key_callback (ev_secret e)) t token with
           | Err _ => unauthorized "invalid token"
           | Ok claims => Next (mkCtx (Some (cl_AccountID claims)) None)
           end
  end.

Lemma session_decision_cases secret d t header :
  (∃ msg, session_decision secret d t header = unauthorized msg) ∨
  (∃ claims, session_decision secret d t header = let_in claims).
Proof. unfold session_decision. repeat case_match; eauto. Qed.

Lemma admission_abort e d t rq s er : admission e d t rq = Abort s er → s = 401.
Proof.
  unfold admission. destruct (guard (hr_call rq)); [done|..|by repeat case_match; intros [= <- _]];
    (destruct (String.eqb _ _); [by intros [= <- _]|]);
    destruct (session_decision_cases (ev_secret e) d t (hr_Authorization rq)) as [[? ->]|[? ->]];
    by intros [= <- _].
Qed.

Definition open_write (c : Call) : bool :=
  match c with PostRegister _ | PostLogin _ | PostRefresh _ | PostChangePassword _ => true | _ => false end.

Lemma writes_are_guarded c : read_only c = true ∨ open_write c = true ∨ guard c = Protected ∨ guard c = Sse.
Proof. destruct c; auto. Qed.

Lemma limited_call_read_only fuel e rq cx :
  read_only (hr_call rq) = true → within (S := W) (on_view untouched) (limited_call fuel e rq cx).
Proof.
  intros Hr. unfold limited_call. apply within_bind; [apply _|apply limiter_frame, _|].
  intros [cx'|s er]; [by apply handle_read_only|apply within_ret, _].
Qed.

Lemma limited_call_schema fuel e rq cx : within (S := W) (on_view schema) (limited_call fuel e rq cx).
Proof.
  unfold limited_call. apply within_bind; [apply _|apply limiter_frame, _|].
  intros [cx'|s er]; [apply handle_schema|apply within_ret, _].
Qed.

Lemma SetRouter_schema fuel e rq : within (S := W) (on_view schema) (SetRouter fuel e rq).
Proof.
  unfold SetRouter. apply within_bind; [apply _|apply authentication_frame, _|].
  intros [cx|s er]; [apply limited_call_schema|apply within_ret, _].
Qed.

Lemma admission_names e d t rq cx :
  admission e d t rq = Next cx → guard (hr_call rq) = Protected ∨ guard (hr_call rq) = Sse →
  ∃ id, cx_accountID cx = Some id.
Proof.
  unfold admission. intros E [Hg|Hg]; rewrite Hg in E.
  - destruct (String.eqb _ _); [done|].
    destruct (session_decision_cases (ev_secret e) d t (hr_Authorization rq)) as [[? E']|[claims E']];
      rewrite E' in E; [done|]. injection E as <-. eauto.
  - repeat case_match; try done; injection E as <-; eauto.
Qed.

Context `{!RedisLaws} `{!JwtLaws}.
Variables (cl : Client) (e : Env).
Hypothesis (Hcache : ev_cache e = Some cl).

Lemma authentication_decides w rq :
  session_inv cl w → up_db (v_up (view w)) = true →
  runs (authentication e (hr_token rq) (guard (hr_call rq))
          (mkReq (hr_Authorization rq) (hr_ClientIP rq) (mkCtx None None))) w (λ m w1,
    session_inv cl w1 ∧ ∃ t, clk w ≤ t ≤ clk w1 ∧ m = admission e (v_db (view w)) t rq).
Proof.
  intros Hinv Hup. unfold authentication, admission.
  assert (∃ t, clk w ≤ t ≤ clk w) as Hnow by (by exists (clk w)).
  destruct (guard (hr_call rq)).
  - apply runs_ret. naive_solver.
  - unfold JWTAuth. cbn [rq_Authorization]. destruct (String.eqb _ ""); [apply runs_ret; naive_solver|].
    rewrite Hcache. eapply runs_mono; [by apply authenticate_decides|].
    intros m w1 (? & _ & _ & ?). done.
  - unfold SoftJWTAuth. cbn [rq_Authorization]. destruct (String.eqb _ ""); [apply runs_ret; naive_solver|].
    rewrite Hcache. eapply runs_mono; [by apply authenticate_decides|].
    intros m w1 (? & _ & _ & ?). done.
  - unfold SSERequireAuth. cbn [rq_Authorization rq_ctx cx_username].
    destruct (String.eqb (if String.eqb _ _ then _ else _) ""); [apply runs_ret; naive_solver|].
    unfold ParseToken. call. glue. split; [unfold session_inv; by rewrite Hv|].
    exists (clk w'). split; [lia|done].
Qed.

Lemma SetRouter_runs fuel rq w (Q : option Reply → W → Prop) :
  session_inv cl w → up_db (v_up (view w)) = true →
  (∀ w1 t, clk w ≤ t ≤ clk w1 → session_inv cl w1 → untouched (view w) (view w1) →
     match admission e (v_db (view w)) t rq with
     | Next cx => runs (limited_call fuel e rq cx) w1 Q
     | Abort s er => s = 401 → Q (Some (Answer (RespErr (A := unit) 401 er))) w1
     end) →
  runs (SetRouter fuel e rq) w Q.
Proof.
  intros Hinv Hup HQ. unfold SetRouter. apply runs_bind.
  eapply runs_mono; [apply runs_and; [by apply authentication_decides|]|].
  { apply within_runs, (authentication_frame untouched). }
  intros m w1 [(Hi & t & Ht & ->) [_ Hu]]. specialize (HQ w1 t Ht Hi Hu).
  destruct (admission _ _ _ _) as [cx|s er] eqn:Ea; [done|].
  apply admission_abort in Ea as ->. by apply runs_ret, HQ.
Qed.


End routes.

(** ** The theorems at concrete inputs *)
Definition a_env : Env := mkEnv (Some demo_cl) "s3cret" (mkMQs true true true true) None.
Definition a_request (c : Call) : Request := mkRequest "Bearer tok" "10.0.0.1" "" c.
Definition route_start : DiskW unit := (session_world, (mkFiles ∅ ∅ true, tt)).

Lemma route_start_inv : session_inv demo_cl route_start.
Proof. exact session_world_inv. Qed.


