(* ===== verification/Pipeline.v ===== *)
(** From the queues to the effects: an event is delivered at least once to the
    worker of each queue it is routed to, in any order; whatever the
    deliveries, the database ends as if every worker had handled it once. *)
From S2P Require Import Prelude GoStd Query Entities Json Services RedisFacts RedisClient Mq Topology TopologyFacts.
From S2P Require Import Retry DbFacts Frames Http Video Like LikeFacts Comment CommentFacts.
From S2P Require Import Social SocialFacts Notification NotificationFacts Reference.
Local Open Scope Z_scope.
Local Open Scope go_scope.

(** ** The workers of the queues: cmd/worker/main.go and [StartNotificationWorkers] *)
Section consumers.
Context {W : Type} `{World W} `{SqlEngine} `{RedisServer} `{PubSub W} `{NotificationHub W}.
Variables (cache : option Client) (nw : NotificationWorker).

Definition consumer (q : string) : option (Delivery → ST W (result unit)) :=
  if String.eqb q SocialQueue then Some (λ d, SocialWorker_process (p_Body d))
  else if String.eqb q LikeQueue then Some (λ d, LikeWorker_process (p_Body d))
  else if String.eqb q CommentQueue then Some (λ d, CommentWorker_process (p_Body d))
  else if String.eqb q PopularityQueue then
    match cache with
    | Some _ => Some (λ d, PopularityWorker_process cache (p_Body d))
    | None => None
    end
  else if String.eqb q TimelineQueue then
    match cache with
    | Some _ => Some (λ d, TimelineWorker_process cache (p_Body d))
    | None => None
    end
  else if String.eqb q NotificationLikeQueue || String.eqb q NotificationCommentQueue
       || String.eqb q NotificationSocialQueue
  then Some (NotificationWorker_process nw)
  else None.

(** One publication, delivered from these queues one after the other: how each
    delivery is settled.  A queue without a worker keeps its message. *)
Fixpoint deliver_all (qs : list string) (p : Pub) : ST W (list Settle) :=
  match qs with
  | [] => st_ret []
  | q :: qs =>
      match consumer q with
      | None => deliver_all qs p
      | Some process =>
          s <- handleMainDelivery process p ;;
          ss <- deliver_all qs p ;;
          st_ret (s :: ss)
      end
  end.
End consumers.

(** ** The tables but for the notifications *)
Definition same_but_notes (d d' : Db) : Prop :=
  ∀ R (T : table R), table_eqb TNotification T = false → tget T d' = tget T d.

#[export] Instance same_but_notes_equivalence : Equivalence same_but_notes.
Proof.
  split; unfold same_but_notes.
  - done.
  - intros d d' H R T HT. by rewrite H.
  - intros d1 d2 d3 H1 H2 R T HT. by rewrite H2, H1.
Qed.

(** What the worker of an event does to the tables, for which redelivery is
    harmless: [again]. *)
Class Effect (inv : Db → Prop) (E : relation Db) : Prop := {
  effect_proper :: Proper (same_but_notes ==> same_but_notes ==> iff) E;
  effect_inv_proper :: Proper (same_but_notes ==> iff) inv;
  effect_authors : ∀ d d', E d d' → ∀ v, author_of v d' = author_of v d;
  effect_again : ∀ d d1 d2, E d d1 → E d1 d2 → E d d2 }.

Lemma same_tget {R} (T : table R) d d' :
  same_but_notes d d' → table_eqb TNotification T = false → tget T d' = tget T d.
Proof. intros H. apply H. Qed.

Lemma same_pairs d d' : same_but_notes d d' → pairs d' = pairs d.
Proof. intros H. unfold pairs, rows. by rewrite (same_tget TLike d d' H). Qed.
Lemma same_edges d d' : same_but_notes d d' → edges d' = edges d.
Proof. intros H. unfold edges, rows. by rewrite (same_tget TSocial d d' H). Qed.

(** A relation that looks at the other tables only. *)
Lemma effect_proper_of (E : relation Db) :
  (∀ d1 d2 d1' d2', same_but_notes d1 d1' → same_but_notes d2 d2' → E d1 d2 → E d1' d2') →
  Proper (same_but_notes ==> same_but_notes ==> iff) E.
Proof. intros H d1 d1' H1 d2 d2' H2. split; apply H; done. Qed.
Lemma inv_proper_of (P : Db → Prop) :
  (∀ d d', same_but_notes d d' → P d → P d') → Proper (same_but_notes ==> iff) P.
Proof. intros H d d' Hd. split; by apply H. Qed.

(** ** The three kinds of events that a notification worker also gets *)
Inductive Ev := EvLike (e : LikeEvent) | EvComment (e : CommentEvent) | EvFollow (e : SocialEvent).

(** exchange, routing key, body; the queue of the worker that applies it and
    that of its notification worker *)
Definition ev_exchange (ev : Ev) : string :=
  match ev with EvLike _ => LikeExchange | EvComment _ => CommentExchange | EvFollow _ => SocialExchange end.
Definition ev_key (ev : Ev) : string :=
  match ev with
  | EvLike _ => LikeRoutingKeyLike
  | EvComment _ => CommentRoutingKeyPublish
  | EvFollow _ => SocialRoutingKeyFollow
  end.
Definition ev_body (ev : Ev) : bytes :=
  match ev with
  | EvLike e => marshal_like e
  | EvComment e => marshal_comment e
  | EvFollow e => marshal_social e
  end.
Definition ev_queue (ev : Ev) : string :=
  match ev with EvLike _ => LikeQueue | EvComment _ => CommentQueue | EvFollow _ => SocialQueue end.
Definition ev_notices (ev : Ev) : string :=
  match ev with
  | EvLike _ => NotificationLikeQueue
  | EvComment _ => NotificationCommentQueue
  | EvFollow _ => NotificationSocialQueue
  end.
Definition ev_pub (ev : Ev) (p : Pub) : Prop :=
  p_Exchange p = ev_exchange ev ∧ p_RoutingKey p = ev_key ev ∧ p_Body p = ev_body ev.

(** All tables but two, and the notifications, are as they were. *)
Definition others {R1 R2} (T1 : table R1) (T2 : table R2) (d d' : Db) : Prop :=
  ∀ R (T : table R), table_eqb T1 T = false → table_eqb T2 T = false →
    table_eqb TNotification T = false → tget T d' = tget T d.

Lemma others_proper {R1 R2} (T1 : table R1) (T2 : table R2) d1 d2 d1' d2' :
  same_but_notes d1 d1' → same_but_notes d2 d2' → others T1 T2 d1 d2 → others T1 T2 d1' d2'.
Proof. intros H1 H2 H R T Ha Hb Hn. rewrite (H2 _ T), (H1 _ T) by done. by apply H. Qed.
Lemma others_trans {R1 R2} (T1 : table R1) (T2 : table R2) d1 d2 d3 :
  others T1 T2 d1 d2 → others T1 T2 d2 d3 → others T1 T2 d1 d3.
Proof. intros H1 H2 R T Ha Hb Hn. rewrite H2, H1; done. Qed.

Lemma author_alter (f : Video → Video) k v d d' :
  (∀ r, v_AuthorID (f r) = v_AuthorID r) → tget TVideo d' = alter f k (tget TVideo d) →
  author_of v d' = author_of v d.
Proof.
  intros Hf E. unfold author_of. rewrite E. destruct (decide (v = k)) as [->|Hne].
  - rewrite lookup_alter_eq. destruct (tget TVideo d !! k); simpl; [by rewrite Hf|done].
  - by rewrite lookup_alter_ne.
Qed.
Lemma author_same v d d' : tget TVideo d' = tget TVideo d → author_of v d' = author_of v d.
Proof. intros E. unfold author_of. by rewrite E. Qed.

Section effects.
Context `{SqlEngine}.

(** *** Likes *)
Definition like_due (e : LikeEvent) (d : Db) : Prop :=
  is_Some (tget TVideo d !! le_VideoID e) ∧ (le_VideoID e, le_UserID e) ∉ pairs d.
Definition like_on (e : LikeEvent) (d d' : Db) : Prop :=
  others TVideo TLike d d' ∧
  if decide (like_due e d)
  then pairs d' = {[(le_VideoID e, le_UserID e)]} ∪ pairs d ∧
       tget TVideo d' = alter liked (le_VideoID e) (tget TVideo d)
  else pairs d' = pairs d ∧ tget TVideo d' = tget TVideo d.

Lemma like_due_proper e d d' : same_but_notes d d' → like_due e d ↔ like_due e d'.
Proof. intros Hs. unfold like_due. by rewrite (same_pairs d d' Hs), (same_tget TVideo d d' Hs). Qed.

#[export] Instance like_effect_laws e : Effect counts_inv (like_on e).
Proof.
  split.
  - apply effect_proper_of. intros d1 d2 d1' d2' H1 H2 [Ho He]. split; [by eapply others_proper|].
    pose proof (like_due_proper e _ _ H1) as Hd.
    do 2 case_decide; [| |tauto|]; try tauto;
      by rewrite (same_pairs _ _ H1), (same_pairs _ _ H2), (same_tget TVideo _ _ H1), (same_tget TVideo _ _ H2).
  - apply inv_proper_of. intros d d' Hs Hc k r. unfold likes_of.
    rewrite (same_pairs _ _ Hs), (same_tget TVideo _ _ Hs) by done. apply Hc.
  - intros d d' [_ He] v. case_decide; destruct He as [_ Hv]; [by eapply author_alter, Hv|by apply author_same].
  - intros d d1 d2 [Ho1 H1] [Ho2 H2]. split; [by eapply others_trans|].
    destruct (decide (like_due e d)) as [Hd|Hd]; destruct H1 as [Hp1 Hv1].
    + rewrite decide_False in H2 by (unfold like_due; rewrite Hp1; set_solver).
      destruct H2 as [-> ->]. done.
    + rewrite decide_False in H2 by (unfold like_due; rewrite Hp1, Hv1; exact Hd).
      destruct H2 as [-> ->]. done.
Qed.

Lemma like_on_effect e d d' :
  le_Action e = "like" → event_effect e d d' →
  like_on e d d' ∧ tget TNotification d' = tget TNotification d.
Proof.
  unfold event_effect, like_effect, like_on. intros ->. cbn [String.eqb Ascii.eqb Bool.eqb].
  fold (like_due e d). case_decide as Hd.
  - intros (_ & Ho & _ & Hp & Hv). split; [|by apply Ho].
    split; [intros R T Ha Hb _; apply Ho; by destruct T|done].
  - by intros ->.
Qed.

(** *** Comments *)
Definition comment_due (e : CommentEvent) (d : Db) : Prop :=
  CommentFacts.event_valid e = true ∧ is_Some (tget TVideo d !! ce_VideoID e) ∧
  ¬ event_taken (ce_EventID e) d.
Definition comment_on (e : CommentEvent) (d d' : Db) : Prop :=
  others TVideo TComment d d' ∧
  ((comment_due e d ∧ ∃ id x, tget TComment d !! id = None ∧
      content_of x = content_of (comment_of_event e) ∧ c_EventID x = ce_EventID e ∧
      tget TComment d' = <[id := x]> (tget TComment d) ∧
      tget TVideo d' = alter (popularity_plus 1) (ce_VideoID e) (tget TVideo d)) ∨
   (¬ comment_due e d ∧ tget TComment d' = tget TComment d ∧ tget TVideo d' = tget TVideo d)).

Lemma comment_due_same e d d' :
  tget TComment d' = tget TComment d → tget TVideo d' = tget TVideo d → comment_due e d ↔ comment_due e d'.
Proof. intros Hc Hv. unfold comment_due, event_taken. by rewrite Hc, Hv. Qed.

#[export] Instance comment_effect_laws e : Effect popularity_ok (comment_on e).
Proof.
  split.
  - apply effect_proper_of. intros d1 d2 d1' d2' H1 H2 [Ho He]. split; [by eapply others_proper|].
    rewrite (same_tget TComment _ _ H1), (same_tget TComment _ _ H2), (same_tget TVideo _ _ H1),
      (same_tget TVideo _ _ H2) by done.
    rewrite <-(comment_due_same e d1 d1'); [done|by apply (same_tget TComment)|by apply (same_tget TVideo)].
  - apply inv_proper_of. intros d d' Hs Hc k r. rewrite (same_tget TVideo _ _ Hs) by done. apply Hc.
  - intros d d' [_ [(_ & id & x & _ & _ & _ & _ & Hv)|(_ & _ & Hv)]] v; [by eapply author_alter, Hv|by apply author_same].
  - intros d d1 d2 [Ho1 H1] [Ho2 H2]. split; [by eapply others_trans|].
    destruct H1 as [(Hd & id & x & Hn & Hcx & He & Hc1 & Hv1)|(Hd & Hc1 & Hv1)].
    + destruct H2 as [[(_ & _ & Hnt) _]|(_ & Hc2 & Hv2)].
      { exfalso. apply Hnt. exists id, x. by rewrite Hc1, lookup_insert_eq, He. }
      left. split; [done|]. exists id, x. by rewrite Hc2, Hv2.
    + rewrite (comment_due_same e d d1) by done. destruct H2 as [[Hd2 _]|(_ & -> & ->)].
      * destruct Hd. by apply (comment_due_same e d d1).
      * right. split; [|done]. by rewrite <-(comment_due_same e d d1).
Qed.

Lemma comment_on_effect e d d' :
  publish_effect e d d' → comment_on e d d' ∧ tget TNotification d' = tget TNotification d.
Proof.
  intros [(Hv & Hex & Hn & id & x & Hf & Hcx & He & Hc & Hvid & _ & Ho)|[Hd ->]].
  - split; [|by apply Ho]. split; [intros R T Ha Hb _; apply Ho; by destruct T|].
    left. split; [done|]. by exists id, x.
  - split; [|done]. split; [done|]. by right.
Qed.

(** *** Follows *)
Definition follow_on (e : SocialEvent) (d d' : Db) : Prop :=
  others TSocial TSocial d d' ∧ edges d' = social_step (edges d) e.

#[export] Instance follow_effect_laws e : Effect (λ _, True) (follow_on e).
Proof.
  split.
  - apply effect_proper_of. intros d1 d2 d1' d2' H1 H2 [Ho He]. split; [by eapply others_proper|].
    by rewrite (same_edges _ _ H1), (same_edges _ _ H2).
  - by intros d d' _.
  - intros d d' [Ho _] v. apply author_same. by apply Ho.
  - intros d d1 d2 [Ho1 H1] [Ho2 H2]. split; [by eapply others_trans|]. rewrite H2, H1.
    unfold social_step. repeat case_match; set_solver.
Qed.

Definition ev_effect (ev : Ev) : relation Db :=
  match ev with EvLike e => like_on e | EvComment e => comment_on e | EvFollow e => follow_on e end.
Definition ev_inv (ev : Ev) : Db → Prop :=
  match ev with EvLike _ => counts_inv | EvComment _ => popularity_ok | EvFollow _ => λ _, True end.
#[export] Instance ev_effect_laws ev : Effect (ev_inv ev) (ev_effect ev).
Proof. destruct ev; apply _. Qed.
End effects.

(** ** One delivery to the worker that applies the event *)
Section facts.
Context {W : Type} `{WorldLaws W} `{SqlLaws} `{RedisServer} `{PubSub W} `{NotificationHub W} `{!NotifyLaws W}.
Implicit Types w : W.

(** the event is well formed and its row, if it makes one, fits *)
Definition ev_ok (ev : Ev) : Prop :=
  match ev with
  | EvLike e => LikeFacts.event_valid e = true ∧ le_Action e = "like" ∧ eng_fits TLike [] = true
  | EvComment e =>
      is_uint (ce_CommentID e) && is_uint (ce_VideoID e) && is_uint (ce_AuthorID e) = true ∧
      ce_Action e = "publish" ∧ event_fits e
  | EvFollow e => event_ids_ok e ∧ se_Action e = "follow" ∧ eng_fits TSocial [] = true
  end.

(** Neither the channel nor the hub has got anything. *)
Definition silent : relation W := λ w w', channel w' = channel w ∧ pushes w' = pushes w.
#[local] Instance silent_preorder : PreOrder silent.
Proof. split; unfold silent; [by intros w|]. intros w1 w2 w3 [<- <-] [-> ->]. done. Qed.

Lemma silent_sql {A} (f : Z → Db → result A * Db) : within silent (sql f).
Proof. intros w. destruct (sql f w) as [r w'] eqn:E. exact (law_sql_aside _ _ _ _ _ E). Qed.
Lemma silent_now : within silent now.
Proof. intros w. destruct (now w) as [r w'] eqn:E. exact (law_now_aside _ _ _ E). Qed.
#[local] Hint Resolve silent_sql silent_now : frames.
Lemma silent_query {A} (f : Db → result A) : within silent (query f).
Proof. apply silent_sql. Qed.
#[local] Hint Resolve silent_query : frames.

Definition owner (ev : Ev) : Delivery → ST W (result unit) :=
  match ev with
  | EvLike _ => λ d, LikeWorker_process (p_Body d)
  | EvComment _ => λ d, CommentWorker_process (p_Body d)
  | EvFollow _ => λ d, SocialWorker_process (p_Body d)
  end.

Lemma owner_silent ev p : within silent (owner ev p).
Proof. destruct ev; cbn [owner]; frame. Qed.

Lemma owner_process ev p w :
  up_db (v_up (view w)) = true → db_ok (v_db (view w)) → ev_inv ev (v_db (view w)) → ev_ok ev →
  p_Body p = ev_body ev →
  runs (owner ev p) w (λ r w', r = Ok tt ∧ silent w w' ∧
    ∃ d', view w' = set_db d' (view w) ∧ db_ok d' ∧ ev_inv ev d' ∧
      ev_effect ev (v_db (view w)) d' ∧ tget TNotification d' = tget TNotification (v_db (view w))).
Proof.
  intros Hup Hd Hi Hok Hb.
  cut (runs (owner ev p) w (λ r w', r = Ok tt ∧ ∃ d', view w' = set_db d' (view w) ∧ db_ok d' ∧ ev_inv ev d' ∧
    ev_effect ev (v_db (view w)) d' ∧ tget TNotification d' = tget TNotification (v_db (view w)))).
  { intros Hc. pose proof (within_runs _ _ w (owner_silent ev p)) as Hs.
    eapply runs_mono; [exact (runs_and _ _ _ _ Hc Hs)|]. by intros r w' [[-> Hd'] Hs']. }
  destruct ev as [e|e|e]; cbn [owner ev_body ev_inv ev_effect ev_ok] in *; rewrite Hb.
  - destruct Hok as (Hv & Ha & Hfit). eapply runs_mono; [by apply process_up|].
    intros r w' (-> & d' & E & He). split; [done|]. exists d'. split; [done|].
    destruct (effect_inv _ _ _ He Hd Hi) as [? ?]. destruct (like_on_effect _ _ _ Ha He). done.
  - destruct Hok as (Hr & Ha & Hfit). unfold CommentWorker_process.
    rewrite unmarshal_marshal_comment, Ha by done. cbn [String.eqb Ascii.eqb Bool.eqb].
    eapply runs_mono; [by apply applyPublish_up|]. intros r w' (-> & d' & E & He). split; [done|].
    exists d'. split; [done|]. destruct (publish_effect_inv _ _ _ He Hd Hi) as [? ?].
    destruct (comment_on_effect _ _ _ He). done.
  - destruct Hok as (Hr & Ha & Hfit). eapply runs_mono; [by apply social_process|].
    intros r w' (-> & (d' & E & Hd' & Ho) & He). split; [done|]. exists d'. split; [done|].
    rewrite E in He. split; [done|]. split; [done|]. split; [|by apply Ho].
    split; [intros R T Hn _ _; apply Ho; by destruct T|done].
Qed.

(** ** One delivery to the notification worker *)
Lemma expected_authors dv d d' : (∀ v, author_of v d' = author_of v d) → expected dv d' = expected dv d.
Proof.
  intros Ha.
  assert (∀ e s v ty tx, to_author e s v ty tx d' = to_author e s v ty tx d) as Ht
    by (intros e s v ty tx; unfold to_author; by rewrite Ha).
  unfold expected. repeat (case_match; try done); apply Ht.
Qed.

Lemma stored_same e d d' :
  tget TNotification d' = tget TNotification d → event_stored e d' ↔ event_stored e d.
Proof. intros E. unfold event_stored. by rewrite E. Qed.

(** What the notifications of [w] are, compared with those of [w0]: the one
    that the event is worth has been added and handed over, once. *)
Definition noticed (nw : NotificationWorker) (p : Pub) (w0 w : W) : Prop :=
  let notes x := tget TNotification (v_db (view x)) in
  match expected p (v_db (view w0)) with
  | None => notes w = notes w0 ∧ silent w0 w
  | Some n =>
      (event_stored (n_EventID n) (v_db (view w0)) ∧ notes w = notes w0 ∧ silent w0 w) ∨
      (¬ event_stored (n_EventID n) (v_db (view w0)) ∧ ∃ id t,
         let n' := row_stored TNotification id t n in
         notes w0 !! id = None ∧ notes w = <[id := n']> (notes w0) ∧ handed_over nw n' w0 w)
  end.

Lemma handed_over_silent_r nw n w0 w w' : handed_over nw n w0 w → silent w w' → handed_over nw n w0 w'.
Proof.
  unfold handed_over. intros Hh [Hc Hp]. destruct (nw_cache nw); rewrite Hc, Hp; done.
Qed.
Lemma handed_over_silent_l nw n w0 w w' :
  silent w0 w → v_up (view w) = v_up (view w0) → handed_over nw n w w' → handed_over nw n w0 w'.
Proof. unfold handed_over. intros [<- <-] <-. done. Qed.

Lemma noticed_silent nw p w0 w w' :
  noticed nw p w0 w → silent w w' →
  tget TNotification (v_db (view w')) = tget TNotification (v_db (view w)) → noticed nw p w0 w'.
Proof.
  unfold noticed. intros Hn Hs Et. rewrite Et.
  destruct (expected _ _) as [n|].
  - destruct Hn as [(? & ? & ?)|(? & id & t & ? & ? & ?)]; [left|right].
    + do 2 (split; [done|]). by etrans.
    + split; [done|]. exists id, t. do 2 (split; [done|]). by eapply handed_over_silent_r.
  - destruct Hn as [? ?]. split; [done|by etrans].
Qed.

(** A delivery that finds the notifications as they were. *)
Lemma noticed_first nw p w0 w w' :
  v_up (view w) = v_up (view w0) → expected p (v_db (view w)) = expected p (v_db (view w0)) →
  tget TNotification (v_db (view w)) = tget TNotification (v_db (view w0)) → silent w0 w →
  notified nw p w w' → noticed nw p w0 w'.
Proof.
  intros Hu He Ht Hs. unfold notified, noticed. rewrite He.
  destruct (expected p (v_db (view w0))) as [n|].
  - rewrite (stored_same _ _ _ Ht). intros [[Hst (Ev & Hc & Hp)]|(Hst & id & t & Hf & Ev & Hh)].
    + left. split; [done|]. rewrite Ev. split; [done|]. etrans; [exact Hs|by split].
    + right. split; [done|]. exists id, t. rewrite Ht in Hf. split; [done|]. rewrite Ev. cbn [v_db set_db].
      rewrite tget_tset, Ht. split; [done|]. by eapply handed_over_silent_l.
  - intros (Ev & Hc & Hp). rewrite Ev. split; [done|]. etrans; [exact Hs|by split].
Qed.

(** A delivery that finds them noticed already does nothing. *)
Lemma noticed_again nw p w0 w w' :
  expected p (v_db (view w)) = expected p (v_db (view w0)) →
  noticed nw p w0 w → notified nw p w w' → unchanged w w'.
Proof.
  intros He Hn. unfold notified, noticed in *. rewrite He.
  destruct (expected p (v_db (view w0))) as [n|]; [|done].
  intros [[_ ?]|[Hst _]]; [done|]. exfalso. apply Hst.
  destruct Hn as [(Hst0 & Et & _)|(_ & id & t & _ & Et & _)].
  - by rewrite (stored_same _ _ _ Et).
  - eexists id, _. rewrite Et, lookup_insert_eq. by split.
Qed.

Lemma notified_frame nw p w w' :
  notified nw p w w' → ∃ d', view w' = set_db d' (view w) ∧ same_but_notes (v_db (view w)) d'.
Proof.
  assert (view w = set_db (v_db (view w)) (view w)) as Hself by (by destruct (view w)).
  unfold notified. destruct (expected _ _) as [n|].
  - intros [[_ (-> & _)]|(_ & id & t & _ & -> & _)]; [by exists (v_db (view w))|].
    eexists. split; [done|]. intros R T HT. by apply tget_tset_ne.
  - intros (-> & _). by exists (v_db (view w)).
Qed.

(** ** All deliveries *)

(** Where the deliveries stand: [o] and [n] say whether the worker that applies
    the event and the notification worker have had theirs. *)
Definition stands (ev : Ev) (nw : NotificationWorker) (p : Pub) (w0 : W) (o n : bool) (w : W) : Prop :=
  ∃ d, view w = set_db d (view w0) ∧ db_ok d ∧ ev_inv ev d ∧
    (if o then ev_effect ev (v_db (view w0)) d else same_but_notes (v_db (view w0)) d) ∧
    (if n then noticed nw p w0 w
     else tget TNotification d = tget TNotification (v_db (view w0)) ∧ silent w0 w).

Section deliveries.
Variables (ev : Ev) (nw : NotificationWorker) (p : Pub) (w0 : W).
Hypothesis Hup : up_db (v_up (view w0)) = true.
Hypothesis Hev : ev_ok ev.
Hypothesis Hbody : p_Body p = ev_body ev.
Hypothesis Hfits : accepted p w0.

Lemma stands_owner o n w :
  stands ev nw p w0 o n w → runs (owner ev p) w (λ r w', r = Ok tt ∧ stands ev nw p w0 true n w').
Proof.
  intros (d & E & Hd & Hi & Ho & Hn).
  eapply runs_mono; [apply (owner_process ev p w); rewrite ?E; done|].
  intros r w' (-> & Hs & d' & E' & Hd' & Hi' & He & Ht). split; [done|]. rewrite E in E', He, Ht.
  cbn [v_db set_db] in He, Ht. exists d'.
  split; [rewrite E'; by destruct (view w0)|]. split; [done|]. split; [done|]. split.
  - destruct o; [by eapply effect_again|by rewrite Ho].
  - destruct n.
    + eapply noticed_silent; [done|done|]. by rewrite E', E.
    + destruct Hn as [Hn1 Hn2]. split; [by rewrite Ht|by etrans].
Qed.

Lemma stands_expected o n w :
  stands ev nw p w0 o n w → expected p (v_db (view w)) = expected p (v_db (view w0)).
Proof.
  intros (d & E & _ & _ & Ho & _). apply expected_authors. intros v. rewrite E. cbn [v_db set_db].
  destruct o; [by eapply effect_authors|]. apply author_same. by apply Ho.
Qed.

Lemma stands_notices o n w :
  stands ev nw p w0 o n w →
  runs (NotificationWorker_process nw p) w (λ r w', r = Ok tt ∧ stands ev nw p w0 o true w').
Proof.
  intros Hst. pose proof (stands_expected _ _ _ Hst) as Hx. destruct Hst as (d & E & Hd & Hi & Ho & Hn).
  eapply runs_mono; [apply process_once; rewrite ?E; try done|].
  { intros x Ex. apply Hfits. by rewrite <-Hx. }
  intros r w' (-> & Hd' & Hnot). split; [done|].
  destruct (notified_frame _ _ _ _ Hnot) as (d' & E' & Hsame). rewrite E' in Hd'. rewrite E in E', Hsame.
  cbn [v_db set_db] in Hd', Hsame. exists d'.
  split; [rewrite E'; by destruct (view w0)|]. split; [done|]. split; [by rewrite <-Hsame|]. split.
  - destruct o; [by rewrite <-Hsame|by rewrite <-Hsame].
  - destruct n.
    + destruct (noticed_again _ _ _ _ _ Hx Hn Hnot) as (Ev & Hc & Hp).
      eapply noticed_silent; [exact Hn|by split|by rewrite Ev].
    + destruct Hn as [Ht Hs]. eapply noticed_first; [by rewrite E|done|by rewrite E|done|done].
Qed.

(** A delivery that succeeds is acknowledged. *)
Lemma delivered_ack process w (Q : W → Prop) :
  runs (process p) w (λ r w', r = Ok tt ∧ Q w') →
  runs (handleMainDelivery process p) w (λ s w', s = Ack ∧ Q w').
Proof.
  intros Hp. apply runs_bind. eapply runs_mono; [exact Hp|]. intros r w' [-> ?]. by apply runs_ret.
Qed.

Lemma stands_deliveries cache qs o n w :
  (∀ q, q ∈ qs → q = ev_queue ev ∨ q = ev_notices ev) → stands ev nw p w0 o n w →
  runs (deliver_all cache nw qs p) w (λ ss w', Forall (eq Ack) ss ∧ length ss = length qs ∧
    stands ev nw p w0 (o || bool_decide (ev_queue ev ∈ qs)) (n || bool_decide (ev_notices ev ∈ qs)) w').
Proof.
  revert o n w. induction qs as [|q qs IH]; intros o n w Hqs Hst; simpl.
  { apply runs_ret. split; [done|]. split; [done|]. by rewrite !orb_false_r. }
  assert (∃ process o' n', consumer cache nw q = Some process ∧
    runs (process p) w (λ r w', r = Ok tt ∧ stands ev nw p w0 o' n' w') ∧
    o' || bool_decide (ev_queue ev ∈ qs) = o || bool_decide (ev_queue ev ∈ q :: qs) ∧
    n' || bool_decide (ev_notices ev ∈ qs) = n || bool_decide (ev_notices ev ∈ q :: qs))
    as (process & o' & n' & Hq & Hrun & Eo & En).
  { destruct (Hqs q ltac:(by left)) as [-> | ->].
    - exists (owner ev), true, n. split; [by destruct ev|]. split; [by eapply stands_owner|].
      rewrite (bool_decide_eq_true_2 (ev_queue ev ∈ ev_queue ev :: qs)) by (by left).
      split; [by rewrite orb_true_r|]. f_equal. apply bool_decide_ext. rewrite elem_of_cons.
      split; [by right|]. intros [E|?]; [by destruct ev|done].
    - exists (NotificationWorker_process nw), o, true. split; [by destruct ev|]. split; [by eapply stands_notices|].
      rewrite (bool_decide_eq_true_2 (ev_notices ev ∈ ev_notices ev :: qs)) by (by left).
      split; [|by rewrite orb_true_r]. f_equal. apply bool_decide_ext. rewrite elem_of_cons.
      split; [by right|]. intros [E|?]; [by destruct ev|done]. }
  rewrite Hq. apply runs_bind. eapply runs_mono; [apply delivered_ack, Hrun|]. intros s w1 [-> Hst1].
  apply runs_bind. eapply runs_mono; [apply IH; [|exact Hst1]|]; [by intros x Hx; apply Hqs; right|].
  intros ss w2 (Hss & Hlen & Hst2). apply runs_ret. rewrite <-Eo, <-En. split; [by constructor|].
  split; [simpl; by rewrite Hlen|done].
Qed.
End deliveries.
End facts.

(** ** At least once is exactly once *)
Section theorem.
Context {B W : Type} `{AmqpLaws B}.
Context `{WorldLaws W} `{SqlLaws} `{RedisServer} `{PubSub W} `{NotificationHub W} `{!NotifyLaws W}.

(** C2: a like, a comment or a follow that is published takes effect exactly
    once. Once all queues are declared, and with the database up, let the
    broker deliver the event to the workers of the queues it routes it to, in
    any order and any number of times, each queue at least once, be the other
    services up or down: every delivery is acknowledged, nothing is published
    again or dead-lettered, the tables hold the like with its counters, the
    comment with the video's popularity, or the follow, as after one delivery,
    and the author of the video or the followed account has one more
    notification, which has been handed over to the event stream once; nothing
    else has changed. *)
Theorem event_exactly_once ev cache nw t p qs (w : W) :
  topo_reachable t → (∀ x, x ∈ declared_queues → ready t x) → ev_pub ev p →
  (∀ q, q ∈ qs ↔ q ∈ amqp_route (W := B) t (p_Exchange p) (p_RoutingKey p)) →
  up_db (v_up (view w)) = true → db_ok (v_db (view w)) → ev_inv ev (v_db (view w)) →
  ev_ok ev → accepted p w →
  runs (deliver_all cache nw qs p) w (λ ss w',
    Forall (eq Ack) ss ∧ length ss = length qs ∧
    view w' = set_db (v_db (view w')) (view w) ∧ db_ok (v_db (view w')) ∧ ev_inv ev (v_db (view w')) ∧
    ev_effect ev (v_db (view w)) (v_db (view w')) ∧ noticed nw p w w').
Proof.
  intros Ht Hr (Hex & Hk & Hb) Hqs Hup Hd Hi Hok Hfit.
  assert (∀ q, q ∈ qs ↔ q = ev_queue ev ∨ q = ev_notices ev) as Hin.
  { intros q. rewrite Hqs, Hex, Hk.
    rewrite (routes_to t _ _ [ev_queue ev; ev_notices ev] Ht Hr) by (destruct ev; declared).
    rewrite !elem_of_cons, elem_of_nil. tauto. }
  eapply runs_mono; [apply (stands_deliveries ev nw p w Hup Hok Hb Hfit cache qs false false); [intros q; apply Hin|]|].
  - exists (v_db (view w)). split; [by destruct (view w)|]. done.
  - intros ss w' (Hss & Hl & d & E & Hd' & Hi' & Ho & Hn).
    rewrite !bool_decide_eq_true_2 in Ho, Hn by (apply Hin; tauto). cbn [orb] in Ho, Hn.
    do 2 (split; [done|]). rewrite E. done.
Qed.
End theorem.

(** *** A like that is delivered twice to each worker *)
Definition twice_each : list string := [NotificationLikeQueue; LikeQueue; LikeQueue; NotificationLikeQueue].

Lemma twice_each_routed q :
  q ∈ twice_each ↔ q ∈ amqp_route (topo both_started) (p_Exchange like_delivery) (p_RoutingKey like_delivery).
Proof.
  assert (amqp_route (topo both_started) (p_Exchange like_delivery) (p_RoutingKey like_delivery) ≡ₚ
    [LikeQueue; NotificationLikeQueue]) as -> by (apply (bool_decide_unpack _); by vm_compute).
  unfold twice_each. rewrite !elem_of_cons, elem_of_nil. tauto.
Qed.

Lemma both_ready x : x ∈ declared_queues → ready (topo both_started) x.
Proof. revert x. unfold ready. declared_in. Qed.

Lemma event_exactly_once_witness :
  let nw := mkNotificationWorker (Some (mkClient "v1:")) true in
  let cache := Some (mkClient "v1:") in
  runs (deliver_all cache nw twice_each like_delivery) notify_start (λ ss w',
    Forall (eq Ack) ss ∧ length ss = length twice_each ∧
    view w' = set_db (v_db (view w')) (view notify_start) ∧ db_ok (v_db (view w')) ∧
    ev_inv (EvLike like_evt) (v_db (view w')) ∧
    ev_effect (EvLike like_evt) (v_db (view notify_start)) (v_db (view w')) ∧
    noticed nw like_delivery notify_start w').
Proof.
  intros nw cache.
  exact (event_exactly_once (B := BrokerW) (EvLike like_evt) cache nw (topo both_started) like_delivery twice_each
    notify_start both_reachable both_ready (conj eq_refl (conj eq_refl eq_refl)) twice_each_routed
    eq_refl like_db_ok like_db_counts (conj eq_refl (conj eq_refl eq_refl)) (λ _ _, eq_refl)).
Defined.

(** the state after those deliveries, computed *)
Example twice_each_demo :
  let r := deliver_all (Some (mkClient "v1:")) (mkNotificationWorker (Some (mkClient "v1:")) true)
             twice_each like_delivery notify_start in
  r.1 = [Ack; Ack; Ack; Ack] ∧ length (rows TNotification (v_db (view r.2))) = 1%nat ∧
  length (channel r.2) = 1%nat ∧ v_LikesCount <$> rows TVideo (v_db (view r.2)) = [1].
Proof. by vm_compute. Qed.
