(* ===== verification/Workers.v ===== *)
(** The consumers of the two programs: the [Run] of each worker, and the worker
    process from its started workers to its end (cmd/worker/main.go). *)
From S2P Require Import Prelude GoStd Query Entities Json Services RedisClient Mq Topology Retry.
From S2P Require Import Video Outbox Like Comment Social Notification Pipeline.
Local Open Scope Z_scope.
Local Open Scope go_scope.

(** ** The workers

    Of a channel, a repository, a database or a hub a worker asks only whether
    it is there. *)
Record SocialWorker := mkSocialWorker { sw_ch : bool; sw_socialRepo : bool; sw_queue : string }.
Record LikeWorker := mkLikeWorker {
  lw_ch : bool; lw_likeRepo : bool; lw_videoRepo : bool; lw_queue : string }.
Record CommentWorker := mkCommentWorker {
  cw_ch : bool; cw_commentRepo : bool; cw_videoRepo : bool; cw_queue : string }.
Record PopularityWorker := mkPopularityWorker {
  pw_ch : bool; pw_cache : option Client; pw_queue : string }.
Record TimelineWorker := mkTimelineWorker {
  tw_ch : bool; tw_queue : string; tw_cache : option Client }.
Record NotificationConsumer := mkNotificationConsumer {
  nc_ch : bool; nc_db : bool; nc_queue : string; nc_worker : NotificationWorker }.

Section run.
Context {W : Type} `{World W} `{SqlEngine} `{RedisServer} `{PubSub W} `{NotificationHub W}.
Context `{Consumer W}.

Definition failed (msg : string) : ST W (list Settle * option err) :=
  st_ret ([], Some (ErrMsg msg)).

(** the check of the queue's name and the consumption, common to all but the
    notification workers *)
Definition run_queue (queue : string) (process : Delivery → ST W (result unit)) (l : list Arrival) :
    ST W (list Settle * option err) :=
  if String.eqb queue "" then failed "queue is required"
  else consumeWithRetry queue process l.

Definition SocialWorker_Run (w : option SocialWorker) (l : list Arrival) :
    ST W (list Settle * option err) :=
  match w with
  | Some (mkSocialWorker true true queue) =>
      run_queue queue (λ d, SocialWorker_process (p_Body d)) l
  | _ => failed "social worker is not initialized"
  end.

Definition LikeWorker_Run (w : option LikeWorker) (l : list Arrival) :
    ST W (list Settle * option err) :=
  match w with
  | Some (mkLikeWorker true true true queue) =>
      run_queue queue (λ d, LikeWorker_process (p_Body d)) l
  | _ => failed "like worker is not initialed"
  end.

Definition CommentWorker_Run (w : option CommentWorker) (l : list Arrival) :
    ST W (list Settle * option err) :=
  match w with
  | Some (mkCommentWorker true true true queue) =>
      run_queue queue (λ d, CommentWorker_process (p_Body d)) l
  | _ => failed "comment worker is not initialized"
  end.

Definition PopularityWorker_Run (w : option PopularityWorker) (l : list Arrival) :
    ST W (list Settle * option err) :=
  match w with
  | Some (mkPopularityWorker true (Some cache) queue) =>
      run_queue queue (λ d, PopularityWorker_process (Some cache) (p_Body d)) l
  | _ => failed "popularity worker is not initialized"
  end.

Definition TimelineWorker_Run (w : option TimelineWorker) (l : list Arrival) :
    ST W (list Settle * option err) :=
  match w with
  | Some (mkTimelineWorker true queue (Some cache)) =>
      run_queue queue (λ d, TimelineWorker_process (Some cache) (p_Body d)) l
  | _ => failed "timelineMQ worker is not initialized"
  end.

Definition NotificationWorker_Run (w : option NotificationConsumer) (l : list Arrival) :
    ST W (list Settle * option err) :=
  match w with
  | Some (mkNotificationConsumer true true queue nw) =>
      consumeWithRetry queue (NotificationWorker_process nw) l
  | _ => failed "notification worker is not initialized"
  end.
End run.

(** ** The worker process

    What happens to it: a worker of the name receives something, or the ticker
    of the outbox worker fires. *)
Inductive Happening : Type :=
| Arrived (worker : string) (a : Arrival)
| Tick.

(** How [main] ends: not yet, normally, or with [log.Fatalf]. *)
Inductive Exit : Type :=
| Running
| Stopped (worker : string)
| Fatal (worker : string) (e : err).

#[export] Instance exit_eq_dec : EqDecision Exit.
Proof. solve_decision. Defined.

Definition main_exit (workerErr : option (string * err)) : Exit :=
  match workerErr with
  | None => Running
  | Some (name, e) => if decide (e = Canceled) then Stopped name else Fatal name e
  end.

(** The started workers: names with the queues they consume, as
    [worker_startup] makes them; the one without a queue is the outbox worker. *)
Abbreviation Started := (list (string * option string)).

Fixpoint worker_named (ws : Started) (name : string) : option (option string) :=
  match ws with
  | [] => None
  | (n, q) :: ws => if String.eqb n name then Some q else worker_named ws name
  end.

Section process.
Context {W : Type} `{World W} `{SqlEngine} `{RedisServer} `{ErrTexts} `{PubSub W}.
Context `{NotificationHub W} `{Consumer W}.
Variables (cache : option Client) (nw : NotificationWorker) (outbox : OutboxWorker).

(** [startWorker]: up to its first wait; the error it returned with, if it did *)
Definition start_worker (q : option string) : ST W (option err) :=
  match q with
  | None => pollOnce outbox ;;; st_ret None
  | Some q => r <- ch_Consume q ;; st_ret (match r with Ok _ => None | Err e => Some e end)
  end.

Fixpoint start_workers (ws : Started) : ST W (option (string * err)) :=
  match ws with
  | [] => st_ret None
  | (name, q) :: ws =>
      e <- start_worker q ;;
      match e with
      | Some e => st_ret (Some (name, e))
      | None => start_workers ws
      end
  end.

(** one worker's turn: its settlements, and the error it returned with *)
Definition worker_turn (q : option string) (a : Arrival) : ST W (list Settle * option err) :=
  match q, a with
  | None, CtxDone => st_ret ([], Some Canceled)
  | None, _ => st_ret ([], None)
  | Some q, _ =>
      match consumer cache nw q with
      | Some process => consume_loop process [a]
      | None => st_ret ([], None)
      end
  end.

(** Until the first worker returns, which ends [main]: the settlements by
    worker, and who returned with what. *)
Fixpoint serve_workers (ws : Started) (l : list Happening) :
    ST W (list (string * Settle) * option (string * err)) :=
  match l with
  | [] => st_ret ([], None)
  | Tick :: l => pollOnce outbox ;;; serve_workers ws l
  | Arrived name a :: l =>
      match worker_named ws name with
      | None => serve_workers ws l
      | Some q =>
          r <- worker_turn q a ;;
          match r.2 with
          | Some e => st_ret ([], Some (name, e))
          | None =>
              r' <- serve_workers ws l ;;
              st_ret ((pair name <$> r.1) ++ r'.1, r'.2)
          end
      end
  end.

Definition worker_process (ws : Started) (l : list Happening) :
    ST W (list (string * Settle) * Exit) :=
  e <- start_workers ws ;;
  match e with
  | Some _ => st_ret ([], main_exit e)
  | None => r <- serve_workers ws l ;; st_ret (r.1, main_exit r.2)
  end.
End process.

(** ** The life of the process, without what the workers do *)
Section life.
Variable ws : Started.

(** what makes a worker return, and with what *)
Definition ending (h : Happening) : option (string * err) :=
  match h with
  | Arrived name CtxDone =>
      if worker_named ws name is Some _ then Some (name, Canceled) else None
  | Arrived name Closed =>
      match worker_named ws name with
      | Some (Some _) => Some (name, ErrMsg "deliveries channel closed")
      | _ => None
      end
  | _ => None
  end.

(** the worker that a delivery arrives at *)
Definition receiver (h : Happening) : option string :=
  match h with
  | Arrived name (Delivered _) =>
      match worker_named ws name with Some (Some _) => Some name | _ => None end
  | _ => None
  end.

(** Deliveries settled, by worker, and the end. *)
Fixpoint life (l : list Happening) : list string * Exit :=
  match l with
  | [] => ([], Running)
  | h :: l =>
      match ending h with
      | Some e => ([], main_exit (Some e))
      | None => (option_list (receiver h) ++ (life l).1, (life l).2)
      end
  end.
End life.

Section facts.
Context {W : Type} `{World W} `{SqlEngine} `{RedisServer} `{ErrTexts} `{PubSub W}.
Context `{NotificationHub W} `{Consumer W}.
Variables (cache : option Client) (nw : NotificationWorker) (outbox : OutboxWorker).

(** The workers that [main] makes run the processes of [consumer] on their
    queues. *)
Lemma runs_consume l :
  SocialWorker_Run (Some (mkSocialWorker true true SocialQueue)) l =
    consumeWithRetry SocialQueue (λ d, SocialWorker_process (p_Body d)) l ∧
  consumer cache nw SocialQueue = Some (λ d, SocialWorker_process (p_Body d)) ∧
  LikeWorker_Run (Some (mkLikeWorker true true true LikeQueue)) l =
    consumeWithRetry LikeQueue (λ d, LikeWorker_process (p_Body d)) l ∧
  consumer cache nw LikeQueue = Some (λ d, LikeWorker_process (p_Body d)) ∧
  CommentWorker_Run (Some (mkCommentWorker true true true CommentQueue)) l =
    consumeWithRetry CommentQueue (λ d, CommentWorker_process (p_Body d)) l ∧
  consumer cache nw CommentQueue = Some (λ d, CommentWorker_process (p_Body d)).
Proof. by split_and!. Qed.

Lemma cache_runs_consume c l :
  PopularityWorker_Run (Some (mkPopularityWorker true (Some c) PopularityQueue)) l =
    consumeWithRetry PopularityQueue (λ d, PopularityWorker_process (Some c) (p_Body d)) l ∧
  consumer (Some c) nw PopularityQueue = Some (λ d, PopularityWorker_process (Some c) (p_Body d)) ∧
  TimelineWorker_Run (Some (mkTimelineWorker true TimelineQueue (Some c))) l =
    consumeWithRetry TimelineQueue (λ d, TimelineWorker_process (Some c) (p_Body d)) l ∧
  consumer (Some c) nw TimelineQueue = Some (λ d, TimelineWorker_process (Some c) (p_Body d)).
Proof. split_and!; reflexivity. Qed.

(** A consumer settles each delivery that it receives, once and in order. *)
Lemma consume_loop_settles process ds rest w :
  runs (consume_loop process ((Delivered <$> ds) ++ rest)) w (λ r _,
    ∃ ss e, r = (ss ++ e.1, e.2) ∧ length ss = length ds ∧
      ∃ w1, (consume_loop process rest w1).1 = e).
Proof.
  revert w. induction ds as [|d ds IH]; intros w; cbn [fmap list_fmap app consume_loop].
  - unfold runs. exists [], (consume_loop process rest w).1. cbn [app].
    rewrite <-surjective_pairing. split_and!; [done|done|by exists w].
  - apply runs_bind, runs_intro. intros s w1 _. apply runs_bind. eapply runs_mono; [apply IH|].
    intros r w2 (ss & e & -> & Hl & He). apply runs_ret. exists (s :: ss), e. simpl. by rewrite Hl.
Qed.

(** Every queue that is consumed has its process. *)
Definition all_served (ws : Started) : Prop :=
  ∀ name q, worker_named ws name = Some (Some q) → is_Some (consumer cache nw q).

(** Whatever the workers do and whichever services fail, the process settles
    each delivery that arrives at one of its workers, once and in order, until
    the first worker returns; it ends normally exactly when that one's context
    was done, and with [log.Fatalf] when a channel was closed. *)
Lemma serve_workers_life ws l w :
  all_served ws →
  runs (serve_workers cache nw outbox ws l) w (λ r _, (r.1.*1, main_exit r.2) = life ws l).
Proof.
  intros Hall. revert w. induction l as [|h l IH]; intros w; [done|].
  cbn [serve_workers life]. destruct h as [name a|].
  2:{ apply runs_bind, runs_intro. intros ? w1 _. cbn [ending receiver].
      change (option_list None) with (@nil string). cbn [app]. rewrite <-surjective_pairing. apply IH. }
  unfold ending, receiver. destruct (worker_named ws name) as [q|] eqn:En; cbn [worker_turn].
  2:{ destruct a; (change (option_list None) with (@nil string); cbn [app];
      rewrite <-surjective_pairing; apply IH). }
  apply runs_bind. destruct q as [q|]; unfold worker_turn.
  - destruct (Hall _ _ En) as [process ->].
    destruct a as [d| |]; cbn [consume_loop]; [|apply runs_ret; by apply runs_ret..].
    apply runs_bind, runs_intro. intros s w1 _. apply runs_bind, runs_ret, runs_ret. cbn [fst snd].
    apply runs_bind. eapply runs_mono; [apply IH|]. intros r w2 E. apply runs_ret.
    rewrite <-E. done.
  - destruct a as [d| |]; apply runs_ret; cbn [fst snd]; try by apply runs_ret.
    all: apply runs_bind; (eapply runs_mono; [apply IH|]); intros r w2 E; apply runs_ret;
      rewrite <-E; done.
Qed.

Lemma start_workers_fails ws w :
  runs (start_workers outbox ws) w (λ e _, ∀ name er, e = Some (name, er) →
    ∃ q w1, (name, Some q) ∈ ws ∧ (ch_Consume q w1).1 = Err er).
Proof.
  revert w. induction ws as [|[n q] ws IH]; intros w; [done|]. cbn [start_workers].
  assert (∀ w1, runs (start_workers outbox ws) w1 (λ e _, ∀ name er, e = Some (name, er) →
    ∃ q' w1, (name, Some q') ∈ (n, q) :: ws ∧ (ch_Consume q' w1).1 = Err er)) as Hrest.
  { intros w1. eapply runs_mono; [apply IH|]. intros e w2 He name er E.
    destruct (He name er E) as (q' & w3 & Hin & Hq). exists q', w3. split; [by right|done]. }
  apply runs_bind. unfold start_worker. destruct q as [q|]; cbn beta iota.
  - apply runs_bind, runs_intro. intros r w1 E. destruct r as [[]|er]; apply runs_ret; [apply Hrest|].
    apply runs_ret. intros name er' [= <- <-]. exists q, w. rewrite E. split; [by left|done].
  - apply runs_bind, runs_intro. intros r w1 _. apply runs_ret, Hrest.
Qed.

(** The process from its started workers on: a worker that cannot subscribe
    to its queue ends it, else it lives the life that its events determine. *)
Theorem worker_process_life ws l w :
  all_served ws →
  runs (worker_process cache nw outbox ws l) w (λ r _,
    (r.1.*1, r.2) = life ws l ∨
    ∃ name q e w1, (name, Some q) ∈ ws ∧ (ch_Consume q w1).1 = Err e ∧
      r = ([], main_exit (Some (name, e)))).
Proof.
  intros Hall. apply runs_bind. eapply runs_mono; [apply start_workers_fails|].
  intros [[name e]|] w1 He.
  - apply runs_ret. right. destruct (He name e eq_refl) as (q & w2 & Hin & Hq).
    by exists name, q, e, w2.
  - apply runs_bind. eapply runs_mono; [by apply serve_workers_life|].
    intros r w2 E. apply runs_ret. by left.
Qed.

(** The workers that [main] starts have their processes: the two of the caches
    are started exactly when there is a cache. *)
Theorem startup_served `{Amqp W} w :
  runs (worker_startup (bool_decide (cache ≠ None))) w (λ r _,
    match r with Ok ws => all_served ws | Err _ => True end).
Proof.
  unfold worker_startup.
  repeat (apply runs_try, runs_intro; intros [?|?] ? _; [|done]).
  assert (∀ name q ws, worker_named ws name = Some (Some q) → (name, Some q) ∈ ws) as Hin.
  { intros name q ws. induction ws as [|[n q'] ws IH]; [done|]. cbn [worker_named].
    destruct (String.eqb_spec n name) as [->|]; [intros [= ->]; by left|right; auto]. }
  case_bool_decide as Hc.
  - repeat (apply runs_try, runs_intro; intros [?|?] ? _; [|done]). apply runs_ret.
    unfold all_served. destruct cache as [c|]; [|done]. intros name q Hq%Hin. cbn [app] in Hq.
    repeat (apply elem_of_cons in Hq as [E|Hq];
      [first [discriminate E|injection E as _ ->; by eexists]|]).
    by apply elem_of_nil in Hq.
  - apply runs_ret. intros name q Hq%Hin.
    repeat (apply elem_of_cons in Hq as [E|Hq];
      [first [discriminate E|injection E as _ ->; by eexists]|]).
    by apply elem_of_nil in Hq.
Qed.
End facts.

(** ** A like event delivered twice, and then the channel of its worker closed *)
From S2P Require Import Reference NotificationFacts.

#[local] Instance demo_consumer {W} : Consumer W := {| ch_Consume _ := st_ret (Ok tt) |}.
Definition demo_workers : Started :=
  [("social_worker", Some SocialQueue); ("like_worker", Some LikeQueue); ("outbox_worker", None)].
Definition demo_life : list Happening :=
  [Arrived "like_worker" (Delivered like_delivery); Tick;
   Arrived "like_worker" (Delivered like_delivery); Arrived "like_worker" Closed;
   Arrived "like_worker" (Delivered like_delivery)].

Example worker_process_demo :
  (worker_process None (mkNotificationWorker None false) (NewOutboxWorker true) demo_workers demo_life
     notify_start).1 =
  ([("like_worker", Ack); ("like_worker", Ack)],
   Fatal "like_worker" (ErrMsg "deliveries channel closed")).
Proof. by vm_compute. Qed.

Lemma worker_process_life_witness :
  let m := worker_process None (mkNotificationWorker None false) (NewOutboxWorker true) demo_workers
             demo_life in
  runs m notify_start (λ r _,
    (r.1.*1, r.2) = life demo_workers demo_life ∨
    ∃ name q e (w1 : NotifyW unit), (name, Some q) ∈ demo_workers ∧ (ch_Consume q w1).1 = Err e ∧
      r = ([], main_exit (Some (name, e)))).
Proof.
  intros m. apply worker_process_life. intros name q. cbn [worker_named demo_workers].
  repeat (destruct (String.eqb _ name); [intros [= <-]; by eexists|]). done.
Defined.
