(* ===== verification/ApiServer.v ===== *)
(** The API server once it has started (cmd/main.go after [SetRouter]): one
    process that answers requests, keeps the connections of the event stream,
    consumes the notification queues and hears the notification channel of
    Redis.  Here the hub of [Hub.v] and [Stream.v] is the [NotificationHub]
    that the workers and the subscriber push to. *)
From S2P Require Import Prelude GoStd Query Entities Json Services RedisClient Mq Topology Retry.
From S2P Require Import DbFacts Http Video Like RateLimit Account Upload Comment Social Notification.
From S2P Require Import NotificationFacts Feed Message Profile Router.
From S2P Require Hub HubFacts Stream StreamFacts.
Local Open Scope Z_scope.
Local Open Scope go_scope.

Abbreviation HubServer := Stream.Server.

(** [Push] while no other operation of the hub runs *)
Definition broadcast `{Hub.Growth} (u : Z) (n : Notification) (x : HubServer) : HubServer :=
  match x with
  | Stream.Live h ps cs =>
      match Hub.Push u n h with
      | (Ok _, h') => Stream.Live h' ps cs
      | (Err (ErrMsg m), _) => Stream.Down m
      | (Err _, _) => Stream.Down ""
      end
  | Stream.Down m => Stream.Down m
  end.

(** a step of the hub or of a connection, unless a panic has ended the process *)
Definition on_live `{Hub.Growth} (e : Stream.Event) (x : HubServer) : HubServer :=
  match x with
  | Stream.Live h ps cs => Stream.estep e h ps cs
  | Stream.Down m => Stream.Down m
  end.

(** The hub of a process is an [SSEHub] with the connections it serves, and
    its [Push] is that of the hub. *)
Class SseHub (W : Type) `{NotificationHub W} := {
  hub_of : W → HubServer;
  with_hub : ∀ {A}, (HubServer → A * HubServer) → ST W A }.
Class SseHubLaws (W : Type) `{Hub.Growth} `{World W, PubSub W, SseHub W} : Prop := {
  law_with_hub : ∀ A (f : HubServer → A * HubServer) w r w', with_hub f w = (r, w') →
    (r, hub_of w') = f (hub_of w) ∧ view w' = view w ∧ channel w' = channel w;
  law_push_hub : ∀ u n w r w', Push u n w = (r, w') → hub_of w' = broadcast u n (hub_of w) }.

(** ** The process *)

(** What happens to it: a request, a request for the event stream with its
    query token, a turn of one of its connections, something that a consumer of
    a queue receives, a message of the channel of Redis, the subscriber seeing
    that its context is done, and SIGINT or SIGTERM. *)
Inductive ApiEvent : Type :=
| Requested (rq : Request)
| StreamOpened (query_token header : string)
| StreamTurn (i : nat) (k : Stream.Case)
| Consumed (queue : string) (a : Arrival)
| HeardMessage (payload : bytes)
| SubscriberDone
| Signal.

(** Whether the context of [signal.NotifyContext] is done, and the goroutines
    that still run: the subscriber and the consumers of these queues. *)
Record Api := mkApi { api_done : bool; api_subscriber : bool; api_consumers : list string }.

Inductive Outcome : Type :=
| Replied (r : option Reply)
| Settled (queue : string) (s : Settle)
| Streaming
| Pushed
| Quiet.

Definition is_done (x : Arrival) : bool := match x with CtxDone => true | _ => false end.

(** After [StartNotification], which has started the consumers [queues]. *)
Definition started_api (e : Env) (queues : list string) : Api :=
  mkApi false (bool_decide (ev_cache e ≠ None)) queues.

Section process.
Context {W : Type} `{World W} `{SqlEngine} `{RedisServer} `{JwtLib} `{!Bcrypt W}.
Context `{TagRegex} `{Storage W} `{PubSub W} `{NotificationHub W} `{Hub.Growth} `{!SseHub W}.
Variables (fuel : nat) (e : Env).

(** GET /notification/stream: the answer of the middleware, or a connection in
    its loop *)
Definition stream_request (query_token header : string) : ST W (option Reply) :=
  m <- SSERequireAuth (ev_secret e) query_token (mkReq header "" (mkCtx None None)) ;;
  match m with
  | Abort s er => st_ret (Some (Answer (RespErr (A := unit) s er)))
  | Next c => with_hub (λ x, (None, on_live (Stream.EConnect c) x))
  end.

Definition notification_worker : NotificationWorker := mkNotificationWorker (ev_cache e) true.

(** The signal cancels the context; the server itself does not look at it. *)
Definition api_event (ev : ApiEvent) (a : Api) : ST W (Outcome * Api) :=
  match ev with
  | Requested rq => r <- SetRouter fuel e rq ;; st_ret (Replied r, a)
  | StreamOpened tok header => r <- stream_request tok header ;; st_ret (match r with Some r => Replied (Some r) | None => Streaming end, a)
  | StreamTurn i k => with_hub (λ x, (tt, on_live (Stream.ETurn i k) x)) ;;; st_ret (Quiet, a)
  | Consumed q arrival =>
      if negb (bool_decide (q ∈ api_consumers a)) then st_ret (Quiet, a)
      else if is_done arrival && negb (api_done a) then st_ret (Quiet, a)
      else
        r <- consume_loop (NotificationWorker_process notification_worker) [arrival] ;;
        st_ret (match r with
                | (s :: _, _) => (Settled q s, a)
                | ([], _) => (Quiet, mkApi (api_done a) (api_subscriber a)
                                       (List.filter (λ q', negb (String.eqb q' q)) (api_consumers a)))
                end)
  | HeardMessage payload =>
      if api_subscriber a then on_message payload ;;; st_ret (Pushed, a) else st_ret (Quiet, a)
  | SubscriberDone => st_ret (Quiet, mkApi (api_done a) (api_subscriber a && negb (api_done a)) (api_consumers a))
  | Signal => st_ret (Quiet, mkApi true (api_subscriber a) (api_consumers a))
  end.

(** Until a panic of the hub ends the process. *)
Fixpoint api_serve (l : list ApiEvent) (a : Api) : ST W (list Outcome * Api) :=
  match l with
  | [] => st_ret ([], a)
  | ev :: l =>
      x <- with_hub (λ x, (x, x)) ;;
      match x with
      | Stream.Down _ => st_ret ([], a)
      | Stream.Live _ _ _ =>
          r <- api_event ev a ;;
          rest <- api_serve l r.2 ;;
          st_ret (r.1 :: rest.1, rest.2)
      end
  end.
End process.

(** ** The life of the process, without what it answers *)
Inductive Kind := Answered | SettledOne (queue : string) | PushedOne | Nothing.
Definition kind (o : Outcome) : Kind :=
  match o with
  | Replied _ | Streaming => Answered
  | Settled q _ => SettledOne q
  | Pushed => PushedOne
  | Quiet => Nothing
  end.

Definition without (q : string) (a : Api) : Api :=
  mkApi (api_done a) (api_subscriber a) (List.filter (λ q', negb (String.eqb q' q)) (api_consumers a)).

Definition fate1 (ev : ApiEvent) (a : Api) : Kind * Api :=
  match ev with
  | Requested _ | StreamOpened _ _ => (Answered, a)
  | StreamTurn _ _ => (Nothing, a)
  | Consumed q (Delivered _) => (if bool_decide (q ∈ api_consumers a) then SettledOne q else Nothing, a)
  | Consumed q Closed => (Nothing, without q a)
  | Consumed q CtxDone => (Nothing, if api_done a then without q a else a)
  | HeardMessage _ => (if api_subscriber a then PushedOne else Nothing, a)
  | SubscriberDone => (Nothing, mkApi (api_done a) (api_subscriber a && negb (api_done a)) (api_consumers a))
  | Signal => (Nothing, mkApi true (api_subscriber a) (api_consumers a))
  end.

Fixpoint fate (l : list ApiEvent) (a : Api) : list Kind * Api :=
  match l with
  | [] => ([], a)
  | ev :: l => ((fate1 ev a).1 :: (fate l (fate1 ev a).2).1, (fate l (fate1 ev a).2).2)
  end.

Lemma fate_app l1 l2 a :
  fate (l1 ++ l2) a = ((fate l1 a).1 ++ (fate l2 (fate l1 a).2).1, (fate l2 (fate l1 a).2).2).
Proof.
  revert a. induction l1 as [|ev l1 IH]; intros a; simpl; [by rewrite <-surjective_pairing|].
  by rewrite IH.
Qed.

Lemma without_elem q q' a : q' ∈ api_consumers (without q a) ↔ q' ∈ api_consumers a ∧ q' ≠ q.
Proof.
  simpl. rewrite elem_of_lfilter, negb_true_iff, String.eqb_neq. tauto.
Qed.

Lemma without_same q a : q ∉ api_consumers a → without q a = a.
Proof.
  intros Hq. destruct a as [d s qs]. unfold without. simpl in *. f_equal.
  induction qs as [|q' qs IH]; [done|]. apply not_elem_of_cons in Hq as [Hne Hq]. simpl.
  destruct (String.eqb_spec q' q); [congruence|]. simpl. by rewrite IH.
Qed.

(** A goroutine that has ended does not come back. *)
Record shrinks (a a' : Api) : Prop := {
  sh_done : api_done a = true → api_done a' = true;
  sh_subscriber : api_subscriber a = false → api_subscriber a' = false;
  sh_consumers : ∀ q, q ∈ api_consumers a' → q ∈ api_consumers a }.

#[export] Instance shrinks_preorder : PreOrder shrinks.
Proof. split; [by split|]. intros a b c [] []. split; auto. Qed.

Lemma shrinks_without q a : shrinks a (without q a).
Proof. split; [done..|]. intros q' Hq. by apply without_elem in Hq as []. Qed.

Lemma fate1_shrinks ev a : shrinks a (fate1 ev a).2.
Proof.
  destruct ev as [| | |q [d| |]| | |]; simpl; try done; try apply shrinks_without.
  - destruct (api_done a); [apply shrinks_without|done].
  - split; simpl; [done| |done]. by intros ->.
Qed.

Lemma fate_shrinks l a : shrinks a (fate l a).2.
Proof.
  revert a. induction l as [|ev l IH]; intros a; [done|]. simpl.
  etransitivity; [apply fate1_shrinks|apply IH].
Qed.

(** Once the context is done, a goroutine ends when its select sees it. *)
Lemma fate_ends q l a :
  api_done a = true → Consumed q CtxDone ∈ l → q ∉ api_consumers (fate l a).2.
Proof.
  revert a. induction l as [|ev l IH]; intros a Hd Hin; [by apply elem_of_nil in Hin|]. simpl.
  apply elem_of_cons in Hin as [<-|Hin].
  - intros Hq%(sh_consumers _ _ (fate_shrinks _ _)). simpl in Hq. rewrite Hd in Hq.
    by apply without_elem in Hq as [_ []].
  - apply IH; [by apply (sh_done _ _ (fate1_shrinks _ _))|done].
Qed.

Lemma fate_unsubscribes l a :
  api_done a = true → SubscriberDone ∈ l → api_subscriber (fate l a).2 = false.
Proof.
  revert a. induction l as [|ev l IH]; intros a Hd Hin; [by apply elem_of_nil in Hin|]. simpl.
  apply elem_of_cons in Hin as [<-|Hin].
  - apply (sh_subscriber _ _ (fate_shrinks _ _)). simpl. by rewrite Hd, andb_false_r.
  - apply IH; [by apply (sh_done _ _ (fate1_shrinks _ _))|done].
Qed.

Definition answers_only (ev : ApiEvent) : Kind :=
  match ev with Requested _ | StreamOpened _ _ => Answered | _ => Nothing end.

Lemma fate_answers l a :
  api_subscriber a = false → api_consumers a = [] → (fate l a).1 = answers_only <$> l.
Proof.
  revert a. induction l as [|ev l IH]; intros a Hs Hc; [done|]. simpl.
  pose proof (fate1_shrinks ev a) as Hsh. rewrite IH.
  - f_equal. destruct ev as [| | |q [d| |]| | |]; simpl; try done.
    + by rewrite Hc.
    + by rewrite Hs.
  - by apply (sh_subscriber _ _ Hsh).
  - apply list.elem_of_nil_inv. intros q Hq%(sh_consumers _ _ Hsh). rewrite Hc in Hq.
    by apply elem_of_nil in Hq.
Qed.

(** After SIGINT or SIGTERM, once the goroutines have seen it, the process goes
    on: it answers every request, settles no delivery and pushes nothing. *)
Theorem signal_keeps_serving l1 l2 l3 a :
  SubscriberDone ∈ l2 → (∀ q, q ∈ api_consumers a → Consumed q CtxDone ∈ l2) →
  (fate (l1 ++ Signal :: l2 ++ l3) a).1 =
    (fate (l1 ++ Signal :: l2) a).1 ++ (answers_only <$> l3).
Proof.
  intros Hs Hc. rewrite app_comm_cons, app_assoc, fate_app. cbn [fst]. f_equal.
  rewrite (fate_app l1). cbn [fate fate1 snd].
  set (a1 := mkApi true (api_subscriber (fate l1 a).2) (api_consumers (fate l1 a).2)).
  apply fate_answers; [by apply fate_unsubscribes|].
  apply list.elem_of_nil_inv. intros q Hq. apply (fate_ends q l2 a1) in Hq; [done|done|].
  apply Hc. apply (sh_consumers _ _ (fate_shrinks l2 a1)) in Hq. simpl in Hq.
  by apply (sh_consumers _ _ (fate_shrinks l1 a)).
Qed.

Section facts.
Context {W : Type} `{WorldLaws W} `{SqlEngine} `{RedisServer} `{JwtLib} `{!Bcrypt W}.
Context `{TagRegex} `{Storage W} `{PubSub W} `{NotificationHub W} `{Hub.Growth} `{!SseHub W}.
Context `{!SseHubLaws W}.
Variables (fuel : nat) (e : Env).

Lemma api_event_fate ev a (w : W) :
  runs (api_event fuel e ev a) w (λ r _, (kind r.1, r.2) = fate1 ev a).
Proof.
  destruct ev as [rq|tok header|i k|q x|b| |]; cbn [api_event fate1]; [| | | | |done|done].
  - apply runs_bind, runs_intro. intros r w1 _. by apply runs_ret.
  - apply runs_bind, runs_intro. intros [r|] w1 _; by apply runs_ret.
  - apply runs_bind, runs_intro. intros r w1 _. by apply runs_ret.
  - case_bool_decide as Hq; cbn [negb].
    2:{ apply runs_ret. destruct x; rewrite ?without_same by done; [done..|]. by destruct (api_done a). }
    destruct x as [d| |]; cbn [is_done andb consume_loop].
    + apply runs_bind, runs_bind, runs_intro. intros s w1 _.
      apply runs_bind, runs_ret, runs_ret. by apply runs_ret.
    + apply runs_bind, runs_ret. by apply runs_ret.
    + destruct (api_done a) eqn:Hd; cbn [negb]; [apply runs_bind, runs_ret|];
        apply runs_ret; unfold without; by rewrite ?Hd.
  - destruct (api_subscriber a); [|by apply runs_ret].
    apply runs_bind, runs_intro. intros r w1 _. by apply runs_ret.
Qed.

(** Whatever the requests and messages are and whichever services fail, the
    process lives the life that the events determine, as long as no push hits a
    closed channel: it answers every request, settles each delivery of a
    consumer that still runs and pushes what the subscriber hears. *)
Theorem api_serve_fate l a (w : W) :
  runs (api_serve fuel e l a) w (λ r w',
    (kind <$> r.1, r.2) = fate l a ∨
    (kind <$> r.1) `prefix_of` (fate l a).1 ∧ ∃ m, hub_of w' = Stream.Down m).
Proof.
  revert a w. induction l as [|ev l IH]; intros a w; [apply runs_ret; by left|].
  cbn [api_serve fate]. apply runs_bind, runs_intro. intros x w1 E.
  apply law_with_hub in E as ([= -> Hx] & _). destruct (hub_of w) as [h ps cs|m].
  2:{ apply runs_ret. right. split; [apply prefix_nil|by exists m]. }
  apply runs_bind. eapply runs_mono; [apply api_event_fate|]. intros [o a1] w2 E1. cbn [fst snd] in E1 |- *.
  apply runs_bind. eapply runs_mono; [apply IH|]. intros [os a2] w3 E2. apply runs_ret.
  rewrite <-E1. cbn [fst snd] in *. rewrite fmap_cons.
  destruct E2 as [E2|[E2 Hm]]; [left; by rewrite <-E2|right]. split; [by apply prefix_cons|done].
Qed.
End facts.

(** ** From an event to the streams *)
Section delivery.
Context {W : Type} `{WorldLaws W} `{SqlLaws} `{PubSub W} `{NotificationHub W} `{!NotifyLaws W}.
Context `{Hub.Growth} `{!SseHub W} `{!SseHubLaws W}.

(** The connections of a process after [n] has been pushed to the user [u]. *)
Definition streamed_to (u : Z) (n : Notification) (x x' : HubServer) : Prop :=
  match x with
  | Stream.Live h ps cs => ∃ h', x' = Stream.Live h' ps cs ∧ StreamFacts.streamed u n h h' cs
  | Stream.Down _ => x' = x
  end.

Lemma broadcast_streamed es u n :
  streamed_to u n (Stream.serve es) (broadcast u n (Stream.serve es)).
Proof.
  pose proof (StreamFacts.serve_ok es) as Hs. unfold streamed_to, broadcast.
  destruct (Stream.serve es) as [h ps cs|m]; [|done]. destruct Hs as [Hok _].
  destruct (StreamFacts.push_streamed h cs u n Hok) as (h' & -> & Hst). by exists h'.
Qed.

End delivery.

(** ** A process with its hub, on the reference services *)
From S2P Require Import Reference LikeFacts Upload UploadFacts Sessions VideoPublish.

#[local] Existing Instance Hub.go_growth.
Record ApiAside := mkApiAside {
  aa_channel : list (string * bytes); aa_pushes : list (Z * Notification); aa_hub : HubServer }.
Abbreviation ApiW := (RefW * (Files * ApiAside))%type.

#[export] Instance api_pubsub : PubSub ApiW := {|
  channel w := aa_channel w.2.2;
  rdb_publish ch b w :=
    if fails (up_rd (v_up (rw_view w.1))) w.1
    then (Err (ErrIO 0), (tick (rw_view w.1) w.1, w.2))
    else (Ok tt, (tick (rw_view w.1) w.1,
                  (w.2.1, mkApiAside (aa_channel w.2.2 ++ [(ch, b)]) (aa_pushes w.2.2) (aa_hub w.2.2)))) |}.
#[export] Instance api_hub : NotificationHub ApiW := {|
  pushes w := aa_pushes w.2.2;
  Push u n := aside_r (λ x, (tt, mkApiAside (aa_channel x) (aa_pushes x ++ [(u, n)]) (broadcast u n (aa_hub x)))) |}.
#[export] Instance api_sse : SseHub ApiW := {|
  hub_of w := aa_hub w.2.2;
  with_hub A f := aside_r (λ x, let '(a, s) := f (aa_hub x) in (a, mkApiAside (aa_channel x) (aa_pushes x) s)) |}.

#[export] Instance api_notify_laws : NotifyLaws ApiW.
Proof.
  split.
  - intros A f w r w' [_ E]%beside_inv. simpl. by rewrite E.
  - intros w r w' [_ E]%beside_inv. simpl. by rewrite E.
  - intros ch b w r w'. simpl. destruct (fails _ _) eqn:Hu; intros [= <- <-]; simpl.
    + apply fails_down in Hu. split_and!; [lia|done|done|right]. eauto 6.
    + split_and!; [lia|done|done|by left].
  - intros u n w r w'. simpl. intros [= <- <-]. simpl. split_and!; [lia|done..].
Qed.
#[export] Instance api_sse_laws : SseHubLaws ApiW.
Proof.
  split.
  - intros A f w r w'. simpl. unfold aside_r. destruct (f _) as [a s]. by intros [= <- <-].
  - intros u n w r w'. simpl. by intros [= <- <-].
Qed.

(** A process whose stream of account 7, the author of the video that the event
    likes, is open. *)
Definition streaming : list Stream.Event := [Stream.EConnect (mkCtx (Some 7) None)].
Definition streaming_start : ApiW :=
  (ref_start like_db 5, (mkFiles ∅ ∅ true, mkApiAside [] [] (Stream.serve streaming))).


(** The author opens his stream and sees the like; after a signal the process
    still counts his unread notifications, and a second event is neither
    settled nor pushed. *)
Definition author_db : Db := tset TAccount {[7 := mkAccount 7 "ann" "h:pw" "" "" "" ""]} like_db.
Definition api_start : ApiW :=
  (ref_start author_db 5, (mkFiles ∅ ∅ true, mkApiAside [] [] (Stream.serve []))).
Definition api_env : Env := mkEnv (Some demo_cl) "s3cret" (mkMQs true true true true) None.
Definition like_queue_only : Api := started_api api_env [NotificationLikeQueue].
Definition stream_of (w : ApiW) : list (list bytes) :=
  match hub_of w with Stream.Live _ _ cs => Stream.written <$> cs | Stream.Down _ => [] end.
Definition run_api (l : list ApiEvent) (x : (list Outcome * Api) * ApiW) : (list Outcome * Api) * ApiW :=
  api_serve 2 api_env l x.1.2 x.2.

Example api_serve_demo :
  let '(r, w) := Login demo_svc "ann" "pw" api_start in
  let tok := match r with Ok (t, _) => t | Err _ => "" end in
  let x1 := run_api [StreamOpened tok ""; Consumed NotificationLikeQueue (Delivered like_delivery)]
              ([], like_queue_only, w) in
  let heard := HeardMessage <$> (channel x1.2).*2 in
  let x2 := run_api (heard ++ [StreamTurn 0 Stream.FromChan; Signal; SubscriberDone;
                               Consumed NotificationLikeQueue CtxDone]) x1 in
  let x3 := run_api (heard ++ [Consumed NotificationLikeQueue (Delivered like_delivery);
                               Requested (mkRequest "" "10.0.0.1" tok PostUnreadCount)]) x2 in
  kind <$> x1.1.1 = [Answered; SettledOne NotificationLikeQueue] ∧
  kind <$> x2.1.1 = [PushedOne; Nothing; Nothing; Nothing; Nothing] ∧
  stream_of x2.2 =
    [Stream.marshal_notification <$>
       (map_to_list (tget TNotification (v_db (view x2.2)))).*2] ∧
  length (map_to_list (tget TNotification (v_db (view x2.2)))) = 1%nat ∧
  kind <$> x3.1.1 = [Nothing; Nothing; Answered].
Proof. by vm_compute. Qed.
