(* ===== verification/Shutdown.v ===== *)
(** How the two programs let go of what they have opened: [CloseDB] of
    internal/db, [Close] and [CloseChannel] of internal/middleware/rabbitmq, and
    the deferred calls of cmd/worker/main.go.  The deferred calls of
    cmd/main.go never run: its server only returns with an error, and then
    [log.Fatalf] ends the process ([ApiServer.signal_keeps_serving]).  Closing
    the client of Redis and the server for profiling is in [Boot.v]. *)
From S2P Require Import Prelude GoStd Entities Json Services RedisClient Topology Http Boot Workers.
Local Open Scope Z_scope.
Local Open Scope go_scope.

Section operations.
Context {W : Type} `{Host W}.

Definition CloseDB : ST W (result unit) := _ <-? sql_handle ;; sql_close.

(** a [*RabbitMQ]: whether its connection and its channel are there *)
Record RabbitMQ := mkRabbitMQ { rmq_Conn : bool; rmq_Ch : bool }.

Definition RabbitMQ_Close (r : option RabbitMQ) : ST W (result unit) :=
  match r with
  | Some (mkRabbitMQ true true) => _ <-? ch_close ;; _ <-? conn_close ;; st_ret (Ok tt)
  | _ => st_ret (Ok tt)
  end.

Definition CloseChannel (r : option RabbitMQ) : ST W (result unit) :=
  match r with
  | Some (mkRabbitMQ _ true) => ch_close
  | _ => st_ret (Ok tt)
  end.
End operations.

(** ** The end of the worker process *)

(** What [main] has deferred a call for, in the order of the statements: the
    client of Redis and the two channels that depend on it where there is one,
    and the server for profiling where there is one.  Releasing a context and the
    handler of signals is left out. *)
Inductive Resource : Type :=
| ResDb
| ResRedis
| ResBroker
| ResChannel (name : string)
| ResPprof (s : PprofServer).

Definition worker_deferred (cache : option Client) (pprof : option PprofServer) : list Resource :=
  let cached (l : list Resource) := match cache with Some _ => l | None => [] end in
  [ResDb] ++ cached [ResRedis] ++
  [ResBroker; ResChannel "social_worker"; ResChannel "like_worker"; ResChannel "comment_worker";
   ResChannel "outbox_worker"] ++
  cached [ResChannel "popularity_worker"; ResChannel "timeline_worker"] ++
  match pprof with Some s => [ResPprof s] | None => [] end.

(** The deferred calls run when [main] returns, the last one first;
    [log.Fatalf] leaves without them. *)
Definition released (cache : option Client) (pprof : option PprofServer) (x : Exit) : list Resource :=
  match x with Stopped _ => rev (worker_deferred cache pprof) | _ => [] end.

Section release.
Context {W : Type} `{Host W}.

Definition release (r : Resource) : ST W (result unit) :=
  match r with
  | ResDb => CloseDB
  | ResRedis => Redis_Close (Some (mkClient DefaultKeyPrefix))
  | ResBroker => RabbitMQ_Close (Some (mkRabbitMQ true true))
  | ResChannel _ => CloseChannel (Some (mkRabbitMQ true true))
  | ResPprof s => PprofServer_Close (Some s)
  end.

(** errors of deferred calls are dropped *)
Definition worker_shutdown (cache : option Client) (pprof : option PprofServer) (x : Exit) : ST W unit :=
  st_iter (λ r, release r ;;; st_ret tt) (released cache pprof x).
End release.

(** What is opened with the help of something else is closed before it: every
    channel before the connection to the broker. *)
Definition needs (r : Resource) : option Resource :=
  match r with ResChannel _ => Some ResBroker | _ => None end.

(** A normal end closes everything the process has opened, once, and nothing
    before what depends on it; a worker that fails leaves everything open. *)
Theorem released_in_order cache pprof x :
  match x with
  | Stopped _ => released cache pprof x ≡ₚ worker_deferred cache pprof ∧
      NoDup (released cache pprof x) ∧
      ∀ i j r s, released cache pprof x !! i = Some r → released cache pprof x !! j = Some s →
        needs r = Some s → (i < j)%nat
  | _ => released cache pprof x = []
  end.
Proof.
  destruct x as [|name|name e]; [done| |done]. cbn [released].
  split; [symmetry; apply Permutation_rev|]. split.
  { destruct cache, pprof; cbn [worker_deferred app rev];
      repeat (apply list.NoDup_cons; split;
        [by repeat (apply not_elem_of_cons; split; [discriminate|]); apply not_elem_of_nil|]);
      apply base.NoDup_nil_2. }
  intros i j r s Hi Hj Hn. destruct r; try done. injection Hn as <-.
  destruct cache, pprof; cbn [worker_deferred app rev] in Hi, Hj;
    repeat (match goal with E : _ !! ?k = Some _ |- _ => is_var k; destruct k as [|k]; simpl in E end;
            simplify_eq); lia.
Qed.
