(* ===== verification/System.v ===== *)
(** The system as a whole: API requests, messages handed to the workers, polls
    of the outbox and messages of the notification channel, in any order.  The
    schema of the database is an invariant of all of them. *)
From S2P Require Import Prelude GoStd Query Entities Json Services RedisFacts RedisClient Mq Topology Retry.
From S2P Require Import DbFacts Frames Http Video VideoPublish Like LikeFacts RateLimit Account Upload.
From S2P Require Import UploadFacts Comment Social SocialFacts Notification NotificationFacts Outbox.
From S2P Require Import Sessions Feed Message Profile Router RouterFacts Reference.
Local Open Scope Z_scope.
Local Open Scope go_scope.

(** What sets the program going: [ApiRequest] in the API server, the
    deliveries in their workers, [OutboxPoll] one tick of the outbox worker. *)
Inductive Entry : Type :=
| ApiRequest (fuel : nat) (e : Env) (rq : Request)
| LikeDelivery (body : bytes)
| CommentDelivery (body : bytes)
| SocialDelivery (body : bytes)
| PopularityDelivery (cache : option Client) (body : bytes)
| TimelineDelivery (cache : option Client) (body : bytes)
| NotificationDelivery (nw : NotificationWorker) (d : Delivery)
| OutboxPoll (w : OutboxWorker)
| ChannelMessage (payload : bytes).

Section system.
Context {W : Type} `{WorldLaws W} `{SqlLaws} `{RedisServer} `{JwtLib} `{!Bcrypt W, !BcryptLaws W}.
Context `{TagRegex} `{Storage W} `{!StorageLaws W} `{ErrTexts}.
Context `{PubSub W} `{NotificationHub W} `{!NotifyLaws W}.

Definition run_entry (en : Entry) : ST W unit :=
  let done {A} (m : ST W A) : ST W unit := m ;;; st_ret tt in
  match en with
  | ApiRequest fuel e rq => done (SetRouter fuel e rq)
  | LikeDelivery body => done (LikeWorker_process body)
  | CommentDelivery body => done (CommentWorker_process body)
  | SocialDelivery body => done (SocialWorker_process body)
  | PopularityDelivery cache body => done (PopularityWorker_process cache body)
  | TimelineDelivery cache body => done (TimelineWorker_process cache body)
  | NotificationDelivery nw d => done (NotificationWorker_process nw d)
  | OutboxPoll w => done (pollOnce w)
  | ChannelMessage payload => on_message payload
  end.

Lemma keeps_rdb_publish R `{!Frame R} ch b : within (S := W) (on_view R) (rdb_publish ch b).
Proof. apply keeps_same; [apply _|]. by intros w r w' (? & ? & _)%law_rdb_publish. Qed.
Lemma keeps_push R `{!Frame R} u n : within (S := W) (on_view R) (Push u n).
Proof. apply keeps_same; [apply _|]. by intros w r w' (? & ? & _)%law_push. Qed.
#[local] Hint Extern 1 (within _ (rdb_publish _ _)) => apply keeps_rdb_publish; apply _ : frames.
#[local] Hint Extern 1 (within _ (Push _ _)) => apply keeps_push; apply _ : frames.

Lemma buildNotification_id d (w : W) n : (buildNotification d w).1 = Ok (Some n) → n_ID n = 0.
Proof.
  unfold buildNotification, buildLikeNotification, buildCommentNotification, buildFollowNotification.
  unfold st_try, st_bind, st_ret. intros E. repeat case_match; simplify_eq/=; try done.
  all: repeat case_match; simplify_eq/=; done.
Qed.

Lemma NotificationWorker_schema nw d : within (S := W) (on_view schema) (NotificationWorker_process nw d).
Proof.
  unfold NotificationWorker_process. apply within_try_of; [apply _|frame|].
  intros w [n|] E; [|apply within_ret, _]. apply buildNotification_id in E.
  apply within_bind; [apply _|by apply keeps_schema; intros t; apply schema_create|]. frame.
Qed.
#[local] Hint Resolve NotificationWorker_schema : frames.

Lemma entry_schema en : within (S := W) (on_view schema) (run_entry en).
Proof.
  destruct en; unfold run_entry; cbv zeta.
  { apply within_bind; [apply _|apply SetRouter_schema|intros _; apply within_ret, _]. }
  all: keep_schema.
Qed.

(** C1: the schema is an invariant of the whole system: whatever the requests
    and messages are, in whatever order, and whichever services fail on the
    way, every table stays keyed by a positive primary key and no two rows of
    a table share their unique key. *)
Theorem schema_invariant (entries : list Entry) (w : W) :
  db_ok (v_db (view w)) →
  runs (st_iter run_entry entries) w (λ _ w', clk w ≤ clk w' ∧ db_ok (v_db (view w'))).
Proof.
  intros Hd. eapply runs_mono; [apply (within_runs (on_view schema)), within_iter; [apply _|]|].
  - apply entry_schema.
  - intros _ w' [Hc Hs]. split; [done|by apply Hs].
Qed.
End system.

(** ** The theorems at concrete inputs *)
Abbreviation SystemW := (RefW * (Files * Heard))%type.

Definition system_start (d : Db) : SystemW := (ref_start d 5, (mkFiles ∅ ∅ true, mkHeard [] [])).
Definition demo_env : Env :=
  mkEnv (Some demo_cl) "s3cret" (mkMQs true true true true) (Some a_bucket).
Definition demo_request (header : string) (c : Call) : Request := mkRequest header "10.0.0.1" "" c.

Definition demo_entries : list Entry :=
  [ApiRequest 2 demo_env (demo_request "" (PostRegister (Ok (mkCreateAccountRequest "bob" "pw"))));
   ApiRequest 2 demo_env (demo_request "" (PostLogin (Ok (mkLoginRequest "bob" "pw"))));
   ApiRequest 2 demo_env (demo_request "" (PostLike (Ok 1)));
   LikeDelivery (marshal_like like_evt);
   NotificationDelivery (mkNotificationWorker (Some demo_cl) true) like_delivery;
   OutboxPoll (NewOutboxWorker true)].

Lemma schema_invariant_witness :
  runs (st_iter (run_entry (W := SystemW)) demo_entries) (system_start like_db) (λ _ w',
    clk (system_start like_db) ≤ clk w' ∧ db_ok (v_db (view w'))).
Proof. exact (schema_invariant demo_entries (system_start like_db) like_db_ok). Defined.

(** An account registers and logs in; a like without a token is refused. *)
Example system_demo :
  let run rq := SetRouter (W := SystemW) 2 demo_env rq in
  let w1 := (run (demo_request "" (PostRegister (Ok (mkCreateAccountRequest "bob" "pw")))) (system_start like_db)).2 in
  let w2 := run (demo_request "" (PostLogin (Ok (mkLoginRequest "bob" "pw")))) w1 in
  let w3 := run (demo_request "" (PostLike (Ok 1))) w2.2 in
  status <$> w2.1 = Some 200 ∧ status <$> w3.1 = Some 401.
Proof. by vm_compute. Qed.
